(** * AquaSim / IsoCity simulation core: a shallow embedding of
    [src/lib/simulation.ts] and the properties its specification states.

    Conventions of the embedding.
    - A JavaScript number that the code only ever uses as an integer
      (coordinates, sizes, levels, counters) is a [Z]; a number that takes
      fractional values (pollution, age, progress, coverage) is an exact
      rational [Q].  Rounding of IEEE doubles is not modelled; the one
      floor the source takes of a computed double is compared with the
      double itself ([service_range_as_double]).
    - A [BuildingType] is the string the source compares against.
    - [Tile[][]] is a list of rows; [grid[y]?.[x]] is [tile_at], which is
      [None] where JavaScript yields [undefined].
    - A function that dereferences [grid[y][x]] without a guard returns an
      [option]: [None] stands for the [TypeError] the source would throw.
      A source-level [null] result is an inner [option]. *)

From Stdlib Require Import ZArith QArith Qround Qminmax Qabs Qpower String List Lia Lqa
  Bool.
From Stdlib Require PrimFloat Uint63.
From stdpp Require Import base list strings numbers option gmap pretty.

Open Scope Z_scope.

(* ================================================================== *)
(** ** Data model (types/game.ts and the records simulation.ts builds) *)
(* ================================================================== *)

Abbreviation BuildingType := string (only parsing).

Inductive ZoneType := ZoneNone | Residential | Commercial | Industrial.
Inductive BridgeType := BridgeSmall | BridgeMedium | BridgeLarge | BridgeSuspension.
Inductive BridgeOrientation := NS | EW.
Inductive BridgePosition := PosStart | PosMiddle | PosEnd.
Inductive TrackType := TrackRoad | TrackRail.

#[global] Instance ZoneType_eq_dec : EqDecision ZoneType.
Proof. solve_decision. Defined.
#[global] Instance BridgeType_eq_dec : EqDecision BridgeType.
Proof. solve_decision. Defined.
#[global] Instance BridgeOrientation_eq_dec : EqDecision BridgeOrientation.
Proof. solve_decision. Defined.
#[global] Instance BridgePosition_eq_dec : EqDecision BridgePosition.
Proof. solve_decision. Defined.
#[global] Instance TrackType_eq_dec : EqDecision TrackType.
Proof. solve_decision. Defined.

(** The string a track type is compared with ([tile.building.type === trackType]). *)
Definition track_name (t : TrackType) : BuildingType :=
  match t with TrackRoad => "road" | TrackRail => "rail" end.

(** Comparisons of numbers: [a < b], [a <= b], [a === b]. *)
Definition Qlt_b (a b : Q) : bool := negb (Qle_bool b a).
Definition Qle_b (a b : Q) : bool := Qle_bool a b.
Definition Qeq_b (a b : Q) : bool := Qeq_bool a b.

(** [type === 'lit'] on building types. *)
Definition is_type (t : BuildingType) (lit : string) : bool := String.eqb t lit.

(** [Building].  [constructionProgress], [flipped] and the bridge fields are
    optional in the source ([!== undefined] tests, [||] defaults). *)
Record Building := mkBuilding {
  type : BuildingType;
  level : Z;
  population : Z;
  jobs : Z;
  powered : bool;
  watered : bool;
  onFire : bool;
  fireProgress : Q;
  age : Q;
  constructionProgress : option Q;
  abandoned : bool;
  flipped : option bool;
  bridgeType : option BridgeType;
  bridgeOrientation : option BridgeOrientation;
  bridgeVariant : option Z;
  bridgePosition : option BridgePosition;
  bridgeIndex : option Z;
  bridgeSpan : option Z;
  bridgeTrackType : option TrackType;
}.

(** [Tile] (types/game.ts). The stored coordinates are [tile_x], [tile_y]. *)
Record Tile := mkTile {
  tile_x : Z;
  tile_y : Z;
  zone : ZoneType;
  building : Building;
  landValue : Q;
  pollution : Q;
  crime : Q;
  traffic : Q;
  hasSubway : bool;
  hasRailOverlay : option bool;
  pollutionType : option string;
  waterDepth : option Q;
}.

Abbreviation Grid := (list (list Tile)) (only parsing).

(** Field updates ([b.powered = v], [tile.zone = z], ...). *)
Definition set_level (v : Z) (b : Building) : Building :=
  mkBuilding (type b) v (population b) (jobs b) (powered b) (watered b) (onFire b)
    (fireProgress b) (age b) (constructionProgress b) (abandoned b) (flipped b)
    (bridgeType b) (bridgeOrientation b) (bridgeVariant b) (bridgePosition b)
    (bridgeIndex b) (bridgeSpan b) (bridgeTrackType b).
Definition set_population (v : Z) (b : Building) : Building :=
  mkBuilding (type b) (level b) v (jobs b) (powered b) (watered b) (onFire b)
    (fireProgress b) (age b) (constructionProgress b) (abandoned b) (flipped b)
    (bridgeType b) (bridgeOrientation b) (bridgeVariant b) (bridgePosition b)
    (bridgeIndex b) (bridgeSpan b) (bridgeTrackType b).
Definition set_jobs (v : Z) (b : Building) : Building :=
  mkBuilding (type b) (level b) (population b) v (powered b) (watered b) (onFire b)
    (fireProgress b) (age b) (constructionProgress b) (abandoned b) (flipped b)
    (bridgeType b) (bridgeOrientation b) (bridgeVariant b) (bridgePosition b)
    (bridgeIndex b) (bridgeSpan b) (bridgeTrackType b).
Definition set_powered (v : bool) (b : Building) : Building :=
  mkBuilding (type b) (level b) (population b) (jobs b) v (watered b) (onFire b)
    (fireProgress b) (age b) (constructionProgress b) (abandoned b) (flipped b)
    (bridgeType b) (bridgeOrientation b) (bridgeVariant b) (bridgePosition b)
    (bridgeIndex b) (bridgeSpan b) (bridgeTrackType b).
Definition set_watered (v : bool) (b : Building) : Building :=
  mkBuilding (type b) (level b) (population b) (jobs b) (powered b) v (onFire b)
    (fireProgress b) (age b) (constructionProgress b) (abandoned b) (flipped b)
    (bridgeType b) (bridgeOrientation b) (bridgeVariant b) (bridgePosition b)
    (bridgeIndex b) (bridgeSpan b) (bridgeTrackType b).
Definition set_onFire (v : bool) (b : Building) : Building :=
  mkBuilding (type b) (level b) (population b) (jobs b) (powered b) (watered b) v
    (fireProgress b) (age b) (constructionProgress b) (abandoned b) (flipped b)
    (bridgeType b) (bridgeOrientation b) (bridgeVariant b) (bridgePosition b)
    (bridgeIndex b) (bridgeSpan b) (bridgeTrackType b).
Definition set_fireProgress (v : Q) (b : Building) : Building :=
  mkBuilding (type b) (level b) (population b) (jobs b) (powered b) (watered b) (onFire b)
    v (age b) (constructionProgress b) (abandoned b) (flipped b)
    (bridgeType b) (bridgeOrientation b) (bridgeVariant b) (bridgePosition b)
    (bridgeIndex b) (bridgeSpan b) (bridgeTrackType b).
Definition set_age (v : Q) (b : Building) : Building :=
  mkBuilding (type b) (level b) (population b) (jobs b) (powered b) (watered b) (onFire b)
    (fireProgress b) v (constructionProgress b) (abandoned b) (flipped b)
    (bridgeType b) (bridgeOrientation b) (bridgeVariant b) (bridgePosition b)
    (bridgeIndex b) (bridgeSpan b) (bridgeTrackType b).
Definition set_constructionProgress (v : option Q) (b : Building) : Building :=
  mkBuilding (type b) (level b) (population b) (jobs b) (powered b) (watered b) (onFire b)
    (fireProgress b) (age b) v (abandoned b) (flipped b)
    (bridgeType b) (bridgeOrientation b) (bridgeVariant b) (bridgePosition b)
    (bridgeIndex b) (bridgeSpan b) (bridgeTrackType b).
Definition set_abandoned (v : bool) (b : Building) : Building :=
  mkBuilding (type b) (level b) (population b) (jobs b) (powered b) (watered b) (onFire b)
    (fireProgress b) (age b) (constructionProgress b) v (flipped b)
    (bridgeType b) (bridgeOrientation b) (bridgeVariant b) (bridgePosition b)
    (bridgeIndex b) (bridgeSpan b) (bridgeTrackType b).
Definition set_flipped (v : option bool) (b : Building) : Building :=
  mkBuilding (type b) (level b) (population b) (jobs b) (powered b) (watered b) (onFire b)
    (fireProgress b) (age b) (constructionProgress b) (abandoned b) v
    (bridgeType b) (bridgeOrientation b) (bridgeVariant b) (bridgePosition b)
    (bridgeIndex b) (bridgeSpan b) (bridgeTrackType b).

Definition set_xy (x y : Z) (t : Tile) : Tile :=
  mkTile x y (zone t) (building t) (landValue t) (pollution t) (crime t) (traffic t)
    (hasSubway t) (hasRailOverlay t) (pollutionType t) (waterDepth t).
Definition set_zone (v : ZoneType) (t : Tile) : Tile :=
  mkTile (tile_x t) (tile_y t) v (building t) (landValue t) (pollution t) (crime t)
    (traffic t) (hasSubway t) (hasRailOverlay t) (pollutionType t) (waterDepth t).
Definition set_building (v : Building) (t : Tile) : Tile :=
  mkTile (tile_x t) (tile_y t) (zone t) v (landValue t) (pollution t) (crime t)
    (traffic t) (hasSubway t) (hasRailOverlay t) (pollutionType t) (waterDepth t).
Definition set_pollution (v : Q) (t : Tile) : Tile :=
  mkTile (tile_x t) (tile_y t) (zone t) (building t) (landValue t) v (crime t)
    (traffic t) (hasSubway t) (hasRailOverlay t) (pollutionType t) (waterDepth t).
Definition set_hasRailOverlay (v : option bool) (t : Tile) : Tile :=
  mkTile (tile_x t) (tile_y t) (zone t) (building t) (landValue t) (pollution t) (crime t)
    (traffic t) (hasSubway t) v (pollutionType t) (waterDepth t).
Definition set_pollutionType (v : option string) (t : Tile) : Tile :=
  mkTile (tile_x t) (tile_y t) (zone t) (building t) (landValue t) (pollution t) (crime t)
    (traffic t) (hasSubway t) (hasRailOverlay t) v (waterDepth t).

(** [tile.building.f = v]: an update of the tile's current building. *)
Definition upd_building (f : Building -> Building) (t : Tile) : Tile :=
  set_building (f (building t)) t.

(* ------------------------------------------------------------------ *)
(** *** Grid access *)

(** [arr[y]?.[x]] on an array of rows: [undefined] ([None]) for a negative
    or too large index.  [tile_at] is the reading of a [Tile[][]]. *)
Definition row_at {A} (g : list (list A)) (y : Z) : option (list A) :=
  if decide (0 <= y) then g !! Z.to_nat y else None.

Definition cell_at {A} (g : list (list A)) (x y : Z) : option A :=
  row ← row_at g y;
  if decide (0 <= x) then row !! Z.to_nat x else None.

(** [f] applied in place to the element [arr[y][x]] (nothing happens when
    there is none); [update_tile] is the update of a tile object. *)
Definition update_cell {A} (g : list (list A)) (x y : Z) (f : A → A) : list (list A) :=
  if decide (0 <= y ∧ 0 <= x)
  then alter (alter f (Z.to_nat x)) (Z.to_nat y) g
  else g.

Abbreviation tile_at := (@cell_at Tile) (only parsing).
Abbreviation update_tile := (@update_cell Tile) (only parsing).

(** A [size] x [size] grid. *)
Definition grid_wf {A} (size : Z) (g : list (list A)) : Prop :=
  0 <= size ∧ length g = Z.to_nat size ∧
  Forall (λ row, length row = Z.to_nat size) g.

(** Every tile stores its own position, as [createTile], [expandGrid] and
    [shrinkGrid] store it. *)
Definition coords_ok (g : Grid) : Prop :=
  ∀ x y t, tile_at g x y = Some t → tile_x t = x ∧ tile_y t = y.

(* ================================================================== *)
(** ** Constants and basic helpers *)
(* ================================================================== *)

Definition NO_CONSTRUCTION_TYPES : list BuildingType :=
  ["grass"; "empty"; "water"; "road"; "bridge"; "tree"]%string.

Definition MAX_BRIDGE_SPAN : Z := 10.
Definition BRIDGE_TYPE_THRESHOLDS_large : Z := 5.
Definition BRIDGE_TYPE_THRESHOLDS_suspension : Z := 10.

Definition BRIDGE_VARIANTS (t : BridgeType) : Z :=
  match t with
  | BridgeSmall => 3 | BridgeMedium => 3 | BridgeLarge => 2 | BridgeSuspension => 2
  end.

Definition WATERFRONT_BUILDINGS : list BuildingType :=
  ["marina_docks_small"; "pier_large"]%string.

Definition MERGEABLE_TILE_TYPES : list BuildingType := ["grass"; "tree"]%string.

Definition CONSOLIDATABLE_BUILDINGS (z : ZoneType) : list BuildingType :=
  match z with
  | Residential => ["house_small"; "house_medium"]%string
  | Commercial => ["shop_small"; "shop_medium"]%string
  | Industrial => ["factory_small"]%string
  | ZoneNone => []
  end.

(** [array.includes(t)] / [set.has(t)] on building types. *)
Definition includes (l : list BuildingType) (t : BuildingType) : bool :=
  existsb (String.eqb t) l.

(** [BUILDING_SIZES]: the footprint (width, height) of the multi-tile types. *)
Definition BUILDING_SIZES (t : BuildingType) : option (Z * Z) :=
  if includes ["power_plant"; "hospital"; "school"; "mansion"; "apartment_low";
               "apartment_high"; "office_low"; "office_high"; "factory_medium";
               "warehouse"; "city_hall"; "playground_large"; "baseball_field_small";
               "football_field"; "mini_golf_course"; "go_kart_track"; "amphitheater";
               "greenhouse_garden"; "marina_docks_small"; "roller_coaster_small";
               "mountain_lodge"; "rail_station"]%string t then Some (2, 2)
  else if includes ["stadium"; "museum"; "university"; "space_program"; "park_large";
                    "mall"; "factory_large"; "baseball_stadium";
                    "mountain_trailhead"]%string t then Some (3, 3)
  else if includes ["airport"; "amusement_park"]%string t then Some (4, 4)
  else None.

(** [getBuildingSize]: [BUILDING_SIZES[t] || { width: 1, height: 1 }]. *)
Definition getBuildingSize (t : BuildingType) : Z * Z :=
  default (1, 1) (BUILDING_SIZES t).

(** [createBuilding]. *)
Definition createBuilding (t : BuildingType) : Building :=
  let constructionProgress := if includes NO_CONSTRUCTION_TYPES t then 100%Q else 0%Q in
  {| type := t;
     level := if is_type t "grass" || is_type t "empty" || is_type t "water" then 0 else 1;
     population := 0; jobs := 0; powered := false; watered := false;
     onFire := false; fireProgress := 0; age := 0;
     constructionProgress := Some constructionProgress; abandoned := false;
     flipped := None; bridgeType := None; bridgeOrientation := None;
     bridgeVariant := None; bridgePosition := None; bridgeIndex := None;
     bridgeSpan := None; bridgeTrackType := None |}.

(** [createTile]. *)
Definition createTile (x y : Z) (buildingType : BuildingType) : Tile :=
  {| tile_x := x; tile_y := y; zone := ZoneNone;
     building := createBuilding buildingType;
     landValue := 50; pollution := 0; crime := 0; traffic := 0;
     hasSubway := false; hasRailOverlay := None; pollutionType := None;
     waterDepth := None |}.

(** [isStarterBuilding] (the coordinates are unused by the source). *)
Definition isStarterBuilding (x y : Z) (buildingType : BuildingType) : bool :=
  if is_type buildingType "house_small" || is_type buildingType "shop_small" then true
  else if is_type buildingType "animal_pens_farm" || is_type buildingType "greenhouse_garden" then true
  else if is_type buildingType "factory_small" then true
  else false.

Definition requiresWaterAdjacency (buildingType : BuildingType) : bool :=
  includes WATERFRONT_BUILDINGS buildingType.

(* ================================================================== *)
(** ** expandGrid / shrinkGrid *)
(* ================================================================== *)

(** The row loop [for (let x = 0; x < n; x++) row.push(cell x)] with a cell
    that may throw. *)
Definition build_row (n : Z) (cell : Z → option Tile) : option (list Tile) :=
  mapM cell (seqZ 0 n).

Definition build_grid (n : Z) (cell : Z → Z → option Tile) : option Grid :=
  mapM (λ y, build_row n (λ x, cell x y)) (seqZ 0 n).

(** [expandGrid(currentGrid, currentSize, expansion)]. *)
Definition expandGrid (currentGrid : Grid) (currentSize expansion : Z)
  : option (Grid * Z) :=
  let newSize := currentSize + expansion * 2 in
  grid ← build_grid newSize (λ x y,
    let oldX := x - expansion in
    let oldY := y - expansion in
    let wasInOldGrid :=
      bool_decide (oldX >= 0) && bool_decide (oldY >= 0) &&
      bool_decide (oldX < currentSize) && bool_decide (oldY < currentSize) in
    if wasInOldGrid then
      oldTile ← tile_at currentGrid oldX oldY;
      Some (set_xy x y oldTile)
    else Some (createTile x y "grass"));
  Some (grid, newSize).

(** [shrinkGrid(currentGrid, currentSize, shrinkAmount)]; the inner [None] is
    the source's [null]. *)
Definition shrinkGrid (currentGrid : Grid) (currentSize shrinkAmount : Z)
  : option (option (Grid * Z)) :=
  let newSize := currentSize - shrinkAmount * 2 in
  if decide (newSize < 20) then Some None
  else
    grid ← build_grid newSize (λ x y,
      let oldX := x + shrinkAmount in
      let oldY := y + shrinkAmount in
      oldTile ← tile_at currentGrid oldX oldY;
      Some (set_xy x y oldTile));
    Some (Some (grid, newSize)).

(* ------------------------------------------------------------------ *)
(** *** Row and grid construction loops *)

Lemma tile_at_Some_wf {A} size (g : list (list A)) x y :
  grid_wf size g → 0 <= x < size → 0 <= y < size → is_Some (cell_at g x y).
Proof.
  intros (Hs & Hlen & Hrows) Hx Hy. unfold cell_at, row_at.
  rewrite decide_True by lia.
  destruct (lookup_lt_is_Some_2 g (Z.to_nat y)) as [row Hrow]; [lia|].
  rewrite Hrow. simpl. rewrite decide_True by lia.
  apply lookup_lt_is_Some_2.
  rewrite Forall_lookup in Hrows. rewrite (Hrows _ _ Hrow). lia.
Qed.

Lemma tile_at_Some_inv {A} size (g : list (list A)) x y t :
  grid_wf size g → cell_at g x y = Some t → 0 <= x < size ∧ 0 <= y < size.
Proof.
  intros (Hs & Hlen & Hrows). unfold cell_at, row_at.
  destruct (decide (0 <= y)); [|done].
  destruct (g !! Z.to_nat y) as [row|] eqn:Hrow; [|done]. simpl.
  destruct (decide (0 <= x)); [|done]. intros Ht.
  rewrite Forall_lookup in Hrows. pose proof (Hrows _ _ Hrow) as Hr.
  apply lookup_lt_Some in Hrow, Ht. lia.
Qed.

Lemma build_row_spec n cell row :
  build_row n cell = Some row ↔
  length row = Z.to_nat n ∧ ∀ x, 0 <= x < n → cell x = row !! Z.to_nat x.
Proof.
  unfold build_row. rewrite mapM_Some, Forall2_same_length_lookup, length_seqZ.
  split.
  - intros [Hlen H]. split; [lia|]. intros x Hx.
    destruct (lookup_lt_is_Some_2 row (Z.to_nat x)) as [t Ht]; [lia|].
    rewrite Ht. apply (H (Z.to_nat x) x t); [|done].
    apply lookup_seqZ. lia.
  - intros [Hlen H]. split; [lia|]. intros i x t Hi Ht.
    apply lookup_seqZ in Hi as [-> Hi]. rewrite H by lia.
    rewrite Z.add_0_l, Nat2Z.id. done.
Qed.

Lemma build_grid_spec n cell g :
  0 <= n →
  build_grid n cell = Some g ↔
  grid_wf n g ∧ ∀ x y, 0 <= x < n → 0 <= y < n → cell x y = tile_at g x y.
Proof.
  intros Hn. unfold build_grid.
  rewrite mapM_Some, Forall2_same_length_lookup, length_seqZ. split.
  - intros [Hlen H].
    assert (∀ y row, 0 <= y < n → g !! Z.to_nat y = Some row →
                     build_row n (λ x, cell x y) = Some row) as Hrow.
    { intros y row Hy Hrow. apply (H (Z.to_nat y) y row); [|done].
      apply lookup_seqZ. lia. }
    split.
    + split; [done|]. split; [lia|]. apply Forall_lookup. intros i row Hi.
      pose proof (lookup_lt_Some _ _ _ Hi) as Hlt.
      specialize (Hrow (Z.of_nat i) row). rewrite Nat2Z.id in Hrow.
      apply build_row_spec in Hrow as [? _]; [done|lia|done].
    + intros x y Hx Hy. unfold cell_at, row_at. rewrite decide_True by lia.
      destruct (lookup_lt_is_Some_2 g (Z.to_nat y)) as [row Hr]; [lia|].
      rewrite Hr. simpl. rewrite decide_True by lia.
      apply Hrow in Hr; [|done]. apply build_row_spec in Hr as [_ Hr]. by apply Hr.
  - intros [(_ & Hlen & Hrows) H]. split; [lia|].
    intros i y row Hi Hrow. apply lookup_seqZ in Hi as [-> Hi].
    rewrite Z.add_0_l. apply build_row_spec.
    rewrite Forall_lookup in Hrows. split; [by eapply Hrows|].
    intros x Hx. rewrite H by lia. unfold cell_at, row_at.
    rewrite decide_True by lia. rewrite Nat2Z.id, Hrow. simpl.
    by rewrite decide_True by lia.
Qed.

Lemma build_grid_total n cell :
  (∀ x y, 0 <= x < n → 0 <= y < n → is_Some (cell x y)) →
  is_Some (build_grid n cell).
Proof.
  intros H. unfold build_grid, build_row.
  apply mapM_is_Some, Forall_seqZ. intros y Hy. simpl.
  apply mapM_is_Some, Forall_seqZ. intros x Hx. simpl. apply H; lia.
Qed.

Lemma set_xy_stored x y a b t :
  tile_x t = x → tile_y t = y → set_xy x y (set_xy a b t) = t.
Proof. destruct t. simpl. by intros -> ->. Qed.

(** C8 (as the code has it): on a well-formed grid of size [n >= 20] whose
    tiles store their own coordinates, [expandGrid] by [k >= 0] followed by
    [shrinkGrid] by the same [k] returns the original grid (every tile equal
    in all fields, stored coordinates included) and the original size. *)
Theorem expand_then_shrink_restores g n k :
  grid_wf n g → coords_ok g → 20 <= n → 0 <= k →
  ∃ g', expandGrid g n k = Some (g', n + k * 2) ∧
        shrinkGrid g' (n + k * 2) k = Some (Some (g, n)).
Proof.
  intros Hwf Hxy Hn Hk. unfold expandGrid, shrinkGrid.
  set (cell := λ x y : Z, _ : option Tile).
  destruct (build_grid_total (n + k * 2) cell) as [g' Hg'].
  { intros x y Hx Hy. unfold cell. case_match; [|done].
    repeat (apply andb_prop in H as [H ?]). repeat case_bool_decide; try done.
    destruct (tile_at_Some_wf n g (x - k) (y - k)) as [t Ht]; [done|lia|lia|].
    by rewrite Ht. }
  exists g'. simpl. rewrite Hg'. simpl. split; [done|].
  apply build_grid_spec in Hg' as [_ Hcell]; [|lia].
  replace (n + k * 2 - k * 2) with n by lia.
  rewrite decide_False by lia.
  set (cell' := λ x y : Z, _ : option Tile).
  assert (build_grid n cell' = Some g) as ->; [|done].
  apply build_grid_spec; [lia|]. split; [done|].
  intros x y Hx Hy. unfold cell'. rewrite <- Hcell by lia. unfold cell.
  replace (x + k - k) with x by lia. replace (y + k - k) with y by lia.
  rewrite !bool_decide_eq_true_2 by lia. simpl.
  destruct (tile_at_Some_wf n g x y) as [t Ht]; [done..|].
  rewrite Ht. simpl. f_equal.
  destruct (Hxy _ _ _ Ht). by apply set_xy_stored.
Qed.

(* ================================================================== *)
(** ** Sample worlds used by the examples *)
(* ================================================================== *)

(** A [size] x [size] grid whose tile at (x, y) is [cell x y]. *)
Definition make_grid (size : Z) (cell : Z → Z → Tile) : Grid :=
  (λ y, (λ x, cell x y) <$> seqZ 0 size) <$> seqZ 0 size.

(** The all-grass world [createTile] builds, before terrain generation. *)
Definition grass_grid (size : Z) : Grid :=
  make_grid size (λ x y, createTile x y "grass").

(** Executable well-formedness checks. *)
Definition grid_wfb (size : Z) (g : Grid) : bool :=
  bool_decide (0 <= size) && bool_decide (length g = Z.to_nat size) &&
  forallb (λ row : list Tile, bool_decide (length row = Z.to_nat size)) g.

Definition coords_okb (g : Grid) : bool :=
  forallb (λ '(y, row),
    forallb (λ '(x, t), bool_decide (tile_x t = x) && bool_decide (tile_y t = y))
            (zip (seqZ 0 (Z.of_nat (length row))) row))
    (zip (seqZ 0 (Z.of_nat (length g))) g).

Lemma grid_wfb_spec size g : grid_wfb size g = true → grid_wf size g.
Proof.
  unfold grid_wfb, grid_wf. rewrite !andb_true_iff, !bool_decide_eq_true.
  intros [[Hs Hlen] Hrows]. repeat split; [done..|].
  apply List.Forall_forall. intros row Hrow.
  rewrite forallb_forall in Hrows.
  apply Hrows in Hrow. by apply bool_decide_eq_true in Hrow.
Qed.

Lemma zip_seqZ_lookup {A} (l : list A) i a :
  l !! i = Some a → (Z.of_nat i, a) ∈ zip (seqZ 0 (Z.of_nat (length l))) l.
Proof.
  intros H. apply list_elem_of_lookup. exists i.
  apply lookup_zip_with_Some. exists (Z.of_nat i), a. split; [done|].
  split; [|done]. apply lookup_seqZ. apply lookup_lt_Some in H. lia.
Qed.

Lemma coords_okb_spec g : coords_okb g = true → coords_ok g.
Proof.
  unfold coords_okb, coords_ok. rewrite forallb_forall.
  intros Hall x y t. unfold cell_at, row_at.
  destruct (decide (0 <= y)); [|done].
  destruct (g !! Z.to_nat y) as [row|] eqn:Hrow; [|done]. simpl.
  destruct (decide (0 <= x)); [|done]. intros Ht.
  apply zip_seqZ_lookup, (proj1 (list_elem_of_In _ _)), Hall in Hrow.
  rewrite forallb_forall in Hrow.
  apply zip_seqZ_lookup, (proj1 (list_elem_of_In _ _)), Hrow in Ht.
  apply andb_true_iff in Ht as [?%bool_decide_eq_true ?%bool_decide_eq_true].
  lia.
Qed.

(** C8, the theorem at a concrete world: the 20 x 20 grass grid, expanded
    and shrunk by 3. *)
Lemma expand_then_shrink_restores_witness :
  ∃ g', expandGrid (grass_grid 20) 20 3 = Some (g', 20 + 3 * 2) ∧
        shrinkGrid g' (20 + 3 * 2) 3 = Some (Some (grass_grid 20, 20)).
Proof.
  apply (expand_then_shrink_restores (grass_grid 20) 20 3).
  - apply grid_wfb_spec. vm_compute. reflexivity.
  - apply coords_okb_spec. vm_compute. reflexivity.
  - lia.
  - lia.
Defined.

(** C8 as stated fails below the minimum size: a 10 x 10 grid expanded by 2
    is a 14 x 14 grid, and shrinking that by 2 returns [null] (the size
    after the shrink, 10, is below 20). *)
Lemma expand_then_shrink_small_grid :
  ∃ g', expandGrid (grass_grid 10) 10 2 = Some (g', 14) ∧
        shrinkGrid g' 14 2 = Some None.
Proof. eexists. split; vm_compute; reflexivity. Qed.

(* ================================================================== *)
(** ** Service coverage arrays, the catalog and the game state *)
(* ================================================================== *)

(** [ServiceCoverage]: six arrays aligned with the grid. *)
Record ServiceCoverage := mkServices {
  police : list (list Q);
  fire : list (list Q);
  health : list (list Q);
  education : list (list Q);
  power : list (list bool);
  water : list (list bool);
}.

(** [arr[y][x]] on a coverage array.  The source only reads coverage at
    coordinates inside the grid; a read outside the array is [None]. *)
Abbreviation cov_at := cell_at (only parsing).

(** One record of [BUILDING_STATS]. *)
Record BuildingStats := mkStats {
  maxPop : Q;
  maxJobs : Q;
  stat_pollution : Q;
  stat_landValue : Q;
  stat_pollutionType : option string;
}.

(** The building catalog of [types/buildings.ts], which is not among the
    sources: the per-type statistics and the three zone ladders are
    parameters of the model. *)
Record Catalog := mkCatalog {
  BUILDING_STATS : BuildingType → option BuildingStats;
  RESIDENTIAL_BUILDINGS : list BuildingType;
  COMMERCIAL_BUILDINGS : list BuildingType;
  INDUSTRIAL_BUILDINGS : list BuildingType;
}.

Record Demand := mkDemand {
  d_residential : Q;
  d_commercial : Q;
  d_industrial : Q;
}.

(** The fields of [GameState] the modelled functions read or replace.
    The other fields are only copied by [{ ...state }]. *)
Record GameState := mkState {
  grid : Grid;
  gridSize : Z;
  demand : option Demand;
  disastersEnabled : bool;
}.

(** [{ ...state, grid: newGrid }]. *)
Definition with_grid (state : GameState) (newGrid : Grid) : GameState :=
  mkState newGrid (gridSize state) (demand state) (disastersEnabled state).

(* ------------------------------------------------------------------ *)
(** *** Loop combinators *)

(** The offsets of [for (dy = 0; dy < h; dy++) for (dx = 0; dx < w; dx++)],
    in the order the loops visit them. *)
Definition rect (w h : Z) : list (Z * Z) :=
  dy ← seqZ 0 h; dx ← seqZ 0 w; [(dx, dy)].

(** A loop body run over a list, threading a state, stopping at the first
    error. *)
Fixpoint for_each {S A} (body : S → A → option S) (s : S) (l : list A) : option S :=
  match l with
  | [] => Some s
  | a :: l' => s' ← body s a; for_each body s' l'
  end.

(** A loop that returns from the function at the first element for which
    [body] yields a value; [body] may fail. *)
Fixpoint first_some {A B} (body : A → option (option B)) (l : list A)
  : option (option B) :=
  match l with
  | [] => Some None
  | a :: l' =>
      r ← body a;
      match r with
      | Some b => Some (Some b)
      | None => first_some body l'
      end
  end.

(** The structural types that are never a building origin. *)
Definition is_structural (t : BuildingType) : bool :=
  is_type t "empty" || is_type t "grass" || is_type t "water" || is_type t "road" ||
  is_type t "bridge" || is_type t "rail" || is_type t "tree".

(** [findBuildingOrigin]: (originX, originY, buildingType) or [null]. *)
Definition findBuildingOrigin (g : Grid) (x y gridSize : Z)
  : option (option (Z * Z * BuildingType)) :=
  match tile_at g x y with
  | None => Some None
  | Some tile =>
    if negb (is_structural (type (building tile))) then
      let '(w, h) := getBuildingSize (type (building tile)) in
      if bool_decide (w > 1) || bool_decide (h > 1)
      then Some (Some (x, y, type (building tile)))
      else Some None
    else if is_type (type (building tile)) "empty" then
      let maxSize := 4 in
      first_some (λ '(dx, dy),
        let checkX := x - dx in
        let checkY := y - dy in
        if bool_decide (checkX >= 0) && bool_decide (checkY >= 0) &&
           bool_decide (checkX < gridSize) && bool_decide (checkY < gridSize) then
          checkTile ← tile_at g checkX checkY;
          if negb (is_structural (type (building checkTile))) then
            let '(w, h) := getBuildingSize (type (building checkTile)) in
            if bool_decide (x >= checkX) && bool_decide (x < checkX + w) &&
               bool_decide (y >= checkY) && bool_decide (y < checkY + h)
            then Some (Some (checkX, checkY, type (building checkTile)))
            else Some None
          else Some None
        else Some None) (rect maxSize maxSize)
    else Some None
  end.

(** [grid[y]?.[x]?.building.type === 'water']. *)
Definition is_water_at (g : Grid) (x y : Z) : bool :=
  match tile_at g x y with
  | Some t => is_type (type (building t)) "water"
  | None => false
  end.

(** [getWaterAdjacency]: (hasWater, shouldFlip). *)
Definition getWaterAdjacency (g : Grid) (x y width height gridSize : Z) : bool * bool :=
  let south := existsb (λ dx, bool_decide (y + height < gridSize) &&
                              is_water_at g (x + dx) (y + height)) (seqZ 0 width) in
  let waterOnSouthOrEast :=
    if south then true
    else existsb (λ dy, bool_decide (x + width < gridSize) &&
                        is_water_at g (x + width) (y + dy)) (seqZ 0 height) in
  let north := existsb (λ dx, bool_decide (y - 1 >= 0) &&
                              is_water_at g (x + dx) (y - 1)) (seqZ 0 width) in
  let waterOnNorthOrWest :=
    if north then true
    else existsb (λ dy, bool_decide (x - 1 >= 0) &&
                        is_water_at g (x - 1) (y + dy)) (seqZ 0 height) in
  let hasWater := waterOnSouthOrEast || waterOnNorthOrWest in
  let shouldFlip := hasWater && waterOnNorthOrWest && negb waterOnSouthOrEast in
  (hasWater, shouldFlip).

(** [canPlaceMultiTileBuilding]. *)
Definition canPlaceMultiTileBuilding (g : Grid) (x y width height gridSize : Z) : bool :=
  if bool_decide (x + width > gridSize) || bool_decide (y + height > gridSize) then false
  else forallb (λ '(dx, dy),
         match tile_at g (x + dx) (y + dy) with
         | None => false
         | Some tile =>
             is_type (type (building tile)) "grass" || is_type (type (building tile)) "tree"
         end) (rect width height).

Section WithCatalog.
Context (cat : Catalog).

(** [applyBuildingFootprint]; the result is the grid after the writes (the
    source returns the anchor's building object, [grid[originY][originX].building]). *)
Definition applyBuildingFootprint (g : Grid) (originX originY : Z)
    (buildingType : BuildingType) (z : ZoneType) (lvl : Z)
    (services : option ServiceCoverage) : option Grid :=
  let '(w, h) := getBuildingSize buildingType in
  let stats := default (mkStats 0 0 0 0 None) (BUILDING_STATS cat buildingType) in
  g' ← for_each (λ g '(dx, dy),
    _ ← tile_at g (originX + dx) (originY + dy);
    let anchor := bool_decide (dx = 0) && bool_decide (dy = 0) in
    b ← (if anchor then
           let b := set_age 0 (set_level lvl (createBuilding buildingType)) in
           match services with
           | Some s =>
               p ← cov_at (power s) (originX + dx) (originY + dy);
               wt ← cov_at (water s) (originX + dx) (originY + dy);
               Some (set_watered wt (set_powered p b))
           | None => Some b
           end
         else Some (set_level 0 (createBuilding "empty")));
    Some (update_tile g (originX + dx) (originY + dy) (λ cell,
      set_pollution (if anchor then stat_pollution stats else 0%Q)
        (set_zone z (set_building b cell))))) g (rect w h);
  _ ← tile_at g' originX originY;
  Some g'.

(** The loop that clears a building's footprint back to grass
    ([placeBuilding] with zone 'none'; [bulldozeTile] also resets the rail
    overlay). *)
Definition clear_footprint (g : Grid) (originX originY : Z) (bt : BuildingType)
    (gridSize : Z) (resetOverlay : bool) : option Grid :=
  let '(w, h) := getBuildingSize bt in
  for_each (λ g '(dx, dy),
    let clearX := originX + dx in
    let clearY := originY + dy in
    if bool_decide (clearX < gridSize) && bool_decide (clearY < gridSize) then
      _ ← tile_at g clearX clearY;
      Some (update_tile g clearX clearY (λ t,
        let t := set_zone ZoneNone (set_building (createBuilding "grass") t) in
        if resetOverlay then set_hasRailOverlay (Some false) t else t))
    else Some g) g (rect w h).

(** JavaScript truthiness of [buildingType: BuildingType | null]. *)
Definition truthy_type (bt : option BuildingType) : bool :=
  match bt with
  | Some s => negb (String.eqb s EmptyString)
  | None => false
  end.

Definition type_is (bt : option BuildingType) (lit : string) : bool :=
  match bt with Some s => String.eqb s lit | None => false end.

(** [tile.hasRailOverlay] used as a condition. *)
Definition overlay_set (t : Tile) : bool := default false (hasRailOverlay t).

(** [placeBuilding(state, x, y, buildingType, zone)]. *)
Definition placeBuilding (state : GameState) (x y : Z)
    (buildingType : option BuildingType) (z : option ZoneType) : option GameState :=
  match tile_at (grid state) x y with
  | None => Some state
  | Some tile =>
    let ttype := type (building tile) in
    if is_type ttype "water" then Some state
    else if type_is buildingType "road" &&
            negb (includes ["grass"; "tree"; "road"; "rail"]%string ttype) then Some state
    else if type_is buildingType "rail" &&
            negb (includes ["grass"; "tree"; "rail"; "road"]%string ttype) then Some state
    else if truthy_type buildingType && negb (type_is buildingType "road") &&
            negb (type_is buildingType "rail") &&
            (is_type ttype "road" || is_type ttype "bridge") then Some state
    else if truthy_type buildingType && negb (type_is buildingType "road") &&
            negb (type_is buildingType "rail") && is_type ttype "rail" then Some state
    else
      let newGrid := grid state in
      match z with
      | Some ZoneNone =>
          origin ← findBuildingOrigin newGrid x y (gridSize state);
          match origin with
          | Some (originX, originY, obt) =>
              newGrid ← clear_footprint newGrid originX originY obt (gridSize state) false;
              Some (with_grid state newGrid)
          | None =>
              if decide (zone tile = ZoneNone) then Some state
              else Some (with_grid state (update_tile newGrid x y (λ t,
                     set_building (createBuilding "grass") (set_zone ZoneNone t))))
          end
      | Some zn =>
          if negb (includes ["grass"; "tree"; "road"]%string ttype) then Some state
          else Some (with_grid state (update_tile newGrid x y (set_zone zn)))
      | None =>
          match buildingType with
          | Some bt =>
            if negb (truthy_type buildingType) then Some (with_grid state newGrid)
            else
              let '(w, h) := getBuildingSize bt in
              let waterCheck := getWaterAdjacency newGrid x y w h (gridSize state) in
              if requiresWaterAdjacency bt && negb (fst waterCheck) then Some state
              else
                let shouldFlip := requiresWaterAdjacency bt && snd waterCheck in
                let flip (g : Grid) :=
                  if shouldFlip
                  then update_tile g x y (upd_building (set_flipped (Some true)))
                  else g in
                if bool_decide (w > 1) || bool_decide (h > 1) then
                  if negb (canPlaceMultiTileBuilding newGrid x y w h (gridSize state))
                  then Some state
                  else
                    newGrid ← applyBuildingFootprint newGrid x y bt ZoneNone 1 None;
                    Some (with_grid state (flip newGrid))
                else
                  if negb (includes ["grass"; "tree"; "road"; "rail"]%string ttype)
                  then Some state
                  else
                    let newGrid :=
                      if String.eqb bt "rail" && is_type ttype "road" then
                        update_tile newGrid x y (set_hasRailOverlay (Some true))
                      else if String.eqb bt "road" && is_type ttype "rail" then
                        update_tile newGrid x y (λ t,
                          set_zone ZoneNone (set_hasRailOverlay (Some true)
                            (set_building (createBuilding "road") t)))
                      else if String.eqb bt "rail" && overlay_set tile then newGrid
                      else if String.eqb bt "road" && overlay_set tile then newGrid
                      else
                        update_tile newGrid x y (λ t,
                          let t := set_zone ZoneNone (set_building (createBuilding bt) t) in
                          if negb (String.eqb bt "road")
                          then set_hasRailOverlay (Some false) t else t) in
                    Some (with_grid state (flip newGrid))
          | None => Some (with_grid state newGrid)
          end
      end
  end.

End WithCatalog.

(* ================================================================== *)
(** ** Bulldozing *)
(* ================================================================== *)

Definition in_bounds (gridSize cx cy : Z) : bool :=
  bool_decide (cx >= 0) && bool_decide (cx < gridSize) &&
  bool_decide (cy >= 0) && bool_decide (cy < gridSize).

(** [t.building.type === 'bridge' && t.building.bridgeOrientation === orientation]. *)
Definition bridge_with (o : BridgeOrientation) (t : Tile) : bool :=
  is_type (type (building t)) "bridge" &&
  bool_decide (bridgeOrientation (building t) = Some o).

(** One of the two [while] loops of [findConnectedBridgeTiles]: from
    (cx, cy), stepping by (dx, dy), the bridge tiles of orientation [o] up to
    the first tile that is not one or the edge of the grid.  [fuel] bounds
    the number of iterations; [None] when it runs out or a tile is missing. *)
Fixpoint bridge_walk (fuel : nat) (g : Grid) (gridSize : Z) (o : BridgeOrientation)
    (cx cy dx dy : Z) : option (list (Z * Z)) :=
  if in_bounds gridSize cx cy then
    match fuel with
    | O => None
    | S fuel' =>
        t ← tile_at g cx cy;
        if bridge_with o t
        then rest ← bridge_walk fuel' g gridSize o (cx + dx) (cy + dy) dx dy;
             Some ((cx, cy) :: rest)
        else Some []
    end
  else Some [].

(** [findConnectedBridgeTiles]. *)
Definition findConnectedBridgeTiles (g : Grid) (gridSize x y : Z) : option (list (Z * Z)) :=
  match tile_at g x y with
  | None => Some []
  | Some tile =>
    if negb (is_type (type (building tile)) "bridge") then Some []
    else
      let orientation := default NS (bridgeOrientation (building tile)) in
      let dx := if decide (orientation = NS) then 1 else 0 in
      let dy := if decide (orientation = NS) then 0 else 1 in
      let fuel := Z.to_nat gridSize in
      fwd ← bridge_walk fuel g gridSize orientation (x + dx) (y + dy) dx dy;
      bwd ← bridge_walk fuel g gridSize orientation (x - dx) (y - dy) (- dx) (- dy);
      Some ((x, y) :: fwd ++ bwd)
  end.

(** [findAdjacentBridgeTiles]. *)
Definition findAdjacentBridgeTiles (g : Grid) (gridSize x y : Z) : option (list (Z * Z)) :=
  r ← first_some (λ '(dx, dy),
    let nx := x + dx in
    let ny := y + dy in
    if bool_decide (nx >= 0) && bool_decide (nx < gridSize) &&
       bool_decide (ny >= 0) && bool_decide (ny < gridSize) then
      neighbor ← tile_at g nx ny;
      if is_type (type (building neighbor)) "bridge" &&
         (bool_decide (bridgePosition (building neighbor) = Some PosStart) ||
          bool_decide (bridgePosition (building neighbor) = Some PosEnd))
      then Some <$> findConnectedBridgeTiles g gridSize nx ny
      else Some None
    else Some None) [(-1, 0); (1, 0); (0, -1); (0, 1)];
  Some (default [] r).

(** What [bulldozeTile] writes to a tile it removes. *)
Definition bulldoze_to (bt : BuildingType) (t : Tile) : Tile :=
  set_hasRailOverlay (Some false) (set_zone ZoneNone (set_building (createBuilding bt) t)).

(** [for (const bt of tiles) { newGrid[bt.y][bt.x] = water ... }]. *)
Definition flood_tiles (g : Grid) (tiles : list (Z * Z)) : option Grid :=
  for_each (λ g '(bx, by_),
    _ ← tile_at g bx by_;
    Some (update_tile g bx by_ (bulldoze_to "water"))) g tiles.

(** [bulldozeTile(state, x, y)]. *)
Definition bulldozeTile (state : GameState) (x y : Z) : option GameState :=
  match tile_at (grid state) x y with
  | None => Some state
  | Some tile =>
    if is_type (type (building tile)) "water" then Some state
    else
      let newGrid := grid state in
      if is_type (type (building tile)) "bridge" then
        bridgeTiles ← findConnectedBridgeTiles newGrid (gridSize state) x y;
        newGrid ← flood_tiles newGrid bridgeTiles;
        Some (with_grid state newGrid)
      else
        adjacentBridgeTiles ←
          (if is_type (type (building tile)) "road"
           then findAdjacentBridgeTiles newGrid (gridSize state) x y
           else Some []);
        if is_type (type (building tile)) "road" &&
           bool_decide (0 < length adjacentBridgeTiles)%nat then
          let newGrid := update_tile newGrid x y (bulldoze_to "grass") in
          newGrid ← flood_tiles newGrid adjacentBridgeTiles;
          Some (with_grid state newGrid)
        else
          origin ← findBuildingOrigin newGrid x y (gridSize state);
          match origin with
          | Some (originX, originY, obt) =>
              newGrid ← clear_footprint newGrid originX originY obt (gridSize state) true;
              Some (with_grid state newGrid)
          | None =>
              Some (with_grid state (update_tile newGrid x y (bulldoze_to "grass")))
          end
  end.

(* ------------------------------------------------------------------ *)
(** *** Reading a grid after in-place updates *)

Lemma tile_at_update_tile {A} (g : list (list A)) x y f x' y' :
  cell_at (update_cell g x y f) x' y' =
  if decide (x' = x ∧ y' = y) then f <$> cell_at g x y else cell_at g x' y'.
Proof.
  unfold update_cell, cell_at, row_at.
  destruct (decide (x' = x ∧ y' = y)) as [[-> ->]|Hne].
  - destruct (decide (0 <= y ∧ 0 <= x)) as [[Hy Hx]|Hn].
    + rewrite !decide_True by done. rewrite list_lookup_alter, decide_True by done.
      destruct (g !! Z.to_nat y) as [row|]; simpl; [|done].
      rewrite !decide_True by done.
      rewrite list_lookup_alter, decide_True by done. done.
    + destruct (decide (0 <= y)); [|done].
      destruct (g !! Z.to_nat y); simpl; [|done].
      rewrite decide_False by lia. done.
  - destruct (decide (0 <= y ∧ 0 <= x)) as [[Hy Hx]|Hn]; [|done].
    destruct (decide (0 <= y')); [|done].
    rewrite list_lookup_alter.
    destruct (decide (Z.to_nat y = Z.to_nat y')) as [E|E]; [|done].
    rewrite <- E. destruct (g !! Z.to_nat y) as [row|]; simpl; [|done].
    destruct (decide (0 <= x')); [|done].
    rewrite list_lookup_alter_ne; [done|]. intros E'. apply Hne. split; lia.
Qed.

Lemma grid_wf_update_tile {A} size (g : list (list A)) x y f :
  grid_wf size g → grid_wf size (update_cell g x y f).
Proof.
  intros (Hs & Hlen & Hrows). unfold update_cell.
  destruct (decide _); [|done]. split; [done|]. split.
  - by rewrite length_alter.
  - apply Forall_lookup. intros i row. rewrite list_lookup_alter.
    rewrite Forall_lookup in Hrows.
    destruct (decide _) as [->|].
    + destruct (g !! i) as [r|] eqn:E; [|done]. simpl. intros [= <-].
      rewrite length_alter. by eapply Hrows.
    + apply Hrows.
Qed.

Lemma with_grid_same state : with_grid state (grid state) = state.
Proof. by destruct state. Qed.

Lemma tile_at_None_outside {A} size (g : list (list A)) x y :
  grid_wf size g → ¬ (0 <= x < size ∧ 0 <= y < size) → cell_at g x y = None.
Proof.
  intros Hwf Hout. destruct (cell_at g x y) as [t|] eqn:E; [|done].
  destruct Hout. by eapply tile_at_Some_inv.
Qed.

Lemma in_bounds_true size cx cy :
  in_bounds size cx cy = true ↔ 0 <= cx < size ∧ 0 <= cy < size.
Proof.
  unfold in_bounds. rewrite !andb_true_iff, !bool_decide_eq_true. lia.
Qed.

(* ------------------------------------------------------------------ *)
(** *** The bridge run removed by [bulldozeTile] *)

(** A tile of the run: a bridge tile of orientation [o] at (a, b). *)
Definition run_tile (g : Grid) (o : BridgeOrientation) (a b : Z) : Prop :=
  ∃ t, tile_at g a b = Some t ∧ bridge_with o t = true.

(** (x', y') belongs to the maximal contiguous run through (x, y): it lies
    on the line through (x, y) along which orientation [o] extends (along x
    for 'ns', along y for 'ew') and every tile from (x, y), excluded, to
    (x', y'), included, is a bridge tile of orientation [o]. *)
Definition bridge_run (g : Grid) (o : BridgeOrientation) (x y x' y' : Z) : Prop :=
  match o with
  | NS => y' = y ∧ ∀ i, (x < i <= x' ∨ x' <= i < x) → run_tile g o i y
  | EW => x' = x ∧ ∀ j, (y < j <= y' ∨ y' <= j < y) → run_tile g o x j
  end.

Definition steps_left (size cx cy dx dy : Z) : Z :=
  if decide (dx = 1) then size - cx
  else if decide (dx = -1) then cx + 1
  else if decide (dy = 1) then size - cy
  else cy + 1.

Definition unit_step (dx dy : Z) : Prop :=
  (dx = 1 ∧ dy = 0) ∨ (dx = -1 ∧ dy = 0) ∨ (dx = 0 ∧ dy = 1) ∨ (dx = 0 ∧ dy = -1).

Lemma bridge_walk_spec size g o dx dy :
  grid_wf size g → unit_step dx dy →
  ∀ fuel cx cy, steps_left size cx cy dx dy <= Z.of_nat fuel →
    ∃ l, bridge_walk fuel g size o cx cy dx dy = Some l ∧
      ∀ px py, (px, py) ∈ l ↔
        ∃ k, 0 <= k ∧ px = cx + k * dx ∧ py = cy + k * dy ∧
             ∀ i, 0 <= i <= k → run_tile g o (cx + i * dx) (cy + i * dy).
Proof.
  intros Hwf Hstep fuel. induction fuel as [|fuel IH]; intros cx cy Hfuel.
  - simpl. destruct (in_bounds size cx cy) eqn:Hb.
    + apply in_bounds_true in Hb. unfold steps_left in Hfuel.
      repeat case_decide; destruct Hstep as [?|[?|[?|?]]]; lia.
    + exists []. split; [done|]. intros px py. split; [by intros ?%elem_of_nil|].
      intros (k & Hk & _ & _ & Hrun). destruct (Hrun 0) as (t & Ht & _); [lia|].
      rewrite !Z.mul_0_l, !Z.add_0_r in Ht.
      eapply tile_at_Some_inv in Ht; [|done]. apply in_bounds_true in Ht. congruence.
  - simpl. destruct (in_bounds size cx cy) eqn:Hb.
    + apply in_bounds_true in Hb.
      destruct (tile_at_Some_wf size g cx cy) as [t Ht]; [done|lia|lia|].
      rewrite Ht. simpl. destruct (bridge_with o t) eqn:Hbw.
      * destruct (IH (cx + dx) (cy + dy)) as (l & Hl & Hspec).
        { unfold steps_left in *.
          repeat case_decide; destruct Hstep as [?|[?|[?|?]]]; lia. }
        rewrite Hl. simpl. eexists. split; [done|]. intros px py.
        rewrite elem_of_cons, Hspec. split.
        -- intros [[= -> ->]|(k & Hk & -> & -> & Hrun)].
           ++ exists 0. split; [lia|]. split; [lia|]. split; [lia|].
              intros i Hi. assert (i = 0) as -> by lia.
              rewrite !Z.mul_0_l, !Z.add_0_r. by exists t.
           ++ exists (k + 1). split; [lia|]. split; [lia|]. split; [lia|].
              intros i Hi. destruct (decide (i = 0)) as [->|Hi0].
              ** rewrite !Z.mul_0_l, !Z.add_0_r. by exists t.
              ** specialize (Hrun (i - 1)).
                 replace (cx + dx + (i - 1) * dx) with (cx + i * dx) in Hrun by lia.
                 replace (cy + dy + (i - 1) * dy) with (cy + i * dy) in Hrun by lia.
                 apply Hrun. lia.
        -- intros (k & Hk & -> & -> & Hrun).
           destruct (decide (k = 0)) as [->|Hk0].
           ++ left. f_equal; lia.
           ++ right. exists (k - 1). split; [lia|]. split; [lia|]. split; [lia|].
              intros i Hi. specialize (Hrun (i + 1)).
              replace (cx + (i + 1) * dx) with (cx + dx + i * dx) in Hrun by lia.
              replace (cy + (i + 1) * dy) with (cy + dy + i * dy) in Hrun by lia.
              apply Hrun. lia.
      * exists []. split; [done|]. intros px py. split; [by intros ?%elem_of_nil|].
        intros (k & Hk & _ & _ & Hrun). destruct (Hrun 0) as (t' & Ht' & Hbw'); [lia|].
        rewrite !Z.mul_0_l, !Z.add_0_r in Ht'. congruence.
    + exists []. split; [done|]. intros px py. split; [by intros ?%elem_of_nil|].
      intros (k & Hk & _ & _ & Hrun). destruct (Hrun 0) as (t & Ht & _); [lia|].
      rewrite !Z.mul_0_l, !Z.add_0_r in Ht.
      eapply tile_at_Some_inv in Ht; [|done]. apply in_bounds_true in Ht. congruence.
Qed.

Lemma bulldoze_to_idem bt t : bulldoze_to bt (bulldoze_to bt t) = bulldoze_to bt t.
Proof. done. Qed.

Lemma flood_tiles_spec g tiles :
  (∀ px py, (px, py) ∈ tiles → is_Some (tile_at g px py)) →
  ∃ g', flood_tiles g tiles = Some g' ∧
    ∀ x' y', tile_at g' x' y' =
      if decide ((x', y') ∈ tiles)
      then bulldoze_to "water" <$> tile_at g x' y' else tile_at g x' y'.
Proof.
  unfold flood_tiles. revert g. induction tiles as [|[bx by_] tiles IH]; intros g Hex.
  - exists g. split; [done|]. intros x' y'. rewrite decide_False; [done|].
    by intros ?%elem_of_nil.
  - simpl. destruct (Hex bx by_) as [t Ht]; [apply elem_of_cons; by left|].
    rewrite Ht. simpl.
    destruct (IH (update_tile g bx by_ (bulldoze_to "water"))) as (g' & Hg' & Hspec).
    { intros px py Hin. rewrite tile_at_update_tile. case_decide.
      - rewrite Ht. by eexists.
      - apply Hex. apply elem_of_cons. by right. }
    exists g'. split; [done|]. intros x' y'. rewrite Hspec, tile_at_update_tile.
    destruct (decide ((x', y') ∈ (bx, by_) :: tiles)) as [Hc|Hc];
      destruct (decide ((x', y') ∈ tiles)) as [Hin|Hin];
      destruct (decide (x' = bx ∧ y' = by_)) as [[-> ->]|Hne];
      rewrite ?Ht; simpl; try done; exfalso;
      first [apply Hc, elem_of_cons; (by left) || (by right)
            |apply elem_of_cons in Hc as [[= -> ->]|?]; tauto].
Qed.

Lemma run_tile_eq g o a b a' b' :
  run_tile g o a b → a = a' → b = b' → run_tile g o a' b'.
Proof. by intros ? -> ->. Qed.

Lemma bridge_run_members g o x y fwd bwd :
  let dx := if decide (o = NS) then 1 else 0 in
  let dy := if decide (o = NS) then 0 else 1 in
  (∀ px py, (px, py) ∈ fwd ↔
     ∃ k, 0 <= k ∧ px = x + dx + k * dx ∧ py = y + dy + k * dy ∧
          ∀ i, 0 <= i <= k → run_tile g o (x + dx + i * dx) (y + dy + i * dy)) →
  (∀ px py, (px, py) ∈ bwd ↔
     ∃ k, 0 <= k ∧ px = x - dx + k * - dx ∧ py = y - dy + k * - dy ∧
          ∀ i, 0 <= i <= k → run_tile g o (x - dx + i * - dx) (y - dy + i * - dy)) →
  ∀ x' y', (x', y') ∈ (x, y) :: fwd ++ bwd ↔ bridge_run g o x y x' y'.
Proof.
  intros dx dy Hf Hb x' y'. rewrite elem_of_cons, elem_of_app, Hf, Hb.
  unfold bridge_run. destruct o; subst dx dy; simpl; split.
  - intros [[= -> ->]|[(k & Hk & -> & -> & Hrun)|(k & Hk & -> & -> & Hrun)]].
    + split; [done|]. intros i Hi. lia.
    + split; [lia|]. intros i Hi. eapply run_tile_eq; [apply (Hrun (i - x - 1))|..]; lia.
    + split; [lia|]. intros i Hi. eapply run_tile_eq; [apply (Hrun (x - 1 - i))|..]; lia.
  - intros [-> Hrun].
    destruct (Z.lt_trichotomy x' x) as [Hlt|[->|Hgt]].
    + right. right. exists (x - 1 - x'). split; [lia|]. split; [lia|]. split; [lia|].
      intros i Hi. eapply run_tile_eq; [apply (Hrun (x - 1 - i))|..]; lia.
    + by left.
    + right. left. exists (x' - x - 1). split; [lia|]. split; [lia|]. split; [lia|].
      intros i Hi. eapply run_tile_eq; [apply (Hrun (x + 1 + i))|..]; lia.
  - intros [[= -> ->]|[(k & Hk & -> & -> & Hrun)|(k & Hk & -> & -> & Hrun)]].
    + split; [done|]. intros i Hi. lia.
    + split; [lia|]. intros j Hj. eapply run_tile_eq; [apply (Hrun (j - y - 1))|..]; lia.
    + split; [lia|]. intros j Hj. eapply run_tile_eq; [apply (Hrun (y - 1 - j))|..]; lia.
  - intros [-> Hrun].
    destruct (Z.lt_trichotomy y' y) as [Hlt|[->|Hgt]].
    + right. right. exists (y - 1 - y'). split; [lia|]. split; [lia|]. split; [lia|].
      intros j Hj. eapply run_tile_eq; [apply (Hrun (y - 1 - j))|..]; lia.
    + by left.
    + right. left. exists (y' - y - 1). split; [lia|]. split; [lia|]. split; [lia|].
      intros j Hj. eapply run_tile_eq; [apply (Hrun (y + 1 + j))|..]; lia.
Qed.

Lemma findConnectedBridgeTiles_spec size g x y tile :
  grid_wf size g → tile_at g x y = Some tile →
  type (building tile) = "bridge" →
  ∃ l, findConnectedBridgeTiles g size x y = Some l ∧
    ∀ x' y', (x', y') ∈ l ↔
      bridge_run g (default NS (bridgeOrientation (building tile))) x y x' y'.
Proof.
  intros Hwf Ht Hty. unfold findConnectedBridgeTiles. rewrite Ht, Hty. simpl.
  set (o := default NS (bridgeOrientation (building tile))).
  set (dx := if decide (o = NS) then 1 else 0).
  set (dy := if decide (o = NS) then 0 else 1).
  pose proof (tile_at_Some_inv _ _ _ _ _ Hwf Ht) as Hxy.
  destruct (bridge_walk_spec size g o dx dy Hwf) with
    (fuel := Z.to_nat size) (cx := x + dx) (cy := y + dy) as (fwd & Hfwd & Hf).
  { subst dx dy. destruct o; simpl; unfold unit_step; lia. }
  { subst dx dy. unfold steps_left. destruct o; simpl; lia. }
  destruct (bridge_walk_spec size g o (- dx) (- dy) Hwf) with
    (fuel := Z.to_nat size) (cx := x - dx) (cy := y - dy) as (bwd & Hbwd & Hb).
  { subst dx dy. destruct o; simpl; unfold unit_step; lia. }
  { subst dx dy. unfold steps_left. destruct o; simpl; lia. }
  rewrite Hfwd, Hbwd. simpl. eexists. split; [done|].
  by apply bridge_run_members.
Qed.

(** C10: bulldozing an in-bounds bridge tile replaces every tile of the
    maximal contiguous run of bridge tiles of that bridge's orientation
    (along x for 'ns', along y for 'ew'; a missing orientation counts as
    'ns', as in the source) with a water building, zone 'none' and
    hasRailOverlay false, and leaves every other tile as it was. *)
Theorem bulldoze_bridge_removes_run state x y tile :
  grid_wf (gridSize state) (grid state) →
  tile_at (grid state) x y = Some tile →
  type (building tile) = "bridge" →
  ∃ g', bulldozeTile state x y = Some (with_grid state g') ∧
    ∀ x' y',
      (bridge_run (grid state) (default NS (bridgeOrientation (building tile))) x y x' y' →
       ∃ t t', tile_at (grid state) x' y' = Some t ∧ tile_at g' x' y' = Some t' ∧
         t' = bulldoze_to "water" t ∧
         building t' = createBuilding "water" ∧ zone t' = ZoneNone ∧
         hasRailOverlay t' = Some false) ∧
      (¬ bridge_run (grid state) (default NS (bridgeOrientation (building tile))) x y x' y' →
       tile_at g' x' y' = tile_at (grid state) x' y').
Proof.
  intros Hwf Ht Hty.
  destruct (findConnectedBridgeTiles_spec _ _ _ _ _ Hwf Ht Hty) as (l & Hl & Hmem).
  assert (∀ px py, (px, py) ∈ l → is_Some (tile_at (grid state) px py)) as Hex.
  { intros px py Hin. apply Hmem in Hin.
    destruct (decide (px = x ∧ py = y)) as [[-> ->]|Hne]; [by eexists|].
    unfold bridge_run in Hin.
    destruct (default NS (bridgeOrientation (building tile))).
    - destruct Hin as [-> Hrun]. destruct (Hrun px) as (t & -> & _); [lia|by eexists].
    - destruct Hin as [-> Hrun]. destruct (Hrun py) as (t & -> & _); [lia|by eexists]. }
  destruct (flood_tiles_spec _ _ Hex) as (g' & Hg' & Hspec).
  exists g'. split.
  - unfold bulldozeTile. rewrite Ht, Hty. simpl. rewrite Hl. simpl. by rewrite Hg'.
  - intros x' y'. rewrite Hspec. split.
    + intros Hrun. rewrite decide_True by (by apply Hmem).
      destruct (Hex x' y') as [t Htile]; [by apply Hmem|].
      exists t, (bulldoze_to "water" t). rewrite Htile. done.
    + intros Hrun. rewrite decide_False; [done|]. by rewrite Hmem.
Qed.

(** C9: outside the grid [placeBuilding] and [bulldozeTile] return the state
    they were given, and so does [placeBuilding] on a water tile. *)
Theorem invalid_target_is_noop (cat : Catalog) state x y buildingType z :
  grid_wf (gridSize state) (grid state) →
  (¬ (0 <= x < gridSize state ∧ 0 <= y < gridSize state) →
     placeBuilding cat state x y buildingType z = Some state ∧
     bulldozeTile state x y = Some state) ∧
  (∀ tile, tile_at (grid state) x y = Some tile →
     type (building tile) = "water" →
     placeBuilding cat state x y buildingType z = Some state).
Proof.
  intros Hwf. split.
  - intros Hout. unfold placeBuilding, bulldozeTile.
    by rewrite (tile_at_None_outside _ _ _ _ Hwf Hout).
  - intros tile Ht Hty. unfold placeBuilding. by rewrite Ht, Hty.
Qed.

(* ================================================================== *)
(** ** Bridge detection *)
(* ================================================================== *)

(** [getBridgeTypeForSpan]. *)
Definition getBridgeTypeForSpan (span : Z) : BridgeType :=
  if decide (span = 1) then BridgeSmall
  else if decide (span <= BRIDGE_TYPE_THRESHOLDS_large) then BridgeLarge
  else BridgeSuspension.

(** [getBridgeVariant]; [%] is JavaScript's remainder. *)
Definition getBridgeVariant (x y : Z) (bridgeType : BridgeType) : Z :=
  let seed := Z.rem (x * 31 + y * 17) 100 in
  Z.rem seed (BRIDGE_VARIANTS bridgeType).

(** [createBridgeBuilding]. *)
Definition createBridgeBuilding (bridgeType : BridgeType) (orientation : BridgeOrientation)
    (variant : Z) (position : BridgePosition) (index span : Z) (trackType : TrackType)
  : Building :=
  {| type := "bridge"; level := 0; population := 0; jobs := 0;
     powered := true; watered := true; onFire := false; fireProgress := 0; age := 0;
     constructionProgress := Some 100%Q; abandoned := false; flipped := None;
     bridgeType := Some bridgeType; bridgeOrientation := Some orientation;
     bridgeVariant := Some variant; bridgePosition := Some position;
     bridgeIndex := Some index; bridgeSpan := Some span;
     bridgeTrackType := Some trackType |}.

(** [BridgeOpportunity]. *)
Record BridgeOpportunity := mkOpportunity {
  startX : Z; startY : Z; endX : Z; endY : Z;
  orientation : BridgeOrientation;
  span : Z;
  opp_bridgeType : BridgeType;
  waterTiles : list (Z * Z);
  trackType : TrackType;
}.

(** The [while] loop of [scanForBridgeInDirection], at position (x, y) with
    the water tiles collected so far.  The inner [None] is [null]; the outer
    [None] is a missing tile or exhausted [fuel]. *)
Fixpoint scan_loop (fuel : nat) (g : Grid) (gridSize sX sY dx dy : Z)
    (o : BridgeOrientation) (tt : TrackType) (wt : list (Z * Z)) (x y : Z)
  : option (option BridgeOpportunity) :=
  if in_bounds gridSize x y then
    match fuel with
    | O => None
    | S fuel' =>
        tile ← tile_at g x y;
        if is_type (type (building tile)) "water" then
          let wt := wt ++ [(x, y)] in
          if decide (Z.of_nat (length wt) > MAX_BRIDGE_SPAN) then Some None
          else scan_loop fuel' g gridSize sX sY dx dy o tt wt (x + dx) (y + dy)
        else if String.eqb (type (building tile)) (track_name tt) then
          if decide (Z.of_nat (length wt) > 0) then
            let span := Z.of_nat (length wt) in
            let bridgeType := getBridgeTypeForSpan span in
            Some (Some (mkOpportunity sX sY x y o span bridgeType wt tt))
          else Some None
        else if is_type (type (building tile)) "bridge" then Some None
        else Some None
    end
  else Some None.

(** [scanForBridgeInDirection].  Every iteration that continues adds a water
    tile, and the loop returns once there are more than [MAX_BRIDGE_SPAN]. *)
Definition scanForBridgeInDirection (g : Grid) (gridSize sX sY dx dy : Z)
    (o : BridgeOrientation) (tt : TrackType) : option (option BridgeOpportunity) :=
  scan_loop (Z.to_nat MAX_BRIDGE_SPAN + 2) g gridSize sX sY dx dy o tt []
            (sX + dx) (sY + dy).

(** [a || b] on nullable results, evaluating [b] only when [a] is [null]. *)
Definition or_else {A} (a : option (option A)) (b : option (option A))
  : option (option A) :=
  r ← a; match r with Some v => Some (Some v) | None => b end.

(** [detectBridgeOpportunity]. *)
Definition detectBridgeOpportunity (g : Grid) (gridSize x y : Z) (tt : TrackType)
  : option (option BridgeOpportunity) :=
  match tile_at g x y with
  | None => Some None
  | Some tile =>
    if negb (String.eqb (type (building tile)) (track_name tt)) then Some None
    else
      or_else (scanForBridgeInDirection g gridSize x y (-1) 0 NS tt)
      (or_else (scanForBridgeInDirection g gridSize x y 1 0 NS tt)
      (or_else (scanForBridgeInDirection g gridSize x y 0 (-1) EW tt)
               (scanForBridgeInDirection g gridSize x y 0 1 EW tt)))
  end.

(** The comparator of [buildBridges]: negative, zero or positive. *)
Definition bridge_tile_cmp (o : BridgeOrientation) (a b : Z * Z) : Z :=
  match o with
  | NS => if decide (a.1 ≠ b.1) then a.1 - b.1 else a.2 - b.2
  | EW => if decide (a.2 ≠ b.2) then a.2 - b.2 else a.1 - b.1
  end.

(** [Array.prototype.sort] with a comparator: a stable insertion sort. *)
Fixpoint sort_insert {A} (cmp : A → A → Z) (a : A) (l : list A) : list A :=
  match l with
  | [] => [a]
  | b :: l' => if decide (cmp a b < 0) then a :: b :: l' else b :: sort_insert cmp a l'
  end.

Definition sort_with {A} (cmp : A → A → Z) (l : list A) : list A :=
  foldr (λ a acc, sort_insert cmp a acc) [] (reverse l).

(** [buildBridges]. *)
Definition buildBridges (g : Grid) (opp : BridgeOpportunity) : option Grid :=
  '(wx, wy) ← head (waterTiles opp);
  let variant := getBridgeVariant wx wy (opp_bridgeType opp) in
  let sortedTiles := sort_with (bridge_tile_cmp (orientation opp)) (waterTiles opp) in
  let span := Z.of_nat (length sortedTiles) in
  for_each (λ g '(index, (px, py)),
    let position :=
      if decide (index = 0) then PosStart
      else if decide (index = Z.of_nat (length sortedTiles) - 1) then PosEnd
      else PosMiddle in
    _ ← tile_at g px py;
    Some (update_tile g px py (λ t,
      set_zone ZoneNone
        (set_building (createBridgeBuilding (opp_bridgeType opp) (orientation opp)
                         variant position index span (trackType opp)) t))))
    g (zip (seqZ 0 (Z.of_nat (length sortedTiles))) sortedTiles).

(** [checkAndCreateBridges]. *)
Definition checkAndCreateBridges (g : Grid) (gridSize placedX placedY : Z)
    (tt : TrackType) : option Grid :=
  opportunity ← detectBridgeOpportunity g gridSize placedX placedY tt;
  match opportunity with
  | Some opp => buildBridges g opp
  | None => Some g
  end.

(** [createBridgesOnPath]. *)
Definition createBridgesOnPath (state : GameState) (pathTiles : list (Z * Z))
    (tt : TrackType) : option GameState :=
  if bool_decide (pathTiles = []) then Some state
  else
    let hasWaterInPath :=
      existsb (λ '(px, py), is_water_at (grid state) px py) pathTiles in
    if negb hasWaterInPath then Some state
    else
      newGrid ← for_each (λ g '(px, py),
        match tile_at g px py with
        | Some t =>
            if String.eqb (type (building t)) (track_name tt)
            then checkAndCreateBridges g (gridSize state) px py tt
            else Some g
        | None => Some g
        end) (grid state) pathTiles;
      Some (with_grid state newGrid).

(** The straight path of the specification's example, laid along the top
    row of a 5 x 5 world: road, water, water, water, road. *)
Definition bridge_example_grid : Grid :=
  make_grid 5 (λ x y,
    if decide (y = 0) then
      if decide (x = 0 ∨ x = 4) then createTile x y "road" else
      if decide (1 <= x <= 3) then createTile x y "water" else createTile x y "grass"
    else createTile x y "grass").

Definition bridge_example_state : GameState :=
  mkState bridge_example_grid 5 None true.

Definition bridge_example_path : list (Z * Z) := [(0, 0); (1, 0); (2, 0); (3, 0); (4, 0)].

(* ------------------------------------------------------------------ *)
(** *** What a scan finds *)

Definition water_tile (g : Grid) (a b : Z) : Prop :=
  ∃ t, tile_at g a b = Some t ∧ type (building t) = "water".

Definition track_tile (g : Grid) (tt : TrackType) (a b : Z) : Prop :=
  ∃ t, tile_at g a b = Some t ∧ type (building t) = track_name tt.

Lemma track_name_not_water tt : String.eqb (track_name tt) "water" = false.
Proof. by destruct tt. Qed.

Lemma seqZ_0_succ k : 0 <= k → seqZ 0 (k + 1) = 0 :: (Z.add 1 <$> seqZ 0 k).
Proof.
  intros Hk. rewrite seqZ_cons by lia. f_equal.
  rewrite fmap_add_seqZ. f_equal; lia.
Qed.

Lemma scan_loop_spec size g sX sY dx dy o tt :
  grid_wf size g →
  ∀ fuel wt x y,
    (length wt <= 10)%nat → (12 <= fuel + length wt)%nat →
    ∃ r, scan_loop fuel g size sX sY dx dy o tt wt x y = Some r ∧
      ∀ opp, r = Some opp ↔
        ∃ k, 0 <= k ∧
          (∀ i, 0 <= i < k → water_tile g (x + i * dx) (y + i * dy)) ∧
          track_tile g tt (x + k * dx) (y + k * dy) ∧
          1 <= Z.of_nat (length wt) + k <= 10 ∧
          opp = mkOpportunity sX sY (x + k * dx) (y + k * dy) o
                  (Z.of_nat (length wt) + k)
                  (getBridgeTypeForSpan (Z.of_nat (length wt) + k))
                  (wt ++ ((λ i, (x + i * dx, y + i * dy)) <$> seqZ 0 k)) tt.
Proof.
  intros Hwf fuel. induction fuel as [|fuel IH]; intros wt x y Hlen Hfuel.
  { lia. }
  assert (∀ k, 0 <= k →
    (∀ i, 0 <= i < k → water_tile g (x + i * dx) (y + i * dy)) →
    track_tile g tt (x + k * dx) (y + k * dy) →
    ∃ t, tile_at g x y = Some t ∧
         ((k = 0 ∧ type (building t) = track_name tt) ∨
          (0 < k ∧ type (building t) = "water"))) as Hfirst.
  { intros k Hk Hw Htr. destruct (decide (k = 0)) as [->|Hk0].
    - destruct Htr as (t & Ht & Hty). rewrite !Z.mul_0_l, !Z.add_0_r in Ht.
      exists t. split; [done|]. by left.
    - destruct (Hw 0) as (t & Ht & Hty); [lia|].
      rewrite !Z.mul_0_l, !Z.add_0_r in Ht. exists t. split; [done|]. right.
      split; [lia|done]. }
  simpl. destruct (in_bounds size x y) eqn:Hb.
  - apply in_bounds_true in Hb.
    destruct (tile_at_Some_wf size g x y) as [t Ht]; [done|lia|lia|].
    rewrite Ht. simpl. unfold is_type.
    destruct (String.eqb (type (building t)) "water") eqn:Hwater.
    + apply String.eqb_eq in Hwater. rewrite length_app. simpl.
      destruct (decide _) as [Hmax|Hmax].
      * exists None. split; [done|]. intros opp. split; [done|].
        intros (k & Hk & Hw & Htr & Hspan & _). exfalso.
        destruct (Hfirst k Hk Hw Htr) as (t' & Ht' & [[-> Hty]|[Hk0 Hty]]).
        -- assert (t' = t) as -> by congruence.
           pose proof (track_name_not_water tt) as Hne. rewrite <- Hty, Hwater in Hne.
           done.
        -- unfold MAX_BRIDGE_SPAN in Hmax. lia.
      * destruct (IH (wt ++ [(x, y)]) (x + dx) (y + dy)) as (r & Hr & Hspec).
        { rewrite length_app. simpl. unfold MAX_BRIDGE_SPAN in Hmax. lia. }
        { rewrite length_app. simpl. lia. }
        exists r. split; [done|]. intros opp. rewrite Hspec. rewrite length_app. simpl.
        split.
        -- intros (k & Hk & Hw & Htr & Hspan & ->). exists (k + 1).
           split; [lia|]. split; [|split; [|split; [lia|]]].
           ++ intros i Hi. destruct (decide (i = 0)) as [->|Hi0].
              ** rewrite !Z.mul_0_l, !Z.add_0_r. by exists t.
              ** specialize (Hw (i - 1)).
                 replace (x + dx + (i - 1) * dx) with (x + i * dx) in Hw by lia.
                 replace (y + dy + (i - 1) * dy) with (y + i * dy) in Hw by lia.
                 apply Hw. lia.
           ++ replace (x + (k + 1) * dx) with (x + dx + k * dx) by lia.
              replace (y + (k + 1) * dy) with (y + dy + k * dy) by lia. done.
           ++ rewrite seqZ_0_succ by lia. rewrite fmap_cons, <- list_fmap_compose.
              rewrite <- app_assoc. simpl.
              rewrite !Z.mul_0_l, !Z.add_0_r.
              f_equal; try lia;
                [f_equal; lia
                |do 2 f_equal; apply list_fmap_ext; intros ? i _; simpl; f_equal; lia].
        -- intros (k & Hk & Hw & Htr & Hspan & ->).
           destruct (Hfirst k Hk Hw Htr) as (t' & Ht' & [[-> Hty]|[Hk0 Hty]]).
           { assert (t' = t) as -> by congruence.
             pose proof (track_name_not_water tt) as Hne.
             rewrite <- Hty, Hwater in Hne. done. }
           exists (k - 1). split; [lia|]. split; [|split; [|split; [lia|]]].
           ++ intros i Hi. specialize (Hw (i + 1)).
              replace (x + (i + 1) * dx) with (x + dx + i * dx) in Hw by lia.
              replace (y + (i + 1) * dy) with (y + dy + i * dy) in Hw by lia.
              apply Hw. lia.
           ++ replace (x + dx + (k - 1) * dx) with (x + k * dx) by lia.
              replace (y + dy + (k - 1) * dy) with (y + k * dy) by lia. done.
           ++ replace k with (k - 1 + 1) at 5 by lia.
              rewrite seqZ_0_succ by lia. rewrite fmap_cons, <- list_fmap_compose.
              rewrite <- app_assoc. simpl.
              rewrite !Z.mul_0_l, !Z.add_0_r.
              f_equal; try lia;
                [f_equal; lia
                |do 2 f_equal; apply list_fmap_ext; intros ? i _; simpl; f_equal; lia].
    + destruct (String.eqb (type (building t)) (track_name tt)) eqn:Htrack.
      * apply String.eqb_eq in Htrack.
        assert (∀ k, 0 <= k →
          (∀ i, 0 <= i < k → water_tile g (x + i * dx) (y + i * dy)) →
          track_tile g tt (x + k * dx) (y + k * dy) → k = 0) as Hk0.
        { intros k Hk Hw Htr.
          destruct (Hfirst k Hk Hw Htr) as (t' & Ht' & [[-> Hty]|[Hk0 Hty]]); [done|].
          assert (t' = t) as -> by congruence.
          rewrite Hty in Hwater. done. }
        destruct (decide _) as [Hpos|Hpos].
        -- eexists. split; [done|]. intros opp. split.
           ++ intros [= <-]. exists 0. split; [lia|]. split; [intros; lia|].
              rewrite !Z.mul_0_l, !Z.add_0_r, app_nil_r. split; [by exists t|].
              split; [lia|]. done.
           ++ intros (k & Hk & Hw & Htr & Hspan & ->).
              pose proof (Hk0 k Hk Hw Htr) as ->.
              rewrite !Z.mul_0_l, !Z.add_0_r, app_nil_r. done.
        -- exists None. split; [done|]. intros opp. split; [done|].
           intros (k & Hk & Hw & Htr & Hspan & ->).
           pose proof (Hk0 k Hk Hw Htr) as ->. lia.
      * exists None. split; [by destruct (String.eqb _ "bridge")|].
        intros opp. split; [done|].
        intros (k & Hk & Hw & Htr & Hspan & ->). exfalso.
        destruct (Hfirst k Hk Hw Htr) as (t' & Ht' & [[-> Hty]|[Hk0 Hty]]);
          assert (t' = t) as -> by congruence.
        -- rewrite Hty, String.eqb_refl in Htrack. done.
        -- rewrite Hty in Hwater. done.
  - exists None. split; [done|]. intros opp. split; [done|].
    intros (k & Hk & Hw & Htr & Hspan & ->). exfalso.
    destruct (Hfirst k Hk Hw Htr) as (t' & Ht' & _).
    eapply tile_at_Some_inv in Ht'; [|done]. apply in_bounds_true in Ht'. congruence.
Qed.

Lemma scanForBridgeInDirection_spec size g sX sY dx dy o tt :
  grid_wf size g →
  ∃ r, scanForBridgeInDirection g size sX sY dx dy o tt = Some r ∧
    ∀ opp, r = Some opp ↔
      ∃ n, 1 <= n <= MAX_BRIDGE_SPAN ∧
        (∀ i, 1 <= i <= n → water_tile g (sX + i * dx) (sY + i * dy)) ∧
        track_tile g tt (sX + (n + 1) * dx) (sY + (n + 1) * dy) ∧
        opp = mkOpportunity sX sY (sX + (n + 1) * dx) (sY + (n + 1) * dy) o n
                (getBridgeTypeForSpan n)
                ((λ i, (sX + i * dx, sY + i * dy)) <$> seqZ 1 n) tt.
Proof.
  intros Hwf. unfold scanForBridgeInDirection, MAX_BRIDGE_SPAN.
  destruct (scan_loop_spec size g sX sY dx dy o tt Hwf (Z.to_nat 10 + 2) []
              (sX + dx) (sY + dy)) as (r & Hr & Hspec); [simpl; lia..|].
  exists r. split; [done|]. intros opp. rewrite Hspec. simpl.
  assert (∀ n, (λ i, (sX + dx + i * dx, sY + dy + i * dy)) <$> seqZ 0 n =
               (λ i, (sX + i * dx, sY + i * dy)) <$> seqZ 1 n) as Hseq.
  { intros n. assert (seqZ 1 n = Z.add 1 <$> seqZ 0 n) as ->.
    { by rewrite fmap_add_seqZ. }
    rewrite <- list_fmap_compose.
    apply list_fmap_ext. intros ? i _. simpl. f_equal; lia. }
  split; intros (n & Hn & Hw & Htr & Hrest).
  - destruct Hrest as [Hspan ->]. exists n. split; [lia|]. split; [|split].
    + intros i Hi. specialize (Hw (i - 1)).
      replace (sX + dx + (i - 1) * dx) with (sX + i * dx) in Hw by lia.
      replace (sY + dy + (i - 1) * dy) with (sY + i * dy) in Hw by lia.
      apply Hw. lia.
    + replace (sX + (n + 1) * dx) with (sX + dx + n * dx) by lia.
      replace (sY + (n + 1) * dy) with (sY + dy + n * dy) by lia. done.
    + rewrite Hseq. f_equal; lia.
  - subst opp. exists n. split; [lia|]. split; [|split; [|split; [lia|]]].
    + intros i Hi. specialize (Hw (i + 1)).
      replace (sX + (i + 1) * dx) with (sX + dx + i * dx) in Hw by lia.
      replace (sY + (i + 1) * dy) with (sY + dy + i * dy) in Hw by lia.
      apply Hw. lia.
    + replace (sX + dx + n * dx) with (sX + (n + 1) * dx) by lia.
      replace (sY + dy + n * dy) with (sY + (n + 1) * dy) by lia. done.
    + rewrite Hseq. f_equal; lia.
Qed.

(** The four scans [detectBridgeOpportunity] makes: a step along x is tagged
    'ns', a step along y 'ew'. *)
Definition scan_direction (dx dy : Z) (o : BridgeOrientation) : Prop :=
  (dx = -1 ∧ dy = 0 ∧ o = NS) ∨ (dx = 1 ∧ dy = 0 ∧ o = NS) ∨
  (dx = 0 ∧ dy = -1 ∧ o = EW) ∨ (dx = 0 ∧ dy = 1 ∧ o = EW).

(** What [buildBridges] writes at the [index]-th tile of a span. *)
Definition bridge_tile (bt : BridgeType) (o : BridgeOrientation) (variant : Z)
    (position : BridgePosition) (index span : Z) (tt : TrackType) (t : Tile) : Tile :=
  set_zone ZoneNone
    (set_building (createBridgeBuilding bt o variant position index span tt) t).

Lemma sort3_keep {A} (cmp : A → A → Z) a b c :
  ¬ cmp b a < 0 → ¬ cmp c a < 0 → ¬ cmp c b < 0 → sort_with cmp [a; b; c] = [a; b; c].
Proof.
  intros Hba Hca Hcb. unfold sort_with. simpl.
  rewrite (decide_False (P := cmp b a < 0)) by done. simpl.
  rewrite (decide_False (P := cmp c a < 0)) by done.
  rewrite (decide_False (P := cmp c b < 0)) by done. done.
Qed.

Lemma sort3_rev {A} (cmp : A → A → Z) a b c :
  cmp b a < 0 → cmp c b < 0 → sort_with cmp [a; b; c] = [c; b; a].
Proof.
  intros Hba Hcb. unfold sort_with. simpl.
  rewrite (decide_True (P := cmp b a < 0)) by done. simpl.
  rewrite (decide_True (P := cmp c b < 0)) by done. done.
Qed.

Lemma update_tile_eq (g g' : Grid) a b a' b' (f f' : Tile → Tile) :
  g = g' → a = a' → b = b' → f = f' → update_tile g a b f = update_tile g' a' b' f'.
Proof. by intros -> -> -> ->. Qed.

Lemma buildBridges_three g opp w p0 p1 p2 :
  head (waterTiles opp) = Some w →
  sort_with (bridge_tile_cmp (orientation opp)) (waterTiles opp) = [p0; p1; p2] →
  p0 ≠ p1 → p0 ≠ p2 → p1 ≠ p2 →
  is_Some (tile_at g p0.1 p0.2) → is_Some (tile_at g p1.1 p1.2) →
  is_Some (tile_at g p2.1 p2.2) →
  let put j pos p g :=
    update_tile g p.1 p.2
      (bridge_tile (opp_bridgeType opp) (orientation opp)
         (getBridgeVariant w.1 w.2 (opp_bridgeType opp)) pos j 3 (trackType opp)) in
  buildBridges g opp = Some (put 2 PosEnd p2 (put 1 PosMiddle p1 (put 0 PosStart p0 g))).
Proof.
  intros Hhead Hsort H01 H02 H12 [t0 Ht0] [t1 Ht1] [t2 Ht2] put.
  unfold buildBridges. rewrite Hhead, Hsort. destruct w as [wx wy].
  destruct p0 as [x0 y0], p1 as [x1 y1], p2 as [x2 y2]. simpl in *.
  rewrite Ht0. simpl.
  rewrite tile_at_update_tile, decide_False by (intros [-> ->]; done).
  rewrite Ht1. simpl.
  rewrite !tile_at_update_tile.
  rewrite (decide_False (P := x2 = x1 ∧ y2 = y1)) by (intros [-> ->]; done).
  rewrite (decide_False (P := x2 = x0 ∧ y2 = y0)) by (intros [-> ->]; done).
  rewrite Ht2. simpl. done.
Qed.

(** The scan and the construction, each on its own.  (1) For a straight run
    "track, water, water, water, track" in any well-formed grid, scanned in
    any of the four directions [detectBridgeOpportunity] uses, the scan
    reports a span of 3 of type 'large', and [buildBridges] writes bridge
    buildings to the three water tiles and to nothing else, tagged 'start',
    'middle', 'end' with indices 0, 1, 2 in ascending coordinate order.
    (2) Span 1 is 'small', spans 2 to 5 are 'large', longer spans are
    'suspension'.  (3) A scan reports an opportunity only for a run of 1 to
    10 water tiles that is followed by a tile of the scanned track type;
    [checkAndCreateBridges] builds nothing without an opportunity. *)
Lemma bridge_scan_and_build size g sX sY dx dy o tt :
  grid_wf size g →
  scan_direction dx dy o →
  ((∀ i, 1 <= i <= 3 → water_tile g (sX + i * dx) (sY + i * dy)) →
   track_tile g tt (sX + 4 * dx) (sY + 4 * dy) →
   let lx := Z.min (sX + dx) (sX + 3 * dx) in
   let ly := Z.min (sY + dy) (sY + 3 * dy) in
   let variant := getBridgeVariant (sX + dx) (sY + dy) BridgeLarge in
   let put j pos g :=
     update_tile g (lx + j * Z.abs dx) (ly + j * Z.abs dy)
       (bridge_tile BridgeLarge o variant pos j 3 tt) in
   ∃ opp, scanForBridgeInDirection g size sX sY dx dy o tt = Some (Some opp) ∧
     span opp = 3 ∧ opp_bridgeType opp = BridgeLarge ∧
     buildBridges g opp = Some (put 2 PosEnd (put 1 PosMiddle (put 0 PosStart g)))) ∧
  (∀ n, (n = 1 → getBridgeTypeForSpan n = BridgeSmall) ∧
        (2 <= n <= 5 → getBridgeTypeForSpan n = BridgeLarge) ∧
        (5 < n → getBridgeTypeForSpan n = BridgeSuspension)) ∧
  (∃ r, scanForBridgeInDirection g size sX sY dx dy o tt = Some r ∧
     (∀ opp, r = Some opp →
        1 <= span opp <= 10 ∧
        Z.of_nat (length (waterTiles opp)) = span opp ∧
        (∀ i, 1 <= i <= span opp → water_tile g (sX + i * dx) (sY + i * dy)) ∧
        track_tile g tt (sX + (span opp + 1) * dx) (sY + (span opp + 1) * dy) ∧
        opp_bridgeType opp = getBridgeTypeForSpan (span opp))) ∧
  (∀ x y, detectBridgeOpportunity g size x y tt = Some None →
          checkAndCreateBridges g size x y tt = Some g).
Proof.
  intros Hwf Hdir.
  destruct (scanForBridgeInDirection_spec size g sX sY dx dy o tt Hwf)
    as (r & Hr & Hspec).
  split; [|split; [|split]].
  - intros Hw Htr lx ly variant put.
    eexists. split.
    { rewrite Hr. f_equal. apply Hspec. exists 3. unfold MAX_BRIDGE_SPAN.
      split; [lia|]. split; [done|]. split; [done|]. reflexivity. }
    split; [done|]. split; [done|].
    destruct (Hw 1) as (t1 & Ht1 & _); [lia|].
    destruct (Hw 2) as (t2 & Ht2 & _); [lia|].
    destruct (Hw 3) as (t3 & Ht3 & _); [lia|].
    subst lx ly variant put.
    destruct Hdir as [(-> & -> & ->)|[(-> & -> & ->)|[(-> & -> & ->)|(-> & -> & ->)]]].
    + rewrite (buildBridges_three g _ (sX + 1 * -1, sY + 1 * 0)
                 (sX + 3 * -1, sY + 3 * 0) (sX + 2 * -1, sY + 2 * 0)
                 (sX + 1 * -1, sY + 1 * 0)); simpl;
        [|done|apply sort3_rev; simpl; repeat case_decide; lia
         |intros [=]; lia|intros [=]; lia|intros [=]; lia
         |by eexists|by eexists|by eexists].
      change (getBridgeTypeForSpan 3) with BridgeLarge. f_equal.
      repeat (apply update_tile_eq; [|lia|lia|by rewrite ?Z.mul_1_l, ?Z.mul_0_r]). done.
    + rewrite (buildBridges_three g _ (sX + 1 * 1, sY + 1 * 0)
                 (sX + 1 * 1, sY + 1 * 0) (sX + 2 * 1, sY + 2 * 0)
                 (sX + 3 * 1, sY + 3 * 0)); simpl;
        [|done|apply sort3_keep; simpl; repeat case_decide; lia
         |intros [=]; lia|intros [=]; lia|intros [=]; lia
         |by eexists|by eexists|by eexists].
      change (getBridgeTypeForSpan 3) with BridgeLarge. f_equal.
      repeat (apply update_tile_eq; [|lia|lia|by rewrite ?Z.mul_1_l, ?Z.mul_0_r]). done.
    + rewrite (buildBridges_three g _ (sX + 1 * 0, sY + 1 * -1)
                 (sX + 3 * 0, sY + 3 * -1) (sX + 2 * 0, sY + 2 * -1)
                 (sX + 1 * 0, sY + 1 * -1)); simpl;
        [|done|apply sort3_rev; simpl; repeat case_decide; lia
         |intros [=]; lia|intros [=]; lia|intros [=]; lia
         |by eexists|by eexists|by eexists].
      change (getBridgeTypeForSpan 3) with BridgeLarge. f_equal.
      repeat (apply update_tile_eq; [|lia|lia|by rewrite ?Z.mul_1_l, ?Z.mul_0_r]). done.
    + rewrite (buildBridges_three g _ (sX + 1 * 0, sY + 1 * 1)
                 (sX + 1 * 0, sY + 1 * 1) (sX + 2 * 0, sY + 2 * 1)
                 (sX + 3 * 0, sY + 3 * 1)); simpl;
        [|done|apply sort3_keep; simpl; repeat case_decide; lia
         |intros [=]; lia|intros [=]; lia|intros [=]; lia
         |by eexists|by eexists|by eexists].
      change (getBridgeTypeForSpan 3) with BridgeLarge. f_equal.
      repeat (apply update_tile_eq; [|lia|lia|by rewrite ?Z.mul_1_l, ?Z.mul_0_r]). done.
  - intros n. unfold getBridgeTypeForSpan, BRIDGE_TYPE_THRESHOLDS_large.
    repeat case_decide; split_and!; intros; try done; lia.
  - exists r. split; [done|].
    intros opp ->. destruct (proj1 (Hspec opp) eq_refl) as (n & Hn & Hw & Htr & ->).
    simpl. unfold MAX_BRIDGE_SPAN in Hn.
    rewrite length_fmap, length_seqZ. split_and!; try done; lia.
  - intros x y. unfold checkAndCreateBridges. by intros ->.
Qed.

(** The specification's example through the exported entry point: on the
    5 x 5 world whose top row is road, water, water, water, road,
    [createBridgesOnPath] turns exactly the three water tiles into 'large'
    bridge tiles tagged start, middle, end. *)
Definition bridged_example_grid : Grid :=
  make_grid 5 (λ x y,
    if decide (y = 0 ∧ 1 <= x <= 3) then
      bridge_tile BridgeLarge NS 1
        (if decide (x = 1) then PosStart else if decide (x = 3) then PosEnd else PosMiddle)
        (x - 1) 3 TrackRoad (createTile x y "water")
    else if decide (y = 0) then createTile x y "road"
    else createTile x y "grass").

Example createBridgesOnPath_example :
  createBridgesOnPath bridge_example_state bridge_example_path TrackRoad =
  Some (with_grid bridge_example_state bridged_example_grid).
Proof. vm_compute. reflexivity. Qed.

(* ------------------------------------------------------------------ *)
(** *** Detection and construction together *)

Lemma sort_insert_perm {A} (cmp : A → A → Z) (a : A) (l : list A) :
  sort_insert cmp a l ≡ₚ a :: l.
Proof.
  induction l as [|b l IH]; simpl; [done|].
  destruct (decide (cmp a b < 0)); [done|].
  rewrite IH. apply Permutation_swap.
Qed.

Lemma sort_with_perm {A} (cmp : A → A → Z) (l : list A) : sort_with cmp l ≡ₚ l.
Proof.
  unfold sort_with. rewrite <- (reverse_Permutation l) at 2.
  induction (reverse l) as [|a l' IH]; simpl; [done|].
  by rewrite sort_insert_perm, IH.
Qed.

(** The loop of [buildBridges] over the indexed tiles of a span. *)
Lemma build_loop (P : Z → BridgePosition) bt o v span tt (l : list (Z * (Z * Z))) : ∀ g,
  (∀ a b, (a, b) ∈ l.*2 → is_Some (tile_at g a b)) →
  ∃ g', for_each (λ g '(index, (px, py)),
          _ ← tile_at g px py;
          Some (update_tile g px py (λ t,
            set_zone ZoneNone
              (set_building (createBridgeBuilding bt o v (P index) index span tt) t))))
          g l = Some g' ∧
    ∀ a b,
      ((a, b) ∈ l.*2 →
         ∃ t idx, tile_at g a b = Some t ∧ (idx, (a, b)) ∈ l ∧
           tile_at g' a b = Some (bridge_tile bt o v (P idx) idx span tt t)) ∧
      ((a, b) ∉ l.*2 → tile_at g' a b = tile_at g a b).
Proof.
  induction l as [|[index [px py]] l IH]; intros g Hex.
  { exists g. split; [done|]. intros a b. split; [|done]. by intros ?%elem_of_nil. }
  cbn [for_each]. destruct (Hex px py) as [t0 Ht0]; [apply elem_of_cons; by left|].
  rewrite Ht0. cbn [mbind option_bind].
  set (g1 := update_tile g px py _).
  assert (∀ a b, tile_at g1 a b =
            if decide (a = px ∧ b = py)
            then bridge_tile bt o v (P index) index span tt <$> tile_at g px py
            else tile_at g a b) as Hg1.
  { intros a b. unfold g1. apply tile_at_update_tile. }
  destruct (IH g1) as (g' & Hrun & Hspec).
  { intros a b Hin. rewrite Hg1. destruct (decide _); [by rewrite Ht0; eexists|].
    apply Hex. rewrite fmap_cons. apply elem_of_cons. by right. }
  exists g'. split; [done|]. intros a b. destruct (Hspec a b) as [Hin Hout].
  rewrite fmap_cons. cbn [snd]. split.
  - intros Hmem.
    destruct (decide ((a, b) ∈ l.*2)) as [Hl|Hl].
    + destruct (Hin Hl) as (t1 & idx1 & Ht1 & Hmem1 & Ht').
      rewrite Hg1 in Ht1. destruct (decide (a = px ∧ b = py)) as [[-> ->]|Hne].
      * rewrite Ht0 in Ht1. injection Ht1 as <-. exists t0, idx1.
        split; [done|]. split; [apply elem_of_cons; by right|]. by rewrite Ht'.
      * exists t1, idx1. split; [done|]. split; [apply elem_of_cons; by right|done].
    + apply elem_of_cons in Hmem as [[= -> ->]|Hmem]; [|done].
      exists t0, index. split; [done|]. split; [apply elem_of_cons; by left|].
      rewrite (Hout Hl), Hg1, decide_True, Ht0 by done. done.
  - intros Hnot. rewrite not_elem_of_cons in Hnot. destruct Hnot as [Hne Hnot].
    rewrite (Hout Hnot), Hg1.
    rewrite decide_False; [done|]. intros [-> ->]. done.
Qed.

Lemma zip_seqZ_snd {A} (l : list A) : (zip (seqZ 0 (Z.of_nat (length l))) l).*2 = l.
Proof.
  apply snd_zip. rewrite length_seqZ. lia.
Qed.

Lemma zip_seqZ_index {A} (l : list A) idx a :
  (idx, a) ∈ zip (seqZ 0 (Z.of_nat (length l))) l → 0 <= idx < Z.of_nat (length l).
Proof.
  intros Hin%elem_of_zip_l. apply elem_of_seqZ in Hin. lia.
Qed.

(** The position tag [buildBridges] gives to the tile of index [index] in a
    span of [span] tiles. *)
Definition position_in_span (span index : Z) : BridgePosition :=
  if decide (index = 0) then PosStart
  else if decide (index = span - 1) then PosEnd
  else PosMiddle.

(** What [buildBridges] leaves of the grid: every tile of the span is a
    bridge tile of the opportunity's type, orientation and track, tagged by
    its index in the span, and every other tile is untouched. *)
Lemma buildBridges_spec g opp :
  waterTiles opp ≠ [] →
  (∀ a b, (a, b) ∈ waterTiles opp → is_Some (tile_at g a b)) →
  let n := Z.of_nat (length (waterTiles opp)) in
  ∃ g', buildBridges g opp = Some g' ∧
    ∀ a b,
      ((a, b) ∈ waterTiles opp →
         ∃ t idx v, tile_at g a b = Some t ∧ 0 <= idx < n ∧
           tile_at g' a b =
             Some (bridge_tile (opp_bridgeType opp) (orientation opp) v
                     (position_in_span n idx) idx n (trackType opp) t)) ∧
      ((a, b) ∉ waterTiles opp → tile_at g' a b = tile_at g a b).
Proof.
  intros Hne Hex. cbv zeta. unfold buildBridges.
  destruct (waterTiles opp) as [|[wx wy] rest] eqn:Hwt; [done|]. cbn [head mbind option_bind].
  rewrite <- Hwt in *. clear Hne.
  set (sorted := sort_with (bridge_tile_cmp (orientation opp)) (waterTiles opp)).
  assert (sorted ≡ₚ waterTiles opp) as Hperm by apply sort_with_perm.
  assert (length sorted = length (waterTiles opp)) as Hlen by (by rewrite Hperm).
  destruct (build_loop (position_in_span (Z.of_nat (length sorted)))
              (opp_bridgeType opp) (orientation opp)
              (getBridgeVariant wx wy (opp_bridgeType opp)) (Z.of_nat (length sorted))
              (trackType opp) (zip (seqZ 0 (Z.of_nat (length sorted))) sorted) g)
    as (g' & Hrun & Hspec).
  { intros a b. rewrite zip_seqZ_snd, Hperm. apply Hex. }
  exists g'. split; [exact Hrun|]. intros a b. destruct (Hspec a b) as [Hin Hout].
  rewrite zip_seqZ_snd, Hperm in Hin, Hout. split; [|done].
  intros Hmem. destruct (Hin Hmem) as (t & idx & Ht & Hidx & Ht').
  apply zip_seqZ_index in Hidx. rewrite <- Hlen.
  exists t, idx, (getBridgeVariant wx wy (opp_bridgeType opp)).
  split; [done|]. split; [exact Hidx|]. exact Ht'.
Qed.

(** A run of [n] water tiles from (sX, sY) in the direction (dx, dy) that
    ends at a tile of the track type. *)
Definition water_run (g : Grid) (tt : TrackType) (sX sY dx dy n : Z) : Prop :=
  (∀ i, 1 <= i <= n → water_tile g (sX + i * dx) (sY + i * dy)) ∧
  track_tile g tt (sX + (n + 1) * dx) (sY + (n + 1) * dy).

(** (a, b) is one of the [n] tiles after (sX, sY) in the direction (dx, dy). *)
Definition on_run (sX sY dx dy n a b : Z) : Prop :=
  ∃ i, 1 <= i <= n ∧ a = sX + i * dx ∧ b = sY + i * dy.

(** Seen from (x, y), the direction (dx, dy) is the only one of the four
    with a run of 1 to 10 water tiles that ends at a track tile. *)
Definition no_other_run (g : Grid) (tt : TrackType) (x y dx dy : Z) : Prop :=
  ∀ dx' dy' o', scan_direction dx' dy' o' → ¬ (dx' = dx ∧ dy' = dy) →
    ¬ ∃ n, 1 <= n <= 10 ∧ water_run g tt x y dx' dy' n.

(** The water from (x, y) in the direction (dx, dy) is no bridgeable run: it
    is longer than 10 tiles, or it is followed by a tile that is neither
    water nor of the track type (the edge of the map included). *)
Definition run_fails (g : Grid) (tt : TrackType) (x y dx dy : Z) : Prop :=
  (∀ i, 1 <= i <= 11 → water_tile g (x + i * dx) (y + i * dy)) ∨
  ∃ n, 0 <= n ∧
    (∀ i, 1 <= i <= n → water_tile g (x + i * dx) (y + i * dy)) ∧
    ¬ water_tile g (x + (n + 1) * dx) (y + (n + 1) * dy) ∧
    ¬ track_tile g tt (x + (n + 1) * dx) (y + (n + 1) * dy).

Lemma water_not_track g tt a b : water_tile g a b → track_tile g tt a b → False.
Proof.
  intros (t & Ht & Hw) (t' & Ht' & Htr).
  assert (t' = t) as -> by congruence.
  pose proof (track_name_not_water tt) as Hne. by rewrite <- Htr, Hw in Hne.
Qed.

Lemma run_fails_no_run g tt x y dx dy :
  run_fails g tt x y dx dy → ¬ ∃ n, 1 <= n <= 10 ∧ water_run g tt x y dx dy n.
Proof.
  intros Hfail (n & Hn & Hw & Htr). destruct Hfail as [Hlong|(m & Hm & Hwm & Hnw & Hnt)].
  - apply (water_not_track g tt _ _ (Hlong (n + 1) ltac:(lia)) Htr).
  - destruct (Z.lt_trichotomy n m) as [Hlt|[->|Hgt]].
    + apply (water_not_track g tt _ _ (Hwm (n + 1) ltac:(lia)) Htr).
    + done.
    + apply Hnw, Hw. lia.
Qed.

Lemma scan_finds_run size g sX sY dx dy o tt opp :
  grid_wf size g →
  scanForBridgeInDirection g size sX sY dx dy o tt = Some (Some opp) →
  1 <= span opp <= 10 ∧ water_run g tt sX sY dx dy (span opp) ∧
  opp_bridgeType opp = getBridgeTypeForSpan (span opp) ∧
  orientation opp = o ∧ trackType opp = tt ∧
  Z.of_nat (length (waterTiles opp)) = span opp ∧
  ∀ a b, (a, b) ∈ waterTiles opp ↔ on_run sX sY dx dy (span opp) a b.
Proof.
  intros Hwf Hscan.
  destruct (scanForBridgeInDirection_spec size g sX sY dx dy o tt Hwf) as (r & Hr & Hspec).
  rewrite Hscan in Hr. injection Hr as <-.
  destruct (proj1 (Hspec opp) eq_refl) as (n & Hn & Hw & Htr & ->). simpl.
  unfold MAX_BRIDGE_SPAN in Hn. rewrite length_fmap, length_seqZ.
  split_and!; try done; try lia.
  intros a b. rewrite list_elem_of_fmap. unfold on_run. split.
  - intros (i & [= -> ->] & Hi%elem_of_seqZ). exists i. split; [lia|done].
  - intros (i & Hi & -> & ->). exists i. split; [done|]. apply elem_of_seqZ. lia.
Qed.

Lemma scan_misses_without_run size g sX sY dx dy o tt :
  grid_wf size g →
  (¬ ∃ n, 1 <= n <= 10 ∧ water_run g tt sX sY dx dy n) →
  scanForBridgeInDirection g size sX sY dx dy o tt = Some None.
Proof.
  intros Hwf Hnot.
  destruct (scanForBridgeInDirection_spec size g sX sY dx dy o tt Hwf) as (r & Hr & Hspec).
  rewrite Hr. destruct r as [opp|]; [|done]. exfalso. apply Hnot.
  exists (span opp). by destruct (scan_finds_run size g sX sY dx dy o tt opp Hwf Hr) as (? & ? & _).
Qed.

(** From a track tile with no bridgeable run in the other directions,
    detection is the scan in the one direction left. *)
Lemma detect_in_direction size g x y dx dy o tt :
  grid_wf size g → track_tile g tt x y → scan_direction dx dy o →
  no_other_run g tt x y dx dy →
  detectBridgeOpportunity g size x y tt = scanForBridgeInDirection g size x y dx dy o tt.
Proof.
  intros Hwf (t & Ht & Hty) Hdir Hother. unfold detectBridgeOpportunity.
  rewrite Ht, Hty, String.eqb_refl. cbn [negb].
  assert (∀ dx' dy' o', scan_direction dx' dy' o' → ¬ (dx' = dx ∧ dy' = dy) →
            scanForBridgeInDirection g size x y dx' dy' o' tt = Some None) as Hnone.
  { intros dx' dy' o' Hd Hne. apply scan_misses_without_run; [done|].
    by eapply Hother. }
  destruct (scanForBridgeInDirection_spec size g x y dx dy o tt Hwf) as (r & Hr & _).
  unfold scan_direction in Hdir.
  destruct Hdir as [(-> & -> & ->)|[(-> & -> & ->)|[(-> & -> & ->)|(-> & -> & ->)]]].
  - rewrite Hr. destruct r; [done|]. cbn [or_else mbind option_bind].
    rewrite (Hnone 1 0 NS), (Hnone 0 (-1) EW), (Hnone 0 1 EW);
      first [done|by (unfold scan_direction; tauto)|by (intros [? ?]; lia)].
  - rewrite (Hnone (-1) 0 NS);
      [|first [by (unfold scan_direction; tauto)|by (intros [? ?]; lia)]..].
    cbn [or_else mbind option_bind]. rewrite Hr. destruct r; [done|].
    cbn [or_else mbind option_bind].
    rewrite (Hnone 0 (-1) EW), (Hnone 0 1 EW);
      first [done|by (unfold scan_direction; tauto)|by (intros [? ?]; lia)].
  - rewrite (Hnone (-1) 0 NS), (Hnone 1 0 NS);
      [|first [by (unfold scan_direction; tauto)|by (intros [? ?]; lia)]..].
    cbn [or_else mbind option_bind]. rewrite Hr. destruct r; [done|].
    cbn [or_else mbind option_bind].
    rewrite (Hnone 0 1 EW);
      first [done|by (unfold scan_direction; tauto)|by (intros [? ?]; lia)].
  - rewrite (Hnone (-1) 0 NS), (Hnone 1 0 NS), (Hnone 0 (-1) EW);
      [|first [by (unfold scan_direction; tauto)|by (intros [? ?]; lia)]..].
    cbn [or_else mbind option_bind]. by rewrite Hr.
Qed.

(** An opportunity [detectBridgeOpportunity] reports comes from one of its
    four scans. *)
Lemma detect_reports_scan size g x y tt opp :
  detectBridgeOpportunity g size x y tt = Some (Some opp) →
  track_tile g tt x y ∧
  ∃ dx dy o, scan_direction dx dy o ∧
    scanForBridgeInDirection g size x y dx dy o tt = Some (Some opp).
Proof.
  unfold detectBridgeOpportunity.
  destruct (tile_at g x y) as [t|] eqn:Ht; [|done].
  destruct (String.eqb (type (building t)) (track_name tt)) eqn:Hty; [|done].
  apply String.eqb_eq in Hty. cbn [negb]. intros Hdet.
  split; [by exists t|].
  unfold or_else in Hdet.
  destruct (scanForBridgeInDirection g size x y (-1) 0 NS tt) as [[o1|]|] eqn:H1;
    [| |done]; cbn [mbind option_bind] in Hdet.
  { injection Hdet as ->. exists (-1), 0, NS. split; [unfold scan_direction; tauto|done]. }
  destruct (scanForBridgeInDirection g size x y 1 0 NS tt) as [[o2|]|] eqn:H2;
    [| |done]; cbn [mbind option_bind] in Hdet.
  { injection Hdet as ->. exists 1, 0, NS. split; [unfold scan_direction; tauto|done]. }
  destruct (scanForBridgeInDirection g size x y 0 (-1) EW tt) as [[o3|]|] eqn:H3;
    [| |done]; cbn [mbind option_bind] in Hdet.
  { injection Hdet as ->. exists 0, (-1), EW. split; [unfold scan_direction; tauto|done]. }
  exists 0, 1, EW. split; [unfold scan_direction; tauto|done].
Qed.

Lemma detectBridgeOpportunity_returns size g x y tt :
  grid_wf size g → is_Some (detectBridgeOpportunity g size x y tt).
Proof.
  intros Hwf. unfold detectBridgeOpportunity.
  destruct (tile_at g x y) as [t|]; [|done].
  destruct (negb _); [done|].
  destruct (scanForBridgeInDirection_spec size g x y (-1) 0 NS tt Hwf) as (r1 & -> & _).
  destruct (scanForBridgeInDirection_spec size g x y 1 0 NS tt Hwf) as (r2 & -> & _).
  destruct (scanForBridgeInDirection_spec size g x y 0 (-1) EW tt Hwf) as (r3 & -> & _).
  destruct (scanForBridgeInDirection_spec size g x y 0 1 EW tt Hwf) as (r4 & -> & _).
  unfold or_else. by destruct r1, r2, r3, r4.
Qed.

Lemma no_run_no_bridge size g x y tt :
  grid_wf size g →
  (∀ dx dy o, scan_direction dx dy o →
     ¬ ∃ n, 1 <= n <= 10 ∧ water_run g tt x y dx dy n) →
  checkAndCreateBridges g size x y tt = Some g.
Proof.
  intros Hwf Hnone. unfold checkAndCreateBridges.
  destruct (detectBridgeOpportunity_returns size g x y tt Hwf) as [[opp|] Hdet];
    rewrite Hdet; [|done].
  exfalso. destruct (detect_reports_scan size g x y tt opp Hdet)
    as (_ & dx & dy & o & Hdir & Hscan).
  destruct (scan_finds_run size g x y dx dy o tt opp Hwf Hscan) as (Hspan & Hrun & _).
  apply (Hnone dx dy o Hdir). by exists (span opp).
Qed.

(** Whatever [detectBridgeOpportunity] reports, [checkAndCreateBridges]
    builds: the tiles of the detected run become bridge tiles of the type of
    the span, and no other tile changes. *)
Lemma detected_run_bridged size g x y tt opp :
  grid_wf size g →
  detectBridgeOpportunity g size x y tt = Some (Some opp) →
  ∃ dx dy o g', scan_direction dx dy o ∧ track_tile g tt x y ∧
    1 <= span opp <= 10 ∧ water_run g tt x y dx dy (span opp) ∧
    checkAndCreateBridges g size x y tt = Some g' ∧
    (∀ a b, on_run x y dx dy (span opp) a b →
       ∃ t' idx, tile_at g' a b = Some t' ∧ 0 <= idx < span opp ∧
         type (building t') = "bridge" ∧
         bridgeType (building t') = Some (getBridgeTypeForSpan (span opp)) ∧
         bridgePosition (building t') = Some (position_in_span (span opp) idx) ∧
         bridgeIndex (building t') = Some idx ∧
         bridgeSpan (building t') = Some (span opp) ∧
         bridgeOrientation (building t') = Some o ∧
         bridgeTrackType (building t') = Some tt ∧
         zone t' = ZoneNone) ∧
    (∀ a b, ¬ on_run x y dx dy (span opp) a b → tile_at g' a b = tile_at g a b).
Proof.
  intros Hwf Hdet.
  destruct (detect_reports_scan size g x y tt opp Hdet)
    as (Htrack & dx & dy & o & Hdir & Hscan).
  destruct (scan_finds_run size g x y dx dy o tt opp Hwf Hscan)
    as (Hspan & Hrun & Hty & Ho & Htt & Hlen & Hmem).
  destruct (buildBridges_spec g opp) as (g' & Hbuild & Hspec).
  { intros Hnil. rewrite Hnil in Hlen. simpl in Hlen. lia. }
  { intros a b Hin. apply Hmem in Hin as (i & Hi & -> & ->).
    destruct (proj1 Hrun i Hi) as (t & Ht & _). by exists t. }
  exists dx, dy, o, g'. split; [done|]. split; [done|]. split; [done|]. split; [done|].
  split; [unfold checkAndCreateBridges; by rewrite Hdet|].
  rewrite Hlen, Hty, Ho, Htt in Hspec.
  split; intros a b Hon.
  - destruct (Hspec a b) as [Hin _].
    destruct Hin as (t & idx & v & Ht & Hidx & Ht'); [by apply Hmem|].
    eexists _, idx. split; [exact Ht'|]. by split.
  - destruct (Hspec a b) as [_ Hout]. apply Hout. by rewrite Hmem.
Qed.

(** The position tag of the [j]-th tile of a span of three. *)
Definition position_of_three (j : Z) : BridgePosition :=
  if decide (j = 0) then PosStart else if decide (j = 2) then PosEnd else PosMiddle.

(** A straight run of three water tiles, scanned and built: the scan
    reports a span of 3 of type 'large', and [buildBridges] turns the three
    tiles into bridge tiles tagged 'start', 'middle', 'end' in ascending
    coordinate order, and nothing else. *)
Lemma three_run_built size g sX sY dx dy o tt :
  let lx := Z.min (sX + dx) (sX + 3 * dx) in
  let ly := Z.min (sY + dy) (sY + 3 * dy) in
  grid_wf size g → scan_direction dx dy o → water_run g tt sX sY dx dy 3 →
  ∃ opp g',
    scanForBridgeInDirection g size sX sY dx dy o tt = Some (Some opp) ∧
    span opp = 3 ∧ opp_bridgeType opp = BridgeLarge ∧
    buildBridges g opp = Some g' ∧ grid_wf size g' ∧
    (∀ j, 0 <= j <= 2 →
       ∃ t', tile_at g' (lx + j * Z.abs dx) (ly + j * Z.abs dy) = Some t' ∧
         type (building t') = "bridge" ∧
         bridgeType (building t') = Some BridgeLarge ∧
         bridgePosition (building t') = Some (position_of_three j) ∧
         bridgeIndex (building t') = Some j ∧
         bridgeSpan (building t') = Some 3 ∧
         bridgeOrientation (building t') = Some o ∧
         bridgeTrackType (building t') = Some tt ∧
         zone t' = ZoneNone) ∧
    (∀ a b, ¬ on_run sX sY dx dy 3 a b → tile_at g' a b = tile_at g a b).
Proof.
  intros lx ly Hwf Hdir [Hw Hend].
  destruct (bridge_scan_and_build size g sX sY dx dy o tt Hwf Hdir)
    as (Hbuild & _).
  destruct (Hbuild Hw Hend) as (opp & Hscan & Hspan & Hty & Hg'). clear Hbuild.
  fold lx ly in Hg'.
  set (variant := getBridgeVariant (sX + dx) (sY + dy) BridgeLarge) in *.
  set (put := λ (j : Z) (pos : BridgePosition) (g : Grid),
         update_tile g (lx + j * Z.abs dx) (ly + j * Z.abs dy)
           (bridge_tile BridgeLarge o variant pos j 3 tt)) in *.
  set (g' := put 2 PosEnd (put 1 PosMiddle (put 0 PosStart g))) in *.
  (* the three positions are the tiles of the run *)
  assert (∀ j, 0 <= j <= 2 →
            ∃ i, 1 <= i <= 3 ∧ lx + j * Z.abs dx = sX + i * dx ∧
                 ly + j * Z.abs dy = sY + i * dy) as Hpos.
  { intros j Hj. subst lx ly. unfold scan_direction in Hdir.
    destruct Hdir as [(-> & -> & _)|[(-> & -> & _)|[(-> & -> & _)|(-> & -> & _)]]].
    - exists (3 - j). simpl. lia.
    - exists (1 + j). simpl. lia.
    - exists (3 - j). simpl. lia.
    - exists (1 + j). simpl. lia. }
  assert (Z.abs dx + Z.abs dy = 1) as Hunit.
  { unfold scan_direction in Hdir. lia. }
  (* reading the new grid *)
  assert (∀ a b, tile_at g' a b =
            if decide (a = lx + 2 * Z.abs dx ∧ b = ly + 2 * Z.abs dy)
            then bridge_tile BridgeLarge o variant PosEnd 2 3 tt <$> tile_at g a b
            else if decide (a = lx + 1 * Z.abs dx ∧ b = ly + 1 * Z.abs dy)
            then bridge_tile BridgeLarge o variant PosMiddle 1 3 tt <$> tile_at g a b
            else if decide (a = lx + 0 * Z.abs dx ∧ b = ly + 0 * Z.abs dy)
            then bridge_tile BridgeLarge o variant PosStart 0 3 tt <$> tile_at g a b
            else tile_at g a b) as Hread.
  { intros a b. subst g' put. cbv beta. rewrite tile_at_update_tile.
    destruct (decide (a = lx + 2 * Z.abs dx ∧ b = ly + 2 * Z.abs dy)) as [[Ha Hb]|H2].
    { rewrite tile_at_update_tile, decide_False by lia.
      rewrite tile_at_update_tile, decide_False by lia. by rewrite Ha, Hb. }
    rewrite tile_at_update_tile.
    destruct (decide (a = lx + 1 * Z.abs dx ∧ b = ly + 1 * Z.abs dy)) as [[Ha Hb]|H1].
    { rewrite tile_at_update_tile, decide_False by lia. by rewrite Ha, Hb. }
    rewrite tile_at_update_tile.
    destruct (decide (a = lx + 0 * Z.abs dx ∧ b = ly + 0 * Z.abs dy)) as [[Ha Hb]|H0];
      [by rewrite Ha, Hb|done]. }
  exists opp, g'. split; [done|]. split; [done|]. split; [done|]. split; [done|].
  split; [subst g' put; cbv beta; by repeat apply grid_wf_update_tile|]. split.
  - intros j Hj. destruct (Hpos j Hj) as (i & Hi & Hx & Hy).
    destruct (Hw i Hi) as (t & Ht & _). rewrite <- Hx, <- Hy in Ht.
    rewrite Hread, Ht.
    assert (j = 0 ∨ j = 1 ∨ j = 2) as [-> | [-> | ->]] by lia.
    + rewrite decide_False by lia. rewrite decide_False by lia.
      rewrite decide_True by done. by eexists.
    + rewrite decide_False by lia. rewrite decide_True by done. by eexists.
    + rewrite decide_True by done. by eexists.
  - intros a b Hnot. rewrite Hread.
    assert (∀ j, 0 <= j <= 2 → ¬ (a = lx + j * Z.abs dx ∧ b = ly + j * Z.abs dy)) as Hj.
    { intros j Hj [Ha Hb]. apply Hnot. destruct (Hpos j Hj) as (i & ? & ? & ?).
      exists i. split; [done|]. split; congruence. }
    rewrite !decide_False; [done|apply Hj; lia..].
Qed.

(** The path track, water, water, water, track through
    [createBridgesOnPath], once the grid [g'] that [checkAndCreateBridges]
    leaves at its first tile is known to hold bridge tiles on the run and
    the old tiles elsewhere. *)
Lemma path_after_first_tile state g' sX sY dx dy o tt :
  let g := grid state in
  let size := gridSize state in
  grid_wf size g → grid_wf size g' → scan_direction dx dy o →
  track_tile g tt sX sY → water_run g tt sX sY dx dy 3 →
  no_other_run g tt (sX + 4 * dx) (sY + 4 * dy) (- dx) (- dy) →
  checkAndCreateBridges g size sX sY tt = Some g' →
  (∀ i, 1 <= i <= 3 →
     ∃ t', tile_at g' (sX + i * dx) (sY + i * dy) = Some t' ∧
           type (building t') = "bridge") →
  (∀ a b, ¬ on_run sX sY dx dy 3 a b → tile_at g' a b = tile_at g a b) →
  createBridgesOnPath state
    [(sX, sY); (sX + dx, sY + dy); (sX + 2 * dx, sY + 2 * dy);
     (sX + 3 * dx, sY + 3 * dy); (sX + 4 * dx, sY + 4 * dy)] tt
    = Some (with_grid state g').
Proof.
  intros g size Hwf Hwf' Hdir Htrack [Hw Hend] Hfar Hcheck Hbr Hout.
  unfold createBridgesOnPath. rewrite bool_decide_eq_false_2 by done.
  fold g size.
  destruct (Hw 1) as (w1 & Hw1 & Hw1t); [lia|]. rewrite !Z.mul_1_l in Hw1.
  assert (is_water_at g (sX + dx) (sY + dy) = true) as Hiw.
  { unfold is_water_at. rewrite Hw1, Hw1t. done. }
  cbn [existsb]. rewrite Hiw, orb_true_r. cbn [negb orb].
  destruct Htrack as (ts & Hts & Htst).
  cbn [for_each]. rewrite Hts, Htst, String.eqb_refl, Hcheck. cbn [mbind option_bind].
  assert (String.eqb "bridge" (track_name tt) = false) as Hnb by (by destruct tt).
  destruct (Hbr 1) as (b1 & Hb1 & Hb1t); [lia|]. rewrite !Z.mul_1_l in Hb1.
  rewrite Hb1, Hb1t, Hnb. cbn [mbind option_bind].
  destruct (Hbr 2) as (b2 & Hb2 & Hb2t); [lia|].
  rewrite Hb2, Hb2t, Hnb. cbn [mbind option_bind].
  destruct (Hbr 3) as (b3 & Hb3 & Hb3t); [lia|].
  rewrite Hb3, Hb3t, Hnb. cbn [mbind option_bind].
  destruct Hend as (te & Hte & Htet). replace (3 + 1) with 4 in Hte by lia.
  assert (tile_at g' (sX + 4 * dx) (sY + 4 * dy) = Some te) as Hte'.
  { rewrite Hout; [done|]. intros (i & Hi & Hx & Hy). unfold scan_direction in Hdir. lia. }
  rewrite Hte', Htet, String.eqb_refl.
  rewrite (no_run_no_bridge size g' (sX + 4 * dx) (sY + 4 * dy) tt Hwf'); [done|].
  intros dx' dy' o' Hdir' (n & Hn & Hrun').
  destruct (decide (dx' = - dx ∧ dy' = - dy)) as [[-> ->]|Hne].
  - destruct Hrun' as [Hw' _].
    destruct (Hw' 1) as (t1 & Ht1 & Ht1t); [lia|]. rewrite !Z.mul_1_l in Ht1.
    destruct (Hbr 3) as (b & Hb & Hbt); [lia|].
    replace (sX + 4 * dx + - dx) with (sX + 3 * dx) in Ht1 by lia.
    replace (sY + 4 * dy + - dy) with (sY + 3 * dy) in Ht1 by lia.
    rewrite Hb in Ht1. injection Ht1 as <-. by rewrite Hbt in Ht1t.
  - apply (Hfar dx' dy' o' Hdir' Hne). exists n. split; [done|].
    assert (∀ i, 1 <= i →
              tile_at g' (sX + 4 * dx + i * dx') (sY + 4 * dy + i * dy') =
              tile_at g (sX + 4 * dx + i * dx') (sY + 4 * dy + i * dy')) as Hsame.
    { intros i Hi. apply Hout. intros (k & Hk & Hx & Hy).
      unfold scan_direction in Hdir, Hdir'.
      destruct Hdir as [(-> & -> & _)|[(-> & -> & _)|[(-> & -> & _)|(-> & -> & _)]]];
        destruct Hdir' as [(-> & -> & _)|[(-> & -> & _)|[(-> & -> & _)|(-> & -> & _)]]];
        lia. }
    destruct Hrun' as [Hw' Htr']. split.
    + intros i Hi. destruct (Hw' i Hi) as (t & Ht & Hty). exists t.
      split; [|done]. rewrite <- Hsame; [done|lia].
    + destruct Htr' as (t & Ht & Hty). exists t. split; [|done].
      rewrite <- Hsame; [done|lia].
Qed.

(** C7.  In a well-formed world, for each of the four directions
    [detectBridgeOpportunity] scans:

    (1) Along a straight path track, water, water, water, track that starts
    at (sX, sY), the scan reports a span of 3 of type 'large', and
    [buildBridges] turns the three water tiles into tiles of type 'bridge',
    zone 'none', bridgeType 'large', span 3, with the orientation of the
    scan and the track type of the path; in ascending coordinate order they
    are tagged 'start', 'middle', 'end' with indices 0, 1, 2.  No other
    tile of the world changes.  This is the world [checkAndCreateBridges]
    returns at the first tile of the path when no other direction has a
    bridgeable run there, and the world [createBridgesOnPath] returns for
    the five tiles of the path when the same holds at its last tile.

    (2) Span 1 is 'small', spans 2 to 5 are 'large', longer spans are
    'suspension'.

    (3) Whenever [detectBridgeOpportunity] reports an opportunity at (x, y),
    (x, y) is a track tile, the span is between 1 and 10, its tiles are
    water and are followed by a tile of the same track type in one of the
    four directions, and [checkAndCreateBridges] turns exactly those tiles
    into bridge tiles of the type of the span.

    (4) A scan reports nothing along a direction in which the water is
    longer than 10 tiles or is followed by a tile that is neither water nor
    of the track type; and when no direction has a run of 1 to 10 water
    tiles followed by a tile of the track type, in particular when every
    direction fails in one of these two ways, [checkAndCreateBridges]
    returns the world as it is. *)
Theorem bridge_detection_on_straight_path state sX sY dx dy o tt :
  let g := grid state in
  let size := gridSize state in
  grid_wf size g →
  scan_direction dx dy o →
  (water_run g tt sX sY dx dy 3 →
   let lx := Z.min (sX + dx) (sX + 3 * dx) in
   let ly := Z.min (sY + dy) (sY + 3 * dy) in
   ∃ opp g',
     scanForBridgeInDirection g size sX sY dx dy o tt = Some (Some opp) ∧
     span opp = 3 ∧ opp_bridgeType opp = BridgeLarge ∧
     buildBridges g opp = Some g' ∧
     (∀ j, 0 <= j <= 2 →
        ∃ t', tile_at g' (lx + j * Z.abs dx) (ly + j * Z.abs dy) = Some t' ∧
          type (building t') = "bridge" ∧
          bridgeType (building t') = Some BridgeLarge ∧
          bridgePosition (building t') = Some (position_of_three j) ∧
          bridgeIndex (building t') = Some j ∧
          bridgeSpan (building t') = Some 3 ∧
          bridgeOrientation (building t') = Some o ∧
          bridgeTrackType (building t') = Some tt ∧
          zone t' = ZoneNone) ∧
     (∀ a b, ¬ on_run sX sY dx dy 3 a b → tile_at g' a b = tile_at g a b) ∧
     (track_tile g tt sX sY → no_other_run g tt sX sY dx dy →
      checkAndCreateBridges g size sX sY tt = Some g' ∧
      (no_other_run g tt (sX + 4 * dx) (sY + 4 * dy) (- dx) (- dy) →
       createBridgesOnPath state
         [(sX, sY); (sX + dx, sY + dy); (sX + 2 * dx, sY + 2 * dy);
          (sX + 3 * dx, sY + 3 * dy); (sX + 4 * dx, sY + 4 * dy)] tt
         = Some (with_grid state g')))) ∧
  (∀ n, (n = 1 → getBridgeTypeForSpan n = BridgeSmall) ∧
        (2 <= n <= 5 → getBridgeTypeForSpan n = BridgeLarge) ∧
        (5 < n → getBridgeTypeForSpan n = BridgeSuspension)) ∧
  (∀ x y opp, detectBridgeOpportunity g size x y tt = Some (Some opp) →
     ∃ dx' dy' o' g', scan_direction dx' dy' o' ∧ track_tile g tt x y ∧
       1 <= span opp <= 10 ∧ water_run g tt x y dx' dy' (span opp) ∧
       checkAndCreateBridges g size x y tt = Some g' ∧
       (∀ a b, on_run x y dx' dy' (span opp) a b →
          ∃ t' idx, tile_at g' a b = Some t' ∧ 0 <= idx < span opp ∧
            type (building t') = "bridge" ∧
            bridgeType (building t') = Some (getBridgeTypeForSpan (span opp)) ∧
            bridgePosition (building t') = Some (position_in_span (span opp) idx) ∧
            bridgeIndex (building t') = Some idx ∧
            bridgeSpan (building t') = Some (span opp) ∧
            bridgeOrientation (building t') = Some o' ∧
            bridgeTrackType (building t') = Some tt ∧
            zone t' = ZoneNone) ∧
       (∀ a b, ¬ on_run x y dx' dy' (span opp) a b → tile_at g' a b = tile_at g a b)) ∧
  (∀ x y, run_fails g tt x y dx dy →
          scanForBridgeInDirection g size x y dx dy o tt = Some None) ∧
  (∀ x y,
     (∀ dx' dy' o', scan_direction dx' dy' o' →
        run_fails g tt x y dx' dy' ∨
        ¬ ∃ n, 1 <= n <= 10 ∧ water_run g tt x y dx' dy' n) →
     checkAndCreateBridges g size x y tt = Some g).
Proof.
  intros g size Hwf Hdir. split; [|split; [|split; [|split]]].
  - intros Hrun lx ly.
    destruct (three_run_built size g sX sY dx dy o tt Hwf Hdir Hrun)
      as (opp & g' & Hscan & Hspan & Hty & Hbuild & Hwf' & Htiles & Hout).
    exists opp, g'. split_and!; try done.
    intros Htrack Hstart.
    assert (checkAndCreateBridges g size sX sY tt = Some g') as Hcheck.
    { unfold checkAndCreateBridges.
      rewrite (detect_in_direction size g sX sY dx dy o tt Hwf Htrack Hdir Hstart).
      rewrite Hscan. cbn [mbind option_bind]. done. }
    split; [done|]. intros Hfar.
    apply (path_after_first_tile state g' sX sY dx dy o tt); try done.
    intros i Hi.
    assert (∃ j, 0 <= j <= 2 ∧ sX + i * dx = lx + j * Z.abs dx ∧
                 sY + i * dy = ly + j * Z.abs dy) as (j & Hj & -> & ->).
    { subst lx ly. unfold scan_direction in Hdir.
      destruct Hdir as [(-> & -> & _)|[(-> & -> & _)|[(-> & -> & _)|(-> & -> & _)]]].
      - exists (3 - i). simpl. lia.
      - exists (i - 1). simpl. lia.
      - exists (3 - i). simpl. lia.
      - exists (i - 1). simpl. lia. }
    destruct (Htiles j Hj) as (t' & Ht' & Hty' & _). by exists t'.
  - intros n. unfold getBridgeTypeForSpan, BRIDGE_TYPE_THRESHOLDS_large.
    repeat case_decide; split_and!; intros; try done; lia.
  - intros x y opp Hdet. by apply detected_run_bridged.
  - intros x y Hfail. apply scan_misses_without_run; [done|].
    by apply run_fails_no_run.
  - intros x y Hnone. apply no_run_no_bridge; [done|].
    intros dx' dy' o' Hdir'. destruct (Hnone dx' dy' o' Hdir') as [Hfail|Hno]; [|done].
    by apply run_fails_no_run.
Qed.

Lemma no_water_no_run g tt x y dx dy :
  ¬ water_tile g (x + dx) (y + dy) → ¬ ∃ n, 1 <= n <= 10 ∧ water_run g tt x y dx dy n.
Proof.
  intros Hnot (n & Hn & Hw & _). apply Hnot. specialize (Hw 1).
  rewrite !Z.mul_1_l in Hw. apply Hw. lia.
Qed.

(** C7 at the example world: the path along the top row, from the road at
    (0, 0) eastwards. *)
Lemma bridge_detection_witness :
  ∃ opp g',
    scanForBridgeInDirection bridge_example_grid 5 0 0 1 0 NS TrackRoad
      = Some (Some opp) ∧
    span opp = 3 ∧ opp_bridgeType opp = BridgeLarge ∧
    buildBridges bridge_example_grid opp = Some g' ∧
    (∀ j, 0 <= j <= 2 →
       ∃ t', tile_at g' (1 + j) 0 = Some t' ∧
         type (building t') = "bridge" ∧
         bridgeType (building t') = Some BridgeLarge ∧
         bridgePosition (building t') = Some (position_of_three j) ∧
         bridgeIndex (building t') = Some j ∧
         bridgeSpan (building t') = Some 3) ∧
    (∀ a b, ¬ on_run 0 0 1 0 3 a b → tile_at g' a b = tile_at bridge_example_grid a b) ∧
    checkAndCreateBridges bridge_example_grid 5 0 0 TrackRoad = Some g' ∧
    createBridgesOnPath bridge_example_state bridge_example_path TrackRoad
      = Some (with_grid bridge_example_state g').
Proof.
  destruct (bridge_detection_on_straight_path bridge_example_state 0 0 1 0 NS TrackRoad)
    as [H _].
  - apply grid_wfb_spec. vm_compute. reflexivity.
  - right. left. done.
  - destruct H as (opp & g' & Hscan & Hspan & Hty & Hbuild & Htiles & Hout & Hpipe).
    + split.
      * intros i Hi. assert (i = 1 ∨ i = 2 ∨ i = 3) as [-> | [-> | ->]] by lia;
          eexists; split; vm_compute; reflexivity.
      * eexists. split; vm_compute; reflexivity.
    + assert (∀ x y dx dy, ¬ water_tile bridge_example_grid (x + dx) (y + dy) →
                ¬ ∃ n, 1 <= n <= 10 ∧
                  water_run bridge_example_grid TrackRoad x y dx dy n) as Hdry
        by (intros; by apply no_water_no_run).
      destruct Hpipe as [Hcheck Hpath].
      { eexists. split; vm_compute; reflexivity. }
      { intros dx' dy' o' Hd Hne. apply Hdry.
        intros (t & Ht & Hty'). unfold scan_direction in Hd.
        destruct Hd as [(-> & -> & _)|[(-> & -> & _)|[(-> & -> & _)|(-> & -> & _)]]];
          try (by vm_compute in Ht); [lia|].
        vm_compute in Ht. injection Ht as <-. by vm_compute in Hty'. }
      exists opp, g'. split_and!; try done.
      * intros j Hj. destruct (Htiles j Hj) as (t' & Ht' & H1 & H2 & H3 & H4 & H5 & _).
        replace (Z.min (0 + 1) (0 + 3 * 1) + j * Z.abs 1) with (1 + j) in Ht' by lia.
        replace (Z.min (0 + 0) (0 + 3 * 0) + j * Z.abs 0) with 0 in Ht' by lia.
        by exists t'.
      * apply Hpath. intros dx' dy' o' Hd Hne. apply Hdry.
        intros (t & Ht & Hty'). unfold scan_direction in Hd.
        destruct Hd as [(-> & -> & _)|[(-> & -> & _)|[(-> & -> & _)|(-> & -> & _)]]];
          try (by vm_compute in Ht); [lia|].
        vm_compute in Ht. injection Ht as <-. by vm_compute in Hty'.
Defined.

Definition bridged_example_state : GameState :=
  with_grid bridge_example_state bridged_example_grid.

(** C10 at the bridged example world: bulldozing the middle bridge tile. *)
Lemma bulldoze_bridge_removes_run_witness :
  ∃ g', bulldozeTile bridged_example_state 2 0
          = Some (with_grid bridged_example_state g') ∧
    ∀ x' y',
      (bridge_run (grid bridged_example_state) NS 2 0 x' y' →
       ∃ t t', tile_at (grid bridged_example_state) x' y' = Some t ∧
         tile_at g' x' y' = Some t' ∧
         t' = bulldoze_to "water" t ∧
         building t' = createBuilding "water" ∧ zone t' = ZoneNone ∧
         hasRailOverlay t' = Some false) ∧
      (¬ bridge_run (grid bridged_example_state) NS 2 0 x' y' →
       tile_at g' x' y' = tile_at (grid bridged_example_state) x' y').
Proof.
  destruct (tile_at (grid bridged_example_state) 2 0) as [tile|] eqn:E;
    [|by vm_compute in E].
  pose proof (bulldoze_bridge_removes_run bridged_example_state 2 0 tile) as H.
  assert (default NS (bridgeOrientation (building tile)) = NS) as Ho.
  { vm_compute in E. by injection E as <-. }
  rewrite Ho in H. apply H.
  - apply grid_wfb_spec. vm_compute. reflexivity.
  - done.
  - vm_compute in E. by injection E as <-.
Defined.

(** A catalog for the examples.  The source's catalog (types/buildings.ts)
    is not available: the ladders list the zone building types that
    simulation.ts itself names (CONSOLIDATABLE_BUILDINGS, BUILDING_SIZES),
    smallest first, and the statistics are sample values. *)
Definition sample_catalog : Catalog :=
  {| BUILDING_STATS := λ t,
       if is_type t "house_small" then Some (mkStats 6 0 0 10 None)
       else if is_type t "house_medium" then Some (mkStats 12 0 0 20 None)
       else if is_type t "shop_small" then Some (mkStats 0 4 1 10 None)
       else if is_type t "factory_small" then Some (mkStats 0 12 15 (-5) (Some "toxic"))
       else if is_type t "power_plant" then Some (mkStats 0 30 30 (-20) (Some "toxic"))
       else if is_type t "water_tower" then Some (mkStats 0 5 0 0 None)
       else if is_type t "tree" then Some (mkStats 0 0 (-5) 5 None)
       else None;
     RESIDENTIAL_BUILDINGS :=
       ["house_small"; "house_medium"; "mansion"; "apartment_low"; "apartment_high"];
     COMMERCIAL_BUILDINGS :=
       ["shop_small"; "shop_medium"; "office_low"; "office_high"; "mall"];
     INDUSTRIAL_BUILDINGS :=
       ["factory_small"; "factory_medium"; "warehouse"; "factory_large"] |}.

(** C9 at the example world: a target left of the grid, and the water tile
    at (1, 0). *)
Lemma invalid_target_is_noop_witness :
  let cat := sample_catalog in
  (placeBuilding cat bridge_example_state (-1) 2 (Some "road") None
     = Some bridge_example_state ∧
   bulldozeTile bridge_example_state (-1) 2 = Some bridge_example_state) ∧
  placeBuilding cat bridge_example_state 1 0 (Some "road") None
    = Some bridge_example_state.
Proof.
  intros cat.
  destruct (invalid_target_is_noop cat bridge_example_state (-1) 2 (Some "road") None)
    as [Hout _].
  { apply grid_wfb_spec. vm_compute. reflexivity. }
  destruct (invalid_target_is_noop cat bridge_example_state 1 0 (Some "road") None)
    as [_ Hwater].
  { apply grid_wfb_spec. vm_compute. reflexivity. }
  split.
  - apply Hout. simpl. lia.
  - eapply Hwater; vm_compute; reflexivity.
Defined.

(* ================================================================== *)
(** ** Service coverage *)
(* ================================================================== *)

Inductive QualityService := Police | Fire | Health | Education.

#[global] Instance QualityService_eq_dec : EqDecision QualityService.
Proof. solve_decision. Defined.

(** [SERVICE_CONFIG]: the base range, and the coverage field of the four
    quality services (the two utilities have none). *)
Definition SERVICE_CONFIG (t : BuildingType) : option (Z * option QualityService) :=
  if is_type t "police_station" then Some (13, Some Police)
  else if is_type t "fire_station" then Some (18, Some Fire)
  else if is_type t "hospital" then Some (24, Some Health)
  else if is_type t "school" then Some (11, Some Education)
  else if is_type t "university" then Some (19, Some Education)
  else if is_type t "power_plant" then Some (15, None)
  else if is_type t "water_tower" then Some (12, None)
  else None.

Definition SERVICE_BUILDING_TYPES : list BuildingType :=
  ["police_station"; "fire_station"; "hospital"; "school"; "university";
   "power_plant"; "water_tower"]%string.
Definition SERVICE_MAX_LEVEL : Z := 5.
Definition SERVICE_RANGE_INCREASE_PER_LEVEL : Q := 0.2.

(** [Math.sqrt] on the integers the source applies it to, to 52 fractional
    bits (the exact root of a perfect square).  The proofs below use only
    that the result is not negative. *)
Definition Math_sqrt (n : Z) : Q :=
  Qmake (Z.sqrt (n * 2 ^ 104)) (2 ^ 52).

(** [createServiceCoverage]. *)
Definition createServiceCoverage (size : Z) : ServiceCoverage :=
  let createGrid := replicate (Z.to_nat size) (replicate (Z.to_nat size) 0%Q) in
  let createBoolGrid := replicate (Z.to_nat size) (replicate (Z.to_nat size) false) in
  mkServices createGrid createGrid createGrid createGrid createBoolGrid createBoolGrid.

Definition quality (k : QualityService) (s : ServiceCoverage) : list (list Q) :=
  match k with
  | Police => police s | Fire => fire s | Health => health s | Education => education s
  end.

Definition set_quality (k : QualityService) (v : list (list Q)) (s : ServiceCoverage)
  : ServiceCoverage :=
  match k with
  | Police => mkServices v (fire s) (health s) (education s) (power s) (water s)
  | Fire => mkServices (police s) v (health s) (education s) (power s) (water s)
  | Health => mkServices (police s) (fire s) v (education s) (power s) (water s)
  | Education => mkServices (police s) (fire s) (health s) v (power s) (water s)
  end.

Definition set_power (v : list (list bool)) (s : ServiceCoverage) : ServiceCoverage :=
  mkServices (police s) (fire s) (health s) (education s) v (water s).
Definition set_water (v : list (list bool)) (s : ServiceCoverage) : ServiceCoverage :=
  mkServices (police s) (fire s) (health s) (education s) (power s) v.

(** A building collected by the first pass of [calculateServiceCoverage]. *)
Record ServiceBuilding := mkServiceBuilding {
  sb_x : Z; sb_y : Z; sb_type : BuildingType; sb_level : Z;
}.

(** [constructionProgress !== undefined && constructionProgress < 100]. *)
Definition under_construction (b : Building) : bool :=
  match constructionProgress b with
  | Some p => Qlt_b p 100
  | None => false
  end.

(** The test of the first pass: a service building that is neither under
    construction nor abandoned. *)
Definition counted_service (b : Building) : bool :=
  includes SERVICE_BUILDING_TYPES (type b) && negb (under_construction b) &&
  negb (abandoned b).

(** The first pass: the service buildings in row-major order. *)
Definition collect_service_buildings (g : Grid) (size : Z) : option (list ServiceBuilding) :=
  for_each (λ acc '(x, y),
    tile ← tile_at g x y;
    if counted_service (building tile)
    then Some (acc ++ [mkServiceBuilding x y (type (building tile)) (level (building tile))])
    else Some acc) [] (rect size size).

(** [Math.floor(baseRange * (1 + (level - 1) * SERVICE_RANGE_INCREASE_PER_LEVEL))].
    The product is taken exactly.  On the levels 1 to [SERVICE_MAX_LEVEL]
    that [createBuilding] and [upgradeServiceBuilding] give a service
    building, its floor is the floor of the double the source computes
    ([service_range_as_double]); on other levels the two may differ. *)
Definition service_range (baseRange lvl : Z) : Z :=
  Qfloor (inject_Z baseRange * (1 + (inject_Z lvl - 1) * SERVICE_RANGE_INCREASE_PER_LEVEL)).

(** The double that holds the integer [z]. *)
Definition double_of_Z (z : Z) : PrimFloat.float :=
  if z <? 0 then PrimFloat.opp (PrimFloat.of_uint63 (Uint63.of_Z (- z)))
  else PrimFloat.of_uint63 (Uint63.of_Z z).

(** The double [baseRange * (1 + (level - 1) * 0.2)] of the source; the
    literal 0.2 is the double nearest to 1/5. *)
Definition effective_range_double (baseRange lvl : Z) : PrimFloat.float :=
  PrimFloat.mul (double_of_Z baseRange)
    (PrimFloat.add (double_of_Z 1)
       (PrimFloat.mul (PrimFloat.sub (double_of_Z lvl) (double_of_Z 1))
          (PrimFloat.div (double_of_Z 1) (double_of_Z 5)))).

(** [r] is [Math.floor] of the double [v]. *)
Definition is_floor_of (v : PrimFloat.float) (r : Z) : bool :=
  PrimFloat.leb (double_of_Z r) v && PrimFloat.ltb v (double_of_Z (r + 1)).

(** For the seven base ranges of [SERVICE_CONFIG] and the levels 1 to 5,
    the floor of the exact product is the floor of the double the source
    computes. *)
Lemma service_range_as_double :
  forallb (λ baseRange,
    forallb (λ lvl,
      is_floor_of (effective_range_double baseRange lvl) (service_range baseRange lvl))
      (seqZ 1 SERVICE_MAX_LEVEL))
    [13; 18; 24; 11; 19; 15; 12] = true.
Proof. vm_compute. reflexivity. Qed.

(** The cells of [for (ny = minY; ny <= maxY; ny++) for (nx = minX; nx <= maxX; nx++)]. *)
Definition box (minX maxX minY maxY : Z) : list (Z * Z) :=
  ny ← seqZ minY (maxY - minY + 1); nx ← seqZ minX (maxX - minX + 1); [(nx, ny)].

(** A loop over cells that updates [arr[ny][nx]] where [cond] holds. *)
Definition paint {A} (arr : list (list A)) (cells : list (Z * Z))
    (cond : Z → Z → bool) (f : Z → Z → A → A) : list (list A) :=
  foldl (λ arr '(nx, ny), if cond nx ny then update_cell arr nx ny (f nx ny) else arr)
        arr cells.

(** The contribution of a quality service at squared distance [distSquared]:
    [Math.max(0, (1 - Math.sqrt(distSquared) / range) * 100)].  (For
    [range = 0] JavaScript divides 0 by 0; a service building of level 1 or
    more has a range of at least 11.) *)
Definition coverage_at (range distSquared : Z) : Q :=
  let distance := Math_sqrt distSquared in
  Qmax 0 ((1 - distance / inject_Z range) * 100).

(** The second pass, for one building. *)
Definition apply_service_building (size : Z) (services : ServiceCoverage)
    (b : ServiceBuilding) : ServiceCoverage :=
  let x := sb_x b in
  let y := sb_y b in
  match SERVICE_CONFIG (sb_type b) with
  | None => services
  | Some (baseRange, kind) =>
    let range := service_range baseRange (sb_level b) in
    let rangeSquared := range * range in
    let minY := Z.max 0 (y - range) in
    let maxY := Z.min (size - 1) (y + range) in
    let minX := Z.max 0 (x - range) in
    let maxX := Z.min (size - 1) (x + range) in
    let cells := box minX maxX minY maxY in
    let inside nx ny :=
      let dx := nx - x in let dy := ny - y in
      bool_decide (dx * dx + dy * dy <= rangeSquared) in
    if is_type (sb_type b) "power_plant" then
      set_power (paint (power services) cells inside (λ _ _ _, true)) services
    else if is_type (sb_type b) "water_tower" then
      set_water (paint (water services) cells inside (λ _ _ _, true)) services
    else
      match kind with
      | Some serviceType =>
          set_quality serviceType
            (paint (quality serviceType services) cells inside (λ nx ny cur,
               let dx := nx - x in let dy := ny - y in
               let distSquared := dx * dx + dy * dy in
               Qmin 100 (cur + coverage_at range distSquared)))
            services
      | None => services
      end
  end.

(** [calculateServiceCoverage]. *)
Definition calculateServiceCoverage (g : Grid) (size : Z) : option ServiceCoverage :=
  serviceBuildings ← collect_service_buildings g size;
  Some (foldl (apply_service_building size) (createServiceCoverage size) serviceBuildings).

(** A world with one completed service building of the given type and level
    at (bx, by), on grass. *)
Definition service_example_grid (size bx by_ : Z) (t : BuildingType) (lvl : Z) : Grid :=
  make_grid size (λ x y,
    if decide (x = bx ∧ y = by_)
    then set_building
           (set_constructionProgress (Some 100%Q) (set_level lvl (createBuilding t)))
           (createTile x y "grass")
    else createTile x y "grass").

(* ------------------------------------------------------------------ *)
(** *** Loops over cells, pointwise *)

Lemma elem_of_rect w h dx dy :
  (dx, dy) ∈ rect w h ↔ 0 <= dx < w ∧ 0 <= dy < h.
Proof.
  unfold rect. rewrite list_elem_of_bind. split.
  - intros (y & Hin & Hy). apply list_elem_of_bind in Hin as (x & Hin & Hx).
    apply list_elem_of_singleton in Hin as [= -> ->].
    apply elem_of_seqZ in Hx, Hy. lia.
  - intros [Hx Hy]. exists dy. split; [|apply elem_of_seqZ; lia].
    apply list_elem_of_bind. exists dx. split; [|apply elem_of_seqZ; lia].
    by apply list_elem_of_singleton.
Qed.

Lemma elem_of_box minX maxX minY maxY x y :
  (x, y) ∈ box minX maxX minY maxY ↔ minX <= x <= maxX ∧ minY <= y <= maxY.
Proof.
  unfold box. rewrite list_elem_of_bind. split.
  - intros (ny & Hin & Hy). apply list_elem_of_bind in Hin as (nx & Hin & Hx).
    apply list_elem_of_singleton in Hin as [= -> ->].
    apply elem_of_seqZ in Hx, Hy. lia.
  - intros [Hx Hy]. exists y. split; [|apply elem_of_seqZ; lia].
    apply list_elem_of_bind. exists x. split; [|apply elem_of_seqZ; lia].
    by apply list_elem_of_singleton.
Qed.

Lemma NoDup_box minX maxX minY maxY : NoDup (box minX maxX minY maxY).
Proof.
  unfold box. apply NoDup_bind; [| |apply NoDup_seqZ].
  - intros y1 y2 [nx ny] _ _ H1 H2.
    apply list_elem_of_bind in H1 as (? & [= _ ->]%list_elem_of_singleton & _).
    apply list_elem_of_bind in H2 as (? & [= _ ->]%list_elem_of_singleton & _).
    done.
  - intros ny _. apply NoDup_bind; [| |apply NoDup_seqZ].
    + intros x1 x2 [nx ny'] _ _ [= -> _]%list_elem_of_singleton
        [= -> _]%list_elem_of_singleton. done.
    + intros nx _. apply NoDup_singleton.
Qed.

Lemma paint_spec {A} (arr : list (list A)) cells cond f x y :
  NoDup cells →
  cell_at (paint arr cells cond f) x y =
  if decide ((x, y) ∈ cells)
  then (if cond x y then f x y <$> cell_at arr x y else cell_at arr x y)
  else cell_at arr x y.
Proof.
  unfold paint. revert arr. induction cells as [|[nx ny] cells IH]; intros arr Hnd.
  - cbn [foldl]. destruct (decide _) as [Hin|]; [by apply elem_of_nil in Hin|done].
  - apply list.NoDup_cons in Hnd as [Hnotin Hnd]. cbn [foldl]. rewrite IH by done.
    destruct (decide ((x, y) ∈ cells)) as [Hin|Hin].
    + rewrite decide_True by (apply elem_of_cons; by right).
      assert (¬ (x = nx ∧ y = ny)) as Hne by (intros [-> ->]; done).
      destruct (cond nx ny); [|done].
      rewrite tile_at_update_tile, decide_False by done. done.
    + destruct (decide (x = nx ∧ y = ny)) as [[-> ->]|Hne].
      * rewrite decide_True by (apply elem_of_cons; by left).
        destruct (cond nx ny); [|done].
        rewrite tile_at_update_tile, decide_True by done. done.
      * rewrite (decide_False (P := (x, y) ∈ (nx, ny) :: cells)).
        2:{ intros [[= -> ->]|?]%elem_of_cons; tauto. }
        destruct (cond nx ny); [|done].
        rewrite tile_at_update_tile, decide_False by done. done.
Qed.

Lemma paint_wf {A} size (arr : list (list A)) cells cond f :
  grid_wf size arr → grid_wf size (paint arr cells cond f).
Proof.
  unfold paint. revert arr. induction cells as [|[nx ny] cells IH]; intros arr Hwf.
  - done.
  - simpl. apply IH. destruct (cond nx ny); [|done]. by apply grid_wf_update_tile.
Qed.

(* ------------------------------------------------------------------ *)
(** *** The second pass, cell by cell *)

(** (x, y) is inside the loop bounds of a building at (bx, by) with range
    [range], and inside the circle. *)
Definition reach (size bx by_ range x y : Z) : bool :=
  bool_decide (Z.max 0 (bx - range) <= x <= Z.min (size - 1) (bx + range)) &&
  bool_decide (Z.max 0 (by_ - range) <= y <= Z.min (size - 1) (by_ + range)) &&
  bool_decide ((x - bx) * (x - bx) + (y - by_) * (y - by_) <= range * range).

(** The range of a collected building, from its type and level. *)
Definition building_range (b : ServiceBuilding) : Z :=
  match SERVICE_CONFIG (sb_type b) with
  | Some (baseRange, _) => service_range baseRange (sb_level b)
  | None => 0
  end.

(** The quality field a building feeds, if any. *)
Definition service_kind (t : BuildingType) : option QualityService :=
  match SERVICE_CONFIG t with
  | Some (_, k) => k
  | None => None
  end.

(** What one building does to the value of one cell of each field. *)
Definition power_step (size : Z) (b : ServiceBuilding) (x y : Z) (cur : bool) : bool :=
  if is_type (sb_type b) "power_plant" &&
     reach size (sb_x b) (sb_y b) (building_range b) x y then true else cur.

Definition water_step (size : Z) (b : ServiceBuilding) (x y : Z) (cur : bool) : bool :=
  if is_type (sb_type b) "water_tower" &&
     reach size (sb_x b) (sb_y b) (building_range b) x y then true else cur.

Definition quality_step (k : QualityService) (size : Z) (b : ServiceBuilding)
    (x y : Z) (cur : Q) : Q :=
  if bool_decide (service_kind (sb_type b) = Some k) &&
     reach size (sb_x b) (sb_y b) (building_range b) x y
  then Qmin 100 (cur + coverage_at (building_range b)
                        ((x - sb_x b) * (x - sb_x b) + (y - sb_y b) * (y - sb_y b)))
  else cur.

Lemma SERVICE_CONFIG_cases t baseRange kind :
  SERVICE_CONFIG t = Some (baseRange, kind) →
  (t = "police_station" ∧ baseRange = 13 ∧ kind = Some Police) ∨
  (t = "fire_station" ∧ baseRange = 18 ∧ kind = Some Fire) ∨
  (t = "hospital" ∧ baseRange = 24 ∧ kind = Some Health) ∨
  (t = "school" ∧ baseRange = 11 ∧ kind = Some Education) ∨
  (t = "university" ∧ baseRange = 19 ∧ kind = Some Education) ∨
  (t = "power_plant" ∧ baseRange = 15 ∧ kind = None) ∨
  (t = "water_tower" ∧ baseRange = 12 ∧ kind = None).
Proof.
  unfold SERVICE_CONFIG, is_type. intros H.
  repeat match type of H with
  | (if String.eqb ?a ?s then _ else _) = _ =>
      let E := fresh "E" in
      destruct (String.eqb a s) eqn:E;
      [apply String.eqb_eq in E; injection H as <- <-; tauto|]
  end.
  done.
Qed.

Lemma paint_reach {A} size (arr : list (list A)) bx by_ range (f : Z → Z → A → A) x y :
  cell_at (paint arr
             (box (Z.max 0 (bx - range)) (Z.min (size - 1) (bx + range))
                  (Z.max 0 (by_ - range)) (Z.min (size - 1) (by_ + range)))
             (λ nx ny, bool_decide ((nx - bx) * (nx - bx) + (ny - by_) * (ny - by_)
                                    <= range * range)) f) x y =
  if reach size bx by_ range x y then f x y <$> cell_at arr x y else cell_at arr x y.
Proof.
  rewrite paint_spec by apply NoDup_box. unfold reach.
  destruct (decide _) as [Hin|Hin].
  - apply elem_of_box in Hin as [Hx Hy].
    rewrite (bool_decide_eq_true_2 _ Hx), (bool_decide_eq_true_2 _ Hy). done.
  - rewrite elem_of_box in Hin.
    destruct (bool_decide (Z.max 0 (bx - range) <= x <= _)) eqn:E1; [|done].
    destruct (bool_decide (Z.max 0 (by_ - range) <= y <= _)) eqn:E2; [|done].
    apply bool_decide_eq_true in E1, E2. lia.
Qed.

Lemma fmap_if_id {A} (c : bool) (f : A → A) (o : option A) :
  (if c then f <$> o else o) = (λ cur, if c then f cur else cur) <$> o.
Proof. destruct c, o; done. Qed.

Lemma SERVICE_CONFIG_None t :
  SERVICE_CONFIG t = None →
  is_type t "power_plant" = false ∧ is_type t "water_tower" = false.
Proof.
  unfold SERVICE_CONFIG, is_type. intros H.
  repeat match type of H with
  | (if String.eqb ?a ?s then _ else _) = _ =>
      let E := fresh "E" in destruct (String.eqb a s) eqn:E; [done|]
  end.
  done.
Qed.

Ltac service_cases b :=
  let t := fresh "t" in
  let E := fresh "E" in
  destruct b as [? ? t ?];
  unfold apply_service_building, power_step, water_step, quality_step,
    building_range, service_kind; cbn [sb_x sb_y sb_type sb_level];
  destruct (SERVICE_CONFIG t) as [[? ?]|] eqn:E;
  [apply SERVICE_CONFIG_cases in E as
     [(-> & -> & ->)|[(-> & -> & ->)|[(-> & -> & ->)|[(-> & -> & ->)|
      [(-> & -> & ->)|[(-> & -> & ->)|(-> & -> & ->)]]]]]]
  |let Ep := fresh "Ep" in let Ew := fresh "Ew" in
   apply SERVICE_CONFIG_None in E as [Ep Ew]; rewrite ?Ep, ?Ew].

Lemma apply_power size s b x y :
  cell_at (power (apply_service_building size s b)) x y =
  power_step size b x y <$> cell_at (power s) x y.
Proof.
  service_cases b; cbn; rewrite ?paint_reach, ?fmap_if_id;
    by destruct (cell_at (power s) x y).
Qed.

Lemma apply_water size s b x y :
  cell_at (water (apply_service_building size s b)) x y =
  water_step size b x y <$> cell_at (water s) x y.
Proof.
  service_cases b; cbn; rewrite ?paint_reach, ?fmap_if_id;
    by destruct (cell_at (water s) x y).
Qed.

Lemma apply_quality k size s b x y :
  cell_at (quality k (apply_service_building size s b)) x y =
  quality_step k size b x y <$> cell_at (quality k s) x y.
Proof.
  service_cases b; destruct k; cbn; rewrite ?paint_reach, ?fmap_if_id;
    by destruct (cell_at _ x y).
Qed.

Lemma fold_power size bs s x y :
  cell_at (power (foldl (apply_service_building size) s bs)) x y =
  (λ cur, foldl (λ c b, power_step size b x y c) cur bs) <$> cell_at (power s) x y.
Proof.
  revert s. induction bs as [|b bs IH]; intros s; simpl.
  - by destruct (cell_at (power s) x y).
  - rewrite IH, apply_power. by destruct (cell_at (power s) x y).
Qed.

Lemma fold_water size bs s x y :
  cell_at (water (foldl (apply_service_building size) s bs)) x y =
  (λ cur, foldl (λ c b, water_step size b x y c) cur bs) <$> cell_at (water s) x y.
Proof.
  revert s. induction bs as [|b bs IH]; intros s; simpl.
  - by destruct (cell_at (water s) x y).
  - rewrite IH, apply_water. by destruct (cell_at (water s) x y).
Qed.

Lemma fold_quality k size bs s x y :
  cell_at (quality k (foldl (apply_service_building size) s bs)) x y =
  (λ cur, foldl (λ c b, quality_step k size b x y c) cur bs)
    <$> cell_at (quality k s) x y.
Proof.
  revert s. induction bs as [|b bs IH]; intros s; simpl.
  - by destruct (cell_at (quality k s) x y).
  - rewrite IH, apply_quality. by destruct (cell_at (quality k s) x y).
Qed.

Lemma cell_at_replicate {A} size (a : A) x y :
  0 <= x < size → 0 <= y < size →
  cell_at (replicate (Z.to_nat size) (replicate (Z.to_nat size) a)) x y = Some a.
Proof.
  intros Hx Hy. unfold cell_at, row_at. rewrite decide_True by lia.
  rewrite lookup_replicate_2 by lia. simpl. rewrite decide_True by lia.
  by rewrite lookup_replicate_2 by lia.
Qed.

(** The service building the first pass records for position [p], if any. *)
Definition service_at (g : Grid) (p : Z * Z) : option ServiceBuilding :=
  tile ← tile_at g p.1 p.2;
  if counted_service (building tile)
  then Some (mkServiceBuilding p.1 p.2 (type (building tile)) (level (building tile)))
  else None.

Lemma collect_service_buildings_spec size g :
  grid_wf size g →
  collect_service_buildings g size = Some (omap (service_at g) (rect size size)).
Proof.
  intros Hwf. unfold collect_service_buildings.
  assert (∀ l acc, (∀ p, p ∈ l → is_Some (tile_at g p.1 p.2)) →
    for_each (λ acc '(x, y),
      tile ← tile_at g x y;
      if counted_service (building tile)
      then Some (acc ++ [mkServiceBuilding x y (type (building tile))
                           (level (building tile))])
      else Some acc) acc l = Some (acc ++ omap (service_at g) l)) as Hgen.
  { induction l as [|[x y] l IH]; intros acc Hex.
    - simpl. by rewrite app_nil_r.
    - simpl. destruct (Hex (x, y)) as [t Ht]; [apply elem_of_cons; by left|].
      simpl in Ht. unfold service_at at 1. simpl. rewrite Ht. simpl.
      destruct (counted_service (building t)); simpl.
      + rewrite IH by (intros p Hp; apply Hex, elem_of_cons; by right).
        by rewrite <- app_assoc.
      + apply IH. intros p Hp. apply Hex, elem_of_cons. by right. }
  rewrite Hgen; [done|]. intros [x y] Hin. apply elem_of_rect in Hin. simpl.
  eapply tile_at_Some_wf; [done|lia..].
Qed.

Lemma foldl_power_step_true size bs x y init :
  foldl (λ c b, power_step size b x y c) init bs = true ↔
  init = true ∨ ∃ b, b ∈ bs ∧ is_type (sb_type b) "power_plant" = true ∧
                     reach size (sb_x b) (sb_y b) (building_range b) x y = true.
Proof.
  revert init. induction bs as [|b bs IH]; intros init; simpl.
  - split; [by left|]. intros [?|(b & Hb & _)]; [done|]. by apply elem_of_nil in Hb.
  - rewrite IH. unfold power_step at 1. split.
    + intros [Hinit|(b' & Hb' & H)].
      * destruct (is_type (sb_type b) "power_plant" && reach _ _ _ _ _ _) eqn:E.
        -- apply andb_true_iff in E as [? ?]. right. exists b.
           split; [apply elem_of_cons; by left|done].
        -- by left.
      * right. exists b'. split; [apply elem_of_cons; by right|done].
    + intros [->|(b' & Hb' & Ht & Hr)].
      * left. by destruct (_ && _).
      * apply elem_of_cons in Hb' as [->|Hb'].
        -- left. by rewrite Ht, Hr.
        -- right. by exists b'.
Qed.

Lemma foldl_water_step_true size bs x y init :
  foldl (λ c b, water_step size b x y c) init bs = true ↔
  init = true ∨ ∃ b, b ∈ bs ∧ is_type (sb_type b) "water_tower" = true ∧
                     reach size (sb_x b) (sb_y b) (building_range b) x y = true.
Proof.
  revert init. induction bs as [|b bs IH]; intros init; simpl.
  - split; [by left|]. intros [?|(b & Hb & _)]; [done|]. by apply elem_of_nil in Hb.
  - rewrite IH. unfold water_step at 1. split.
    + intros [Hinit|(b' & Hb' & H)].
      * destruct (is_type (sb_type b) "water_tower" && reach _ _ _ _ _ _) eqn:E.
        -- apply andb_true_iff in E as [? ?]. right. exists b.
           split; [apply elem_of_cons; by left|done].
        -- by left.
      * right. exists b'. split; [apply elem_of_cons; by right|done].
    + intros [->|(b' & Hb' & Ht & Hr)].
      * left. by destruct (_ && _).
      * apply elem_of_cons in Hb' as [->|Hb'].
        -- left. by rewrite Ht, Hr.
        -- right. by exists b'.
Qed.

(* ------------------------------------------------------------------ *)
(** *** Power and water: a union of discs of floored radius *)

(** A building the first pass counts: not under construction (its
    [constructionProgress] is absent or at least 100) and not abandoned. *)
Definition in_service (b : Building) : Prop :=
  under_construction b = false ∧ abandoned b = false.

(** The test of the second pass on a tile (x, y) of the grid, for a
    building of base range [baseRange] and level [lvl] at (bx, by): the
    bounds of the loops are not empty and the squared distance is at most
    the square of the floored range. *)
Definition within_range (baseRange lvl bx by_ x y : Z) : Prop :=
  let r := service_range baseRange lvl in
  0 <= r ∧ (x - bx) * (x - bx) + (y - by_) * (y - by_) <= r * r.

(** (x, y) lies in the disc of the floored effective range around
    (bx, by): the squared Euclidean distance is at most the square of
    [floor (baseRange * (1 + (lvl - 1) * 0.2))]. *)
Definition within_disc (baseRange lvl bx by_ x y : Z) : Prop :=
  (x - bx) * (x - bx) + (y - by_) * (y - by_) <=
  service_range baseRange lvl * service_range baseRange lvl.

(** The levels of the power plants and water towers the first pass counts
    are levels the game gives them: [createBuilding] starts them at 1 and
    [upgradeServiceBuilding] stops at [SERVICE_MAX_LEVEL]. *)
Definition utility_levels_ok (g : Grid) : Prop :=
  ∀ x y t, tile_at g x y = Some t →
    type (building t) = "power_plant" ∨ type (building t) = "water_tower" →
    in_service (building t) →
    1 <= level (building t) <= SERVICE_MAX_LEVEL.

Definition utility_levels_okb (g : Grid) : bool :=
  forallb (forallb (λ t : Tile,
    if (is_type (type (building t)) "power_plant" ||
        is_type (type (building t)) "water_tower") &&
       negb (under_construction (building t)) && negb (abandoned (building t))
    then bool_decide (1 <= level (building t) <= SERVICE_MAX_LEVEL)
    else true)) g.

Lemma tiles_check (P : Tile → bool) (g : Grid) :
  forallb (forallb P) g = true → ∀ x y t, tile_at g x y = Some t → P t = true.
Proof.
  intros Hall x y t Ht. unfold cell_at, row_at in Ht.
  destruct (decide (0 <= y)); [|done].
  destruct (g !! Z.to_nat y) as [row|] eqn:Hrow; [|done]. simpl in Ht.
  destruct (decide (0 <= x)); [|done].
  rewrite forallb_forall in Hall.
  pose proof (Hall row ltac:(apply list_elem_of_In; by eapply list_elem_of_lookup_2))
    as Hr.
  rewrite forallb_forall in Hr.
  apply Hr, list_elem_of_In. by eapply list_elem_of_lookup_2.
Qed.

Lemma utility_levels_okb_spec g : utility_levels_okb g = true → utility_levels_ok g.
Proof.
  intros Hall x y t Ht Hty [Hu Ha].
  pose proof (tiles_check _ g Hall x y t Ht) as Hcheck. cbv beta in Hcheck.
  unfold is_type in Hcheck. rewrite Hu, Ha in Hcheck.
  destruct Hty as [Hty|Hty]; rewrite Hty in Hcheck; simpl in Hcheck;
    by apply bool_decide_eq_true in Hcheck.
Qed.

Lemma service_range_mono baseRange l l' :
  0 <= baseRange → l <= l' → service_range baseRange l <= service_range baseRange l'.
Proof.
  intros Hb Hl. unfold service_range, SERVICE_RANGE_INCREASE_PER_LEVEL.
  apply Qfloor_resp_le. rewrite Zle_Qle in Hb, Hl.
  change (inject_Z 0) with 0%Q in Hb. nra.
Qed.

Lemma service_range_ge_base baseRange l :
  0 <= baseRange → 1 <= l → baseRange <= service_range baseRange l.
Proof.
  intros Hb Hl. unfold service_range, SERVICE_RANGE_INCREASE_PER_LEVEL.
  rewrite <- (Qfloor_Z baseRange) at 1.
  apply Qfloor_resp_le. rewrite Zle_Qle in Hb, Hl.
  change (inject_Z 0) with 0%Q in Hb. change (inject_Z 1) with 1%Q in Hl. nra.
Qed.


Lemma sq_le_bound a b r : 0 <= r → a * a + b * b <= r * r → - r <= a <= r.
Proof.
  intros Hr H. pose proof (Z.square_nonneg b) as Hb.
  assert (a * a <= r * r) as Ha by lia.
  split.
  - destruct (decide (a < - r)) as [Hlt|]; [|lia]. exfalso.
    assert (r + 1 <= - a) as H1 by lia.
    pose proof (Z.mul_le_mono_nonneg (r + 1) (- a) (r + 1) (- a)) as H2. nia.
  - destruct (decide (r < a)) as [Hlt|]; [|lia]. exfalso.
    pose proof (Z.mul_le_mono_nonneg (r + 1) a (r + 1) a) as H2. nia.
Qed.

Lemma reach_in_grid size bx by_ r x y :
  0 <= x < size → 0 <= y < size →
  reach size bx by_ r x y = true ↔
  0 <= r ∧ (x - bx) * (x - bx) + (y - by_) * (y - by_) <= r * r.
Proof.
  intros Hx Hy. unfold reach. rewrite !andb_true_iff, !bool_decide_eq_true.
  split.
  - intros [[Hbx Hby] Hc]. split; [lia|done].
  - intros [Hr Hc].
    assert (- r <= x - bx <= r) by (eapply sq_le_bound; [done|apply Hc]).
    assert (- r <= y - by_ <= r) by (eapply sq_le_bound; [done|rewrite Z.add_comm; apply Hc]).
    split; [split|done]; lia.
Qed.

Lemma utility_sources name baseRange size g x y :
  grid_wf size g → 0 <= x < size → 0 <= y < size →
  SERVICE_CONFIG name = Some (baseRange, None) →
  includes SERVICE_BUILDING_TYPES name = true →
  (∃ b, b ∈ omap (service_at g) (rect size size) ∧ is_type (sb_type b) name = true ∧
        reach size (sb_x b) (sb_y b) (building_range b) x y = true) ↔
  (∃ bx by_ t, tile_at g bx by_ = Some t ∧ type (building t) = name ∧
     in_service (building t) ∧ within_range baseRange (level (building t)) bx by_ x y).
Proof.
  intros Hwf Hx Hy Hcfg Hsvc. split.
  - intros (b & Hb & Ht & Hr).
    apply list_elem_of_omap in Hb as ([bx by_] & Hin & Hs).
    unfold service_at in Hs. simpl in Hs.
    destruct (cell_at g bx by_) as [t|] eqn:Etile; [|done]. simpl in Hs.
    destruct (counted_service (building t)) eqn:Ec; [|done].
    injection Hs as <-. simpl in *. apply String.eqb_eq in Ht.
    exists bx, by_, t. split; [done|]. split; [done|]. split.
    + unfold counted_service in Ec.
      apply andb_true_iff in Ec as [[_ Hu%negb_true_iff]%andb_true_iff Ha%negb_true_iff].
      done.
    + unfold building_range in Hr. simpl in Hr. rewrite Ht, Hcfg in Hr.
      by apply reach_in_grid in Hr.
  - intros (bx & by_ & t & Htile & Ht & [Hu Ha] & Hr).
    exists (mkServiceBuilding bx by_ (type (building t)) (level (building t))).
    split; [|split].
    + apply list_elem_of_omap. exists (bx, by_). split.
      * apply elem_of_rect. pose proof (tile_at_Some_inv _ _ _ _ _ Hwf Htile). lia.
      * unfold service_at. simpl. rewrite Htile. simpl.
        unfold counted_service. by rewrite Ht, Hsvc, Hu, Ha.
    + simpl. rewrite Ht. apply String.eqb_refl.
    + unfold building_range. simpl. rewrite Ht, Hcfg.
      by apply reach_in_grid.
Qed.

(** The two passes of [calculateServiceCoverage], for power and water: a
    tile of the grid is powered (watered) exactly when the test of the
    second pass succeeds for some power_plant (water_tower) of the first
    pass. *)
Lemma utility_coverage_spec g size :
  grid_wf size g →
  ∃ s, calculateServiceCoverage g size = Some s ∧
    ∀ x y, 0 <= x < size → 0 <= y < size →
      (∃ v, cov_at (power s) x y = Some v ∧
         (v = true ↔
          ∃ bx by_ t, tile_at g bx by_ = Some t ∧
            type (building t) = "power_plant" ∧ in_service (building t) ∧
            within_range 15 (level (building t)) bx by_ x y)) ∧
      (∃ v, cov_at (water s) x y = Some v ∧
         (v = true ↔
          ∃ bx by_ t, tile_at g bx by_ = Some t ∧
            type (building t) = "water_tower" ∧ in_service (building t) ∧
            within_range 12 (level (building t)) bx by_ x y)).
Proof.
  intros Hwf. unfold calculateServiceCoverage.
  rewrite (collect_service_buildings_spec size g Hwf). simpl.
  eexists. split; [done|]. intros x y Hx Hy. split.
  - rewrite fold_power. unfold createServiceCoverage. cbn [power].
    rewrite cell_at_replicate by done. simpl. eexists. split; [done|].
    rewrite foldl_power_step_true.
    rewrite (utility_sources "power_plant" 15 size g x y) by done.
    split; [by intros [?|?]|by right].
  - rewrite fold_water. unfold createServiceCoverage. cbn [water].
    rewrite cell_at_replicate by done. simpl. eexists. split; [done|].
    rewrite foldl_water_step_true.
    rewrite (utility_sources "water_tower" 12 size g x y) by done.
    split; [by intros [?|?]|by right].
Qed.

(** C3 (amended): power (water) coverage is a union of discs whose radius
    is the floor of the effective range.  In a well-formed grid whose power
    plants and water towers that are not under construction and not
    abandoned have a level from 1 to 5, a tile of the grid is powered
    (watered) exactly when some such power_plant (water_tower) lies at a
    squared distance of at most
    [floor (baseRange * (1 + (level - 1) * 0.2))] squared, with base range
    15 (12). *)
Theorem utility_coverage_is_union_of_floored_discs g size :
  grid_wf size g → utility_levels_ok g →
  ∃ s, calculateServiceCoverage g size = Some s ∧
    ∀ x y, 0 <= x < size → 0 <= y < size →
      (∃ v, cov_at (power s) x y = Some v ∧
         (v = true ↔
          ∃ bx by_ t, tile_at g bx by_ = Some t ∧
            type (building t) = "power_plant" ∧ in_service (building t) ∧
            within_disc 15 (level (building t)) bx by_ x y)) ∧
      (∃ v, cov_at (water s) x y = Some v ∧
         (v = true ↔
          ∃ bx by_ t, tile_at g bx by_ = Some t ∧
            type (building t) = "water_tower" ∧ in_service (building t) ∧
            within_disc 12 (level (building t)) bx by_ x y)).
Proof.
  intros Hwf Hlevels.
  destruct (utility_coverage_spec g size Hwf) as (s & Hs & Hspec).
  exists s. split; [done|]. intros x y Hx Hy.
  destruct (Hspec x y Hx Hy) as [(vp & Hvp & Hp) (vw & Hvw & Hw)].
  assert (∀ base bx by_ t, 0 <= base → tile_at g bx by_ = Some t →
            type (building t) = "power_plant" ∨ type (building t) = "water_tower" →
            in_service (building t) →
            within_range base (level (building t)) bx by_ x y ↔
            within_disc base (level (building t)) bx by_ x y) as Hdisc.
  { intros base bx by_ t Hbase Ht Hty Hin. unfold within_range, within_disc.
    pose proof (Hlevels bx by_ t Ht Hty Hin) as [Hl _].
    pose proof (service_range_ge_base base (level (building t)) Hbase Hl).
    split; [by intros [_ ?]|]. intros ?. split; [lia|done]. }
  split.
  - exists vp. split; [done|]. rewrite Hp.
    split; intros (bx & by_ & t & Ht & Hty & Hin & Hr); exists bx, by_, t;
      (do 3 (split; [done|]));
      (destruct (Hdisc 15 bx by_ t) as [H1 H2]; [lia|done|by left|done|]); tauto.
  - exists vw. split; [done|]. rewrite Hw.
    split; intros (bx & by_ & t & Ht & Hty & Hin & Hr); exists bx, by_, t;
      (do 3 (split; [done|]));
      (destruct (Hdisc 12 bx by_ t) as [H1 H2]; [lia|done|by right|done|]); tauto.
Qed.

(** C3 at a concrete world: a level-1 power plant in the corner of a 6 x 6
    grid. *)
Lemma utility_coverage_witness :
  ∃ s, calculateServiceCoverage (service_example_grid 6 0 0 "power_plant" 1) 6 = Some s ∧
    ∀ x y, 0 <= x < 6 → 0 <= y < 6 →
      (∃ v, cov_at (power s) x y = Some v ∧
         (v = true ↔
          ∃ bx by_ t,
            tile_at (service_example_grid 6 0 0 "power_plant" 1) bx by_ = Some t ∧
            type (building t) = "power_plant" ∧ in_service (building t) ∧
            within_disc 15 (level (building t)) bx by_ x y)) ∧
      (∃ v, cov_at (water s) x y = Some v ∧
         (v = true ↔
          ∃ bx by_ t,
            tile_at (service_example_grid 6 0 0 "power_plant" 1) bx by_ = Some t ∧
            type (building t) = "water_tower" ∧ in_service (building t) ∧
            within_disc 12 (level (building t)) bx by_ x y)).
Proof.
  apply (utility_coverage_is_union_of_floored_discs
           (service_example_grid 6 0 0 "power_plant" 1) 6).
  - apply grid_wfb_spec. vm_compute. reflexivity.
  - apply utility_levels_okb_spec. vm_compute. reflexivity.
Defined.

(** C3 as stated fails where the effective range is not an integer: a
    level-2 water tower at (0, 0) has effective range 12 * 1.2 = 14.4; the
    tile (10, 10) is at distance sqrt 200 < 14.4 (200 <= 14.4^2 = 207.36),
    yet it is not watered, because 200 > 14^2 (the double the source
    computes for 12 * 1.2 floors to 14 as well). *)
Lemma coverage_uses_floored_range :
  ∃ s t,
    calculateServiceCoverage (service_example_grid 11 0 0 "water_tower" 2) 11 = Some s ∧
    tile_at (service_example_grid 11 0 0 "water_tower" 2) 0 0 = Some t ∧
    type (building t) = "water_tower" ∧
    constructionProgress (building t) = Some 100%Q ∧
    abandoned (building t) = false ∧
    Qle_b (inject_Z ((10 - 0) * (10 - 0) + (10 - 0) * (10 - 0)))
          ((12 * (1 + (inject_Z (level (building t)) - 1) * 0.2)) ^ 2) = true ∧
    cov_at (water s) 10 10 = Some false.
Proof. do 2 eexists. repeat split; vm_compute; reflexivity. Qed.

(* ------------------------------------------------------------------ *)
(** *** Coverage is monotone in a building's level *)

Lemma Math_sqrt_nonneg n : (0 <= Math_sqrt n)%Q.
Proof.
  unfold Math_sqrt, Qle. simpl. rewrite Z.mul_1_r. apply Z.sqrt_nonneg.
Qed.

Lemma coverage_at_nonneg r d : (0 <= coverage_at r d)%Q.
Proof. unfold coverage_at. apply Q.le_max_l. Qed.

Lemma coverage_at_mono r r' d :
  0 < r → r <= r' → (coverage_at r d <= coverage_at r' d)%Q.
Proof.
  intros Hr Hrr. unfold coverage_at. apply Q.max_le_compat_l.
  pose proof (Math_sqrt_nonneg d) as Hs.
  assert (0 < inject_Z r)%Q as Hr0 by (rewrite Zlt_Qlt in Hr; done).
  assert (inject_Z r <= inject_Z r')%Q as Hrr' by (by rewrite <- Zle_Qle).
  assert (0 < inject_Z r')%Q as Hr0' by lra.
  assert (Math_sqrt d / inject_Z r' <= Math_sqrt d / inject_Z r)%Q as Hdiv.
  { apply Qle_shift_div_r; [done|].
    unfold Qdiv. rewrite <- Qmult_assoc.
    rewrite <- (Qmult_1_r (Math_sqrt d)) at 1.
    rewrite (Qmult_comm (Math_sqrt d) 1), (Qmult_comm (Math_sqrt d) _).
    apply Qmult_le_compat_r; [|done].
    rewrite Qmult_comm. apply Qle_shift_div_l; [done|]. lra. }
  lra.
Qed.

Lemma reach_mono size bx by_ r r' x y :
  r <= r' → reach size bx by_ r x y = true → reach size bx by_ r' x y = true.
Proof.
  intros Hrr. unfold reach. rewrite !andb_true_iff, !bool_decide_eq_true.
  intros [[Hx Hy] Hc]. split; [split; lia|]. nia.
Qed.

(** [b'] is [b] itself, or [b] with its level (at least 1) raised. *)
Definition upgraded (b b' : ServiceBuilding) : Prop :=
  b' = b ∨ (sb_x b' = sb_x b ∧ sb_y b' = sb_y b ∧ sb_type b' = sb_type b ∧
            1 <= sb_level b <= sb_level b').

Lemma upgraded_range b b' :
  upgraded b b' →
  building_range b <= building_range b' ∧
  (b' = b ∨ SERVICE_CONFIG (sb_type b) = None ∨ 0 < building_range b).
Proof.
  intros [->|(Hx & Hy & Ht & Hl)]; [split; [lia|by left]|].
  unfold building_range. rewrite Ht.
  destruct (SERVICE_CONFIG (sb_type b)) as [[baseRange kind]|] eqn:E.
  - assert (11 <= baseRange) as Hbase.
    { apply SERVICE_CONFIG_cases in E as
        [(_ & -> & _)|[(_ & -> & _)|[(_ & -> & _)|[(_ & -> & _)|
         [(_ & -> & _)|[(_ & -> & _)|(_ & -> & _)]]]]]]; lia. }
    split; [apply service_range_mono; lia|]. right. right.
    pose proof (service_range_ge_base baseRange (sb_level b)). lia.
  - split; [done|]. right. by left.
Qed.

Lemma power_step_mono size b b' x y c c' :
  upgraded b b' → (c = true → c' = true) →
  power_step size b x y c = true → power_step size b' x y c' = true.
Proof.
  intros Hup Hc. destruct (upgraded_range b b' Hup) as [Hr _]. unfold power_step.
  destruct Hup as [->|(Hx & Hy & Ht & Hl)].
  - destruct (is_type (sb_type b) "power_plant" && reach _ _ _ _ _ _); [done|]. done.
  - rewrite Hx, Hy, Ht.
    destruct (is_type (sb_type b) "power_plant"); simpl; [|done].
    destruct (reach size (sb_x b) (sb_y b) (building_range b) x y) eqn:E.
    + by rewrite (reach_mono _ _ _ _ _ _ _ Hr E).
    + intros Hct. rewrite (Hc Hct). by destruct (reach size _ _ (building_range b') _ _).
Qed.

Lemma water_step_mono size b b' x y c c' :
  upgraded b b' → (c = true → c' = true) →
  water_step size b x y c = true → water_step size b' x y c' = true.
Proof.
  intros Hup Hc. destruct (upgraded_range b b' Hup) as [Hr _]. unfold water_step.
  destruct Hup as [->|(Hx & Hy & Ht & Hl)].
  - destruct (is_type (sb_type b) "water_tower" && reach _ _ _ _ _ _); [done|]. done.
  - rewrite Hx, Hy, Ht.
    destruct (is_type (sb_type b) "water_tower"); simpl; [|done].
    destruct (reach size (sb_x b) (sb_y b) (building_range b) x y) eqn:E.
    + by rewrite (reach_mono _ _ _ _ _ _ _ Hr E).
    + intros Hct. rewrite (Hc Hct). by destruct (reach size _ _ (building_range b') _ _).
Qed.

Lemma quality_step_le_100 k size b x y c :
  (c <= 100)%Q → (quality_step k size b x y c <= 100)%Q.
Proof.
  intros Hc. unfold quality_step. destruct (_ && _); [|done]. apply Q.le_min_l.
Qed.

Lemma quality_step_mono k size b b' x y c c' :
  upgraded b b' → (c <= c')%Q → (c <= 100)%Q →
  (quality_step k size b x y c <= quality_step k size b' x y c')%Q.
Proof.
  intros Hup Hc H100. destruct (upgraded_range b b' Hup) as [Hr Hpos].
  assert (b' = b → (quality_step k size b x y c <= quality_step k size b' x y c')%Q)
    as Hsame.
  { intros ->. unfold quality_step.
    destruct (bool_decide _ && reach _ _ _ _ _ _); [|done].
    apply Q.min_le_compat; lra. }
  destruct Hup as [->|(Hx & Hy & Ht & Hl)]; [by apply Hsame|].
  destruct Hpos as [->|[Hnone|Hpos]]; [by apply Hsame| |].
  - unfold quality_step, service_kind. rewrite Ht, Hnone. done.
  - unfold quality_step. rewrite Hx, Hy, Ht.
    destruct (bool_decide (service_kind (sb_type b) = Some k)); simpl; [|done].
    destruct (reach size (sb_x b) (sb_y b) (building_range b) x y) eqn:E.
    + rewrite (reach_mono _ _ _ _ _ _ _ Hr E).
      apply Q.min_le_compat; [lra|].
      pose proof (coverage_at_mono (building_range b) (building_range b')
        ((x - sb_x b) * (x - sb_x b) + (y - sb_y b) * (y - sb_y b)) Hpos Hr). lra.
    + destruct (reach size _ _ (building_range b') _ _); [|done].
      apply Q.min_glb; [done|].
      pose proof (coverage_at_nonneg (building_range b')
        ((x - sb_x b) * (x - sb_x b) + (y - sb_y b) * (y - sb_y b))). lra.
Qed.

Lemma fold_power_mono size x y bs bs' :
  Forall2 upgraded bs bs' → ∀ c c', (c = true → c' = true) →
  foldl (λ c b, power_step size b x y c) c bs = true →
  foldl (λ c b, power_step size b x y c) c' bs' = true.
Proof.
  induction 1 as [|b b' bs bs' Hb _ IH]; intros c c' Hc; simpl; [done|].
  apply IH. by apply power_step_mono.
Qed.

Lemma fold_water_mono size x y bs bs' :
  Forall2 upgraded bs bs' → ∀ c c', (c = true → c' = true) →
  foldl (λ c b, water_step size b x y c) c bs = true →
  foldl (λ c b, water_step size b x y c) c' bs' = true.
Proof.
  induction 1 as [|b b' bs bs' Hb _ IH]; intros c c' Hc; simpl; [done|].
  apply IH. by apply water_step_mono.
Qed.

Lemma fold_quality_mono k size x y bs bs' :
  Forall2 upgraded bs bs' → ∀ c c', (c <= c')%Q → (c <= 100)%Q →
  (foldl (λ c b, quality_step k size b x y c) c bs <=
   foldl (λ c b, quality_step k size b x y c) c' bs')%Q.
Proof.
  induction 1 as [|b b' bs bs' Hb _ IH]; intros c c' Hc H100; simpl; [done|].
  apply IH; [by apply quality_step_mono|by apply quality_step_le_100].
Qed.

Lemma counted_service_set_level lvl b :
  counted_service (set_level lvl b) = counted_service b.
Proof. done. Qed.

Lemma service_at_upgraded g bx by_ t lvl' p :
  tile_at g bx by_ = Some t → 1 <= level (building t) <= lvl' →
  match service_at g p,
        service_at (update_tile g bx by_ (upd_building (set_level lvl'))) p with
  | Some b, Some b' => upgraded b b'
  | None, None => True
  | _, _ => False
  end.
Proof.
  intros Ht Hl. destruct p as [px py]. unfold service_at. simpl.
  rewrite tile_at_update_tile.
  destruct (decide (px = bx ∧ py = by_)) as [[-> ->]|Hne].
  - rewrite Ht. simpl. rewrite counted_service_set_level.
    destruct (counted_service (building t)); [|done]. right. simpl. done.
  - destruct (cell_at g px py) as [t'|]; simpl; [|done].
    destruct (counted_service (building t')); [|done]. by left.
Qed.

Lemma service_lists_upgraded g bx by_ t lvl' l :
  tile_at g bx by_ = Some t → 1 <= level (building t) <= lvl' →
  Forall2 upgraded
    (omap (service_at g) l)
    (omap (service_at (update_tile g bx by_ (upd_building (set_level lvl')))) l).
Proof.
  intros Ht Hl. induction l as [|p l IH]; [constructor|].
  pose proof (service_at_upgraded g bx by_ t lvl' p Ht Hl) as Hp.
  cbn [omap list_omap].
  destruct (service_at g p), (service_at _ p); try done.
  by constructor.
Qed.

(** C4: raising the level of a building (from a level of at least 1, the
    lowest level a service building has) and recomputing the coverage
    never lowers the value of any tile in any of the six fields: the four
    quality fields do not decrease, and a powered or watered tile stays
    powered or watered. *)
Theorem coverage_monotone_in_level g size bx by_ t lvl' :
  grid_wf size g →
  tile_at g bx by_ = Some t →
  1 <= level (building t) → level (building t) < lvl' →
  ∃ s s',
    calculateServiceCoverage g size = Some s ∧
    calculateServiceCoverage (update_tile g bx by_ (upd_building (set_level lvl'))) size
      = Some s' ∧
    ∀ x y, 0 <= x < size → 0 <= y < size →
      (∀ k, ∃ v v', cov_at (quality k s) x y = Some v ∧
                    cov_at (quality k s') x y = Some v' ∧ (v <= v')%Q) ∧
      (∃ v v', cov_at (power s) x y = Some v ∧ cov_at (power s') x y = Some v' ∧
               (v = true → v' = true)) ∧
      (∃ v v', cov_at (water s) x y = Some v ∧ cov_at (water s') x y = Some v' ∧
               (v = true → v' = true)).
Proof.
  intros Hwf Ht Hl1 Hl2. unfold calculateServiceCoverage.
  rewrite (collect_service_buildings_spec size g Hwf).
  rewrite (collect_service_buildings_spec size _
             (grid_wf_update_tile size g bx by_ _ Hwf)). simpl.
  pose proof (service_lists_upgraded g bx by_ t lvl' (rect size size) Ht
                ltac:(lia)) as Hup.
  do 2 eexists. split; [done|]. split; [done|]. intros x y Hx Hy.
  split; [|split].
  - intros k. rewrite !fold_quality.
    assert (cell_at (quality k (createServiceCoverage size)) x y = Some 0%Q) as ->.
    { unfold createServiceCoverage. destruct k; cbn; by apply cell_at_replicate. }
    simpl. do 2 eexists. split; [done|]. split; [done|].
    apply fold_quality_mono; [done|lra|lra].
  - rewrite !fold_power. unfold createServiceCoverage. cbn [power].
    rewrite cell_at_replicate by done. simpl.
    do 2 eexists. split; [done|]. split; [done|].
    by apply fold_power_mono.
  - rewrite !fold_water. unfold createServiceCoverage. cbn [water].
    rewrite cell_at_replicate by done. simpl.
    do 2 eexists. split; [done|]. split; [done|].
    by apply fold_water_mono.
Qed.

(** C4 at a concrete world: the level-1 police station at (2, 2) of a 6 x 6
    grid, raised to level 3. *)
Lemma coverage_monotone_in_level_witness :
  let g := service_example_grid 6 2 2 "police_station" 1 in
  ∃ s s',
    calculateServiceCoverage g 6 = Some s ∧
    calculateServiceCoverage (update_tile g 2 2 (upd_building (set_level 3))) 6
      = Some s' ∧
    ∀ x y, 0 <= x < 6 → 0 <= y < 6 →
      (∀ k, ∃ v v', cov_at (quality k s) x y = Some v ∧
                    cov_at (quality k s') x y = Some v' ∧ (v <= v')%Q) ∧
      (∃ v v', cov_at (power s) x y = Some v ∧ cov_at (power s') x y = Some v' ∧
               (v = true → v' = true)) ∧
      (∃ v v', cov_at (water s) x y = Some v ∧ cov_at (water s') x y = Some v' ∧
               (v = true → v' = true)).
Proof.
  intros g.
  destruct (tile_at g 2 2) as [t|] eqn:E; [|by vm_compute in E].
  assert (level (building t) = 1) as Hlvl.
  { vm_compute in E. by injection E as <-. }
  apply (coverage_monotone_in_level g 6 2 2 t 3).
  - apply grid_wfb_spec. vm_compute. reflexivity.
  - done.
  - lia.
  - lia.
Defined.

(* ================================================================== *)
(** ** Road access: the bounded breadth-first search *)
(* ================================================================== *)

(** The module-level scratch buffers.  [roadAccessVisited] is a
    [Uint8Array(128 * 128)] that holds only zeros and ones: it is modelled
    as the set of indices that hold a one.  A write outside the array is
    ignored and a read there is [undefined] (falsy), as for any typed
    array.  [roadAccessQueue] is an [Int16Array(3 * 256)] of (x, y, dist)
    triples; a call reads only the entries it has written itself, so the
    queue is a list local to the call, with the array's capacity test and
    16-bit wrap-around on every store. *)
Definition ROAD_ACCESS_VISITED_LENGTH : Z := 128 * 128.
Definition ROAD_ACCESS_QUEUE_LENGTH : Z := 3 * 256.

Definition visited_get (visited : gset Z) (idx : Z) : bool :=
  bool_decide (idx ∈ visited).

Definition visited_set (visited : gset Z) (idx : Z) (one : bool) : gset Z :=
  if decide (0 <= idx < ROAD_ACCESS_VISITED_LENGTH)
  then (if one then {[idx]} ∪ visited else visited ∖ {[idx]})
  else visited.

(** The value an [Int16Array] element holds after storing [z]. *)
Definition to_int16 (z : Z) : Z := (z + 32768) mod 65536 - 32768.

Record BfsState := mkBfs {
  queue : list (Z * Z * Z);
  queueHead : nat;
  visited : gset Z;
}.

(** [neighbor.building.type === 'road' || ... === 'bridge']. *)
Definition is_road_or_bridge (t : Tile) : bool :=
  is_type (type (building t)) "road" || is_type (type (building t)) "bridge".

(** [neighbor.zone === startZone && neighbor.building.type !== 'water']. *)
Definition isPassableZone (startZone : ZoneType) (t : Tile) : bool :=
  bool_decide (zone t = startZone) && negb (is_type (type (building t)) "water").

(** The body of the loop over the four neighbours: [Some (true, _)] is
    [return true]. *)
Definition visit_neighbor (g : Grid) (size : Z) (startZone : ZoneType) (dist : Z)
    (st : BfsState) (n : Z * Z) : option (bool * BfsState) :=
  let '(nx, ny) := n in
  if bool_decide (nx < 0) || bool_decide (nx >= size) ||
     bool_decide (ny < 0) || bool_decide (ny >= size) then Some (false, st)
  else
    let idx := ny * size + nx in
    if visited_get (visited st) idx then Some (false, st)
    else
      let st := mkBfs (queue st) (queueHead st) (visited_set (visited st) idx true) in
      neighbor ← tile_at g nx ny;
      if is_road_or_bridge neighbor then Some (true, st)
      else if isPassableZone startZone neighbor &&
              bool_decide (3 * Z.of_nat (length (queue st)) < ROAD_ACCESS_QUEUE_LENGTH - 3)
      then Some (false, mkBfs (queue st ++ [(to_int16 nx, to_int16 ny, to_int16 (dist + 1))])
                              (queueHead st) (visited st))
      else Some (false, st).

Fixpoint visit_neighbors (g : Grid) (size : Z) (startZone : ZoneType) (dist : Z)
    (st : BfsState) (ns : list (Z * Z)) : option (bool * BfsState) :=
  match ns with
  | [] => Some (false, st)
  | n :: ns' =>
      '(found, st') ← visit_neighbor g size startZone dist st n;
      if (found : bool) then Some (true, st')
      else visit_neighbors g size startZone dist st' ns'
  end.

(** The [while (queueHead < queueTail)] loop.  Every iteration consumes a
    queue entry and the queue holds at most 255, so 256 iterations suffice;
    [None] when [fuel] runs out or a tile is missing. *)
Fixpoint bfs_loop (fuel : nat) (g : Grid) (size : Z) (startZone : ZoneType)
    (maxDistance : Z) (st : BfsState) : option (bool * BfsState) :=
  match fuel with
  | O => None
  | S fuel' =>
    match queue st !! queueHead st with
    | None => Some (false, st)
    | Some (cx, cy, dist) =>
      let st := mkBfs (queue st) (S (queueHead st)) (visited st) in
      if bool_decide (dist >= maxDistance)
      then bfs_loop fuel' g size startZone maxDistance st
      else
        '(found, st') ← visit_neighbors g size startZone dist st
               [(cx - 1, cy); (cx + 1, cy); (cx, cy - 1); (cx, cy + 1)];
        if (found : bool) then Some (true, st')
        else bfs_loop fuel' g size startZone maxDistance st'
    end
  end.

(** [hasRoadAccess(grid, x, y, size, maxDistance)], from the current content
    of [roadAccessVisited] to the result and the buffer's new content. *)
Definition hasRoadAccess (g : Grid) (x y size maxDistance : Z)
    (roadAccessVisited : gset Z) : option (bool * gset Z) :=
  start ← tile_at g x y;
  let startZone := zone start in
  if decide (startZone = ZoneNone) then Some (false, roadAccessVisited)
  else
    let minClearX := Z.max 0 (x - maxDistance) in
    let maxClearX := Z.min (size - 1) (x + maxDistance) in
    let minClearY := Z.max 0 (y - maxDistance) in
    let maxClearY := Z.min (size - 1) (y + maxDistance) in
    let cleared :=
      foldl (λ v '(cx, cy), visited_set v (cy * size + cx) false) roadAccessVisited
            (box minClearX maxClearX minClearY maxClearY) in
    let st := mkBfs [(to_int16 x, to_int16 y, to_int16 0)] 0
                    (visited_set cleared (y * size + x) true) in
    '(found, st') ← bfs_loop 256 g size startZone maxDistance st;
    Some (found, visited st').

(** The default [maxDistance = 8]. *)
Definition DEFAULT_MAX_DISTANCE : Z := 8.

(** A [size] x [size] world of residential grass with a road at (rx, ry). *)
Definition zoned_grid (size rx ry : Z) : Grid :=
  make_grid size (λ x y,
    if decide (x = rx ∧ y = ry) then createTile x y "road"
    else set_zone Residential (createTile x y "grass")).

(* ------------------------------------------------------------------ *)
(** *** Reachability, as the specification words it *)

Definition adjacent (p q : Z * Z) : Prop :=
  q = (p.1 - 1, p.2) ∨ q = (p.1 + 1, p.2) ∨ q = (p.1, p.2 - 1) ∨ q = (p.1, p.2 + 1).

(** A tile a path may pass through: it has the start tile's zone and is
    not water. *)
Definition passable (g : Grid) (z : ZoneType) (p : Z * Z) : Prop :=
  ∃ t, tile_at g p.1 p.2 = Some t ∧ isPassableZone z t = true.

Definition road_at (g : Grid) (p : Z * Z) : Prop :=
  ∃ t, tile_at g p.1 p.2 = Some t ∧ is_road_or_bridge t = true.

(** [steps_to g z start n p]: [p] is reached from [start] by [n] steps
    between 4-neighbours, every tile after the start being passable. *)
Inductive steps_to (g : Grid) (z : ZoneType) (start : Z * Z) : nat → Z * Z → Prop :=
  | steps_to_start : steps_to g z start 0 start
  | steps_to_next n p q :
      steps_to g z start n p → adjacent p q → passable g z q →
      steps_to g z start (S n) q.

(** Some road or bridge tile other than the start is reachable in at most
    [maxDistance] steps, the tiles strictly between the start and the road
    being passable. *)
Definition road_within (g : Grid) (z : ZoneType) (start : Z * Z) (maxDistance : Z) : Prop :=
  ∃ n p q, steps_to g z start n p ∧ adjacent p q ∧ road_at g q ∧ q ≠ start ∧
           Z.of_nat n + 1 <= maxDistance.

(** The Manhattan distance. *)
Definition mdist (p q : Z * Z) : Z := Z.abs (p.1 - q.1) + Z.abs (p.2 - q.2).

Lemma adjacent_mdist p q : adjacent p q → mdist q p = 1.
Proof.
  unfold adjacent, mdist. destruct p as [a b], q as [c d]. simpl.
  intros [[= -> ->]|[[= -> ->]|[[= -> ->]|[= -> ->]]]]; lia.
Qed.

Lemma steps_to_mdist g z start n p :
  steps_to g z start n p → mdist p start <= Z.of_nat n.
Proof.
  induction 1 as [|n p q _ IH Hadj _].
  - unfold mdist. lia.
  - apply adjacent_mdist in Hadj. unfold mdist in *. lia.
Qed.

(** The offsets of Manhattan length at most 10, and the positions within
    that distance of [c]. *)
Definition diamond_offsets : list (Z * Z) :=
  filter (λ d : Z * Z, Z.abs d.1 + Z.abs d.2 <= 10)
         (dy ← seqZ (-10) 21; dx ← seqZ (-10) 21; [(dx, dy)]).

Definition diamond (c : Z * Z) : list (Z * Z) :=
  (λ d : Z * Z, (c.1 + d.1, c.2 + d.2)) <$> diamond_offsets.

Lemma elem_of_diamond c p : mdist p c <= 10 → p ∈ diamond c.
Proof.
  intros Hd. unfold diamond, mdist in *. apply list_elem_of_fmap.
  exists (p.1 - c.1, p.2 - c.2). split.
  { destruct p as [a b]. simpl. f_equal; lia. }
  unfold diamond_offsets. apply list_elem_of_filter. split; [simpl; lia|].
  apply list_elem_of_bind. exists (p.2 - c.2). split; [|apply elem_of_seqZ; lia].
  apply list_elem_of_bind. exists (p.1 - c.1). split; [|apply elem_of_seqZ; lia].
  by apply list_elem_of_singleton.
Qed.

Lemma length_diamond c : length (diamond c) = 221%nat.
Proof. unfold diamond. rewrite length_fmap. vm_compute. reflexivity. Qed.

Lemma NoDup_in_diamond c (l : list (Z * Z)) :
  NoDup l → (∀ p, p ∈ l → mdist p c <= 10) → (length l <= 221)%nat.
Proof.
  intros Hnd Hin. rewrite <- (length_diamond c).
  apply submseteq_length, NoDup_submseteq; [done|].
  intros p Hp. by apply elem_of_diamond, Hin.
Qed.

Lemma to_int16_small v : -32768 <= v < 32768 → to_int16 v = v.
Proof.
  intros Hv. unfold to_int16. rewrite Z.mod_small by lia. lia.
Qed.

Lemma adjacent_neighbors cx cy q :
  adjacent (cx, cy) q ↔ q ∈ [(cx - 1, cy); (cx + 1, cy); (cx, cy - 1); (cx, cy + 1)].
Proof.
  unfold adjacent. simpl. rewrite !elem_of_cons, elem_of_nil. tauto.
Qed.

Section RoadAccess.

Context (g : Grid) (size : Z) (z : ZoneType) (maxDistance : Z) (x y : Z).
Context (Hwf : grid_wf size g) (Hsize : size <= 128) (Hmax : maxDistance <= 10).
Context (Hx : 0 <= x < size) (Hy : 0 <= y < size).

Definition in_grid (p : Z * Z) : Prop := 0 <= p.1 < size ∧ 0 <= p.2 < size.

(** The index of a position in [roadAccessVisited]. *)
Definition visited_index (p : Z * Z) : Z := p.2 * size + p.1.

Definition entry_pos (e : Z * Z * Z) : Z * Z := (e.1.1, e.1.2).
Definition entry_dist (e : Z * Z * Z) : Z := e.2.

Lemma visited_index_inj p q :
  in_grid p → in_grid q → visited_index p = visited_index q → p = q.
Proof.
  unfold in_grid, visited_index. destruct p as [a b], q as [c d]. simpl.
  intros [Ha Hb] [Hc Hd] Heq.
  assert (b = d) as -> by nia. f_equal. lia.
Qed.

Lemma visited_index_range p :
  in_grid p → 0 <= visited_index p < ROAD_ACCESS_VISITED_LENGTH.
Proof.
  unfold in_grid, visited_index, ROAD_ACCESS_VISITED_LENGTH. intros [Ha Hb]. nia.
Qed.

Lemma in_grid_tile p : in_grid p → is_Some (tile_at g p.1 p.2).
Proof. intros [? ?]. by eapply tile_at_Some_wf. Qed.

Lemma tile_in_grid p t : tile_at g p.1 p.2 = Some t → in_grid p.
Proof. intros Ht. by eapply tile_at_Some_inv. Qed.

(** The invariant of the search on the queue and the visited marks. *)
Record bfs_inv (Q : list (Z * Z * Z)) (V : gset Z) : Prop := {
  inv_start : Q !! 0%nat = Some (x, y, 0);
  inv_entry : ∀ i e, Q !! i = Some e →
    ∃ n, entry_dist e = Z.of_nat n ∧ steps_to g z (x, y) n (entry_pos e) ∧
         entry_dist e <= 10 ∧ in_grid (entry_pos e) ∧
         (i ≠ 0%nat → ¬ road_at g (entry_pos e) ∧ entry_pos e ≠ (x, y) ∧
                      entry_dist e <= maxDistance);
  inv_nodup : NoDup (entry_pos <$> Q);
  inv_marked : ∀ e, e ∈ Q → visited_index (entry_pos e) ∈ V;
  inv_visited : ∀ p, in_grid p → mdist p (x, y) <= maxDistance →
    visited_index p ∈ V →
    p ∈ (entry_pos <$> Q) ∨ (¬ passable g z p ∧ ¬ road_at g p);
  inv_sorted : ∀ i j ei ej, (i <= j)%nat → Q !! i = Some ei → Q !! j = Some ej →
    entry_dist ei <= entry_dist ej;
}.

(** The first [h] entries have been expanded: their neighbours are marked,
    and the neighbours that are queued are at most one step further. *)
Definition bfs_done (Q : list (Z * Z * Z)) (V : gset Z) (h : nat) : Prop :=
  ∀ i e, (i < h)%nat → Q !! i = Some e → entry_dist e < maxDistance →
    ∀ q, adjacent (entry_pos e) q →
      (in_grid q → visited_index q ∈ V) ∧
      (∀ e', e' ∈ Q → entry_pos e' = q → entry_dist e' <= entry_dist e + 1).

Definition level_bound (Q : list (Z * Z * Z)) (d : Z) : Prop :=
  ∀ e, e ∈ Q → entry_dist e <= d + 1.

Lemma bfs_inv_length Q V : bfs_inv Q V → (length Q <= 221)%nat.
Proof.
  intros Hinv. rewrite <- (length_fmap entry_pos).
  apply (NoDup_in_diamond (x, y)); [apply Hinv|].
  intros p Hp. apply list_elem_of_fmap in Hp as (e & -> & He).
  apply list_elem_of_lookup in He as [i Hi].
  destruct (inv_entry _ _ Hinv i e Hi) as (n & Hd & Hsteps & H10 & _).
  apply steps_to_mdist in Hsteps. lia.
Qed.

Lemma bfs_done_mono Q V V' h l :
  bfs_done Q V h → V ⊆ V' → (h <= length Q)%nat →
  (∀ e, e ∈ l → in_grid (entry_pos e) ∧ visited_index (entry_pos e) ∉ V) →
  bfs_done (Q ++ l) V' h.
Proof.
  intros Hdone Hsub Hh Hnew i e Hi He Hd q Hadj.
  rewrite lookup_app_l in He by lia.
  destruct (Hdone i e Hi He Hd q Hadj) as [Hmark Hnext]. split.
  - intros Hq. apply Hsub. by apply Hmark.
  - intros e' [He'|He']%elem_of_app Hpos; [by apply Hnext|].
    destruct (Hnew e' He') as [Hin Hnot]. rewrite Hpos in Hin, Hnot.
    destruct Hnot. by apply Hmark.
Qed.

(** What one neighbour visit leaves behind when it does not find a road. *)
Definition visit_post (Q : list (Z * Z * Z)) (V : gset Z) (h : nat) (c : Z * Z * Z)
    (n : Z * Z) (Q' : list (Z * Z * Z)) (V' : gset Z) : Prop :=
  bfs_inv Q' V' ∧ bfs_done Q' V' h ∧ Q' !! h = Some c ∧
  level_bound Q' (entry_dist c) ∧ V ⊆ V' ∧ (in_grid n → visited_index n ∈ V').

Lemma visit_neighbor_spec Q V hd h c n :
  bfs_inv Q V → bfs_done Q V h → Q !! h = Some c →
  entry_dist c < maxDistance → level_bound Q (entry_dist c) →
  adjacent (entry_pos c) n →
  ∃ found Q' V',
    visit_neighbor g size z (entry_dist c) (mkBfs Q hd V) n
      = Some (found, mkBfs Q' hd V') ∧
    (found = true → road_within g z (x, y) maxDistance) ∧
    (found = false → visit_post Q V h c n Q' V').
Proof.
  intros Hinv Hdone Hc Hd Hlevel Hadj.
  destruct n as [nx ny]. unfold visit_neighbor.
  assert ((h < length Q)%nat) as Hh by (by eapply lookup_lt_Some).
  destruct (inv_entry _ _ Hinv h c Hc) as (k & Hk & Hsteps & H10 & Hcin & Hc0).
  destruct (bool_decide (nx < 0) || bool_decide (nx >= size) ||
            bool_decide (ny < 0) || bool_decide (ny >= size)) eqn:Hout.
  { exists false, Q, V. split; [done|]. split; [done|]. intros _.
    unfold visit_post. split_and!; try done. intros [? ?]. simpl in *.
    rewrite !orb_true_iff, !bool_decide_eq_true in Hout. lia. }
  rewrite !orb_false_iff, !bool_decide_eq_false in Hout.
  assert (in_grid (nx, ny)) as Hnin by (unfold in_grid; simpl; lia).
  change (ny * size + nx) with (visited_index (nx, ny)).
  unfold visited_get. cbn [visited queue queueHead]. case_bool_decide as Hvis.
  { exists false, Q, V. split; [done|]. split; [done|]. intros _.
    unfold visit_post. split_and!; done. }
  cbn [visited queue queueHead].
  unfold visited_set. rewrite decide_True by (by apply visited_index_range).
  destruct (in_grid_tile (nx, ny) Hnin) as [t Ht]. simpl in Ht. rewrite Ht. simpl.
  assert ((nx, ny) ≠ (x, y)) as Hnstart.
  { intros Heq. apply Hvis. rewrite Heq.
    apply (inv_marked _ _ Hinv (x, y, 0)). eapply list_elem_of_lookup_2, Hinv. }
  assert (mdist (nx, ny) (x, y) <= entry_dist c + 1) as Hmd.
  { apply steps_to_mdist in Hsteps. apply adjacent_mdist in Hadj.
    unfold mdist in *. simpl in *. lia. }
  destruct (is_road_or_bridge t) eqn:Hroad.
  { do 3 eexists. split; [done|]. split; [|done]. intros _.
    exists k, (entry_pos c), (nx, ny). split; [done|]. split; [done|].
    split; [by exists t|]. split; [done|]. lia. }
  assert (¬ road_at g (nx, ny)) as Hnroad.
  { intros (t' & Ht' & Hr'). simpl in Ht'. congruence. }
  assert (V ⊆ {[visited_index (nx, ny)]} ∪ V) as Hsub by apply union_subseteq_r.
  assert (visited_index (nx, ny) ∈ ({[visited_index (nx, ny)]} ∪ V : gset Z)) as Hnew
    by (apply elem_of_union; left; by apply elem_of_singleton).
  destruct (isPassableZone z t) eqn:Hpass; simpl.
  - (* the neighbour is queued: the capacity test cannot fail *)
    assert ((nx, ny) ∉ entry_pos <$> Q) as Hfresh.
    { intros (e & Hpos & He)%list_elem_of_fmap. apply Hvis. rewrite Hpos.
      by apply (inv_marked _ _ Hinv). }
    assert ((length (Q ++ [(nx, ny, (entry_dist c + 1)%Z)]) <= 221)%nat) as Hlen.
    { rewrite <- (length_fmap entry_pos). apply (NoDup_in_diamond (x, y)).
      - rewrite fmap_app. apply NoDup_app. split; [apply Hinv|]. split.
        + intros p Hp ->%list_elem_of_singleton. by apply Hfresh.
        + apply NoDup_singleton.
      - intros p (e & -> & [He | ->%list_elem_of_singleton]%elem_of_app)%list_elem_of_fmap.
        + apply list_elem_of_lookup in He as [i Hi].
          destruct (inv_entry _ _ Hinv i e Hi) as (n' & Hd' & Hsteps' & H10' & _).
          apply steps_to_mdist in Hsteps'. lia.
        + unfold entry_pos. simpl. lia. }
    rewrite length_app in Hlen. simpl in Hlen.
    rewrite bool_decide_eq_true_2 by (unfold ROAD_ACCESS_QUEUE_LENGTH; lia).
    rewrite !to_int16_small by (unfold in_grid in *; simpl in *; lia).
    do 3 eexists. split; [done|]. split; [done|]. intros _.
    assert (passable g z (nx, ny)) as Hpassable by (by exists t).
    split; [|split; [|split; [|split; [|split]]]].
    + split.
      * rewrite lookup_app_l by lia. apply Hinv.
      * intros i e [Hi|[Hlen' He]]%lookup_app_Some.
        -- by apply (inv_entry _ _ Hinv).
        -- apply list_lookup_singleton_Some in He as [_ <-].
           exists (S k). unfold entry_dist, entry_pos in *. simpl.
           split; [lia|]. split; [by eapply steps_to_next|].
           split; [lia|]. split; [done|]. intros _. split; [done|]. split; [done|lia].
      * rewrite fmap_app. apply NoDup_app. split; [apply Hinv|]. split.
        -- intros p Hp ->%list_elem_of_singleton. by apply Hfresh.
        -- apply NoDup_singleton.
      * intros e [He | ->%list_elem_of_singleton]%elem_of_app.
        -- apply Hsub. by apply (inv_marked _ _ Hinv).
        -- done.
      * intros p Hp Hpd [Heq%elem_of_singleton|Hin]%elem_of_union.
        -- apply visited_index_inj in Heq; [|done..]. subst p. left.
           rewrite fmap_app. apply elem_of_app. right. by apply list_elem_of_singleton.
        -- destruct (inv_visited _ _ Hinv p Hp Hpd Hin) as [?|?]; [|by right].
           left. rewrite fmap_app. apply elem_of_app. by left.
      * intros i j ei ej Hij [Hi|[Hleni Hi]]%lookup_app_Some
          [Hj|[Hlenj Hj]]%lookup_app_Some.
        -- by eapply (inv_sorted _ _ Hinv).
        -- apply list_lookup_singleton_Some in Hj as [_ <-].
           apply list_elem_of_lookup_2 in Hi. apply Hlevel in Hi.
           unfold entry_dist in *. simpl. lia.
        -- apply lookup_lt_Some in Hj. lia.
        -- apply list_lookup_singleton_Some in Hi as [_ <-].
           apply list_lookup_singleton_Some in Hj as [_ <-]. lia.
    + apply (bfs_done_mono Q V); [done|done|lia|].
      intros e ->%list_elem_of_singleton. done.
    + by rewrite lookup_app_l by lia.
    + intros e [He | ->%list_elem_of_singleton]%elem_of_app; [by apply Hlevel|].
      unfold entry_dist. simpl. lia.
    + done.
    + done.
  - (* the neighbour is not passable: it is only marked *)
    do 3 eexists. split; [done|]. split; [done|]. intros _.
    assert (¬ passable g z (nx, ny)) as Hnpass.
    { intros (t' & Ht' & Hp'). simpl in Ht'. congruence. }
    split; [|split; [|split; [|split; [|split]]]]; try done.
    + split; try apply Hinv.
      * intros e He. apply Hsub. by apply (inv_marked _ _ Hinv).
      * intros p Hp Hpd [Heq%elem_of_singleton|Hin]%elem_of_union.
        -- apply visited_index_inj in Heq; [|done..]. subst p. by right.
        -- by apply (inv_visited _ _ Hinv).
    + rewrite <- (app_nil_r Q). apply (bfs_done_mono Q V); [done|done|lia|].
      by intros e ?%elem_of_nil.
Qed.

Lemma visit_neighbors_spec ns : ∀ Q V hd h c,
  bfs_inv Q V → bfs_done Q V h → Q !! h = Some c →
  entry_dist c < maxDistance → level_bound Q (entry_dist c) →
  (∀ n, n ∈ ns → adjacent (entry_pos c) n) →
  ∃ found Q' V',
    visit_neighbors g size z (entry_dist c) (mkBfs Q hd V) ns
      = Some (found, mkBfs Q' hd V') ∧
    (found = true → road_within g z (x, y) maxDistance) ∧
    (found = false →
       bfs_inv Q' V' ∧ bfs_done Q' V' h ∧ Q' !! h = Some c ∧
       level_bound Q' (entry_dist c) ∧ V ⊆ V' ∧
       ∀ n, n ∈ ns → in_grid n → visited_index n ∈ V').
Proof.
  induction ns as [|n ns IH]; intros Q V hd h c Hinv Hdone Hc Hd Hlevel Hadj.
  { exists false, Q, V. split; [done|]. split; [done|]. intros _.
    split_and!; try done. by intros n ?%elem_of_nil. }
  assert (adjacent (entry_pos c) n) as Hn by (apply Hadj, elem_of_cons; by left).
  destruct (visit_neighbor_spec Q V hd h c n Hinv Hdone Hc Hd Hlevel Hn)
    as (found & Q1 & V1 & Hrun & Htrue & Hfalse).
  cbn [visit_neighbors]. rewrite Hrun. simpl.
  destruct found.
  { exists true, Q1, V1. split; [done|]. split; [by intros _; apply Htrue|done]. }
  destruct (Hfalse eq_refl) as (Hinv1 & Hdone1 & Hc1 & Hlevel1 & Hsub1 & Hmark1).
  destruct (IH Q1 V1 hd h c Hinv1 Hdone1 Hc1 Hd Hlevel1)
    as (found & Q2 & V2 & Hrun2 & Htrue2 & Hfalse2).
  { intros n' Hn'. apply Hadj, elem_of_cons. by right. }
  exists found, Q2, V2. split; [done|]. split; [done|]. intros Hf.
  destruct (Hfalse2 Hf) as (Hinv2 & Hdone2 & Hc2 & Hlevel2 & Hsub2 & Hmark2).
  split_and!; try done.
  - by etrans.
  - intros n' [->|Hn']%elem_of_cons Hin; [|by apply Hmark2].
    apply Hsub2. by apply Hmark1.
Qed.

(** The state at the head of the [while] loop. *)
Definition loop_inv (Q : list (Z * Z * Z)) (V : gset Z) (h : nat) : Prop :=
  bfs_inv Q V ∧ bfs_done Q V h ∧ (h <= length Q)%nat ∧
  ∀ c, Q !! h = Some c → level_bound Q (entry_dist c).

Lemma loop_inv_next Q V h c :
  bfs_inv Q V → bfs_done Q V (S h) → Q !! h = Some c →
  level_bound Q (entry_dist c) → loop_inv Q V (S h).
Proof.
  intros Hinv Hdone Hc Hlevel. split; [done|]. split; [done|]. split.
  { apply lookup_lt_Some in Hc. lia. }
  intros c' Hc' e He. apply Hlevel in He.
  assert (entry_dist c <= entry_dist c'); [|lia].
  eapply (inv_sorted _ _ Hinv h (S h)); [lia|done..].
Qed.

Lemma bfs_loop_spec fuel : ∀ Q V h,
  loop_inv Q V h → (222 <= fuel + h)%nat →
  ∃ found Q' h' V',
    bfs_loop fuel g size z maxDistance (mkBfs Q h V) = Some (found, mkBfs Q' h' V') ∧
    (found = true → road_within g z (x, y) maxDistance) ∧
    (found = false → bfs_inv Q' V' ∧ bfs_done Q' V' (length Q')).
Proof.
  induction fuel as [|fuel IH]; intros Q V h (Hinv & Hdone & Hh & Hlevel) Hfuel.
  { apply bfs_inv_length in Hinv. lia. }
  cbn [bfs_loop queue queueHead visited].
  destruct (Q !! h) as [c|] eqn:Hc.
  2:{ exists false, Q, h, V. split; [done|]. split; [done|]. intros _. split; [done|].
      apply lookup_ge_None in Hc. by replace (length Q) with h by lia. }
  specialize (Hlevel c eq_refl).
  destruct c as [[cx cy] dist] eqn:Hceq. rewrite <- Hceq in *.
  assert (entry_dist c = dist) as Hdist by (by subst c).
  assert (entry_pos c = (cx, cy)) as Hpos by (by subst c).
  case_bool_decide as Hfar.
  - apply IH; [|lia]. apply (loop_inv_next Q V h c); try done.
    intros i e Hi He Hlt q Hadj.
    destruct (decide (i = h)) as [->|Hne].
    + rewrite Hc in He. injection He as <-. lia.
    + apply (Hdone i e); [lia|done..].
  - assert (entry_dist c < maxDistance) as Hd by lia.
    destruct (visit_neighbors_spec
                [(cx - 1, cy); (cx + 1, cy); (cx, cy - 1); (cx, cy + 1)]
                Q V (S h) h c Hinv Hdone Hc Hd Hlevel)
      as (found & Q1 & V1 & Hrun & Htrue & Hfalse).
    { intros n Hn. rewrite Hpos. by apply adjacent_neighbors. }
    rewrite Hdist in Hrun. rewrite Hrun. simpl.
    destruct found.
    { exists true, Q1, (S h), V1. split; [done|]. split; [by intros _; apply Htrue|done]. }
    destruct (Hfalse eq_refl) as (Hinv1 & Hdone1 & Hc1 & Hlevel1 & Hsub1 & Hmark1).
    apply IH; [|lia]. apply (loop_inv_next Q1 V1 h c); try done.
    intros i e Hi He Hlt q Hadj.
    destruct (decide (i = h)) as [->|Hne].
    + rewrite Hc1 in He. injection He as <-. split.
      * apply Hmark1. apply adjacent_neighbors. by rewrite <- Hpos.
      * intros e' He' _. by apply Hlevel1.
    + apply (Hdone1 i e); [lia|done..].
Qed.

(** Every position a path of passable tiles reaches in fewer than
    [maxDistance] steps is in the queue of an exhausted search. *)
Lemma exhausted_reaches Q V n p :
  bfs_inv Q V → bfs_done Q V (length Q) →
  steps_to g z (x, y) n p → Z.of_nat n < maxDistance →
  ∃ e, e ∈ Q ∧ entry_pos e = p ∧ entry_dist e <= Z.of_nat n.
Proof.
  intros Hinv Hdone Hsteps. induction Hsteps as [|n p q Hsteps IH Hadj Hpass]; intros Hn.
  { exists (x, y, 0). split; [|done]. eapply list_elem_of_lookup_2, Hinv. }
  destruct IH as (e & He & Hpos & Hdist); [lia|].
  apply list_elem_of_lookup in He as [i Hi].
  assert ((i < length Q)%nat) as Hlt by (by eapply lookup_lt_Some).
  assert (entry_dist e < maxDistance) as Hed by lia.
  assert (adjacent (entry_pos e) q) as Hadj' by (by rewrite Hpos).
  destruct (Hdone i e Hlt Hi Hed q Hadj') as [Hmark Hnext].
  assert (in_grid q) as Hq.
  { destruct Hpass as (t & Ht & _). by eapply tile_in_grid. }
  assert (mdist q (x, y) <= maxDistance) as Hmd.
  { assert (steps_to g z (x, y) (S n) q) as Hs by (by eapply steps_to_next).
    apply steps_to_mdist in Hs. lia. }
  destruct (inv_visited _ _ Hinv q Hq Hmd (Hmark Hq)) as [Hin|[Hnp _]]; [|done].
  apply list_elem_of_fmap in Hin as (e' & Hpos' & He').
  exists e'. split; [done|]. split; [done|].
  specialize (Hnext e' He' (eq_sym Hpos')). lia.
Qed.

Lemma exhausted_no_road Q V :
  bfs_inv Q V → bfs_done Q V (length Q) → ¬ road_within g z (x, y) maxDistance.
Proof.
  intros Hinv Hdone (n & p & q & Hsteps & Hadj & Hroad & Hne & Hn).
  destruct (exhausted_reaches Q V n p Hinv Hdone Hsteps) as (e & He & Hpos & Hdist); [lia|].
  apply list_elem_of_lookup in He as [i Hi].
  assert ((i < length Q)%nat) as Hlt by (by eapply lookup_lt_Some).
  assert (entry_dist e < maxDistance) as Hed by lia.
  assert (adjacent (entry_pos e) q) as Hadj' by (by rewrite Hpos).
  destruct (Hdone i e Hlt Hi Hed q Hadj') as [Hmark _].
  assert (in_grid q) as Hq.
  { destruct Hroad as (t & Ht & _). by eapply tile_in_grid. }
  assert (mdist q (x, y) <= maxDistance) as Hmd.
  { apply steps_to_mdist in Hsteps. apply adjacent_mdist in Hadj.
    unfold mdist in *. lia. }
  destruct (inv_visited _ _ Hinv q Hq Hmd (Hmark Hq)) as [Hin|[_ Hnr]]; [|done].
  apply list_elem_of_fmap in Hin as (e' & Hpos' & He').
  apply list_elem_of_lookup in He' as [j Hj].
  destruct (inv_entry _ _ Hinv j e' Hj) as (_ & _ & _ & _ & _ & Hj0).
  destruct (decide (j = 0%nat)) as [->|Hjne].
  - rewrite (inv_start _ _ Hinv) in Hj. injection Hj as <-. by subst q.
  - destruct (Hj0 Hjne) as [Hnr _]. by rewrite <- Hpos' in Hnr.
Qed.

(** The clearing loop removes the marks of the positions it runs over. *)
Lemma clear_spec (l : list (Z * Z)) : ∀ (v : gset Z) i,
  (∀ q, q ∈ l → in_grid q) →
  i ∈ foldl (λ v '(cx, cy), visited_set v (cy * size + cx) false) v l ↔
  i ∈ v ∧ ∀ q, q ∈ l → visited_index q ≠ i.
Proof.
  induction l as [|[cx cy] l IH]; intros v i Hl; cbn [foldl].
  { split; [|by intros [? _]]. intros Hi. split; [done|]. by intros q ?%elem_of_nil. }
  rewrite IH by (intros q Hq; apply Hl, elem_of_cons; by right).
  unfold visited_set.
  rewrite decide_True
    by (apply (visited_index_range (cx, cy)), Hl, elem_of_cons; by left).
  rewrite elem_of_difference, elem_of_singleton. split.
  - intros [[Hi Hne] Hrest]. split; [done|].
    intros q [->|Hq]%elem_of_cons; [|by apply Hrest].
    unfold visited_index. simpl. congruence.
  - intros [Hi Hall]. split; [split; [done|]|].
    + intros ->. by apply (Hall (cx, cy)); [apply elem_of_cons; left|].
    + intros q Hq. apply Hall, elem_of_cons. by right.
Qed.

Lemma initial_inv (v0 : gset Z) :
  let cleared :=
    foldl (λ v '(cx, cy), visited_set v (cy * size + cx) false) v0
          (box (Z.max 0 (x - maxDistance)) (Z.min (size - 1) (x + maxDistance))
               (Z.max 0 (y - maxDistance)) (Z.min (size - 1) (y + maxDistance))) in
  loop_inv [(x, y, 0)] (visited_set cleared (y * size + x) true) 0.
Proof.
  intros cleared.
  assert (in_grid (x, y)) as Hstart by done.
  unfold visited_set at 1.
  rewrite decide_True by (by apply (visited_index_range (x, y))).
  change (y * size + x) with (visited_index (x, y)).
  split; [|split; [|split]].
  - split.
    + done.
    + intros i e Hi. apply list_lookup_singleton_Some in Hi as [-> <-].
      exists 0%nat. split; [done|]. split; [constructor|]. split; [done|]. done.
    + apply NoDup_singleton.
    + intros e ->%list_elem_of_singleton.
      apply elem_of_union. left. by apply elem_of_singleton.
    + intros p Hp Hmd [Heq%elem_of_singleton|Hin]%elem_of_union.
      * apply visited_index_inj in Heq; [|done..]. subst p. left.
        by apply list_elem_of_singleton.
      * exfalso. apply clear_spec in Hin as [_ Hall].
        { apply (Hall p); [|done]. destruct p as [px py]. apply elem_of_box.
          unfold mdist, in_grid in *. simpl in *. lia. }
        intros [qx qy] Hq%elem_of_box. unfold in_grid. simpl. lia.
    + intros i j ei ej _ Hi Hj.
      apply list_lookup_singleton_Some in Hi as [_ <-].
      by apply list_lookup_singleton_Some in Hj as [_ <-].
  - intros i e Hi. lia.
  - simpl. lia.
  - intros c Hc e ->%list_elem_of_singleton. injection Hc as <-.
    unfold entry_dist. simpl. lia.
Qed.

End RoadAccess.

(** [hasRoadAccess] within its two buffers: on a well-formed grid of size at
    most 128, for a search bound of at most 10 steps (the default 8
    included) and every content of the scratch buffer, the call returns; it
    returns false when the start tile's zone is none, and otherwise it
    returns true exactly when a road or bridge tile other than the start is
    reached by a 4-connected path of at most [maxDistance] steps whose tiles
    between the start and the road have the start tile's zone and are not
    water. *)
Theorem road_access_iff_road_within g size x y maxDistance t0 v0 :
  grid_wf size g → size <= 128 → maxDistance <= 10 →
  tile_at g x y = Some t0 →
  ∃ b v1, hasRoadAccess g x y size maxDistance v0 = Some (b, v1) ∧
    (zone t0 = ZoneNone → b = false) ∧
    (zone t0 ≠ ZoneNone →
       (b = true ↔ road_within g (zone t0) (x, y) maxDistance)).
Proof.
  intros Hwf Hsize Hmax Ht0.
  destruct (tile_at_Some_inv size g x y t0 Hwf Ht0) as [Hx Hy].
  unfold hasRoadAccess. rewrite Ht0. cbn -[bfs_loop foldl box visited_set to_int16].
  destruct (decide (zone t0 = ZoneNone)) as [Hz|Hz].
  { exists false, v0. split; [done|]. split; [done|]. by intros []. }
  rewrite !to_int16_small by lia.
  pose proof (initial_inv g size (zone t0) maxDistance x y Hsize Hx Hy v0)
    as Hinit.
  cbv zeta in Hinit.
  destruct (bfs_loop_spec g size (zone t0) maxDistance x y Hwf Hsize Hmax Hx Hy
              256 _ _ 0%nat Hinit) as (found & Q' & h' & V' & Hrun & Htrue & Hfalse);
    [lia|].
  rewrite Hrun. cbn [mbind option_bind visited]. exists found, V'. split; [done|]. split; [done|].
  intros _. split; [done|]. intros Hroad.
  destruct found; [done|]. destruct (Hfalse eq_refl) as [Hinv Hdone].
  by destruct (exhausted_no_road g size (zone t0) maxDistance x y Hwf Q' V' Hinv Hdone).
Qed.

(** At a concrete world: a 9 x 9 residential zone with a road at (4, 0),
    searched from (4, 4) with the default bound. *)
Lemma road_access_iff_road_within_witness :
  let g := zoned_grid 9 4 0 in
  ∃ b v1, hasRoadAccess g 4 4 9 DEFAULT_MAX_DISTANCE ∅ = Some (b, v1) ∧
    (Residential = ZoneNone → b = false) ∧
    (Residential ≠ ZoneNone →
       (b = true ↔ road_within g Residential (4, 4) DEFAULT_MAX_DISTANCE)).
Proof.
  intros g.
  apply (road_access_iff_road_within g 9 4 4 DEFAULT_MAX_DISTANCE
           (set_zone Residential (createTile 4 4 "grass")) ∅).
  - apply grid_wfb_spec. vm_compute. reflexivity.
  - lia.
  - unfold DEFAULT_MAX_DISTANCE. lia.
  - reflexivity.
Defined.

(** A straight path towards smaller [y]. *)
Lemma steps_to_north g z x y (k : nat) :
  (∀ j, 1 <= j <= Z.of_nat k → passable g z (x, y - j)) →
  steps_to g z (x, y) k (x, y - Z.of_nat k).
Proof.
  induction k as [|k IH]; intros Hpass.
  { replace (y - Z.of_nat 0) with y by lia. constructor. }
  apply (steps_to_next g z (x, y) k (x, y - Z.of_nat k)).
  - apply IH. intros j Hj. apply Hpass. lia.
  - unfold adjacent. simpl. right. right. left. f_equal. lia.
  - apply Hpass. lia.
Qed.

(** The bound on the steps is there for the queue.  With a bound of 12
    steps, which no caller passes, the queue of 256 triples fills up before
    the search reaches distance 12: in a 25 x 25 residential zone the road
    at (12, 0) is 12 straight steps from (12, 12) and the call returns
    false. *)
Lemma road_access_misses_reachable_road :
  let g := zoned_grid 25 12 0 in
  (zone <$> tile_at g 12 12) = Some Residential ∧
  (fst <$> hasRoadAccess g 12 12 25 12 ∅) = Some false ∧
  road_within g Residential (12, 12) 12.
Proof.
  intros g. split; [reflexivity|]. split; [by vm_compute|].
  exists 11%nat, (12, 1), (12, 0). split_and!.
  - apply (steps_to_north g Residential 12 12 11). intros j Hj.
    assert (j ∈ seqZ 1 11) as Hin by (apply elem_of_seqZ; lia).
    exists (set_zone Residential (createTile 12 (12 - j) "grass")).
    vm_compute in Hin. repeat (apply elem_of_cons in Hin as [->|Hin]; [by vm_compute|]).
    by apply elem_of_nil in Hin.
  - unfold adjacent. simpl. right. right. by left.
  - exists (createTile 12 0 "road"). by vm_compute.
  - done.
  - lia.
Qed.

(** C5 fails on a grid larger than the 128 x 128 scratch buffer
    ([new Uint8Array(128 * 128)]), with the default bound that every caller
    uses.  On the 130 x 130 world of residential grass (the default world of
    70 x 70 after two expansions by 15 tiles on each side) the road at
    (128, 120) is 8 straight steps north of the zoned tile (128, 128), and
    the call returns false: the marks of the tiles whose index
    [y * size + x] is beyond the buffer are lost, these tiles are queued
    again and again, and the queue of 256 triples is full before the search
    reaches distance 8.  In the rows the buffer covers, the same road is
    found. *)
Theorem road_access_lost_beyond_visited_buffer :
  let g := zoned_grid 130 128 120 in
  grid_wf 130 g ∧
  (zone <$> tile_at g 128 128) = Some Residential ∧
  road_within g Residential (128, 128) DEFAULT_MAX_DISTANCE ∧
  (fst <$> hasRoadAccess g 128 128 130 DEFAULT_MAX_DISTANCE ∅) = Some false ∧
  (fst <$> hasRoadAccess (zoned_grid 130 100 92) 100 100 130 DEFAULT_MAX_DISTANCE ∅)
    = Some true.
Proof.
  intros g. split; [apply grid_wfb_spec; vm_compute; reflexivity|].
  split; [by vm_compute|]. split; [|split; by vm_compute].
  exists 7%nat, (128, 121), (128, 120). split_and!.
  - apply (steps_to_north g Residential 128 128 7). intros j Hj.
    assert (j ∈ seqZ 1 7) as Hin by (apply elem_of_seqZ; lia).
    exists (set_zone Residential (createTile 128 (128 - j) "grass")).
    vm_compute in Hin. repeat (apply elem_of_cons in Hin as [->|Hin]; [by vm_compute|]).
    by apply elem_of_nil in Hin.
  - unfold adjacent. simpl. right. right. by left.
  - exists (createTile 128 120 "road"). by vm_compute.
  - done.
  - unfold DEFAULT_MAX_DISTANCE. lia.
Qed.

(* ------------------------------------------------------------------ *)
(** *** The search returns on every grid *)

(** The 256 iterations of [bfs_loop] are enough whatever the grid size and
    the bound: the capacity test keeps the queue below 255 entries. *)
Lemma visit_neighbor_returns g size z dist st n :
  grid_wf size g →
  ∃ found st', visit_neighbor g size z dist st n = Some (found, st') ∧
    queueHead st' = queueHead st ∧
    (length (queue st) <= length (queue st'))%nat ∧
    ((length (queue st) <= 255)%nat → (length (queue st') <= 255)%nat).
Proof.
  intros Hwf. destruct n as [nx ny]. unfold visit_neighbor.
  destruct (bool_decide (nx < 0) || bool_decide (nx >= size) ||
            bool_decide (ny < 0) || bool_decide (ny >= size)) eqn:Hout.
  { by exists false, st. }
  rewrite !orb_false_iff, !bool_decide_eq_false in Hout.
  destruct (visited_get _ _); [by exists false, st|].
  destruct (tile_at_Some_wf size g nx ny Hwf) as [t Ht]; [lia..|].
  rewrite Ht. cbn [mbind option_bind queue queueHead visited].
  destruct (is_road_or_bridge t); [by eexists _, _|].
  destruct (isPassableZone z t); cbn [andb]; [|by eexists _, _].
  case_bool_decide as Hcap; [|by eexists _, _].
  eexists _, _. split; [done|]. cbn [queue queueHead].
  rewrite length_app. simpl. unfold ROAD_ACCESS_QUEUE_LENGTH in Hcap.
  split; [done|]. split; lia.
Qed.

Lemma visit_neighbors_returns g size z dist ns : ∀ st,
  grid_wf size g →
  ∃ found st', visit_neighbors g size z dist st ns = Some (found, st') ∧
    queueHead st' = queueHead st ∧
    (length (queue st) <= length (queue st'))%nat ∧
    ((length (queue st) <= 255)%nat → (length (queue st') <= 255)%nat).
Proof.
  induction ns as [|n ns IH]; intros st Hwf.
  { exists false, st. by split_and!. }
  destruct (visit_neighbor_returns g size z dist st n Hwf)
    as (found & st1 & Hrun & Hhead & Hgrow & Hcap).
  cbn [visit_neighbors]. rewrite Hrun. cbn [mbind option_bind].
  destruct found; [by exists true, st1|].
  destruct (IH st1 Hwf) as (found & st2 & Hrun2 & Hhead2 & Hgrow2 & Hcap2).
  exists found, st2. split; [done|]. split; [congruence|]. split; [lia|].
  intros Hlen. by apply Hcap2, Hcap.
Qed.

Lemma bfs_loop_returns g size z maxDistance fuel : ∀ st,
  grid_wf size g →
  (length (queue st) <= 255)%nat → (queueHead st <= length (queue st))%nat →
  (256 <= fuel + queueHead st)%nat →
  is_Some (bfs_loop fuel g size z maxDistance st).
Proof.
  induction fuel as [|fuel IH]; intros st Hwf Hlen Hhead Hfuel; [lia|].
  cbn [bfs_loop].
  destruct (queue st !! queueHead st) as [[[cx cy] dist]|] eqn:Hq; [|done].
  apply lookup_lt_Some in Hq.
  case_bool_decide.
  { apply IH; cbn [queue queueHead]; [done|lia..]. }
  destruct (visit_neighbors_returns g size z dist
              [(cx - 1, cy); (cx + 1, cy); (cx, cy - 1); (cx, cy + 1)]
              (mkBfs (queue st) (S (queueHead st)) (visited st)) Hwf)
    as (found & st1 & Hrun & Hhead1 & Hgrow & Hcap).
  rewrite Hrun. cbn [mbind option_bind]. cbn [queue queueHead] in *.
  destruct found; [done|].
  apply IH; [done|by apply Hcap|lia|lia].
Qed.

Lemma hasRoadAccess_returns g x y size maxDistance v :
  grid_wf size g → 0 <= x < size → 0 <= y < size →
  is_Some (hasRoadAccess g x y size maxDistance v).
Proof.
  intros Hwf Hx Hy. unfold hasRoadAccess.
  destruct (tile_at_Some_wf size g x y Hwf Hx Hy) as [t Ht]. rewrite Ht.
  cbn -[bfs_loop foldl box visited_set to_int16].
  destruct (decide (zone t = ZoneNone)); [done|].
  destruct (bfs_loop_returns g size (zone t) maxDistance 256
              (mkBfs [(to_int16 x, to_int16 y, to_int16 0)] 0
                 (visited_set
                    (foldl (λ v '(cx, cy), visited_set v (cy * size + cx) false) v
                       (box (Z.max 0 (x - maxDistance)) (Z.min (size - 1) (x + maxDistance))
                            (Z.max 0 (y - maxDistance)) (Z.min (size - 1) (y + maxDistance))))
                    (y * size + x) true)) Hwf) as [[found st] Hrun];
    [simpl; lia..|].
  rewrite Hrun. done.
Qed.

(* ================================================================== *)
(** ** The simulation tick: footprints *)
(* ================================================================== *)

(** A loop that returns false at the first element that fails the test;
    the test itself may fail. *)
Fixpoint all_ok {A} (body : A → option bool) (l : list A) : option bool :=
  match l with
  | [] => Some true
  | a :: l' => b ← body a; if (b : bool) then all_ok body l' else Some false
  end.

(** [isMergeableZoneTile]; an absent [allowBuildingConsolidation] is false. *)
Definition isMergeableZoneTile (tile : Tile) (z : ZoneType) (excludeTile : option (Z * Z))
    (allowBuildingConsolidation : bool) : bool :=
  let t := type (building tile) in
  if match excludeTile with
     | Some (ex, ey) => bool_decide (tile_x tile = ex) && bool_decide (tile_y tile = ey)
     | None => false
     end
  then bool_decide (zone tile = z) && negb (onFire (building tile)) &&
       negb (is_type t "water") && negb (is_type t "road")
  else if negb (bool_decide (zone tile = z)) then false
  else if onFire (building tile) then false
  else if is_type t "water" || is_type t "road" || is_type t "bridge" then false
  else if includes MERGEABLE_TILE_TYPES t then true
  else if allowBuildingConsolidation && includes (CONSOLIDATABLE_BUILDINGS z) t then true
  else false.

(** [footprintAvailable]; [grid[originY + dy][originX + dx]] is not guarded. *)
Definition footprintAvailable (g : Grid) (originX originY width height : Z) (z : ZoneType)
    (gridSize : Z) (excludeTile : option (Z * Z)) (allowBuildingConsolidation : bool)
  : option bool :=
  if bool_decide (originX < 0) || bool_decide (originY < 0) ||
     bool_decide (originX + width > gridSize) || bool_decide (originY + height > gridSize)
  then Some false
  else all_ok (λ '(dx, dy),
         tile ← tile_at g (originX + dx) (originY + dy);
         Some (isMergeableZoneTile tile z excludeTile allowBuildingConsolidation))
       (rect width height).

(** [scoreFootprint]. *)
Definition scoreFootprint (g : Grid) (originX originY width height gridSize : Z) : option Q :=
  let offsets := [(-1, 0); (1, 0); (0, -1); (0, 1)] in
  roadScore ← for_each (λ roadScore '(dx, dy),
    let gx := originX + dx in
    let gy := originY + dy in
    for_each (λ roadScore '(ox, oy),
      let nx := gx + ox in
      let ny := gy + oy in
      if bool_decide (nx >= 0) && bool_decide (ny >= 0) &&
         bool_decide (nx < gridSize) && bool_decide (ny < gridSize) then
        adjacentTile ← tile_at g nx ny;
        let adjacentType := type (building adjacentTile) in
        if is_type adjacentType "road" || is_type adjacentType "bridge"
        then Some (roadScore + 1) else Some roadScore
      else Some roadScore) roadScore offsets) 0 (rect width height);
  Some (inject_Z roadScore - inject_Z (width * height) * (1 # 4))%Q.

(** [findFootprintIncludingTile]: the origin of the best candidate, or
    [null].  The comparator [(a, b) => b.score - a.score] is used through
    its sign only. *)
Definition findFootprintIncludingTile (g : Grid) (x y width height : Z) (z : ZoneType)
    (gridSize : Z) (allowBuildingConsolidation : bool) : option (option (Z * Z)) :=
  let excludeTile := Some (x, y) in
  candidates ← for_each (λ candidates '(ox, oy),
    available ← footprintAvailable g ox oy width height z gridSize excludeTile
                  allowBuildingConsolidation;
    if negb available then Some candidates
    else if bool_decide (x < ox) || bool_decide (x >= ox + width) ||
            bool_decide (y < oy) || bool_decide (y >= oy + height) then Some candidates
    else
      score ← scoreFootprint g ox oy width height gridSize;
      Some (candidates ++ [(ox, oy, score)]))
    [] (oy ← seqZ (y - (height - 1)) height; ox ← seqZ (x - (width - 1)) width; [(ox, oy)]);
  match sort_with (λ a b : Z * Z * Q, Qnum (b.2 - a.2)) candidates with
  | [] => Some None
  | (originX, originY, _) :: _ => Some (Some (originX, originY))
  end.

(** [getConstructionSpeed], from the value [Math.random()] returns. *)
Definition getConstructionSpeed (buildingType : BuildingType) (random : Q) : Q :=
  let '(w, h) := getBuildingSize buildingType in
  let area := w * h in
  let baseSpeed := (24 + random * 12)%Q in
  ((baseSpeed / Math_sqrt area) / (13 # 10))%Q.

(* ================================================================== *)
(** ** The simulation tick: the grid pass *)
(* ================================================================== *)

(** The state of the grid pass of [simulateTick].

    [newGrid] is the content reached through the local array [newGrid].
    [newGrid[y]] starts as the very row array of [state.grid] and is
    replaced by a copy (fresh tiles, fresh buildings) when [y] enters
    [modifiedRows]: until then a write through [newGrid[y]] is a write to
    the caller's row.  [modifiedRows] keeps, with every row index it
    holds, the content the caller's row had when it was copied; nothing
    writes to that row afterwards, since every write of the pass goes
    through [newGrid].  [draws] counts the calls of [Math.random] and
    [roadAccessVisited] is the module's scratch buffer. *)
Record TickState := mkTick {
  newGrid : Grid;
  modifiedRows : gmap Z (list Tile);
  draws : nat;
  roadAccessVisited : gset Z;
}.

(** [state.grid[y]], as the caller sees it. *)
Definition state_row (st : TickState) (y : Z) : option (list Tile) :=
  match modifiedRows st !! y with
  | Some row => Some row
  | None => row_at (newGrid st) y
  end.

(** Computations of the pass: they read and write the state and stop
    ([None]) where the source would dereference [undefined]. *)
Definition Tick (A : Type) : Type := TickState → option (A * TickState).

#[global] Instance tick_ret : MRet Tick := λ A a st, Some (a, st).
#[global] Instance tick_bind : MBind Tick := λ A B f m st,
  match m st with
  | Some (a, st') => f a st'
  | None => None
  end.

#[global] Instance tick_fmap : FMap Tick := λ A B f m st,
  match m st with
  | Some (a, st') => Some (f a, st')
  | None => None
  end.

Definition lift {A} (o : option A) : Tick A := λ st, a ← o; Some (a, st).

Fixpoint tick_for {A} (body : A → Tick unit) (l : list A) : Tick unit :=
  match l with
  | [] => mret ()
  | a :: l' => _ ← body a; tick_for body l'
  end.

Fixpoint tick_fold {S A} (body : S → A → Tick S) (s : S) (l : list A) : Tick S :=
  match l with
  | [] => mret s
  | a :: l' => s' ← body s a; tick_fold body s' l'
  end.

Definition when (c : bool) (m : Tick unit) : Tick unit := if c then m else mret ().

(** [newGrid[y]?.[x]] and [newGrid[y][x]]. *)
Definition peek_tile (x y : Z) : Tick (option Tile) :=
  λ st, Some (tile_at (newGrid st) x y, st).

Definition get_tile (x y : Z) : Tick Tile :=
  λ st, t ← tile_at (newGrid st) x y; Some (t, st).

Definition get_grid : Tick Grid := λ st, Some (newGrid st, st).

(** [state.grid[y][x]]. *)
Definition state_tile (x y : Z) : Tick Tile :=
  λ st, row ← state_row st y;
        t ← (if decide (0 <= x) then row !! Z.to_nat x else None);
        Some (t, st).

(** An assignment to fields of the tile object [newGrid[y][x]]. *)
Definition modify_tile (x y : Z) (f : Tile → Tile) : Tick unit :=
  λ st, Some ((), mkTick (update_tile (newGrid st) x y f) (modifiedRows st)
                         (draws st) (roadAccessVisited st)).

(** A function that writes to the tiles of [newGrid]. *)
Definition on_grid (f : Grid → option Grid) : Tick unit :=
  λ st, g ← f (newGrid st);
        Some ((), mkTick g (modifiedRows st) (draws st) (roadAccessVisited st)).

(** [if (!modifiedRows.has(y)) { newGrid[y] = state.grid[y].map(t =>
    ({ ...t, building: { ...t.building } })); modifiedRows.add(y); }]: the
    copy has the content of the row it replaces. *)
Definition copy_row (y : Z) : Tick unit :=
  λ st, match modifiedRows st !! y with
        | Some _ => Some ((), st)
        | None =>
            row ← row_at (newGrid st) y;
            Some ((), mkTick (newGrid st) (<[y := row]> (modifiedRows st))
                             (draws st) (roadAccessVisited st))
        end.

(** [hasRoadAccess(newGrid, x, y, size)], with the default [maxDistance]. *)
Definition road_access (x y size : Z) : Tick bool :=
  λ st, '(found, v) ← hasRoadAccess (newGrid st) x y size DEFAULT_MAX_DISTANCE
                        (roadAccessVisited st);
        Some (found, mkTick (newGrid st) (modifiedRows st) (draws st) v).

(** [state.stats.demand ? (zone === 'residential' ? ... : 0) : 0]. *)
Definition zone_demand (d : option Demand) (z : ZoneType) : Q :=
  match d, z with
  | Some d, Residential => d_residential d
  | Some d, Commercial => d_commercial d
  | Some d, Industrial => d_industrial d
  | _, _ => 0
  end.

Section GridPass.
Context (cat : Catalog).

(** The values [Math.random()] returns during the pass, in call order. *)
Context (rng : nat → Q).

Definition Math_random : Tick Q :=
  λ st, Some (rng (draws st),
              mkTick (newGrid st) (modifiedRows st) (S (draws st)) (roadAccessVisited st)).

(** [applyBuildingFootprint(newGrid, ...)]. *)
Definition place_footprint (originX originY : Z) (buildingType : BuildingType)
    (z : ZoneType) (lvl : Z) (services : ServiceCoverage) : Tick unit :=
  on_grid (λ g, applyBuildingFootprint cat g originX originY buildingType z lvl
                  (Some services)).

(** The zone ladders of [evolveBuilding]. *)
Definition zone_buildings (z : ZoneType) : list BuildingType :=
  match z with
  | Residential => RESIDENTIAL_BUILDINGS cat
  | Commercial => COMMERCIAL_BUILDINGS cat
  | Industrial => INDUSTRIAL_BUILDINGS cat
  | ZoneNone => []
  end.

(** The multi-tile clearing loop of an abandoned building. *)
Definition clear_abandoned (x y : Z) (t : BuildingType) (services : ServiceCoverage)
  : Tick unit :=
  let '(w, h) := getBuildingSize t in
  when (bool_decide (w > 1) || bool_decide (h > 1))
    (tick_for (λ '(dx, dy),
       clearTile ← peek_tile (x + dx) (y + dy);
       match clearTile with
       | Some _ =>
           let clearedBuilding :=
             set_watered (default false (cov_at (water services) (x + dx) (y + dy)))
               (set_powered (default false (cov_at (power services) (x + dx) (y + dy)))
                  (createBuilding "grass")) in
           modify_tile (x + dx) (y + dy) (set_building clearedBuilding)
       | None => mret ()
       end) (rect w h)).

(** The last part of [evolveBuilding]: the anchor's utilities, level,
    population and jobs. *)
Definition update_anchor (anchorX anchorY targetLevel : Z) (services : ServiceCoverage)
  : Tick unit :=
  _ ← get_tile anchorX anchorY;
  p ← lift (cov_at (power services) anchorX anchorY);
  w ← lift (cov_at (water services) anchorX anchorY);
  _ ← modify_tile anchorX anchorY (upd_building (λ b,
         set_level (Z.max (level b) (Z.min targetLevel (level b + 1)))
           (set_watered w (set_powered p b))));
  anchorTile ← get_tile anchorX anchorY;
  let anchorBuilding := building anchorTile in
  let buildingStats := BUILDING_STATS cat (type anchorBuilding) in
  let efficiency := ((if powered anchorBuilding then 1 # 2 else 0) +
                     (if watered anchorBuilding then 1 # 2 else 0))%Q in
  let scaled (v : Q) : Z :=
    Qfloor (v * inject_Z (Z.max 1 (level anchorBuilding)) * efficiency * (8 # 10)) in
  let pop := match buildingStats with
             | Some s => if Qlt_b 0 (maxPop s) then scaled (maxPop s) else 0
             | None => 0
             end in
  let jbs := match buildingStats with
             | Some s => if Qlt_b 0 (maxJobs s) then scaled (maxJobs s) else 0
             | None => 0
             end in
  modify_tile anchorX anchorY (upd_building (λ b, set_jobs jbs (set_population pop b))).

(** The consolidation step of [evolveBuilding]: the anchor it leaves. *)
Definition consolidate (x y : Z) (z : ZoneType) (targetType : option BuildingType)
    (targetLevel : Z) (allowBuildingConsolidation : bool) (services : ServiceCoverage)
  : Tick (Z * Z) :=
  targetType ← lift targetType;
  let '(w, h) := getBuildingSize targetType in
  g ← get_grid;
  footprint ← lift (findFootprintIncludingTile g x y w h z (Z.of_nat (length g))
                      allowBuildingConsolidation);
  match footprint with
  | Some (originX, originY) =>
      _ ← place_footprint originX originY targetType z targetLevel services;
      _ ← modify_tile originX originY (upd_building (set_level targetLevel));
      mret (originX, originY)
  | None =>
      tile ← get_tile x y;
      _ ← when (bool_decide (targetLevel > level (building tile)))
             (modify_tile x y (upd_building (λ b,
                set_level (Z.min targetLevel (level b + 1)) b)));
      mret (x, y)
  end.

(** The growth part of [evolveBuilding], from [building.age = (building.age
    || 0) + 1] on: [tile] is the tile as read at the start of the call. *)
Definition develop (x y : Z) (tile : Tile) (hasPower hasWater : bool)
    (zoneDemandValue : Q) (services : ServiceCoverage) : Tick Building :=
  let z := zone tile in
  let t := type (building tile) in
  let landValue := landValue tile in
  _ ← modify_tile x y (upd_building (λ b, set_age (age b + 1) b));
  let age' := (age (building tile) + 1)%Q in
  let lvl := level (building tile) in
  let buildingList := zone_buildings z in
  police_ ← lift (cov_at (police services) x y);
  fire_ ← lift (cov_at (fire services) x y);
  health_ ← lift (cov_at (health services) x y);
  education_ ← lift (cov_at (education services) x y);
  let serviceCoverage := ((police_ + fire_ + health_ + education_) / 4)%Q in
  let demandLevelBoost := (Qmax 0 ((zoneDemandValue - 30) / 70) * (7 # 10))%Q in
  let targetLevel :=
    Z.min 5 (Z.max 1 (Qfloor (landValue / 24 + serviceCoverage / 28 +
                              age' / 60 + demandLevelBoost))) in
  let targetIndex := Z.min (Z.of_nat (length buildingList) - 1) (targetLevel - 1) in
  let targetType :=
    if decide (0 <= targetIndex) then buildingList !! Z.to_nat targetIndex
    else None in
  let isSmall :=
    (bool_decide (z = Residential) &&
       (is_type t "house_small" || is_type t "house_medium")) ||
    (bool_decide (z = Commercial) &&
       (is_type t "shop_small" || is_type t "shop_medium")) ||
    (bool_decide (z = Industrial) && is_type t "factory_small") in
  let boosted := Qlt_b 30 zoneDemandValue && isSmall in
  let consolidationChance :=
    ((8 # 100) +
     (if boosted then Qmin (25 # 100) ((zoneDemandValue - 30) / 300) else 0) +
     (if boosted && Qlt_b 70 zoneDemandValue then 5 # 100 else 0))%Q in
  let allowBuildingConsolidation := boosted && Qlt_b 70 zoneDemandValue in
  let ageRequirement := 12%Q in
  let hasUtilitiesForConsolidation := hasPower && hasWater in
  consolidating ←
    (if hasUtilitiesForConsolidation && Qlt_b ageRequirement age' &&
        (bool_decide (targetLevel > lvl) ||
         negb (bool_decide (targetType = Some t)))
     then random ← Math_random; mret (Qlt_b random consolidationChance)
     else mret false);
  '(anchorX, anchorY) ←
    (if (consolidating : bool)
     then consolidate x y z targetType targetLevel allowBuildingConsolidation
            services
     else mret (x, y));
  _ ← update_anchor anchorX anchorY targetLevel services;
  building <$> get_tile x y.

(** [evolveBuilding(newGrid, x, y, services, demand)].  [building] is the
    building object of [newGrid[y][x]]: an assignment to one of its fields
    is an update of that tile's building.  The result is the building the
    caller stores in [newGrid[y][x].building]. *)
Definition evolveBuilding (x y : Z) (services : ServiceCoverage) (demand : option Demand)
  : Tick Building :=
  tile ← get_tile x y;
  let z := zone tile in
  let t := type (building tile) in
  if bool_decide (z = ZoneNone) || is_type t "grass" || is_type t "water" ||
     is_type t "road" || is_type t "bridge" then mret (building tile)
  else
    hasPower ← lift (cov_at (power services) x y);
    hasWater ← lift (cov_at (water services) x y);
    _ ← modify_tile x y (upd_building (λ b, set_watered hasWater (set_powered hasPower b)));
    if is_type t "empty" then
      _ ← modify_tile x y (upd_building (λ b, set_jobs 0 (set_population 0 b)));
      building <$> get_tile x y
    else
      let landValue := landValue tile in
      let isStarter := isStarterBuilding x y t in
      if negb isStarter && (negb hasPower || negb hasWater) then building <$> get_tile x y
      else if under_construction (building tile) then
        random ← Math_random;
        let speed := getConstructionSpeed t random in
        _ ← modify_tile x y (upd_building (λ b,
               set_jobs 0 (set_population 0
                 (set_constructionProgress
                    (Some (Qmin 100 (default 0%Q (constructionProgress b) + speed)%Q)) b))));
        building <$> get_tile x y
      else
        let zoneDemandValue := zone_demand demand z in
        if abandoned (building tile) then
          cleared ← (if Qlt_b 10 zoneDemandValue then
                       let clearingChance := Qmin (12 # 100) ((zoneDemandValue - 10) / 600) in
                       random ← Math_random;
                       if Qlt_b random clearingChance then
                         _ ← clear_abandoned x y t services;
                         mret (Some (set_watered hasWater
                                       (set_powered hasPower (createBuilding "grass"))))
                       else mret None
                     else mret None);
          match cleared with
          | Some clearedBuilding => mret clearedBuilding
          | None =>
              _ ← modify_tile x y (upd_building (λ b,
                     set_age (age b + (1 # 10)) (set_jobs 0 (set_population 0 b))));
              building <$> get_tile x y
          end
        else
          abandon ← (if Qlt_b zoneDemandValue (-20) && Qlt_b 30 (age (building tile)) then
                       let abandonmentChance :=
                         Qmin (2 # 100) (Qabs (zoneDemandValue + 20) / 4000) in
                       let utilityPenalty :=
                         (if isStarter then 0
                          else (if negb hasPower then 5 # 1000 else 0) +
                               (if negb hasWater then 5 # 1000 else 0))%Q in
                       let levelPenalty :=
                         if bool_decide (level (building tile) <= 2) then 3 # 1000 else 0%Q in
                       random ← Math_random;
                       mret (Qlt_b random
                               (abandonmentChance + utilityPenalty + levelPenalty)%Q)
                     else mret false);
          if (abandon : bool) then
            _ ← modify_tile x y (upd_building (λ b,
                   set_jobs 0 (set_population 0 (set_abandoned true b))));
            building <$> get_tile x y
          else
            develop x y tile hasPower hasWater zoneDemandValue services.

(** The spawn attempt of [simulateTick] on a zoned grass tile. *)
Definition spawn_building (x y size : Z) (z : ZoneType) (newPowered newWatered : bool)
    (services : ServiceCoverage) (demand : option Demand) : Tick unit :=
  roadAccess ← road_access x y size;
  let hasUtilities := newPowered && newWatered in
  let zoneDemandForSpawn := zone_demand demand z in
  let baseSpawnChance := (5 # 100)%Q in
  let demandFactor := Qmax 0 (Qmin 1 ((zoneDemandForSpawn + 30) / 80)) in
  let spawnChance := (baseSpawnChance * demandFactor)%Q in
  let buildingList :=
    match z with
    | Residential => RESIDENTIAL_BUILDINGS cat
    | Commercial => COMMERCIAL_BUILDINGS cat
    | _ => INDUSTRIAL_BUILDINGS cat
    end in
  let candidate := head buildingList in
  let wouldBeStarter :=
    match candidate with
    | Some c => isStarterBuilding x y c
    | None => false
    end in
  if roadAccess && (hasUtilities || wouldBeStarter) then
    random ← Math_random;
    if Qlt_b random spawnChance then
      candidate ← lift candidate;
      let '(w, h) := getBuildingSize candidate in
      g ← get_grid;
      when (canPlaceMultiTileBuilding g x y w h size)
        (_ ← tick_for (λ dy, when (bool_decide (y + dy < size)) (copy_row (y + dy)))
               (seqZ 0 h);
         place_footprint x y candidate z 1 services)
    else mret ()
  else mret ().

(** "ECO-HACK: Pollution Logic". *)
Definition pollution_step (x y : Z) : Tick unit :=
  tile ← get_tile x y;
  match BUILDING_STATS cat (type (building tile)) with
  | Some stats =>
      if negb (Qeq_b (stat_pollution stats) 0) then
        if Qlt_b (stat_pollution stats) 0 then
          modify_tile x y (λ t,
            set_pollution (Qmax 0 (pollution t + stat_pollution stats * (1 # 10))) t)
        else
          _ ← modify_tile x y (λ t,
                 set_pollution (Qmin 100 (pollution t + stat_pollution stats * (5 # 100))) t);
          match stat_pollutionType stats with
          | Some pt =>
              when (negb (String.eqb pt EmptyString) && negb (String.eqb pt "none"))
                (modify_tile x y (set_pollutionType (Some pt)))
          | None => mret ()
          end
      else mret ()
  | None => mret ()
  end.

(** The water tower cleans its own tile and its eight neighbours. *)
Definition water_tower_step (x y : Z) : Tick unit :=
  tile ← get_tile x y;
  when (is_type (type (building tile)) "water_tower")
    (_ ← modify_tile x y (set_pollution 0);
     let cleanRadius :=
       [(0, 1); (0, -1); (1, 0); (-1, 0); (1, 1); (-1, -1); (1, -1); (-1, 1)] in
     tick_for (λ '(cdx, cdy),
       n ← peek_tile (x + cdx) (y + cdy);
       match n with
       | Some _ =>
           modify_tile (x + cdx) (y + cdy) (λ n, set_pollution (Qmax 0 (pollution n - 5)) n)
       | None => mret ()
       end) cleanRadius).

(** Pollution above 30 spreads to the four neighbours. *)
Definition spread_step (x y size : Z) : Tick unit :=
  tile ← get_tile x y;
  when (Qlt_b 30 (pollution tile))
    (let spreadAmount := (if is_type (type (building tile)) "water" then 4 else 1)%Q in
     let neighbors := [(0, 1); (0, -1); (1, 0); (-1, 0)] in
     tick_for (λ '(dx, dy),
       let nx := x + dx in
       let ny := y + dy in
       when (bool_decide (nx >= 0) && bool_decide (nx < size) &&
             bool_decide (ny >= 0) && bool_decide (ny < size))
         (_ ← get_tile nx ny;
          _ ← copy_row ny;
          neighbor ← get_tile nx ny;
          tile ← get_tile x y;
          if is_type (type (building neighbor)) "water" then
            modify_tile nx ny (λ n,
              set_pollutionType (pollutionType tile)
                (set_pollution (Qmin 100 (pollution n + spreadAmount)) n))
          else if Qlt_b (pollution neighbor) (pollution tile) then
            _ ← modify_tile nx ny (λ n,
                   set_pollution (Qmin 100 (pollution n + spreadAmount * (1 # 10))) n);
            random ← Math_random;
            when (Qlt_b (1 # 2) random)
              (modify_tile nx ny (set_pollutionType (pollutionType tile)))
          else mret ())) neighbors).

(** The three fire steps of a tile. *)
Definition ignite (x y : Z) : Tick unit :=
  modify_tile x y (upd_building (λ b, set_fireProgress 0 (set_onFire true b))).

Definition burn_step (x y : Z) (services : ServiceCoverage) : Tick unit :=
  fireCoverage ← lift (cov_at (fire services) x y);
  let fightingChance := (fireCoverage / 300)%Q in
  random ← Math_random;
  if Qlt_b random fightingChance then
    modify_tile x y (upd_building (λ b, set_fireProgress 0 (set_onFire false b)))
  else
    _ ← modify_tile x y (upd_building (λ b, set_fireProgress (fireProgress b + (2 # 3)) b));
    tile ← get_tile x y;
    when (Qle_b 100 (fireProgress (building tile)))
      (modify_tile x y (λ t, set_zone ZoneNone (set_building (createBuilding "grass") t))).

Definition fire_spread_step (x y size : Z) (services : ServiceCoverage) : Tick unit :=
  let adjacentOffsets := [(-1, 0); (1, 0); (0, -1); (0, 1)] in
  adjacentFireCount ← tick_fold (λ adjacentFireCount '(dx, dy),
    let nx := x + dx in
    let ny := y + dy in
    if bool_decide (nx >= 0) && bool_decide (nx < size) &&
       bool_decide (ny >= 0) && bool_decide (ny < size) then
      neighbor ← get_tile nx ny;
      mret (if onFire (building neighbor) then adjacentFireCount + 1 else adjacentFireCount)
    else mret adjacentFireCount) 0 adjacentOffsets;
  when (bool_decide (adjacentFireCount > 0))
    (fireCoverage ← lift (cov_at (fire services) x y);
     let coverageReduction := (fireCoverage / 100)%Q in
     let baseSpreadChance := ((5 # 1000) * inject_Z adjacentFireCount)%Q in
     let spreadChance := (baseSpreadChance * (1 - coverageReduction * (95 # 100)))%Q in
     random ← Math_random;
     when (Qlt_b random spreadChance) (ignite x y)).

Definition fire_step (x y size : Z) (disasters : bool) (services : ServiceCoverage)
  : Tick unit :=
  tile ← get_tile x y;
  _ ← when (disasters && onFire (building tile)) (burn_step x y services);
  tile ← get_tile x y;
  let t := type (building tile) in
  _ ← when (disasters && negb (onFire (building tile)) && negb (is_type t "grass") &&
            negb (is_type t "water") && negb (is_type t "road") &&
            negb (is_type t "tree") && negb (is_type t "empty") &&
            negb (is_type t "bridge") && negb (is_type t "rail"))
         (fire_spread_step x y size services);
  tile ← get_tile x y;
  let t := type (building tile) in
  when (disasters && negb (onFire (building tile)) && negb (is_type t "grass") &&
        negb (is_type t "water") && negb (is_type t "road") &&
        negb (is_type t "tree") && negb (is_type t "empty"))
    (random ← Math_random;
     when (Qlt_b random (3 # 100000)) (ignite x y)).

(** The construction of a building outside the zones. *)
Definition construction_step (x y : Z) : Tick unit :=
  tile ← get_tile x y;
  let b := building tile in
  when (bool_decide (zone tile = ZoneNone) && under_construction b &&
        negb (includes NO_CONSTRUCTION_TYPES (type b)))
    (let isUtilityBuilding := is_type (type b) "power_plant" || is_type (type b) "water_tower" in
     let canConstruct := isUtilityBuilding || (powered b && watered b) in
     when canConstruct
       (random ← Math_random;
        let speed := getConstructionSpeed (type b) random in
        modify_tile x y (upd_building (λ b,
          set_constructionProgress
            (Some (Qmin 100 (default 0%Q (constructionProgress b) + speed)%Q)) b)))).

(** An 'empty' tile that belongs to no building goes back to grass. *)
Definition orphan_step (x y size : Z) (newPowered newWatered : bool) : Tick unit :=
  tile ← get_tile x y;
  when (is_type (type (building tile)) "empty")
    (g ← get_grid;
     origin ← lift (findBuildingOrigin g x y size);
     match origin with
     | Some _ => mret ()
     | None =>
         modify_tile x y (set_building
           (set_watered newWatered (set_powered newPowered (createBuilding "grass"))))
     end).

(** Growth: a spawn attempt on zoned grass, [evolveBuilding] on another
    zoned tile. *)
Definition growth_step (x y size : Z) (newPowered newWatered : bool)
    (services : ServiceCoverage) (demand : option Demand) : Tick unit :=
  tile ← get_tile x y;
  let t := type (building tile) in
  if negb (bool_decide (zone tile = ZoneNone)) && is_type t "grass" then
    spawn_building x y size (zone tile) newPowered newWatered services demand
  else if negb (bool_decide (zone tile = ZoneNone)) && negb (is_type t "grass") then
    b ← evolveBuilding x y services demand;
    modify_tile x y (set_building b)
  else mret ().

(** The body of the loops of [simulateTick] for the tile (x, y); the three
    [continue] tests read [state.grid]. *)
Definition tick_tile (state : GameState) (services : ServiceCoverage) (x y : Z) : Tick unit :=
  let size := gridSize state in
  originalTile ← state_tile x y;
  let originalBuilding := building originalTile in
  let otype := type originalBuilding in
  newPowered ← lift (cov_at (power services) x y);
  newWatered ← lift (cov_at (water services) x y);
  let needsPowerWaterUpdate :=
    negb (eqb (powered originalBuilding) newPowered) ||
    negb (eqb (watered originalBuilding) newWatered) in
  let clean := Qlt_b (pollution originalTile) (1 # 100) in
  let typePollution :=
    match BUILDING_STATS cat otype with
    | Some s => stat_pollution s
    | None => 0%Q
    end in
  let isCompletedServiceBuilding :=
    bool_decide (zone originalTile = ZoneNone) &&
    match constructionProgress originalBuilding with
    | Some p => Qeq_b p 100
    | None => false
    end &&
    negb (onFire originalBuilding) && negb (is_type otype "grass") &&
    negb (is_type otype "tree") && negb (is_type otype "empty") in
  if (is_type otype "road" || is_type otype "bridge") && negb needsPowerWaterUpdate
  then mret ()
  else if bool_decide (zone originalTile = ZoneNone) &&
          (is_type otype "grass" || is_type otype "tree") &&
          negb needsPowerWaterUpdate && clean && Qeq_b typePollution 0
  then mret ()
  else if isCompletedServiceBuilding && negb needsPowerWaterUpdate && clean
  then mret ()
  else
    _ ← copy_row y;
    _ ← get_tile x y;
    _ ← modify_tile x y (upd_building (λ b,
           set_watered newWatered (set_powered newPowered b)));
    _ ← construction_step x y;
    _ ← orphan_step x y size newPowered newWatered;
    _ ← growth_step x y size newPowered newWatered services (demand state);
    _ ← pollution_step x y;
    _ ← water_tower_step x y;
    _ ← spread_step x y size;
    _ ← modify_tile x y (λ t, set_pollution (pollution t * (99 # 100)) t);
    fire_step x y size (disastersEnabled state) services.

(** What a call of [simulateTick] leaves: the grid of the state it
    returns, the grid of the state it was given as the caller finds it
    afterwards, the number of draws it made and the scratch buffer. *)
Record TickResult := mkTickResult {
  tick_grid : Grid;
  caller_grid : Grid;
  tick_draws : nat;
  tick_visited : gset Z;
}.

(** The grid pass of [simulateTick].  The statistics, budget, calendar,
    advisor messages and history of the returned state are computed from
    [newGrid] after the pass and write to no tile; they are not modelled. *)
Definition simulateTick (state : GameState) (visited0 : gset Z) : option TickResult :=
  let size := gridSize state in
  services ← calculateServiceCoverage (grid state) size;
  let st0 := mkTick (take (Z.to_nat size) (grid state)) ∅ 0 visited0 in
  '(_, st) ← tick_for (λ '(x, y), tick_tile state services x y) (rect size size) st0;
  Some (mkTickResult (newGrid st)
          (imap (λ i row, default row (state_row st (Z.of_nat i))) (grid state))
          (draws st) (roadAccessVisited st)).

End GridPass.

(* ------------------------------------------------------------------ *)
(** *** The tick on three small worlds *)

(** A 2 x 2 world: a completed water tower at (0, 0) whose utility flags
    are not yet set, and grass with pollution 10 at (0, 1). *)
Definition water_tower_state : GameState :=
  mkState
    (make_grid 2 (λ x y,
       if decide (x = 0 ∧ y = 0)
       then upd_building (set_constructionProgress (Some 100%Q)) (createTile x y "water_tower")
       else if decide (x = 0 ∧ y = 1) then set_pollution 10 (createTile x y "grass")
       else createTile x y "grass"))
    2 (Some (mkDemand 0 0 0)) false.

(** C1, [simulateTick] writes to the grid it was given.  The water tower's
    cleaning loop reaches its neighbours through [newGrid[y + cdy]] without
    the copy that [getModifiableTile] and the spread loop make: row 1 is
    still the caller's row when the tower at (0, 0) is processed, and the
    caller's tile (0, 1) drops from pollution 10 to 5, whatever the draws
    and the scratch buffer. *)
Theorem tick_writes_to_caller_grid (rng : nat → Q) (v0 : gset Z) :
  ∃ r t t',
    simulateTick sample_catalog rng water_tower_state v0 = Some r ∧
    tile_at (grid water_tower_state) 0 1 = Some t ∧
    tile_at (caller_grid r) 0 1 = Some t' ∧
    (pollution t == 10)%Q ∧ (pollution t' == 5)%Q.
Proof.
  eexists _, _, _. split; [by vm_compute|]. split; [by vm_compute|].
  split; [by vm_compute|]. split; by vm_compute.
Qed.

(** A 1 x 1 world with a rail tile, disasters enabled. *)
Definition rail_state : GameState :=
  mkState (make_grid 1 (λ x y, createTile x y "rail")) 1 (Some (mkDemand 0 0 0)) true.

(** C2, a rail tile catches fire.  The self-ignition test leaves out the
    'bridge' and 'rail' exclusions of the spread test: with a first draw
    below 0.00003 the rail tile is set on fire. *)
Theorem rail_tile_self_ignites (v0 : gset Z) :
  ∃ r t t',
    simulateTick sample_catalog (λ _, 1 # 100000) rail_state v0 = Some r ∧
    tile_at (grid rail_state) 0 0 = Some t ∧
    tile_at (tick_grid r) 0 0 = Some t' ∧
    type (building t) = "rail"%string ∧ onFire (building t) = false ∧
    type (building t') = "rail"%string ∧ onFire (building t') = true.
Proof.
  eexists _, _, _. split; [by vm_compute|]. split; [by vm_compute|].
  split; [by vm_compute|]. by vm_compute.
Qed.

(** A 3 x 3 world in which every tile is powered and watered: a water
    tower, a power plant with its footprint, a road, and at (0, 2) a
    completed small house of age 20 in a residential zone. *)
Definition upgrade_state : GameState :=
  mkState
    (make_grid 3 (λ x y,
       upd_building (λ b, set_constructionProgress (Some 100%Q)
                            (set_watered true (set_powered true b)))
         (if decide (x = 0 ∧ y = 0) then createTile x y "water_tower"
          else if decide (x = 1 ∧ y = 0) then createTile x y "power_plant"
          else if decide (1 <= x ∧ y <= 1) then createTile x y "empty"
          else if decide (x = 0 ∧ y = 1) then createTile x y "road"
          else if decide (x = 0 ∧ y = 2)
          then set_zone Residential (upd_building (set_age 20) (createTile x y "house_small"))
          else createTile x y "grass")))
    3 (Some (mkDemand 0 0 0)) false.


(* ------------------------------------------------------------------ *)
(** *** Reasoning on the computations of the pass *)

(** [tick_spec G m Q]: from a state whose [newGrid] satisfies [G], a run
    of [m] that returns [a] leaves a [newGrid] that satisfies [Q a]. *)
Definition tick_spec {A} (G : Grid → Prop) (m : Tick A) (Q : A → Grid → Prop) : Prop :=
  ∀ st a st', G (newGrid st) → m st = Some (a, st') → Q a (newGrid st').

Definition preserves {A} (G : Grid → Prop) (m : Tick A) : Prop :=
  tick_spec G m (λ _, G).

Lemma spec_conseq {A} (G G' : Grid → Prop) (m : Tick A) (Q Q' : A → Grid → Prop) :
  tick_spec G' m Q' → (∀ g, G g → G' g) → (∀ a g, Q' a g → Q a g) → tick_spec G m Q.
Proof. intros Hm HG HQ st a st' Hst Hrun. eapply HQ, Hm; [by apply HG|done]. Qed.

Lemma spec_ret {A} (G : Grid → Prop) (a : A) (Q : A → Grid → Prop) :
  (∀ g, G g → Q a g) → tick_spec G (mret a) Q.
Proof.
  intros HQ st a' st' Hst Hrun. unfold mret, tick_ret in Hrun.
  injection Hrun as Ha Hs. subst a' st'. by apply HQ.
Qed.

Lemma spec_bind {A B} (G : Grid → Prop) (m : Tick A) (f : A → Tick B)
    (R : A → Grid → Prop) (Q : B → Grid → Prop) :
  tick_spec G m R → (∀ a, tick_spec (R a) (f a) Q) → tick_spec G (m ≫= f) Q.
Proof.
  intros Hm Hf st b st' Hst Hrun. unfold mbind, tick_bind in Hrun.
  destruct (m st) as [[a st1]|] eqn:Hm1; [|done].
  eapply Hf; [|done]. by eapply Hm.
Qed.

Lemma spec_fmap {A B} (G : Grid → Prop) (m : Tick A) (f : A → B) (Q : B → Grid → Prop) :
  tick_spec G m (λ a, Q (f a)) → tick_spec G (f <$> m) Q.
Proof.
  intros Hm st b st' Hst Hrun. unfold fmap, tick_fmap in Hrun.
  destruct (m st) as [[a st1]|] eqn:Hm1; [|done].
  injection Hrun as <- <-. by eapply Hm.
Qed.

Lemma spec_pure {A} (G : Grid → Prop) (φ : Prop) (m : Tick A) (Q : A → Grid → Prop) :
  (φ → tick_spec G m Q) → tick_spec (λ g, G g ∧ φ) m Q.
Proof. intros Hm st a st' [Hst Hφ] Hrun. by eapply Hm. Qed.

Lemma spec_when (G : Grid → Prop) (c : bool) (m : Tick unit) :
  (c = true → preserves G m) → preserves G (when c m).
Proof.
  intros Hm. destruct c; simpl; [by apply Hm|]. by apply spec_ret.
Qed.

Lemma spec_for {A} (G : Grid → Prop) (body : A → Tick unit) (l : list A) :
  (∀ a, a ∈ l → preserves G (body a)) → preserves G (tick_for body l).
Proof.
  induction l as [|a l IH]; intros Hbody; simpl.
  { by apply spec_ret. }
  eapply spec_bind.
  - apply Hbody, elem_of_cons. by left.
  - intros []. apply IH. intros a' Ha'. apply Hbody, elem_of_cons. by right.
Qed.

Lemma spec_fold {S A} (G : Grid → Prop) (body : S → A → Tick S) (l : list A) : ∀ s,
  (∀ s a, tick_spec G (body s a) (λ _, G)) → tick_spec G (tick_fold body s l) (λ _, G).
Proof.
  induction l as [|a l IH]; intros s Hbody; simpl.
  { by apply spec_ret. }
  eapply spec_bind; [apply Hbody|]. intros s'. by apply IH.
Qed.

(** The primitives. *)
Lemma spec_lift {A} (G : Grid → Prop) (o : option A) :
  tick_spec G (lift o) (λ a g, G g ∧ o = Some a).
Proof.
  intros st a st' Hst Hrun. unfold lift in Hrun.
  destruct o as [a'|]; [|done]. by injection Hrun as <- <-.
Qed.

Lemma spec_get_tile (G : Grid → Prop) x y :
  tick_spec G (get_tile x y) (λ t g, G g ∧ tile_at g x y = Some t).
Proof.
  intros st a st' Hst Hrun. unfold get_tile in Hrun.
  destruct (tile_at (newGrid st) x y) as [t|] eqn:Ht; [|done].
  by injection Hrun as <- <-.
Qed.

Lemma spec_peek_tile (G : Grid → Prop) x y :
  tick_spec G (peek_tile x y) (λ t g, G g ∧ tile_at g x y = t).
Proof. intros st a st' Hst [= <- <-]. done. Qed.

Lemma spec_get_grid (G : Grid → Prop) :
  tick_spec G get_grid (λ g' g, G g ∧ g' = g).
Proof. intros st a st' Hst [= <- <-]. done. Qed.

Lemma spec_state_tile (G : Grid → Prop) x y : preserves G (state_tile x y).
Proof.
  intros st a st' Hst Hrun. unfold state_tile in Hrun.
  destruct (state_row st y) as [row|]; [|done]. simpl in Hrun.
  destruct (if decide (0 <= x) then row !! Z.to_nat x else None); [|done].
  by injection Hrun as <- <-.
Qed.

Lemma spec_copy_row (G : Grid → Prop) y : preserves G (copy_row y).
Proof.
  intros st a st' Hst Hrun. unfold copy_row in Hrun.
  destruct (modifiedRows st !! y); [by injection Hrun as <- <-|].
  destruct (row_at (newGrid st) y); [|done]. by injection Hrun as <- <-.
Qed.

Lemma spec_road_access (G : Grid → Prop) x y size : preserves G (road_access x y size).
Proof.
  intros st a st' Hst Hrun. unfold road_access in Hrun.
  destruct (hasRoadAccess _ _ _ _ _ _) as [[found v]|]; [|done].
  by injection Hrun as <- <-.
Qed.

Lemma spec_modify_tile (G : Grid → Prop) x y f :
  tick_spec (λ g, G (update_tile g x y f)) (modify_tile x y f) (λ _, G).
Proof. intros st a st' Hst [= <- <-]. done. Qed.

Lemma spec_on_grid (G : Grid → Prop) f :
  tick_spec (λ g, ∀ g', f g = Some g' → G g') (on_grid f) (λ _, G).
Proof.
  intros st a st' Hst Hrun. unfold on_grid in Hrun.
  destruct (f (newGrid st)) as [g'|] eqn:Hf; [|done].
  injection Hrun as <- <-. by apply Hst.
Qed.

(* ------------------------------------------------------------------ *)
(** *** Construction progress along the pass *)

(** The building types of the three zone ladders. *)
Definition in_ladders (cat : Catalog) (bt : BuildingType) : Prop :=
  bt ∈ RESIDENTIAL_BUILDINGS cat ∨ bt ∈ COMMERCIAL_BUILDINGS cat ∨
  bt ∈ INDUSTRIAL_BUILDINGS cat.



Section Progress.
Context (cat : Catalog) (rng : nat → Q).
Context (Hrng : ∀ n, (0 <= rng n)%Q).

(** The grid at the start of the pass. *)
Context (g0 : Grid).



















(** The reads, when what they return does not matter. *)
Lemma lift_preserves {A} (G : Grid → Prop) (o : option A) : preserves G (lift o).
Proof. eapply spec_conseq; [apply (spec_lift G)|done|]. by intros a g [? ?]. Qed.


Lemma get_tile_preserves (G : Grid → Prop) x y : preserves G (get_tile x y).
Proof. eapply spec_conseq; [apply (spec_get_tile G)|done|]. by intros a g [? ?]. Qed.

Lemma peek_tile_preserves (G : Grid → Prop) x y : preserves G (peek_tile x y).
Proof. eapply spec_conseq; [apply (spec_peek_tile G)|done|]. by intros a g [? ?]. Qed.

Lemma get_grid_preserves (G : Grid → Prop) : preserves G get_grid.
Proof. eapply spec_conseq; [apply (spec_get_grid G)|done|]. by intros a g [? ?]. Qed.

Lemma bind_preserves {A B} (G : Grid → Prop) (m : Tick A) (f : A → Tick B)
    (Q : B → Grid → Prop) :
  preserves G m → (∀ a, tick_spec G (f a) Q) → tick_spec G (m ≫= f) Q.
Proof. intros Hm Hf. eapply spec_bind; [apply Hm|]. intros a. apply Hf. Qed.














Lemma for_each_inv {S A} (P : S → Prop) (body : S → A → option S) (l : list A) :
  (∀ s a s', P s → body s a = Some s' → P s') →
  ∀ s s', P s → for_each body s l = Some s' → P s'.
Proof.
  intros Hbody. induction l as [|a l IH]; intros s s' Hs Hrun; simpl in Hrun.
  { by injection Hrun as <-. }
  destruct (body s a) as [s1|] eqn:Hb; [|done]. simpl in Hrun.
  eapply IH; [|done]. by eapply Hbody.
Qed.



Lemma sort_insert_elem {A} (cmp : A → A → Z) (a b : A) (l : list A) :
  b ∈ sort_insert cmp a l → b = a ∨ b ∈ l.
Proof.
  induction l as [|c l IH]; simpl.
  { intros ->%list_elem_of_singleton. by left. }
  destruct (decide (cmp a c < 0)).
  - intros [->|Hin]%elem_of_cons; [by left|by right].
  - intros [->|Hin]%elem_of_cons; [right; apply elem_of_cons; by left|].
    destruct (IH Hin) as [->|Hl]; [by left|]. right. apply elem_of_cons. by right.
Qed.

Lemma sort_with_elem {A} (cmp : A → A → Z) (b : A) (l : list A) :
  b ∈ sort_with cmp l → b ∈ l.
Proof.
  unfold sort_with. rewrite <- (elem_of_reverse b l).
  induction (reverse l) as [|a l' IH]; simpl; [done|].
  intros [->|Hin]%sort_insert_elem; apply elem_of_cons; [by left|right; by apply IH].
Qed.



Lemma zone_ladder z bt : bt ∈ zone_buildings cat z → in_ladders cat bt.
Proof.
  unfold zone_buildings, in_ladders. destruct z; [by intros ?%elem_of_nil|tauto..].
Qed.

Section Visit.
(** The visit of the tile (x, y): no building has been placed on it yet
    ([D]); the placements of the visit are at (x, y) or before it ([D']). *)
Context (D D' : Z * Z → Prop) (x y : Z).
Context (Hfresh : ¬ D (x, y)) (HD : ∀ p, D p → D' p).
Context (Hupto : ∀ originX originY, originX <= x → originY <= y → D' (originX, originY)).







End Visit.








End Progress.




Lemma tile_at_take {A} (n : nat) (g : list (list A)) x y t :
  cell_at (take n g) x y = Some t → cell_at g x y = Some t.
Proof.
  unfold cell_at, row_at. destruct (decide (0 <= y)); [|done].
  destruct (take n g !! Z.to_nat y) as [row|] eqn:Hrow; [|done].
  apply lookup_take_Some in Hrow as [Hrow _]. by rewrite Hrow.
Qed.


(** [ticked cat state state']: [state'] is what a call of [simulateTick]
    on [state] returns, for some draws in [0, 1) and some content of the
    scratch buffer.  The fields computed after the grid pass (statistics,
    demand, calendar) are not constrained. *)
Inductive ticked (cat : Catalog) (state state' : GameState) : Prop :=
  | ticked_intro (rng : nat → Q) (v0 : gset Z) (r : TickResult) :
      (∀ n, (0 <= rng n)%Q ∧ (rng n < 1)%Q) →
      simulateTick cat rng state v0 = Some r →
      grid state' = tick_grid r →
      gridSize state' = gridSize state →
      ticked cat state state'.






(* ================================================================== *)
(** ** The tick returns on every well-formed state *)
(* ================================================================== *)

(** The coverage arrays are defined on the whole grid. *)
Definition coverage_ok (size : Z) (services : ServiceCoverage) : Prop :=
  ∀ x y, 0 <= x < size → 0 <= y < size →
    is_Some (cov_at (police services) x y) ∧ is_Some (cov_at (fire services) x y) ∧
    is_Some (cov_at (health services) x y) ∧ is_Some (cov_at (education services) x y) ∧
    is_Some (cov_at (power services) x y) ∧ is_Some (cov_at (water services) x y).

(** The three zone ladders of the catalog have a first building. *)
Definition ladders_ok (cat : Catalog) : Prop :=
  RESIDENTIAL_BUILDINGS cat ≠ [] ∧ COMMERCIAL_BUILDINGS cat ≠ [] ∧
  INDUSTRIAL_BUILDINGS cat ≠ [].

Lemma getBuildingSize_pos t : 1 <= (getBuildingSize t).1 ∧ 1 <= (getBuildingSize t).2.
Proof.
  unfold getBuildingSize, BUILDING_SIZES.
  repeat (destruct (includes _ t); [simpl; lia|]). simpl. lia.
Qed.

Lemma for_each_returns {S A} (P : S → Prop) (body : S → A → option S) (l : list A) :
  (∀ s a, a ∈ l → P s → ∃ s', body s a = Some s' ∧ P s') →
  ∀ s, P s → ∃ s', for_each body s l = Some s' ∧ P s'.
Proof.
  induction l as [|a l IH]; intros Hbody s Hs; simpl.
  { by exists s. }
  destruct (Hbody s a) as (s1 & Hb & Hs1); [apply elem_of_cons; by left|done|].
  rewrite Hb. simpl. apply IH; [|done].
  intros s' a' Ha'. apply Hbody, elem_of_cons. by right.
Qed.

Lemma all_ok_returns {A} (body : A → option bool) (l : list A) :
  (∀ a, a ∈ l → is_Some (body a)) → is_Some (all_ok body l).
Proof.
  induction l as [|a l IH]; intros Hbody; simpl; [done|].
  destruct (Hbody a) as [b Hb]; [apply elem_of_cons; by left|].
  rewrite Hb. simpl. destruct b; [|done].
  apply IH. intros a' Ha'. apply Hbody, elem_of_cons. by right.
Qed.

Lemma all_ok_true {A} (body : A → option bool) (l : list A) :
  all_ok body l = Some true → ∀ a, a ∈ l → body a = Some true.
Proof.
  induction l as [|a l IH]; simpl; [by intros _ a' ?%elem_of_nil|].
  destruct (body a) as [[]|] eqn:Hb; simpl; [|done..].
  intros Hall a' [->|Ha']%elem_of_cons; [done|by apply IH].
Qed.

Lemma first_some_returns {A B} (body : A → option (option B)) (l : list A) :
  (∀ a, a ∈ l → is_Some (body a)) → is_Some (first_some body l).
Proof.
  induction l as [|a l IH]; intros Hbody; simpl; [done|].
  destruct (Hbody a) as [b Hb]; [apply elem_of_cons; by left|].
  rewrite Hb. simpl. destruct b; [done|].
  apply IH. intros a' Ha'. apply Hbody, elem_of_cons. by right.
Qed.

Section Returns.
Context (cat : Catalog) (rng : nat → Q) (size : Z) (services : ServiceCoverage).
Context (Hcov : coverage_ok size services) (Hladders : ladders_ok cat).

Lemma findBuildingOrigin_returns g x y :
  grid_wf size g → is_Some (findBuildingOrigin g x y size).
Proof.
  intros Hwf. unfold findBuildingOrigin.
  destruct (tile_at g x y) as [tile|]; [|done].
  destruct (negb (is_structural (type (building tile)))).
  { destruct (getBuildingSize _) as [w h]. by destruct (_ || _). }
  destruct (is_type _ "empty"); [|done].
  apply first_some_returns. intros [dx dy] _.
  destruct (bool_decide (x - dx >= 0) && bool_decide (y - dy >= 0) &&
            bool_decide (x - dx < size) && bool_decide (y - dy < size)) eqn:Hin; [|done].
  rewrite !andb_true_iff, !bool_decide_eq_true in Hin.
  destruct (tile_at_Some_wf size g (x - dx) (y - dy) Hwf) as [t Ht]; [lia..|].
  rewrite Ht. simpl. destruct (negb _); [|done].
  destruct (getBuildingSize _) as [w h]. by destruct (_ && _).
Qed.

Lemma footprintAvailable_returns g originX originY w h z ex allow :
  grid_wf size g →
  is_Some (footprintAvailable g originX originY w h z size ex allow).
Proof.
  intros Hwf. unfold footprintAvailable.
  destruct (bool_decide (originX < 0) || bool_decide (originY < 0) ||
            bool_decide (originX + w > size) || bool_decide (originY + h > size)) eqn:Hout;
    [done|].
  rewrite !orb_false_iff, !bool_decide_eq_false in Hout.
  apply all_ok_returns. intros [dx dy] Hd%elem_of_rect.
  destruct (tile_at_Some_wf size g (originX + dx) (originY + dy) Hwf) as [t Ht]; [lia..|].
  by rewrite Ht.
Qed.

Lemma footprintAvailable_bounds g originX originY w h z ex allow :
  footprintAvailable g originX originY w h z size ex allow = Some true →
  0 <= originX ∧ 0 <= originY ∧ originX + w <= size ∧ originY + h <= size.
Proof.
  unfold footprintAvailable.
  destruct (bool_decide (originX < 0) || bool_decide (originY < 0) ||
            bool_decide (originX + w > size) || bool_decide (originY + h > size)) eqn:Hout;
    [done|].
  rewrite !orb_false_iff, !bool_decide_eq_false in Hout. lia.
Qed.

Lemma scoreFootprint_returns g originX originY w h :
  grid_wf size g → is_Some (scoreFootprint g originX originY w h size).
Proof.
  intros Hwf. unfold scoreFootprint.
  destruct (for_each_returns (λ _ : Z, True)
    (λ roadScore '(dx, dy),
       for_each (λ roadScore '(ox, oy),
         if bool_decide (originX + dx + ox >= 0) && bool_decide (originY + dy + oy >= 0) &&
            bool_decide (originX + dx + ox < size) && bool_decide (originY + dy + oy < size)
         then
           adjacentTile ← tile_at g (originX + dx + ox) (originY + dy + oy);
           (if is_type (type (building adjacentTile)) "road" ||
               is_type (type (building adjacentTile)) "bridge"
            then Some (roadScore + 1) else Some roadScore)
         else Some roadScore) roadScore [(-1, 0); (1, 0); (0, -1); (0, 1)])
    (rect w h)) with (s := 0) as (score & Hscore & _); [|done|].
  { intros s [dx dy] _ _.
    apply (for_each_returns (λ _ : Z, True)); [|done].
    intros s' [ox oy] _ _.
    destruct (bool_decide (originX + dx + ox >= 0) && bool_decide (originY + dy + oy >= 0) &&
              bool_decide (originX + dx + ox < size) &&
              bool_decide (originY + dy + oy < size)) eqn:Hin; [|by eexists].
    rewrite !andb_true_iff, !bool_decide_eq_true in Hin.
    destruct (tile_at_Some_wf size g (originX + dx + ox) (originY + dy + oy) Hwf)
      as [t Ht]; [lia..|].
    rewrite Ht. simpl. destruct (_ || _); by eexists. }
  by rewrite Hscore.
Qed.

Lemma findFootprintIncludingTile_returns g x y w h z allow :
  grid_wf size g → is_Some (findFootprintIncludingTile g x y w h z size allow).
Proof.
  intros Hwf. unfold findFootprintIncludingTile.
  destruct (for_each_returns (λ _ : list (Z * Z * Q), True)
    (λ candidates '(ox, oy),
       available ← footprintAvailable g ox oy w h z size (Some (x, y)) allow;
       if negb available then Some candidates
       else if bool_decide (x < ox) || bool_decide (x >= ox + w) ||
               bool_decide (y < oy) || bool_decide (y >= oy + h) then Some candidates
       else
         score ← scoreFootprint g ox oy w h size;
         Some (candidates ++ [(ox, oy, score)]))
    (oy ← seqZ (y - (h - 1)) h; ox ← seqZ (x - (w - 1)) w; [(ox, oy)]))
    with (s := @nil (Z * Z * Q)) as (candidates & Hrun & _); [|done|].
  { intros s [ox oy] _ _.
    destruct (footprintAvailable_returns g ox oy w h z (Some (x, y)) allow Hwf)
      as [available Ha].
    rewrite Ha. simpl. destruct available; simpl; [|by eexists].
    destruct (_ || _); [by eexists|].
    destruct (scoreFootprint_returns g ox oy w h Hwf) as [score Hs].
    rewrite Hs. simpl. by eexists. }
  rewrite Hrun. simpl. destruct (sort_with _ candidates) as [|[[ox oy] score] rest]; done.
Qed.

Lemma findFootprintIncludingTile_bounds g x y w h z allow originX originY :
  findFootprintIncludingTile g x y w h z size allow = Some (Some (originX, originY)) →
  0 <= originX ∧ 0 <= originY ∧ originX + w <= size ∧ originY + h <= size.
Proof.
  unfold findFootprintIncludingTile.
  destruct (for_each _ [] _) as [candidates|] eqn:Hfor; [|done]. simpl.
  assert (∀ c, c ∈ candidates →
            0 <= c.1.1 ∧ 0 <= c.1.2 ∧ c.1.1 + w <= size ∧ c.1.2 + h <= size) as Hall.
  { revert Hfor.
    apply (for_each_inv (λ cs, ∀ c, c ∈ cs →
             0 <= c.1.1 ∧ 0 <= c.1.2 ∧ c.1.1 + w <= size ∧ c.1.2 + h <= size)).
    - intros cs [ox oy] cs' Hcs Hbody.
      destruct (footprintAvailable _ _ _ _ _ _ _ _ _) as [available|] eqn:Ha; [|done].
      simpl in Hbody. destruct available; simpl in Hbody; [|by injection Hbody as <-].
      destruct (_ || _); [by injection Hbody as <-|].
      destruct (scoreFootprint _ _ _ _ _ _) as [score|]; [|done]. simpl in Hbody.
      injection Hbody as <-.
      intros c [Hc | ->%list_elem_of_singleton]%elem_of_app; [by apply Hcs|].
      simpl. by eapply footprintAvailable_bounds.
    - by intros c ?%elem_of_nil. }
  destruct (sort_with _ candidates) as [|[[ox oy] score] rest] eqn:Hsort; [done|].
  intros [= <- <-].
  apply (Hall (ox, oy, score)). eapply sort_with_elem. rewrite Hsort.
  apply elem_of_cons. by left.
Qed.

(** A footprint inside the grid is placed, and the grid keeps its shape. *)
Lemma applyBuildingFootprint_returns g originX originY bt z lvl :
  grid_wf size g →
  0 <= originX → 0 <= originY →
  originX + (getBuildingSize bt).1 <= size → originY + (getBuildingSize bt).2 <= size →
  ∃ g', applyBuildingFootprint cat g originX originY bt z lvl (Some services) = Some g' ∧
        grid_wf size g'.
Proof.
  intros Hwf Hx Hy Hw Hh. unfold applyBuildingFootprint.
  pose proof (getBuildingSize_pos bt) as [Hw1 Hh1].
  destruct (getBuildingSize bt) as [w h]. simpl in *.
  match goal with
  | |- ∃ g', (for_each ?body g (rect w h) ≫= _) = _ ∧ _ =>
      destruct (for_each_returns (grid_wf size) body (rect w h)) with (s := g)
        as (g1 & Hrun & Hwf1); [|done|]
  end.
  { intros s [dx dy] Hd%elem_of_rect Hs.
    destruct (tile_at_Some_wf size s (originX + dx) (originY + dy) Hs) as [t Ht]; [lia..|].
    rewrite Ht. cbn [mbind option_bind].
    destruct (Hcov (originX + dx) (originY + dy)) as (_ & _ & _ & _ & [p Hp] & [wt Hwt]);
      [lia..|].
    destruct (bool_decide (dx = 0) && bool_decide (dy = 0)).
    - rewrite Hp, Hwt. cbn [mbind option_bind]. eexists. split; [done|].
      by apply grid_wf_update_tile.
    - cbn [mbind option_bind]. eexists. split; [done|]. by apply grid_wf_update_tile. }
  rewrite Hrun. cbn [mbind option_bind].
  destruct (tile_at_Some_wf size g1 originX originY Hwf1) as [t Ht]; [lia..|].
  rewrite Ht. cbn [mbind option_bind]. by exists g1.
Qed.

(** *** Runs of the pass *)

(** The grid has its shape and the saved rows have the row length. *)
Definition pass_ok (st : TickState) : Prop :=
  grid_wf size (newGrid st) ∧
  ∀ y row, modifiedRows st !! y = Some row → length row = Z.to_nat size.

(** [runs m Q]: from every such state [m] returns, in such a state, a
    value that satisfies [Q]. *)
Definition runs {A} (m : Tick A) (Q : A → Prop) : Prop :=
  ∀ st, pass_ok st → ∃ a st', m st = Some (a, st') ∧ pass_ok st' ∧ Q a.

Lemma runs_weaken {A} (m : Tick A) (Q Q' : A → Prop) :
  runs m Q → (∀ a, Q a → Q' a) → runs m Q'.
Proof.
  intros Hm HQ st Hst. destruct (Hm st Hst) as (a & st' & Hrun & Hst' & Ha).
  exists a, st'. split; [done|]. split; [done|]. by apply HQ.
Qed.

Lemma runs_ret {A} (a : A) (Q : A → Prop) : Q a → runs (mret a) Q.
Proof. intros Ha st Hst. by exists a, st. Qed.

Lemma runs_bind {A B} (m : Tick A) (f : A → Tick B) (R : A → Prop) (Q : B → Prop) :
  runs m R → (∀ a, R a → runs (f a) Q) → runs (m ≫= f) Q.
Proof.
  intros Hm Hf st Hst. destruct (Hm st Hst) as (a & st1 & Hrun & Hst1 & Ha).
  destruct (Hf a Ha st1 Hst1) as (b & st2 & Hrun2 & Hst2 & Hb).
  exists b, st2. split; [|done]. unfold mbind, tick_bind. by rewrite Hrun.
Qed.

Lemma runs_then {A B} (m : Tick A) (f : A → Tick B) (Q : B → Prop) :
  runs m (λ _, True) → (∀ a, runs (f a) Q) → runs (m ≫= f) Q.
Proof. intros Hm Hf. eapply runs_bind; [apply Hm|]. intros a _. apply Hf. Qed.

Lemma runs_fmap {A B} (m : Tick A) (f : A → B) : runs m (λ _, True) → runs (f <$> m) (λ _, True).
Proof.
  intros Hm st Hst. destruct (Hm st Hst) as (a & st1 & Hrun & Hst1 & _).
  exists (f a), st1. split; [|done]. unfold fmap, tick_fmap. by rewrite Hrun.
Qed.

Lemma runs_when (c : bool) (m : Tick unit) :
  (c = true → runs m (λ _, True)) → runs (when c m) (λ _, True).
Proof. intros Hm. destruct c; simpl; [by apply Hm|]. by apply runs_ret. Qed.

Lemma runs_for {A} (body : A → Tick unit) (l : list A) :
  (∀ a, a ∈ l → runs (body a) (λ _, True)) → runs (tick_for body l) (λ _, True).
Proof.
  induction l as [|a l IH]; intros Hbody; simpl; [by apply runs_ret|].
  apply runs_then; [apply Hbody, elem_of_cons; by left|]. intros [].
  apply IH. intros a' Ha'. apply Hbody, elem_of_cons. by right.
Qed.

Lemma runs_fold {S A} (body : S → A → Tick S) (l : list A) : ∀ s,
  (∀ s a, a ∈ l → runs (body s a) (λ _, True)) → runs (tick_fold body s l) (λ _, True).
Proof.
  induction l as [|a l IH]; intros s Hbody; simpl; [by apply runs_ret|].
  apply runs_then; [apply Hbody, elem_of_cons; by left|]. intros s'.
  apply IH. intros s'' a' Ha'. apply Hbody, elem_of_cons. by right.
Qed.

Lemma row_at_wf (g : Grid) y :
  grid_wf size g → 0 <= y < size →
  ∃ row, row_at g y = Some row ∧ length row = Z.to_nat size.
Proof.
  intros (Hs & Hlen & Hrows) Hy. unfold row_at. rewrite decide_True by lia.
  destruct (lookup_lt_is_Some_2 g (Z.to_nat y)) as [row Hrow]; [lia|].
  exists row. split; [done|]. rewrite Forall_lookup in Hrows. by eapply Hrows.
Qed.

Lemma runs_lift {A} (o : option A) : is_Some o → runs (lift o) (λ a, o = Some a).
Proof. intros [a ->] st Hst. by exists a, st. Qed.

Lemma runs_random : runs (Math_random rng) (λ _, True).
Proof. intros st [Hwf Hrows]. by eexists _, _. Qed.

Lemma runs_get_tile x y :
  0 <= x < size → 0 <= y < size → runs (get_tile x y) (λ _, True).
Proof.
  intros Hx Hy st [Hwf Hrows].
  destruct (tile_at_Some_wf size (newGrid st) x y Hwf Hx Hy) as [t Ht].
  exists t, st. unfold get_tile. by rewrite Ht.
Qed.

Lemma runs_peek_tile x y : runs (peek_tile x y) (λ _, True).
Proof. intros st Hst. by eexists _, _. Qed.

Lemma runs_get_grid : runs get_grid (grid_wf size).
Proof. intros st [Hwf Hrows]. by exists (newGrid st), st. Qed.

Lemma runs_state_tile x y :
  0 <= x < size → 0 <= y < size → runs (state_tile x y) (λ _, True).
Proof.
  intros Hx Hy st [Hwf Hrows]. unfold state_tile, state_row.
  assert (∃ row, match modifiedRows st !! y with
                 | Some row => Some row
                 | None => row_at (newGrid st) y
                 end = Some row ∧ length row = Z.to_nat size) as (row & -> & Hlen).
  { destruct (modifiedRows st !! y) as [row|] eqn:Hsaved.
    - exists row. split; [done|]. by eapply Hrows.
    - by apply row_at_wf. }
  cbn [mbind option_bind]. rewrite decide_True by lia.
  destruct (lookup_lt_is_Some_2 row (Z.to_nat x)) as [t Ht]; [lia|].
  rewrite Ht. by eexists _, _.
Qed.

Lemma runs_copy_row y : 0 <= y < size → runs (copy_row y) (λ _, True).
Proof.
  intros Hy st [Hwf Hrows]. unfold copy_row.
  destruct (modifiedRows st !! y) as [row|] eqn:Hsaved; [by eexists _, _|].
  destruct (row_at_wf (newGrid st) y Hwf Hy) as (row & -> & Hlen).
  cbn [mbind option_bind]. eexists _, _. split; [done|]. split; [|done].
  split; [done|]. cbn [modifiedRows]. intros y' row'.
  rewrite lookup_insert_Some. intros [[_ <-]|[_ Hold]]; [done|by eapply Hrows].
Qed.

Lemma runs_modify_tile x y f : runs (modify_tile x y f) (λ _, True).
Proof.
  intros st [Hwf Hrows]. eexists _, _. split; [done|]. split; [|done].
  split; [by apply grid_wf_update_tile|done].
Qed.

Lemma runs_on_grid (f : Grid → option Grid) :
  (∀ g, grid_wf size g → ∃ g', f g = Some g' ∧ grid_wf size g') →
  runs (on_grid f) (λ _, True).
Proof.
  intros Hf st [Hwf Hrows]. destruct (Hf _ Hwf) as (g' & Hrun & Hwf').
  unfold on_grid. rewrite Hrun. cbn [mbind option_bind]. by eexists _, _.
Qed.

Lemma runs_road_access x y :
  0 <= x < size → 0 <= y < size → runs (road_access x y size) (λ _, True).
Proof.
  intros Hx Hy st [Hwf Hrows]. unfold road_access.
  destruct (hasRoadAccess_returns (newGrid st) x y size DEFAULT_MAX_DISTANCE
              (roadAccessVisited st) Hwf Hx Hy) as [[found v] ->].
  cbn [mbind option_bind]. by eexists _, _.
Qed.

(** Side conditions: a position is inside the grid, a coverage array is
    defined there. *)
Ltac boolp :=
  repeat match goal with
  | H : _ && _ = true |- _ => apply andb_true_iff in H as [? ?]
  | H : bool_decide _ = true |- _ => apply bool_decide_eq_true in H
  | H : _ ∈ seqZ _ _ |- _ => apply elem_of_seqZ in H
  end.

Ltac inb := boolp; lia.

Ltac cov :=
  lazymatch goal with
  | |- is_Some (cell_at _ ?x ?y) =>
      destruct (Hcov x y) as (? & ? & ? & ? & ? & ?); [inb|inb|assumption]
  end.

Ltac go_prim :=
  lazymatch goal with
  | |- runs (lift (cell_at _ _ _)) _ => eapply runs_weaken; [apply runs_lift; cov|done]
  | |- runs (lift (findBuildingOrigin _ _ _ _)) _ =>
      eapply runs_weaken; [apply runs_lift; by apply findBuildingOrigin_returns|done]
  | |- runs (Math_random _) _ => apply runs_random
  | |- runs (get_tile _ _) _ => apply runs_get_tile; inb
  | |- runs (peek_tile _ _) _ => apply runs_peek_tile
  | |- runs (state_tile _ _) _ => apply runs_state_tile; inb
  | |- runs (copy_row _) _ => apply runs_copy_row; inb
  | |- runs (road_access _ _ _) _ => apply runs_road_access; inb
  | |- runs (modify_tile _ _ _) _ => apply runs_modify_tile
  end.

Ltac go_with known :=
  repeat first
    [ go_prim
    | known
    | lazymatch goal with
      | |- runs (mret _) _ => apply runs_ret; exact I
      | |- runs (mbind _ get_grid) _ => eapply runs_bind; [apply runs_get_grid|intros ? ?]
      | |- runs (mbind _ _) _ => apply runs_then; [|intros ?]
      | |- runs (fmap _ _) _ => apply runs_fmap
      | |- runs (when _ _) _ => apply runs_when; intros ?
      | |- runs (tick_for _ _) _ => apply runs_for; first [intros [? ?] ? | intros ? ?]
      | |- runs (tick_fold _ _ _) _ => apply runs_fold; intros ? [? ?] ?
      | |- runs (if ?c then _ else _) _ => destruct c eqn:?
      | |- runs (match ?o with Some _ => _ | None => _ end) _ => destruct o eqn:?
      | |- runs (match ?p with pair _ _ => _ end) _ => destruct p eqn:?
      end ].

Ltac go := go_with fail.

Section TileRuns.
Context (x y : Z) (Hx : 0 <= x < size) (Hy : 0 <= y < size).

Lemma pollution_step_runs : runs (pollution_step cat x y) (λ _, True).
Proof. unfold pollution_step. go. Qed.

Lemma water_tower_step_runs : runs (water_tower_step x y) (λ _, True).
Proof. unfold water_tower_step. go. Qed.

Lemma spread_step_runs : runs (spread_step rng x y size) (λ _, True).
Proof. unfold spread_step. go. Qed.

Lemma fire_step_runs disasters : runs (fire_step rng x y size disasters services) (λ _, True).
Proof. unfold fire_step, burn_step, fire_spread_step, ignite. go. Qed.

Lemma construction_step_runs : runs (construction_step rng x y) (λ _, True).
Proof. unfold construction_step. go. Qed.

Lemma orphan_step_runs p w : runs (orphan_step x y size p w) (λ _, True).
Proof. unfold orphan_step. go. Qed.

Lemma clear_abandoned_runs t : runs (clear_abandoned x y t services) (λ _, True).
Proof. unfold clear_abandoned. go. Qed.

Lemma update_anchor_runs anchorX anchorY targetLevel :
  0 <= anchorX < size → 0 <= anchorY < size →
  runs (update_anchor cat anchorX anchorY targetLevel services) (λ _, True).
Proof. intros Hax Hay. unfold update_anchor. go. Qed.

Lemma place_footprint_runs originX originY bt z lvl :
  0 <= originX → 0 <= originY →
  originX + (getBuildingSize bt).1 <= size → originY + (getBuildingSize bt).2 <= size →
  runs (place_footprint cat originX originY bt z lvl services) (λ _, True).
Proof.
  intros Hox Hoy Hw Hh. unfold place_footprint. apply runs_on_grid.
  intros g Hwf. by apply applyBuildingFootprint_returns.
Qed.

Lemma zone_buildings_nonempty z : z ≠ ZoneNone → zone_buildings cat z ≠ [].
Proof. destruct Hladders as (Hr & Hc & Hi). by destruct z. Qed.

(** The consolidation returns an anchor inside the grid. *)
Lemma consolidate_runs z targetType targetLevel allow :
  is_Some targetType →
  runs (consolidate cat x y z targetType targetLevel allow services)
    (λ anchor, 0 <= anchor.1 < size ∧ 0 <= anchor.2 < size).
Proof.
  intros Htype. unfold consolidate.
  eapply runs_bind; [by apply runs_lift|]. intros bt _.
  pose proof (getBuildingSize_pos bt) as [Hw1 Hh1].
  destruct (getBuildingSize bt) as [w h] eqn:Hsz. simpl in *.
  eapply runs_bind; [apply runs_get_grid|]. intros g Hwf.
  assert (Z.of_nat (length g) = size) as ->.
  { destruct Hwf as (? & Hlen & _). lia. }
  eapply runs_bind; [by apply runs_lift, findFootprintIncludingTile_returns|].
  intros footprint Hfound. destruct footprint as [[originX originY]|].
  - apply findFootprintIncludingTile_bounds in Hfound as (Hox & Hoy & Hw & Hh).
    apply runs_then.
    { apply place_footprint_runs; rewrite ?Hsz; simpl; lia. }
    intros []. apply runs_then; [apply runs_modify_tile|]. intros [].
    apply runs_ret. simpl. lia.
  - apply runs_then; [by apply runs_get_tile|]. intros tile.
    apply runs_then; [go|]. intros []. by apply runs_ret.
Qed.

Lemma develop_runs tile hasPower hasWater zoneDemandValue :
  zone tile ≠ ZoneNone →
  runs (develop cat rng x y tile hasPower hasWater zoneDemandValue services) (λ _, True).
Proof.
  intros Hzone. unfold develop.
  apply runs_then; [apply runs_modify_tile|]. intros [].
  do 4 (apply runs_then; [go_prim|]; intros ?).
  apply runs_then; [go|]. intros consolidating.
  eapply (runs_bind _ _ (λ anchor, 0 <= anchor.1 < size ∧ 0 <= anchor.2 < size)).
  - destruct consolidating; [|by apply runs_ret].
    apply consolidate_runs.
    pose proof (zone_buildings_nonempty (zone tile) Hzone) as Hne.
    destruct (zone_buildings cat (zone tile)) as [|b0 bs] eqn:Hlist; [done|].
    match goal with
    | |- is_Some (if decide (0 <= ?i) then _ else _) =>
        assert (0 <= i < Z.of_nat (length (b0 :: bs))) as Hi by (simpl; lia);
        rewrite decide_True by lia; apply lookup_lt_is_Some_2; lia
    end.
  - intros [anchorX anchorY] [Hax Hay]. simpl in *.
    apply runs_then; [by apply update_anchor_runs|]. intros [].
    apply runs_fmap. by apply runs_get_tile.
Qed.

Lemma evolveBuilding_runs demand :
  runs (evolveBuilding cat rng x y services demand) (λ _, True).
Proof.
  unfold evolveBuilding.
  apply runs_then; [by apply runs_get_tile|]. intros tile.
  destruct (bool_decide (zone tile = ZoneNone) || _ || _ || _ || _) eqn:Hskip;
    [by apply runs_ret|].
  assert (zone tile ≠ ZoneNone) as Hzone.
  { rewrite !orb_false_iff in Hskip. destruct Hskip as [[[[Hz _] _] _] _].
    by apply bool_decide_eq_false in Hz. }
  go_with ltac:(first [ apply clear_abandoned_runs | by apply develop_runs ]).
Qed.

Lemma canPlaceMultiTileBuilding_bounds g w h :
  canPlaceMultiTileBuilding g x y w h size = true → x + w <= size ∧ y + h <= size.
Proof.
  unfold canPlaceMultiTileBuilding.
  destruct (bool_decide (x + w > size) || bool_decide (y + h > size)) eqn:Hout; [done|].
  rewrite orb_false_iff, !bool_decide_eq_false in Hout. lia.
Qed.

Lemma spawn_building_runs z p w demand :
  runs (spawn_building cat rng x y size z p w services demand) (λ _, True).
Proof.
  unfold spawn_building.
  apply runs_then; [by apply runs_road_access|]. intros roadAccess.
  destruct (roadAccess && _); [|by apply runs_ret].
  apply runs_then; [apply runs_random|]. intros random.
  destruct (Qlt_b random _); [|by apply runs_ret].
  eapply runs_bind.
  { apply runs_lift. destruct Hladders as (Hr & Hc & Hi).
    destruct z.
    - by destruct (INDUSTRIAL_BUILDINGS cat).
    - by destruct (RESIDENTIAL_BUILDINGS cat).
    - by destruct (COMMERCIAL_BUILDINGS cat).
    - by destruct (INDUSTRIAL_BUILDINGS cat). }
  intros candidate _.
  destruct (getBuildingSize candidate) as [bw bh] eqn:Hsz.
  eapply runs_bind; [apply runs_get_grid|]. intros g Hwf.
  apply runs_when. intros [Hw Hh]%canPlaceMultiTileBuilding_bounds.
  apply runs_then; [go|]. intros [].
  apply place_footprint_runs; rewrite ?Hsz; simpl; lia.
Qed.

Lemma growth_step_runs p w demand :
  runs (growth_step cat rng x y size p w services demand) (λ _, True).
Proof.
  unfold growth_step.
  go_with ltac:(first [ apply spawn_building_runs | apply evolveBuilding_runs ]).
Qed.

Lemma tick_tile_runs state :
  gridSize state = size → runs (tick_tile cat rng state services x y) (λ _, True).
Proof.
  intros Hsize. unfold tick_tile. rewrite Hsize.
  go_with ltac:(first [ apply construction_step_runs | apply orphan_step_runs
                      | apply growth_step_runs | apply pollution_step_runs
                      | apply water_tower_step_runs | apply spread_step_runs
                      | apply fire_step_runs ]).
Qed.

End TileRuns.

Lemma grid_pass_runs state :
  gridSize state = size →
  runs (tick_for (λ '(x, y), tick_tile cat rng state services x y) (rect size size))
    (λ _, True).
Proof.
  intros Hsize. apply runs_for. intros [x y] [Hx Hy]%elem_of_rect.
  by apply tick_tile_runs.
Qed.

End Returns.

Lemma calculateServiceCoverage_ok g size :
  grid_wf size g →
  ∃ services, calculateServiceCoverage g size = Some services ∧ coverage_ok size services.
Proof.
  intros Hwf. unfold calculateServiceCoverage.
  rewrite (collect_service_buildings_spec size g Hwf). cbn [mbind option_bind].
  eexists. split; [done|]. intros x y Hx Hy.
  rewrite (fold_quality Police), (fold_quality Fire), (fold_quality Health),
    (fold_quality Education), fold_power, fold_water.
  unfold createServiceCoverage. cbn [quality police fire health education power water].
  rewrite !cell_at_replicate by done. by split_and!.
Qed.

(** On a well-formed state, with zone ladders that are not empty, the grid
    pass of [simulateTick] returns a well-formed grid, whatever the draws
    and the scratch buffer. *)
Lemma simulateTick_returns cat rng state v0 :
  grid_wf (gridSize state) (grid state) → ladders_ok cat →
  ∃ r, simulateTick cat rng state v0 = Some r ∧ grid_wf (gridSize state) (tick_grid r).
Proof.
  intros Hwf Hladders. unfold simulateTick.
  destruct (calculateServiceCoverage_ok _ _ Hwf) as (services & -> & Hcov).
  cbn [mbind option_bind].
  destruct (grid_pass_runs cat rng (gridSize state) services Hcov Hladders state eq_refl
              (mkTick (take (Z.to_nat (gridSize state)) (grid state)) ∅ 0 v0))
    as ([] & st & Hrun & [Hwf' _] & _).
  { split; [|done]. cbn [newGrid].
    destruct Hwf as (Hs & Hlen & Hrows). by rewrite take_ge by lia. }
  rewrite Hrun. cbn [mbind option_bind]. by eexists.
Qed.

(** Every well-formed state has a next state, for every sequence of draws
    in [0, 1): the sequences of ticks of C6 exist at every length. *)
Lemma ticked_exists cat (rng : nat → Q) state :
  grid_wf (gridSize state) (grid state) → ladders_ok cat →
  (∀ n, (0 <= rng n)%Q ∧ (rng n < 1)%Q) →
  ∃ state', ticked cat state state' ∧ grid_wf (gridSize state') (grid state').
Proof.
  intros Hwf Hladders Hrng.
  destruct (simulateTick_returns cat rng state ∅ Hwf Hladders) as (r & Hrun & Hwf').
  exists (with_grid state (tick_grid r)). split; [|done].
  by apply (ticked_intro _ _ _ rng ∅ r).
Qed.

(* ================================================================== *)
(** ** Building origins *)
(* ================================================================== *)

Lemma first_some_Some {A B} (body : A → option (option B)) (l : list A) b :
  first_some body l = Some (Some b) → ∃ a, a ∈ l ∧ body a = Some (Some b).
Proof.
  induction l as [|a l IH]; simpl; [done|].
  destruct (body a) as [[b'|]|] eqn:Hb; simpl; [| |done].
  - intros [= <-]. exists a. split; [apply elem_of_cons; by left|done].
  - intros Hrest. destruct (IH Hrest) as (a' & Ha' & Hbody).
    exists a'. split; [apply elem_of_cons; by right|done].
Qed.

Lemma first_some_None {A B} (body : A → option (option B)) (l : list A) :
  first_some body l = Some None → ∀ a, a ∈ l → body a = Some None.
Proof.
  induction l as [|a l IH]; simpl; [by intros _ a ?%elem_of_nil|].
  destruct (body a) as [[b'|]|] eqn:Hb; simpl; [done| |done].
  intros Hrest a' [->|Ha']%elem_of_cons; [done|by apply IH].
Qed.

(** [covers g ox oy x y]: the tile at (ox, oy) holds a building (not one of
    the structural types) whose footprint, by [getBuildingSize], contains
    (x, y). *)
Definition covers (g : Grid) (ox oy x y : Z) : Prop :=
  ∃ t, tile_at g ox oy = Some t ∧ is_structural (type (building t)) = false ∧
       ox <= x < ox + (getBuildingSize (type (building t))).1 ∧
       oy <= y < oy + (getBuildingSize (type (building t))).2.

(** What [findBuildingOrigin] reports: the tile at the origin holds the
    reported type, which is not structural, and the rectangle of its size
    at the origin contains (x, y); the origin is (x, y) or lies at most
    three tiles to the left of and above it. *)
Lemma findBuildingOrigin_covers g x y gridSize originX originY bt :
  findBuildingOrigin g x y gridSize = Some (Some (originX, originY, bt)) →
  ∃ t, tile_at g originX originY = Some t ∧ type (building t) = bt ∧
    is_structural bt = false ∧
    x - 3 <= originX <= x ∧ y - 3 <= originY <= y ∧
    x < originX + (getBuildingSize bt).1 ∧ y < originY + (getBuildingSize bt).2.
Proof.
  unfold findBuildingOrigin.
  destruct (tile_at g x y) as [tile|] eqn:Ht; [|done].
  destruct (negb (is_structural (type (building tile)))) eqn:Hs.
  { apply negb_true_iff in Hs.
    destruct (getBuildingSize (type (building tile))) as [w h] eqn:Hsz.
    destruct (bool_decide (w > 1) || bool_decide (h > 1)) eqn:Hbig; [|done].
    intros [= <- <- <-]. exists tile. rewrite Hsz. simpl.
    pose proof (getBuildingSize_pos (type (building tile))) as Hpos.
    rewrite Hsz in Hpos. simpl in Hpos. split_and!; try done; lia. }
  destruct (is_type (type (building tile)) "empty"); [|done].
  intros ([dx dy] & [Hdx Hdy]%elem_of_rect & Hbody)%first_some_Some.
  destruct (bool_decide (x - dx >= 0) && bool_decide (y - dy >= 0) &&
            bool_decide (x - dx < gridSize) && bool_decide (y - dy < gridSize)); [|done].
  destruct (tile_at g (x - dx) (y - dy)) as [checkTile|] eqn:Hc; [|done].
  simpl in Hbody.
  destruct (negb (is_structural (type (building checkTile)))) eqn:Hcs; [|done].
  apply negb_true_iff in Hcs.
  destruct (getBuildingSize (type (building checkTile))) as [w h] eqn:Hsz.
  destruct (bool_decide (x >= x - dx) && bool_decide (x < x - dx + w) &&
            bool_decide (y >= y - dy) && bool_decide (y < y - dy + h)) eqn:Hin; [|done].
  injection Hbody as <- <- <-.
  rewrite !andb_true_iff, !bool_decide_eq_true in Hin.
  exists checkTile. rewrite Hsz. simpl. split_and!; try done; lia.
Qed.

(** An origin that [findBuildingOrigin] reports is the anchor of a
    building whose footprint contains the tile asked for: it holds the
    reported type, and it is the tile itself (a multi-tile building) or
    lies at most three tiles to the left of and above an 'empty' tile. *)
Theorem findBuildingOrigin_sound g x y gridSize originX originY bt :
  findBuildingOrigin g x y gridSize = Some (Some (originX, originY, bt)) →
  covers g originX originY x y ∧
  (type ∘ building <$> tile_at g originX originY) = Some bt ∧
  x - 3 <= originX <= x ∧ y - 3 <= originY <= y.
Proof.
  intros Hfound.
  destruct (findBuildingOrigin_covers _ _ _ _ _ _ _ Hfound)
    as (t & Ht & <- & Hs & Hox & Hoy & Hcx & Hcy).
  split; [|split; [by rewrite Ht|lia]].
  exists t. split; [done|]. split; [done|]. lia.
Qed.

Lemma findBuildingOrigin_sound_witness :
  let g := grid upgrade_state in
  covers g 1 0 2 1 ∧ (type ∘ building <$> tile_at g 1 0) = Some "power_plant"%string ∧
  2 - 3 <= 1 <= 2 ∧ 1 - 3 <= 0 <= 1.
Proof.
  intros g. apply (findBuildingOrigin_sound g 2 1 3 1 0 "power_plant"). reflexivity.
Defined.

(** An 'empty' tile is reported as belonging to no building exactly when
    none of the sixteen tiles up to three steps to its left and above it,
    inside the grid, holds a building whose footprint contains it: this is
    the test by which the tick turns an orphaned 'empty' tile back into
    grass. *)
Theorem findBuildingOrigin_orphan g x y gridSize tile :
  grid_wf gridSize g →
  tile_at g x y = Some tile → type (building tile) = "empty"%string →
  (findBuildingOrigin g x y gridSize = Some None ↔
   ∀ ox oy, x - 3 <= ox <= x → y - 3 <= oy <= y → ¬ covers g ox oy x y).
Proof.
  intros Hwf Ht Hempty. unfold findBuildingOrigin. rewrite Ht, Hempty.
  change (negb (is_structural "empty")) with false. cbv iota.
  change (is_type "empty" "empty") with true. cbv iota.
  destruct (tile_at_Some_inv gridSize g x y tile Hwf Ht) as [Hx Hy].
  split.
  - intros Hnone ox oy Hox Hoy (t & Hto & Hstruct & Hcx & Hcy).
    pose proof (first_some_None _ _ Hnone (x - ox, y - oy)) as Hbody.
    destruct (tile_at_Some_inv gridSize g ox oy t Hwf Hto) as [Hox' Hoy'].
    cbv beta iota in Hbody.
    replace (x - (x - ox)) with ox in Hbody by lia.
    replace (y - (y - oy)) with oy in Hbody by lia.
    rewrite !bool_decide_eq_true_2 in Hbody by lia. cbn [andb] in Hbody.
    rewrite Hto in Hbody. cbn [mbind option_bind] in Hbody.
    rewrite Hstruct in Hbody. cbn [negb] in Hbody.
    destruct (getBuildingSize (type (building t))) as [w h]. simpl in Hcx, Hcy.
    rewrite !bool_decide_eq_true_2 in Hbody by lia. cbn [andb] in Hbody.
    specialize (Hbody ltac:(apply elem_of_rect; lia)). done.
  - intros Hnone.
    match goal with
    | |- first_some ?body ?l = _ => destruct (first_some body l) as [[[[ox oy] bt]|]|] eqn:Hrun
    end; [|done|].
    + exfalso.
      apply first_some_Some in Hrun as ([dx dy] & [Hdx Hdy]%elem_of_rect & Hbody).
      destruct (bool_decide (x - dx >= 0) && bool_decide (y - dy >= 0) &&
                bool_decide (x - dx < gridSize) && bool_decide (y - dy < gridSize));
        [|done].
      destruct (tile_at g (x - dx) (y - dy)) as [checkTile|] eqn:Hc; [|done].
      simpl in Hbody.
      destruct (negb (is_structural (type (building checkTile)))) eqn:Hcs; [|done].
      apply negb_true_iff in Hcs.
      destruct (getBuildingSize (type (building checkTile))) as [w h] eqn:Hsz.
      destruct (bool_decide (x >= x - dx) && bool_decide (x < x - dx + w) &&
                bool_decide (y >= y - dy) && bool_decide (y < y - dy + h)) eqn:Hin;
        [|done].
      rewrite !andb_true_iff, !bool_decide_eq_true in Hin.
      apply (Hnone (x - dx) (y - dy)); [lia..|].
      exists checkTile. rewrite Hsz. simpl. split; [done|]. split; [done|lia].
    + exfalso.
      assert (is_Some (first_some
        (λ '(dx, dy),
           if bool_decide (x - dx >= 0) && bool_decide (y - dy >= 0) &&
              bool_decide (x - dx < gridSize) && bool_decide (y - dy < gridSize)
           then
             checkTile ← tile_at g (x - dx) (y - dy);
             (if negb (is_structural (type (building checkTile)))
              then
                let '(w, h) := getBuildingSize (type (building checkTile)) in
                if bool_decide (x >= x - dx) && bool_decide (x < x - dx + w) &&
                   bool_decide (y >= y - dy) && bool_decide (y < y - dy + h)
                then Some (Some (x - dx, y - dy, type (building checkTile)))
                else Some None
              else Some None)
           else Some None) (rect 4 4))) as [r Hr]; [|by rewrite Hr in Hrun].
      apply first_some_returns. intros [dx dy] _.
      destruct (bool_decide (x - dx >= 0) && bool_decide (y - dy >= 0) &&
                bool_decide (x - dx < gridSize) && bool_decide (y - dy < gridSize)) eqn:Hin;
        [|done].
      rewrite !andb_true_iff, !bool_decide_eq_true in Hin.
      destruct (tile_at_Some_wf gridSize g (x - dx) (y - dy) Hwf) as [t' Ht']; [lia..|].
      rewrite Ht'. simpl. destruct (negb _); [|done].
      destruct (getBuildingSize _) as [w h]. by destruct (_ && _).
Qed.

Lemma findBuildingOrigin_orphan_witness :
  let g := grid upgrade_state in
  findBuildingOrigin g 2 1 3 = Some None ↔
  ∀ ox oy, 2 - 3 <= ox <= 2 → 1 - 3 <= oy <= 1 → ¬ covers g ox oy 2 1.
Proof.
  intros g.
  apply (findBuildingOrigin_orphan g 2 1 3
           (upd_building (λ b, set_constructionProgress (Some 100%Q)
                                 (set_watered true (set_powered true b)))
              (createTile 2 1 "empty")));
    [apply grid_wfb_spec; vm_compute; reflexivity|reflexivity|reflexivity].
Defined.

(* ================================================================== *)
(** ** Clearing tiles: bulldozing and terraforming *)
(* ================================================================== *)

Definition set_hasSubway (v : bool) (t : Tile) : Tile :=
  mkTile (tile_x t) (tile_y t) (zone t) (building t) (landValue t) (pollution t) (crime t)
    (traffic t) v (hasRailOverlay t) (pollutionType t) (waterDepth t).

(** [placeSubway(state, x, y)]. *)
Definition placeSubway (state : GameState) (x y : Z) : GameState :=
  match tile_at (grid state) x y with
  | None => state
  | Some tile =>
    if is_type (type (building tile)) "water" || hasSubway tile then state
    else with_grid state (update_tile (grid state) x y (set_hasSubway true))
  end.

(** [removeSubway(state, x, y)]. *)
Definition removeSubway (state : GameState) (x y : Z) : GameState :=
  match tile_at (grid state) x y with
  | None => state
  | Some tile =>
    if negb (hasSubway tile) then state
    else with_grid state (update_tile (grid state) x y (set_hasSubway false))
  end.

(** What [placeWaterTerraform] writes to the tile it floods. *)
Definition terraform_to_water (t : Tile) : Tile :=
  set_hasSubway false (set_zone ZoneNone (set_building (createBuilding "water") t)).

(** [placeWaterTerraform(state, x, y)]. *)
Definition placeWaterTerraform (state : GameState) (x y : Z) : option GameState :=
  match tile_at (grid state) x y with
  | None => Some state
  | Some tile =>
    if is_type (type (building tile)) "water" || is_type (type (building tile)) "bridge"
    then Some state
    else
      let newGrid := grid state in
      origin ← findBuildingOrigin newGrid x y (gridSize state);
      newGrid ← match origin with
                | Some (originX, originY, obt) =>
                    clear_footprint newGrid originX originY obt (gridSize state) false
                | None => Some newGrid
                end;
      _ ← tile_at newGrid x y;
      Some (with_grid state (update_tile newGrid x y terraform_to_water))
  end.

(** [placeLandTerraform(state, x, y)]. *)
Definition placeLandTerraform (state : GameState) (x y : Z) : GameState :=
  match tile_at (grid state) x y with
  | None => state
  | Some tile =>
    if negb (is_type (type (building tile)) "water") then state
    else with_grid state (update_tile (grid state) x y (λ t,
           set_zone ZoneNone (set_building (createBuilding "grass") t)))
  end.

(* ------------------------------------------------------------------ *)
(** *** Updates of one tile *)

Lemma update_cell_id {A} (g : list (list A)) x y (f : A → A) :
  (∀ t, cell_at g x y = Some t → f t = t) → update_cell g x y f = g.
Proof.
  unfold update_cell, cell_at, row_at. intros Hf.
  destruct (decide (0 <= y ∧ 0 <= x)) as [[Hy Hx]|]; [|done].
  rewrite decide_True in Hf by done.
  apply list_eq. intros i. rewrite list_lookup_alter.
  destruct (decide (Z.to_nat y = i)) as [<-|]; [|done].
  destruct (g !! Z.to_nat y) as [row|] eqn:Hrow; [|done]. simpl. f_equal.
  simpl in Hf. rewrite decide_True in Hf by done.
  apply list_eq. intros j. rewrite list_lookup_alter.
  destruct (decide (Z.to_nat x = j)) as [<-|]; [|done].
  destruct (row !! Z.to_nat x) as [t|] eqn:Ht; [|done]. simpl. f_equal. by apply Hf.
Qed.

Lemma update_cell_twice {A} (g : list (list A)) x y (f h : A → A) :
  update_cell (update_cell g x y f) x y h = update_cell g x y (h ∘ f).
Proof.
  unfold update_cell. destruct (decide (0 <= y ∧ 0 <= x)); [|done].
  rewrite list_alter_alter_eq. apply list_alter_ext; [|done].
  intros row _. simpl. by rewrite list_alter_alter_eq.
Qed.

Lemma with_grid_twice state g g' : with_grid (with_grid state g) g' = with_grid state g'.
Proof. done. Qed.

(** What the footprint loops write to a tile they clear. *)
Definition cleared_tile (resetOverlay : bool) (t : Tile) : Tile :=
  let t := set_zone ZoneNone (set_building (createBuilding "grass") t) in
  if resetOverlay then set_hasRailOverlay (Some false) t else t.

(** The tiles a footprint loop clears: those of the w x h rectangle at the
    origin that pass the loop's test on the upper bounds. *)
Lemma clear_footprint_spec size g originX originY bt resetOverlay :
  grid_wf size g → 0 <= originX → 0 <= originY →
  ∃ g', clear_footprint g originX originY bt size resetOverlay = Some g' ∧
    grid_wf size g' ∧
    ∀ x' y', tile_at g' x' y' =
      if decide (originX <= x' < originX + (getBuildingSize bt).1 ∧
                 originY <= y' < originY + (getBuildingSize bt).2)
      then cleared_tile resetOverlay <$> tile_at g x' y' else tile_at g x' y'.
Proof.
  intros Hwf Hox Hoy. unfold clear_footprint.
  destruct (getBuildingSize bt) as [w h]. simpl.
  set (cleared := cleared_tile resetOverlay).
  assert (∀ t, cleared (cleared t) = cleared t) as Hidem.
  { intros t. unfold cleared, cleared_tile. by destruct resetOverlay. }
  assert (∀ l : list (Z * Z), (∀ dx dy, (dx, dy) ∈ l → 0 <= dx ∧ 0 <= dy) →
    ∀ g, grid_wf size g →
    ∃ g', for_each (λ g '(dx, dy),
        if bool_decide (originX + dx < size) && bool_decide (originY + dy < size)
        then _ ← tile_at g (originX + dx) (originY + dy);
             Some (update_tile g (originX + dx) (originY + dy) cleared)
        else Some g) g l = Some g' ∧ grid_wf size g' ∧
      ∀ x' y', tile_at g' x' y' =
        if decide ((x' - originX, y' - originY) ∈ l)
        then cleared <$> tile_at g x' y' else tile_at g x' y') as Hloop.
  { clear g Hwf. induction l as [|[dx dy] l IH]; intros Hpos g Hwf.
    - exists g. split; [done|]. split; [done|]. intros x' y'.
      rewrite decide_False; [done|]. by intros ?%elem_of_nil.
    - destruct (Hpos dx dy) as [Hdx Hdy]; [apply elem_of_cons; by left|].
      assert (∀ a b, (a, b) ∈ l → 0 <= a ∧ 0 <= b) as Hpos'.
      { intros a b Hin. apply Hpos, elem_of_cons. by right. }
      simpl.
      destruct (bool_decide (originX + dx < size) && bool_decide (originY + dy < size))
        eqn:Hin.
      + rewrite andb_true_iff, !bool_decide_eq_true in Hin.
        destruct (tile_at_Some_wf size g (originX + dx) (originY + dy) Hwf) as [t Ht];
          [lia..|].
        rewrite Ht. simpl.
        destruct (IH Hpos' (update_tile g (originX + dx) (originY + dy) cleared))
          as (g' & Hg' & Hwf' & Hspec); [by apply grid_wf_update_tile|].
        exists g'. split; [done|]. split; [done|]. intros x' y'.
        rewrite Hspec, tile_at_update_tile.
        destruct (decide ((x' - originX, y' - originY) ∈ (dx, dy) :: l)) as [Hc|Hc];
          destruct (decide ((x' - originX, y' - originY) ∈ l)) as [Hl|Hl];
          destruct (decide (x' = originX + dx ∧ y' = originY + dy)) as [[-> ->]|Hne];
          rewrite ?Ht; simpl; rewrite ?Hidem; try done; exfalso.
        * apply elem_of_cons in Hc as [[= ? ?]|?]; [|done]. apply Hne. lia.
        * apply Hc, elem_of_cons. left. f_equal; lia.
        * apply Hc, elem_of_cons. by right.
        * apply Hc, elem_of_cons. left. f_equal; lia.
      + destruct (IH Hpos' g Hwf) as (g' & Hg' & Hwf' & Hspec).
        exists g'. split; [done|]. split; [done|]. intros x' y'. rewrite Hspec.
        destruct (decide ((x' - originX, y' - originY) ∈ (dx, dy) :: l)) as [Hc|Hc];
          destruct (decide ((x' - originX, y' - originY) ∈ l)) as [Hl|Hl];
          try done.
        * apply elem_of_cons in Hc as [[= Hx' Hy']|?]; [|done].
          rewrite (tile_at_None_outside size g x' y' Hwf); [done|].
          apply andb_false_iff in Hin as [Hin|Hin];
            apply bool_decide_eq_false in Hin; lia.
        * destruct Hc. apply elem_of_cons. by right. }
  destruct (Hloop (rect w h)) with (g := g) as (g' & Hg' & Hwf' & Hspec); [|done|].
  { intros dx dy Hr%elem_of_rect. lia. }
  exists g'. split; [done|]. split; [done|]. intros x' y'. rewrite Hspec.
  destruct (decide ((x' - originX, y' - originY) ∈ rect w h)) as [Hc|Hc];
    destruct (decide (originX <= x' < originX + w ∧ originY <= y' < originY + h))
      as [Hd|Hd]; try done; exfalso.
  - apply elem_of_rect in Hc. lia.
  - apply Hc, elem_of_rect. lia.
Qed.

Lemma flood_tiles_wf size g tiles g' :
  grid_wf size g → flood_tiles g tiles = Some g' → grid_wf size g'.
Proof.
  unfold flood_tiles. intros Hwf.
  apply (for_each_inv (grid_wf size)); [|done].
  intros s [bx by_] s' Hs. destruct (tile_at s bx by_); [|done]. simpl.
  intros [= <-]. by apply grid_wf_update_tile.
Qed.

(** The tiles [findAdjacentBridgeTiles] reports are bridge tiles. *)
Lemma findAdjacentBridgeTiles_spec size g x y :
  grid_wf size g →
  ∃ l, findAdjacentBridgeTiles g size x y = Some l ∧
    ∀ px py, (px, py) ∈ l →
      ∃ t, tile_at g px py = Some t ∧ type (building t) = "bridge"%string.
Proof.
  intros Hwf. unfold findAdjacentBridgeTiles.
  match goal with
  | |- ∃ l, (first_some ?b ?d ≫= _) = _ ∧ _ => set (body := b); set (dirs := d)
  end.
  assert (∀ d, d ∈ dirs → ∃ r, body d = Some r ∧
            match r with
            | Some l => ∀ px py, (px, py) ∈ l →
                ∃ t, tile_at g px py = Some t ∧ type (building t) = "bridge"%string
            | None => True
            end) as Hbody; [|clearbody body dirs].
  { intros [dx dy] _. unfold body.
    destruct (bool_decide (x + dx >= 0) && bool_decide (x + dx < size) &&
              bool_decide (y + dy >= 0) && bool_decide (y + dy < size)) eqn:Hin;
      [|by exists None].
    rewrite !andb_true_iff, !bool_decide_eq_true in Hin.
    destruct (tile_at_Some_wf size g (x + dx) (y + dy) Hwf) as [n Hn]; [lia..|].
    rewrite Hn. simpl.
    destruct (is_type (type (building n)) "bridge") eqn:Hty; [|by exists None].
    apply String.eqb_eq in Hty.
    destruct (_ || _); [|by exists None]. simpl.
    destruct (findConnectedBridgeTiles_spec size g (x + dx) (y + dy) n Hwf Hn Hty)
      as (l & -> & Hmem).
    exists (Some l). split; [done|]. intros px py Hin'%Hmem.
    destruct (decide (px = x + dx ∧ py = y + dy)) as [[-> ->]|Hne]; [by exists n|].
    unfold bridge_run in Hin'. destruct (default NS (bridgeOrientation (building n))).
    - destruct Hin' as [-> Hrun]. destruct (Hrun px) as (t & Ht & Hb); [lia|].
      exists t. split; [done|]. unfold bridge_with in Hb.
      apply andb_true_iff in Hb as [Hb _]. by apply String.eqb_eq in Hb.
    - destruct Hin' as [-> Hrun]. destruct (Hrun py) as (t & Ht & Hb); [lia|].
      exists t. split; [done|]. unfold bridge_with in Hb.
      apply andb_true_iff in Hb as [Hb _]. by apply String.eqb_eq in Hb. }
  induction dirs as [|d dirs IH]; simpl.
  { exists []. split; [done|]. by intros px py ?%elem_of_nil. }
  destruct (Hbody d) as ([l|] & -> & Hl); [apply elem_of_cons; by left| |]; simpl.
  - by exists l.
  - apply IH. intros d' Hd'. apply Hbody, elem_of_cons. by right.
Qed.

(** The tiles of the footprint of the building [findBuildingOrigin] finds
    from (x, y): the rectangle of the size of its type at its origin. *)
Definition found_footprint (g : Grid) (gridSize x y x' y' : Z) : bool :=
  match findBuildingOrigin g x y gridSize with
  | Some (Some (originX, originY, bt)) =>
      bool_decide (originX <= x' < originX + (getBuildingSize bt).1 ∧
                   originY <= y' < originY + (getBuildingSize bt).2)
  | _ => false
  end.

(** The bridge tiles [bulldozeTile] removes with a road tile. *)
Definition bridges_removed_with (g : Grid) (gridSize x y : Z) (tile : Tile)
  : option (list (Z * Z)) :=
  if is_type (type (building tile)) "road"
  then findAdjacentBridgeTiles g gridSize x y else Some [].

Lemma bulldozeTile_spec state x y tile :
  grid_wf (gridSize state) (grid state) →
  tile_at (grid state) x y = Some tile →
  type (building tile) ≠ "water"%string → type (building tile) ≠ "bridge"%string →
  ∃ g' bridgeTiles,
    bulldozeTile state x y = Some (with_grid state g') ∧
    grid_wf (gridSize state) g' ∧
    bridges_removed_with (grid state) (gridSize state) x y tile = Some bridgeTiles ∧
    (∀ px py, (px, py) ∈ bridgeTiles →
       ∃ t, tile_at (grid state) px py = Some t ∧ type (building t) = "bridge"%string) ∧
    ∀ x' y',
      tile_at g' x' y' =
        if decide ((x', y') ∈ bridgeTiles)
        then bulldoze_to "water" <$> tile_at (grid state) x' y'
        else if bool_decide (x' = x ∧ y' = y) ||
                found_footprint (grid state) (gridSize state) x y x' y'
        then bulldoze_to "grass" <$> tile_at (grid state) x' y'
        else tile_at (grid state) x' y'.
Proof.
  intros Hwf Ht Hwater Hbridge. unfold bulldozeTile, bridges_removed_with. rewrite Ht.
  apply String.eqb_neq in Hwater, Hbridge. unfold is_type at 1 2.
  rewrite Hwater, Hbridge.
  set (g := grid state) in *. set (size := gridSize state) in *.
  assert (∃ g', (origin ← findBuildingOrigin g x y size;
                 match origin with
                 | Some (originX, originY, obt) =>
                     newGrid ← clear_footprint g originX originY obt size true;
                     Some (with_grid state newGrid)
                 | None => Some (with_grid state (update_tile g x y (bulldoze_to "grass")))
                 end) = Some (with_grid state g') ∧
            grid_wf size g' ∧
            ∀ x' y', tile_at g' x' y' =
              if bool_decide (x' = x ∧ y' = y) || found_footprint g size x y x' y'
              then bulldoze_to "grass" <$> tile_at g x' y' else tile_at g x' y') as Htail.
  { unfold found_footprint.
    destruct (findBuildingOrigin_returns size g x y Hwf) as [[[[ox oy] obt]|] Ho];
      rewrite Ho; simpl.
    - destruct (findBuildingOrigin_covers _ _ _ _ _ _ _ Ho)
        as (to & Hto & Hty & _ & Hox & Hoy & Hcx & Hcy).
      destruct (tile_at_Some_inv size g ox oy to Hwf Hto) as [Hox0 Hoy0].
      destruct (clear_footprint_spec size g ox oy obt true Hwf) as (g' & -> & Hwf' & Hspec);
        [lia..|].
      exists g'. split; [done|]. split; [done|].
      intros x' y'. rewrite Hspec.
      destruct (decide (ox <= x' < ox + (getBuildingSize obt).1 ∧
                        oy <= y' < oy + (getBuildingSize obt).2)) as [Hin|Hin].
      + rewrite (bool_decide_eq_true_2 _ Hin), orb_true_r. done.
      + rewrite (bool_decide_eq_false_2 _ Hin), orb_false_r.
        rewrite bool_decide_eq_false_2; [done|]. intros [-> ->]. apply Hin. lia.
    - exists (update_tile g x y (bulldoze_to "grass")). split; [done|].
      split; [by apply grid_wf_update_tile|].
      intros x' y'. rewrite tile_at_update_tile, orb_false_r.
      destruct (decide (x' = x ∧ y' = y)) as [[-> ->]|Hd].
      + by rewrite bool_decide_eq_true_2.
      + by rewrite bool_decide_eq_false_2. }
  destruct (is_type (type (building tile)) "road") eqn:Hroad.
  2:{ simpl. destruct Htail as (g' & Hrun & Hwf' & Hspec). exists g', [].
      split; [done|]. split; [done|]. split; [done|].
      split; [by intros ? ? ?%elem_of_nil|]. intros x' y'.
      rewrite decide_False by (by intros ?%elem_of_nil). apply Hspec. }
  destruct (findAdjacentBridgeTiles_spec size g x y Hwf) as (l & Hl & Hmem).
  rewrite Hl. simpl.
  destruct (bool_decide (0 < length l)%nat) eqn:Hlen.
  2:{ apply bool_decide_eq_false in Hlen. destruct l as [|? l]; [|exfalso; simpl in Hlen; lia].
      destruct Htail as (g' & Hrun & Hwf' & Hspec). exists g', [].
      split; [done|]. split; [done|]. split; [done|].
      split; [by intros ? ? ?%elem_of_nil|]. intros x' y'.
      rewrite decide_False by (by intros ?%elem_of_nil). apply Hspec. }
  clear Htail.
  set (g1 := update_tile g x y (bulldoze_to "grass")).
  assert (∀ px py, tile_at g1 px py =
            if decide (px = x ∧ py = y) then bulldoze_to "grass" <$> tile_at g x y
            else tile_at g px py) as Hg1.
  { intros px py. apply tile_at_update_tile. }
  destruct (flood_tiles_spec g1 l) as (g' & Hg' & Hspec).
  { intros px py Hin. destruct (Hmem px py Hin) as (t & Hpt & _).
    rewrite Hg1. destruct (decide (px = x ∧ py = y)); [rewrite Ht|rewrite Hpt];
      by eexists. }
  rewrite Hg'. simpl. exists g', l. split; [done|].
  split; [eapply flood_tiles_wf; [|done]; by apply grid_wf_update_tile|].
  split; [done|]. split; [done|].
  assert ((x, y) ∉ l) as Hnot.
  { intros (t & Hpt & Hty)%Hmem. rewrite Ht in Hpt. injection Hpt as <-.
    apply String.eqb_neq in Hbridge. done. }
  assert (findBuildingOrigin g x y size = Some None) as Hnone.
  { unfold findBuildingOrigin. rewrite Ht. apply String.eqb_eq in Hroad.
    by rewrite Hroad. }
  intros x' y'. rewrite Hspec, Hg1. unfold found_footprint. rewrite Hnone, orb_false_r.
  destruct (decide ((x', y') ∈ l)) as [Hin|Hin].
  - rewrite decide_False; [done|]. by intros [-> ->].
  - destruct (decide (x' = x ∧ y' = y)) as [[-> ->]|Hd].
    + by rewrite bool_decide_eq_true_2.
    + by rewrite bool_decide_eq_false_2.
Qed.

(** Bulldozing a tile of the grid that is neither water nor a bridge
    always returns a well-formed grid, and the tile ends as grass with zone
    'none' and no rail overlay.  The other tiles that change are exactly:
    the tiles of the footprint of the building [findBuildingOrigin] finds
    from the tile, cleared in the same way; and, when the tile was a road,
    the bridge tiles [findAdjacentBridgeTiles] reports, turned into water.
    Every other tile is left as it was. *)
Theorem bulldoze_only_removes state x y tile :
  grid_wf (gridSize state) (grid state) →
  tile_at (grid state) x y = Some tile →
  type (building tile) ≠ "water"%string → type (building tile) ≠ "bridge"%string →
  ∃ g' bridgeTiles,
    bulldozeTile state x y = Some (with_grid state g') ∧
    grid_wf (gridSize state) g' ∧
    tile_at g' x y = Some (bulldoze_to "grass" tile) ∧
    bridges_removed_with (grid state) (gridSize state) x y tile = Some bridgeTiles ∧
    (∀ px py, (px, py) ∈ bridgeTiles →
       ∃ t, tile_at (grid state) px py = Some t ∧ type (building t) = "bridge"%string) ∧
    ∀ x' y',
      tile_at g' x' y' =
        if decide ((x', y') ∈ bridgeTiles)
        then bulldoze_to "water" <$> tile_at (grid state) x' y'
        else if bool_decide (x' = x ∧ y' = y) ||
                found_footprint (grid state) (gridSize state) x y x' y'
        then bulldoze_to "grass" <$> tile_at (grid state) x' y'
        else tile_at (grid state) x' y'.
Proof.
  intros Hwf Ht Hwater Hbridge.
  destruct (bulldozeTile_spec state x y tile Hwf Ht Hwater Hbridge)
    as (g' & l & Hrun & Hwf' & Hl & Hmem & Hspec).
  exists g', l. split_and!; try done.
  rewrite Hspec, decide_False.
  - by rewrite bool_decide_eq_true_2, Ht.
  - intros (t & Hpt & Hty)%Hmem. rewrite Ht in Hpt. by injection Hpt as <-.
Qed.

Lemma bulldoze_only_removes_witness :
  ∃ g', bulldozeTile upgrade_state 2 1 = Some (with_grid upgrade_state g') ∧
    grid_wf 3 g' ∧
    (∀ x' y', 1 <= x' <= 2 → 0 <= y' <= 1 →
       (type ∘ building <$> tile_at g' x' y') = Some "grass"%string) ∧
    (∀ x' y', ¬ (1 <= x' <= 2 ∧ 0 <= y' <= 1) →
       tile_at g' x' y' = tile_at (grid upgrade_state) x' y').
Proof.
  destruct (bulldoze_only_removes upgrade_state 2 1
              (upd_building (λ b, set_constructionProgress (Some 100%Q)
                                    (set_watered true (set_powered true b)))
                 (createTile 2 1 "empty")))
    as (g' & l & Hrun & Hwf & _ & Hl & _ & Hspec);
    [apply grid_wfb_spec; vm_compute; reflexivity|reflexivity|done|done|].
  vm_compute in Hl. injection Hl as <-.
  exists g'. split; [done|]. split; [done|].
  assert (∀ x' y', found_footprint (grid upgrade_state) (gridSize upgrade_state) 2 1 x' y' =
            bool_decide (1 <= x' < 1 + 2 ∧ 0 <= y' < 0 + 2)) as Hfp by done.
  split.
  - intros x' y' Hx Hy. rewrite Hspec, decide_False by (by intros ?%elem_of_nil).
    rewrite Hfp, (bool_decide_eq_true_2 (1 <= x' < 1 + 2 ∧ 0 <= y' < 0 + 2)) by lia.
    rewrite orb_true_r.
    assert ((x' = 1 ∨ x' = 2) ∧ (y' = 0 ∨ y' = 1)) as [[-> | ->] [-> | ->]] by lia;
      reflexivity.
  - intros x' y' Hout. rewrite Hspec, decide_False by (by intros ?%elem_of_nil).
    rewrite Hfp, (bool_decide_eq_false_2 (1 <= x' < 1 + 2 ∧ 0 <= y' < 0 + 2)) by lia.
    rewrite orb_false_r, bool_decide_eq_false_2; [done|]. lia.
Defined.

Lemma placeWaterTerraform_spec state x y tile :
  grid_wf (gridSize state) (grid state) →
  tile_at (grid state) x y = Some tile →
  type (building tile) ≠ "water"%string → type (building tile) ≠ "bridge"%string →
  ∃ g1, placeWaterTerraform state x y =
          Some (with_grid state (update_tile g1 x y terraform_to_water)) ∧
    grid_wf (gridSize state) g1 ∧
    ∀ x' y', tile_at g1 x' y' = tile_at (grid state) x' y' ∨
             tile_at g1 x' y' = cleared_tile false <$> tile_at (grid state) x' y'.
Proof.
  intros Hwf Ht Hwater Hbridge. unfold placeWaterTerraform. rewrite Ht.
  apply String.eqb_neq in Hwater, Hbridge. unfold is_type. rewrite Hwater, Hbridge.
  simpl.
  destruct (findBuildingOrigin_returns _ (grid state) x y Hwf) as [[[[ox oy] obt]|] Ho];
    rewrite Ho; simpl.
  - destruct (findBuildingOrigin_covers _ _ _ _ _ _ _ Ho) as (to & Hto & _).
    destruct (tile_at_Some_inv _ _ ox oy to Hwf Hto) as [Hox Hoy].
    destruct (clear_footprint_spec _ _ ox oy obt false Hwf) as (g1 & -> & Hwf1 & Hspec);
      [lia..|].
    simpl. destruct (tile_at_Some_inv _ _ x y tile Hwf Ht) as [Hx Hy].
    destruct (tile_at_Some_wf _ g1 x y Hwf1) as [t1 ->]; [lia..|]. simpl.
    exists g1. split; [done|]. split; [done|]. intros x' y'. rewrite Hspec.
    case_decide; [by right|by left].
  - rewrite Ht. simpl. exists (grid state). split; [done|]. split; [done|].
    intros x' y'. by left.
Qed.

(** Digging a canal on a tile of the grid that is neither water nor a
    bridge always returns a well-formed grid; the tile ends as a plain
    water building with zone 'none' and no subway.  The other tiles that
    change are exactly the tiles of the footprint of the building
    [findBuildingOrigin] finds from the tile, reset to grass with zone
    'none'; every other tile is left as it was. *)
Theorem placeWaterTerraform_floods state x y tile :
  grid_wf (gridSize state) (grid state) →
  tile_at (grid state) x y = Some tile →
  type (building tile) ≠ "water"%string → type (building tile) ≠ "bridge"%string →
  ∃ g', placeWaterTerraform state x y = Some (with_grid state g') ∧
    grid_wf (gridSize state) g' ∧
    (∃ t', tile_at g' x y = Some t' ∧ building t' = createBuilding "water" ∧
           zone t' = ZoneNone ∧ hasSubway t' = false) ∧
    ∀ x' y', ¬ (x' = x ∧ y' = y) →
      tile_at g' x' y' =
        if found_footprint (grid state) (gridSize state) x y x' y'
        then cleared_tile false <$> tile_at (grid state) x' y'
        else tile_at (grid state) x' y'.
Proof.
  intros Hwf Ht Hwater Hbridge. unfold placeWaterTerraform, found_footprint. rewrite Ht.
  apply String.eqb_neq in Hwater, Hbridge. unfold is_type. rewrite Hwater, Hbridge.
  simpl.
  destruct (tile_at_Some_inv _ _ x y tile Hwf Ht) as [Hx Hy].
  destruct (findBuildingOrigin_returns _ (grid state) x y Hwf) as [[[[ox oy] obt]|] Ho];
    rewrite Ho; simpl.
  - destruct (findBuildingOrigin_covers _ _ _ _ _ _ _ Ho) as (to & Hto & _).
    destruct (tile_at_Some_inv _ _ ox oy to Hwf Hto) as [Hox Hoy].
    destruct (clear_footprint_spec _ _ ox oy obt false Hwf) as (g1 & -> & Hwf1 & Hspec);
      [lia..|].
    simpl. destruct (tile_at_Some_wf _ g1 x y Hwf1) as [t1 Ht1]; [lia..|].
    rewrite Ht1. simpl.
    exists (update_tile g1 x y terraform_to_water). split; [done|].
    split; [by apply grid_wf_update_tile|]. split.
    + rewrite tile_at_update_tile, decide_True, Ht1 by done. by eexists.
    + intros x' y' Hne. rewrite tile_at_update_tile, decide_False, Hspec by done.
      destruct (decide _) as [Hin|Hin].
      * by rewrite bool_decide_eq_true_2.
      * by rewrite bool_decide_eq_false_2.
  - rewrite Ht. simpl. exists (update_tile (grid state) x y terraform_to_water).
    split; [done|]. split; [by apply grid_wf_update_tile|]. split.
    + rewrite tile_at_update_tile, decide_True, Ht by done. by eexists.
    + intros x' y' Hne. by rewrite tile_at_update_tile, decide_False.
Qed.

Lemma placeWaterTerraform_floods_witness :
  ∃ g', placeWaterTerraform upgrade_state 2 1 = Some (with_grid upgrade_state g') ∧
    (type ∘ building <$> tile_at g' 2 1) = Some "water"%string ∧
    (type ∘ building <$> tile_at g' 1 0) = Some "grass"%string ∧
    tile_at g' 0 0 = tile_at (grid upgrade_state) 0 0.
Proof.
  destruct (placeWaterTerraform_floods upgrade_state 2 1
              (upd_building (λ b, set_constructionProgress (Some 100%Q)
                                    (set_watered true (set_powered true b)))
                 (createTile 2 1 "empty")))
    as (g' & Hrun & _ & (t' & Ht' & Hb & _) & Hspec);
    [apply grid_wfb_spec; vm_compute; reflexivity|reflexivity|done|done|].
  exists g'. split; [done|]. split; [by rewrite Ht'; simpl; rewrite Hb|].
  split.
  - rewrite Hspec by lia. reflexivity.
  - rewrite Hspec by lia. reflexivity.
Defined.

(** Placing a subway at a position and removing it again gives what
    removing alone gives: on a tile without a subway the two calls restore
    the state, and elsewhere placing changes nothing that removing would
    not undo. *)
Theorem subway_place_then_remove state x y :
  removeSubway (placeSubway state x y) x y = removeSubway state x y.
Proof.
  unfold placeSubway.
  destruct (tile_at (grid state) x y) as [tile|] eqn:Ht; [|done].
  destruct (is_type (type (building tile)) "water" || hasSubway tile) eqn:Hc; [done|].
  apply orb_false_iff in Hc as [_ Hsub].
  unfold removeSubway. cbn [grid with_grid].
  rewrite tile_at_update_tile, decide_True by done.
  rewrite Ht. cbn [fmap option_fmap option_map hasSubway set_hasSubway negb].
  rewrite Hsub. cbn [negb].
  rewrite with_grid_twice, update_cell_twice, update_cell_id; [by destruct state|].
  intros t. rewrite Ht. intros [= <-]. destruct tile. simpl in *. by subst.
Qed.

(** No water tile carries a subway. *)
Definition no_subway_in_water (g : Grid) : Prop :=
  ∀ x y t, tile_at g x y = Some t → type (building t) = "water"%string →
           hasSubway t = false.

(** The subway and terraforming tools keep water free of subways:
    [placeSubway] refuses water, [placeWaterTerraform] removes the subway
    of the tile it floods, and the two others create neither water nor a
    subway. *)
Theorem tools_keep_water_free_of_subway state x y :
  grid_wf (gridSize state) (grid state) →
  no_subway_in_water (grid state) →
  no_subway_in_water (grid (placeSubway state x y)) ∧
  no_subway_in_water (grid (removeSubway state x y)) ∧
  no_subway_in_water (grid (placeLandTerraform state x y)) ∧
  ∃ state', placeWaterTerraform state x y = Some state' ∧
            no_subway_in_water (grid state').
Proof.
  intros Hwf Hinv. repeat split.
  - unfold placeSubway.
    destruct (tile_at (grid state) x y) as [tile|] eqn:Ht; [|done].
    destruct (is_type (type (building tile)) "water" || hasSubway tile) eqn:Hc; [done|].
    apply orb_false_iff in Hc as [Hw _]. apply String.eqb_neq in Hw.
    intros x' y' t. simpl. rewrite tile_at_update_tile.
    case_decide as Hd; [|apply Hinv]. rewrite Ht. simpl. by intros [= <-].
  - unfold removeSubway.
    destruct (tile_at (grid state) x y) as [tile|] eqn:Ht; [|done].
    destruct (negb (hasSubway tile)); [done|].
    intros x' y' t. simpl. rewrite tile_at_update_tile.
    case_decide as Hd; [|apply Hinv]. rewrite Ht. simpl. by intros [= <-].
  - unfold placeLandTerraform.
    destruct (tile_at (grid state) x y) as [tile|] eqn:Ht; [|done].
    destruct (negb (is_type (type (building tile)) "water")); [done|].
    intros x' y' t. simpl. rewrite tile_at_update_tile.
    case_decide as Hd; [|apply Hinv]. rewrite Ht. simpl. by intros [= <-].
  - destruct (tile_at (grid state) x y) as [tile|] eqn:Ht; cycle 1.
    { exists state. split; [|done]. unfold placeWaterTerraform. by rewrite Ht. }
    destruct (is_type (type (building tile)) "water" ||
              is_type (type (building tile)) "bridge") eqn:Hc.
    { exists state. split; [|done]. unfold placeWaterTerraform. by rewrite Ht, Hc. }
    apply orb_false_iff in Hc as [Hw Hb]. apply String.eqb_neq in Hw, Hb.
    destruct (placeWaterTerraform_spec state x y tile) as (g1 & Hrun & Hwf1 & Hspec);
      [done..|].
    eexists. split; [done|]. intros x' y' t. simpl. rewrite tile_at_update_tile.
    case_decide as Hd.
    + destruct (tile_at g1 x y); [|done]. simpl. by intros [= <-].
    + destruct (Hspec x' y') as [->| ->]; [apply Hinv|].
      destruct (tile_at (grid state) x' y'); [|done]. simpl. by intros [= <-].
Qed.

Lemma no_subway_in_water_check g :
  forallb (forallb (λ t, negb (is_type (type (building t)) "water") ||
                         negb (hasSubway t))) g = true →
  no_subway_in_water g.
Proof.
  intros Hall x y t Ht Hty. unfold cell_at, row_at in Ht.
  destruct (decide (0 <= y)); [|done].
  destruct (g !! Z.to_nat y) as [row|] eqn:Hrow; [|done]. simpl in Ht.
  destruct (decide (0 <= x)); [|done].
  rewrite forallb_forall in Hall.
  pose proof (Hall row ltac:(apply list_elem_of_In; by eapply list_elem_of_lookup_2))
    as Hr.
  rewrite forallb_forall in Hr.
  pose proof (Hr t ltac:(apply list_elem_of_In; by eapply list_elem_of_lookup_2)) as Hc.
  unfold is_type in Hc. rewrite Hty in Hc. simpl in Hc. by apply negb_true_iff in Hc.
Qed.

Lemma tools_keep_water_free_of_subway_witness :
  no_subway_in_water (grid (placeSubway bridge_example_state 0 1)) ∧
  no_subway_in_water (grid (removeSubway bridge_example_state 0 1)) ∧
  no_subway_in_water (grid (placeLandTerraform bridge_example_state 0 1)) ∧
  ∃ state', placeWaterTerraform bridge_example_state 0 1 = Some state' ∧
            no_subway_in_water (grid state').
Proof.
  apply (tools_keep_water_free_of_subway bridge_example_state 0 1).
  - apply grid_wfb_spec. vm_compute. reflexivity.
  - apply no_subway_in_water_check. vm_compute. reflexivity.
Defined.

(* ================================================================== *)
(** ** What a tick writes to a tile *)
(* ================================================================== *)

Lemma Qmin_100_bounds (q a : Q) :
  (0 <= q)%Q → (0 <= a)%Q → (0 <= Qmin 100 (q + a))%Q ∧ (Qmin 100 (q + a) <= 100)%Q.
Proof.
  intros Hq Ha. split; [apply Q.min_glb; lra|apply Q.le_min_l].
Qed.

Lemma Qmax_0_bounds (q a : Q) :
  (q <= 100)%Q → (a <= 0)%Q → (0 <= Qmax 0 (q + a))%Q ∧ (Qmax 0 (q + a) <= 100)%Q.
Proof.
  intros Hq Ha. split; [apply Q.le_max_l|apply Q.max_lub; lra].
Qed.

Lemma Qlt_b_true (a b : Q) : Qlt_b a b = true → (a < b)%Q.
Proof.
  unfold Qlt_b. intros H%negb_true_iff. apply Qnot_le_lt. intros Hle.
  apply Qle_bool_iff in Hle. congruence.
Qed.

Lemma Qlt_b_false (a b : Q) : Qlt_b a b = false → (b <= a)%Q.
Proof. unfold Qlt_b. intros H%negb_false_iff. by apply Qle_bool_iff. Qed.

Section TickWrites.
Context (cat : Catalog) (rng : nat → Q) (disasters : bool).

(** The types that pass the test before a spontaneous ignition. *)
Definition flammable (t : BuildingType) : bool :=
  negb (is_type t "grass") && negb (is_type t "water") && negb (is_type t "road") &&
  negb (is_type t "tree") && negb (is_type t "empty").

(** One assignment of the grid pass to a tile, from the tile before it to
    the tile after it:
    - fields of the tile's building other than its type are set, and the
      building is not set on fire;
    - the building is replaced by one that does not burn;
    - [applyBuildingFootprint] writes a fresh building, a zone, and a
      pollution that is 0 or the catalog's pollution of a ladder type;
    - a building that has burnt down is replaced by grass;
    - the pollution is set to a value that stays within 0 and 100 if it
      was there; the pollution type is set;
    - with disasters enabled, a building that does not burn and passes the
      ignition test is set on fire. *)
Inductive tick_write : Tile → Tile → Prop :=
  | write_fields t f :
      (∀ b, type (f b) = type b ∧ (onFire (f b) = true → onFire b = true)) →
      tick_write t (upd_building f t)
  | write_building t b :
      onFire b = false → tick_write t (set_building b t)
  | write_footprint t b z p :
      onFire b = false →
      (p = 0%Q ∨ ∃ bt, in_ladders cat bt ∧
         p = stat_pollution (default (mkStats 0 0 0 0 None) (BUILDING_STATS cat bt))) →
      tick_write t (set_pollution p (set_zone z (set_building b t)))
  | write_burnt t :
      tick_write t (set_zone ZoneNone (set_building (createBuilding "grass") t))
  | write_pollution t p :
      ((0 <= pollution t)%Q ∧ (pollution t <= 100)%Q → (0 <= p)%Q ∧ (p <= 100)%Q) →
      tick_write t (set_pollution p t)
  | write_pollutionType t pt :
      tick_write t (set_pollutionType pt t)
  | write_ignite t :
      disasters = true → flammable (type (building t)) = true →
      onFire (building t) = false →
      tick_write t (upd_building (λ b, set_fireProgress 0 (set_onFire true b)) t).

(** Every tile of the grid comes from the tile at the same position of
    the grid [g0] by assignments of the pass. *)
Definition writes_inv (g0 g : Grid) : Prop :=
  ∀ x y t, tile_at g x y = Some t →
    ∃ t0, tile_at g0 x y = Some t0 ∧ rtc tick_write t0 t.

Context (g0 : Grid).

Lemma writes_inv_update g x y f :
  writes_inv g0 g →
  (∀ t, tile_at g x y = Some t → rtc tick_write t (f t)) →
  writes_inv g0 (update_tile g x y f).
Proof.
  intros Hinv Hf x' y' t'. rewrite tile_at_update_tile.
  destruct (decide (x' = x ∧ y' = y)) as [[-> ->]|Hne]; [|by apply Hinv].
  destruct (tile_at g x y) as [t|] eqn:Ht; [|done]. simpl. intros [= <-].
  destruct (Hinv x y t Ht) as (t0 & Ht0 & Hrel).
  exists t0. split; [done|]. etrans; [done|]. by apply Hf.
Qed.

Lemma modify_writes x y f :
  (∀ t, rtc tick_write t (f t)) →
  preserves (writes_inv g0) (modify_tile x y f).
Proof.
  intros Hf. eapply spec_conseq; [apply (spec_modify_tile (writes_inv g0))| |done].
  intros g Hg. apply writes_inv_update; [done|]. intros t _. apply Hf.
Qed.

Lemma random_keeps (G : Grid → Prop) : preserves G (Math_random rng).
Proof. intros st a st' Hst [= <- <-]. done. Qed.

Lemma applyBuildingFootprint_writes g originX originY bt z lvl services g' :
  in_ladders cat bt → writes_inv g0 g →
  applyBuildingFootprint cat g originX originY bt z lvl services = Some g' →
  writes_inv g0 g'.
Proof.
  intros Hbt Hinv Hrun. unfold applyBuildingFootprint in Hrun.
  destruct (getBuildingSize bt) as [w h].
  destruct (for_each _ g (rect w h)) as [g1|] eqn:Hfor; [|done]. simpl in Hrun.
  destruct (tile_at g1 originX originY); [|done]. injection Hrun as <-.
  revert Hfor. apply for_each_inv; [|done].
  intros s [dx dy] s' Hs Hbody.
  destruct (tile_at s (originX + dx) (originY + dy)) as [cell|]; [|done].
  simpl in Hbody.
  destruct (bool_decide (dx = 0) && bool_decide (dy = 0)) eqn:Hanchor.
  - assert (∃ b, onFire b = false ∧
                 s' = update_tile s (originX + dx) (originY + dy) (λ cell,
                        set_pollution
                          (stat_pollution (default (mkStats 0 0 0 0 None)
                                             (BUILDING_STATS cat bt)))
                          (set_zone z (set_building b cell)))) as (b & Hb & ->).
    { destruct services as [sv|].
      - destruct (cov_at (power sv) _ _) as [p|]; [|done]. simpl in Hbody.
        destruct (cov_at (water sv) _ _) as [wt|]; [|done]. simpl in Hbody.
        injection Hbody as <-. eexists. split; cycle 1; reflexivity.
      - simpl in Hbody. injection Hbody as <-. eexists. split; cycle 1; reflexivity. }
    apply writes_inv_update; [done|]. intros c _.
    apply rtc_once, write_footprint; [done|]. right. by exists bt.
  - simpl in Hbody. injection Hbody as <-.
    apply writes_inv_update; [done|]. intros c _.
    apply rtc_once, write_footprint; [done|by left].
Qed.

Lemma place_footprint_writes originX originY bt z lvl services :
  in_ladders cat bt →
  preserves (writes_inv g0) (place_footprint cat originX originY bt z lvl services).
Proof.
  intros Hbt. unfold place_footprint.
  eapply spec_conseq; [apply (spec_on_grid (writes_inv g0))| |done].
  intros g Hg g'. by apply applyBuildingFootprint_writes.
Qed.

(** An assignment that is one of the first, second, fourth and sixth kinds. *)
Ltac plain_write :=
  intros ?;
  first [ apply rtc_once, write_fields; intros ?; split;
            [reflexivity|simpl; first [done|tauto]]
        | apply rtc_once, write_building; reflexivity
        | apply rtc_once, write_burnt
        | apply rtc_once, write_pollutionType ].

Ltac walk_prim :=
  unfold preserves;
  lazymatch goal with
  | |- tick_spec _ (lift _) _ => apply lift_preserves
  | |- tick_spec _ (Math_random _) _ => apply random_keeps
  | |- tick_spec _ (get_tile _ _) _ => apply get_tile_preserves
  | |- tick_spec _ (peek_tile _ _) _ => apply peek_tile_preserves
  | |- tick_spec _ get_grid _ => apply get_grid_preserves
  | |- tick_spec _ (state_tile _ _) _ => apply spec_state_tile
  | |- tick_spec _ (copy_row _) _ => apply spec_copy_row
  | |- tick_spec _ (road_access _ _ _) _ => apply spec_road_access
  | |- tick_spec _ (modify_tile _ _ _) _ => apply modify_writes; plain_write
  end.

Ltac walk_with known :=
  repeat first
    [ progress unfold preserves
    | walk_prim
    | known
    | lazymatch goal with
      | |- tick_spec _ (mret _) _ => apply spec_ret; intros ? ?; assumption
      | |- tick_spec _ (mbind _ _) _ => apply bind_preserves; [|intros ?]
      | |- tick_spec _ (when _ _) _ => apply spec_when; intros ?
      | |- tick_spec _ (tick_for _ _) _ =>
          apply spec_for; first [intros [? ?] ? | intros ? ?]
      | |- tick_spec _ (tick_fold _ _ _) _ => apply spec_fold; intros ? [? ?]
      | |- tick_spec _ (if ?c then _ else _) _ => destruct c eqn:?
      | |- tick_spec _ (match ?o with Some _ => _ | None => _ end) _ => destruct o eqn:?
      | |- tick_spec _ (match ?p with pair _ _ => _ end) _ => destruct p eqn:?
      end ].

Ltac walk := walk_with fail.

Ltac walk_if :=
  lazymatch goal with
  | |- tick_spec _ (if ?c then _ else _) _ => destruct c eqn:?
  end.

Ltac walk_bind := apply bind_preserves; [solve [walk]|]; intros ?.

Lemma pollution_step_writes x y :
  preserves (writes_inv g0) (pollution_step cat x y).
Proof.
  unfold pollution_step, preserves.
  apply bind_preserves; [walk_prim|]. intros tile.
  destruct (BUILDING_STATS cat (type (building tile))) as [stats|];
    [|by apply spec_ret].
  walk_if; [|by apply spec_ret].
  destruct (Qlt_b (stat_pollution stats) 0) eqn:Hneg.
  - apply Qlt_b_true in Hneg. apply modify_writes. intros t.
    apply rtc_once, write_pollution. intros [_ H100]. apply Qmax_0_bounds; [done|lra].
  - apply Qlt_b_false in Hneg. apply bind_preserves; [|intros []; walk].
    apply modify_writes. intros t.
    apply rtc_once, write_pollution. intros [H0 _]. apply Qmin_100_bounds; [done|lra].
Qed.

Lemma water_tower_step_writes x y :
  preserves (writes_inv g0) (water_tower_step x y).
Proof.
  unfold water_tower_step, preserves.
  apply bind_preserves; [walk_prim|]. intros tile. apply spec_when. intros _.
  apply bind_preserves.
  { apply modify_writes. intros t. apply rtc_once, write_pollution. intros _.
    simpl. lra. }
  intros []. apply spec_for. intros [cdx cdy] _.
  apply bind_preserves; [walk_prim|]. intros [n|]; [|by apply spec_ret].
  apply modify_writes. intros t. apply rtc_once, write_pollution. intros [_ H100].
  apply Qmax_0_bounds; [done|lra].
Qed.

Lemma spread_step_writes x y size :
  preserves (writes_inv g0) (spread_step rng x y size).
Proof.
  unfold spread_step, preserves.
  apply bind_preserves; [walk_prim|]. intros tile. apply spec_when. intros _.
  apply spec_for. intros [dx dy] _. apply spec_when. intros _.
  do 4 (apply bind_preserves; [walk_prim|]; intros ?).
  assert (0 <= (if is_type (type (building tile)) "water" then 4 else 1))%Q as Hamount.
  { by destruct (is_type _ _). }
  walk_if; [|walk_if; [|by apply spec_ret]].
  - apply modify_writes. intros t. eapply rtc_l; [|apply rtc_once, write_pollutionType].
    apply write_pollution. intros [H0 _]. by apply Qmin_100_bounds.
  - apply bind_preserves; [|intros []; walk].
    apply modify_writes. intros t. apply rtc_once, write_pollution. intros [H0 _].
    apply Qmin_100_bounds; [done|lra].
Qed.

Lemma decay_writes x y :
  preserves (writes_inv g0)
    (modify_tile x y (λ t, set_pollution (pollution t * (99 # 100)) t)).
Proof.
  apply modify_writes. intros t. apply rtc_once, write_pollution. simpl. intros [? ?].
  split; lra.
Qed.

Lemma spec_when_to (G' G : Grid → Prop) (c : bool) (m : Tick unit) :
  (c = true → tick_spec G' m (λ _, G)) → (∀ g, G' g → G g) →
  tick_spec G' (when c m) (λ _, G).
Proof.
  intros Hm HG. destruct c; simpl; [by apply Hm|]. by apply spec_ret.
Qed.

(** A tile is set on fire only after its type has passed the test. *)
Lemma ignite_writes x y tile :
  disasters = true → flammable (type (building tile)) = true →
  onFire (building tile) = false →
  tick_spec (λ g, writes_inv g0 g ∧ tile_at g x y = Some tile) (ignite x y)
    (λ _, writes_inv g0).
Proof.
  intros Hd Hflam Hfire. unfold ignite.
  eapply spec_conseq; [apply (spec_modify_tile (writes_inv g0))| |done].
  intros g [Hinv Ht]. apply writes_inv_update; [done|].
  intros t Ht'. rewrite Ht in Ht'. injection Ht' as <-.
  by apply rtc_once, write_ignite.
Qed.

Lemma fire_spread_step_writes x y size services tile :
  disasters = true → flammable (type (building tile)) = true →
  onFire (building tile) = false →
  tick_spec (λ g, writes_inv g0 g ∧ tile_at g x y = Some tile)
    (fire_spread_step rng x y size services) (λ _, writes_inv g0).
Proof.
  intros Hd Hflam Hfire. unfold fire_spread_step.
  apply bind_preserves.
  { apply spec_fold. intros s [dx dy]. walk_if; [|by apply spec_ret].
    apply bind_preserves; [apply get_tile_preserves|]. intros n. by apply spec_ret. }
  intros adjacentFireCount. apply spec_when_to; [|by intros g [? _]]. intros _.
  apply bind_preserves; [apply lift_preserves|]. intros fireCoverage.
  apply bind_preserves; [apply random_keeps|]. intros random.
  apply spec_when_to; [|by intros g [? _]]. intros _. by apply ignite_writes.
Qed.

Lemma fire_step_writes x y size services :
  preserves (writes_inv g0) (fire_step rng x y size disasters services).
Proof.
  unfold fire_step, preserves.
  apply bind_preserves; [walk_prim|]. intros tile.
  apply bind_preserves. { unfold burn_step. walk. }
  intros [].
  eapply spec_bind; [apply (spec_get_tile (writes_inv g0))|]. intros tile1.
  eapply spec_bind.
  { apply spec_when_to; [|by intros g [? _]]. intros Hguard.
    apply fire_spread_step_writes.
    - by destruct disasters.
    - unfold flammable. destruct disasters; [|done].
      destruct (onFire (building tile1)); [done|].
      by repeat (destruct (is_type _ _); [done|]).
    - destruct disasters; [|done]. by destruct (onFire (building tile1)). }
  intros [].
  eapply spec_bind; [apply (spec_get_tile (writes_inv g0))|]. intros tile2.
  apply spec_when_to; [|by intros g [? _]]. intros Hguard.
  apply bind_preserves; [apply random_keeps|]. intros random.
  apply spec_when_to; [|by intros g [? _]]. intros _.
  apply ignite_writes.
  - by destruct disasters.
  - unfold flammable. destruct disasters; [|done].
    destruct (onFire (building tile2)); [done|].
    by repeat (destruct (is_type _ _); [done|]).
  - destruct disasters; [|done]. by destruct (onFire (building tile2)).
Qed.

Lemma orphan_step_writes x y size p w :
  preserves (writes_inv g0) (orphan_step x y size p w).
Proof. unfold orphan_step, preserves. walk. Qed.

Lemma clear_abandoned_writes x y t services :
  preserves (writes_inv g0) (clear_abandoned x y t services).
Proof. unfold clear_abandoned, preserves. walk. Qed.

Lemma update_anchor_writes x y targetLevel services :
  preserves (writes_inv g0) (update_anchor cat x y targetLevel services).
Proof. unfold update_anchor, preserves. walk. Qed.

Lemma construction_step_writes x y :
  preserves (writes_inv g0) (construction_step rng x y).
Proof. unfold construction_step, preserves. walk. Qed.

Lemma consolidate_writes x y z targetType targetLevel allow services :
  (∀ bt, targetType = Some bt → in_ladders cat bt) →
  preserves (writes_inv g0)
    (consolidate cat x y z targetType targetLevel allow services).
Proof.
  intros Hladder. unfold consolidate, preserves.
  eapply spec_bind; [apply spec_lift|]. intros bt. apply spec_pure. intros Hbt.
  destruct (getBuildingSize bt) as [w h].
  walk_with ltac:(apply place_footprint_writes; by apply Hladder).
Qed.

(** The building of the tile, returned to be stored in the tile. *)
Lemma return_current_writes x y :
  tick_spec (writes_inv g0) (building <$> get_tile x y)
    (λ b g, writes_inv g0 (update_tile g x y (set_building b))).
Proof.
  apply spec_fmap.
  eapply spec_conseq; [apply (spec_get_tile (writes_inv g0))|done|].
  intros t g [Hinv Ht]. rewrite update_cell_id; [done|].
  intros t'. rewrite Ht. intros [= <-]. by destruct t.
Qed.

Lemma develop_writes x y tile hasPower hasWater zoneDemandValue services :
  tick_spec (writes_inv g0)
    (develop cat rng x y tile hasPower hasWater zoneDemandValue services)
    (λ b g, writes_inv g0 (update_tile g x y (set_building b))).
Proof.
  unfold develop.
  walk_with ltac:(first [ apply update_anchor_writes
                        | apply consolidate_writes; intros bt Hbt;
                          apply (zone_ladder cat (zone tile));
                          destruct (decide _); [|done];
                          by eapply list_elem_of_lookup_2 ]).
  all: apply return_current_writes.
Qed.

Lemma evolveBuilding_writes x y services demand :
  tick_spec (writes_inv g0) (evolveBuilding cat rng x y services demand)
    (λ b g, writes_inv g0 (update_tile g x y (set_building b))).
Proof.
  unfold evolveBuilding.
  eapply spec_bind; [apply (spec_get_tile (writes_inv g0))|]. intros tile.
  walk_if.
  { apply spec_ret. intros g [Hinv Ht]. rewrite update_cell_id; [done|].
    intros t'. rewrite Ht. intros [= <-]. by destruct tile. }
  apply (spec_conseq _ (writes_inv g0) _ _
           (λ b g, writes_inv g0 (update_tile g x y (set_building b))));
    [|by intros g [? _]|done].
  do 3 walk_bind.
  walk_if. { walk_bind. apply return_current_writes. }
  walk_if. { apply return_current_writes. }
  walk_if. { do 2 walk_bind. apply return_current_writes. }
  walk_if.
  { (* abandoned: cleared to grass, or left to decay *)
    apply (spec_bind _ _ _
             (λ cleared g, writes_inv g0 g ∧
                ∀ cb, cleared = Some cb → onFire cb = false)).
    { walk_if; [|by apply spec_ret].
      apply bind_preserves; [walk_prim|]. intros r.
      walk_if; [|by apply spec_ret].
      apply bind_preserves; [apply clear_abandoned_writes|]. intros [].
      apply spec_ret. intros g Hg. split; [done|]. by intros cb [= <-]. }
    intros cleared. apply spec_pure. intros Hcleared. destruct cleared as [cb|].
    - apply spec_ret. intros g Hg. apply writes_inv_update; [done|].
      intros t _. apply rtc_once, write_building. by apply Hcleared.
    - walk_bind. apply return_current_writes. }
  apply bind_preserves; [walk|]. intros abandon.
  walk_if. { walk_bind. apply return_current_writes. }
  apply develop_writes.
Qed.

Lemma spawn_building_writes x y size z p w services demand :
  preserves (writes_inv g0) (spawn_building cat rng x y size z p w services demand).
Proof.
  unfold spawn_building, preserves.
  apply bind_preserves; [walk_prim|]. intros roadAccess.
  walk_if; [|by apply spec_ret].
  apply bind_preserves; [walk_prim|]. intros random.
  walk_if; [|by apply spec_ret].
  eapply spec_bind; [apply spec_lift|]. intros candidate. apply spec_pure.
  intros Hcandidate. apply head_Some_elem_of in Hcandidate.
  walk_with ltac:(apply place_footprint_writes; unfold in_ladders;
                  destruct z; tauto).
Qed.

Lemma growth_step_writes x y size p w services demand :
  preserves (writes_inv g0) (growth_step cat rng x y size p w services demand).
Proof.
  unfold growth_step, preserves.
  apply bind_preserves; [walk_prim|]. intros tile.
  walk_if; [apply spawn_building_writes|]. walk_if; [|by apply spec_ret].
  eapply spec_bind; [apply evolveBuilding_writes|]. intros b.
  apply (spec_modify_tile (writes_inv g0)).
Qed.

Lemma tick_tile_writes state services x y :
  disastersEnabled state = disasters →
  preserves (writes_inv g0) (tick_tile cat rng state services x y).
Proof.
  intros Hd. unfold tick_tile, preserves. rewrite Hd.
  walk_with ltac:(first [ apply construction_step_writes
                        | apply orphan_step_writes
                        | apply growth_step_writes
                        | apply pollution_step_writes
                        | apply water_tower_step_writes
                        | apply spread_step_writes
                        | apply decay_writes
                        | apply fire_step_writes ]).
Qed.

End TickWrites.

(** Every tile of the grid a tick returns comes from the tile the state
    had at the same position by a sequence of assignments of the pass. *)
Lemma tick_writes cat rng state v0 r :
  simulateTick cat rng state v0 = Some r →
  ∀ x y t', tile_at (tick_grid r) x y = Some t' →
    ∃ t, tile_at (grid state) x y = Some t ∧
         rtc (tick_write cat (disastersEnabled state)) t t'.
Proof.
  intros Hrun x y t' Ht'. unfold simulateTick in Hrun.
  destruct (calculateServiceCoverage (grid state) (gridSize state)) as [services|];
    [|done].
  simpl in Hrun.
  set (g0 := take (Z.to_nat (gridSize state)) (grid state)) in *.
  destruct (tick_for _ _ _) as [[[] st]|] eqn:Hpass; [|done]. simpl in Hrun.
  injection Hrun as <-. simpl in Ht'.
  assert (preserves (writes_inv cat (disastersEnabled state) g0)
            (tick_for (λ '(x, y), tick_tile cat rng state services x y)
               (rect (gridSize state) (gridSize state)))) as Hinv.
  { apply spec_for. intros [x' y'] _. by apply tick_tile_writes. }
  destruct (Hinv (mkTick g0 ∅ 0 v0) () st) with (x := x) (y := y) (t := t')
    as (t0 & Ht0 & Hrel); [|done|done|].
  { intros x0 y0 t Ht. by exists t. }
  exists t0. split; [by eapply tile_at_take|done].
Qed.

(* ------------------------------------------------------------------ *)
(** *** What a tick leaves alone *)

(** The fields of a tile the grid pass never assigns. *)
Definition same_land (t t' : Tile) : Prop :=
  tile_x t' = tile_x t ∧ tile_y t' = tile_y t ∧ landValue t' = landValue t ∧
  crime t' = crime t ∧ traffic t' = traffic t ∧ hasSubway t' = hasSubway t ∧
  hasRailOverlay t' = hasRailOverlay t ∧ waterDepth t' = waterDepth t.

Lemma tick_write_same_land cat disasters t t' :
  rtc (tick_write cat disasters) t t' → same_land t t'.
Proof.
  intros Hrun. induction Hrun as [t|t t1 t' Hstep _ IH]; [done|].
  assert (same_land t t1) as Hfirst by (by destruct Hstep).
  unfold same_land in *. destruct Hfirst as (? & ? & ? & ? & ? & ? & ? & ?).
  destruct IH as (? & ? & ? & ? & ? & ? & ? & ?). repeat split; congruence.
Qed.

(** On a well-formed state the grid pass of a tick returns a grid of the
    same size in which every tile keeps its stored coordinates, its land
    value, crime, traffic, subway flag, rail overlay and water depth:
    the pass writes to buildings, zones and pollution only. *)
Theorem tick_keeps_land cat rng state v0 :
  grid_wf (gridSize state) (grid state) → ladders_ok cat →
  ∃ r, simulateTick cat rng state v0 = Some r ∧
    grid_wf (gridSize state) (tick_grid r) ∧
    ∀ x y t, tile_at (grid state) x y = Some t →
      ∃ t', tile_at (tick_grid r) x y = Some t' ∧ same_land t t'.
Proof.
  intros Hwf Hladders.
  destruct (simulateTick_returns cat rng state v0 Hwf Hladders) as (r & Hrun & Hwf').
  exists r. split; [done|]. split; [done|]. intros x y t Ht.
  destruct (tile_at_Some_inv _ _ x y t Hwf Ht) as [Hx Hy].
  destruct (tile_at_Some_wf _ _ x y Hwf') as [t' Ht']; [done..|].
  exists t'. split; [done|].
  destruct (tick_writes cat rng state v0 r Hrun x y t' Ht') as (t0 & Ht0 & Hrel).
  rewrite Ht in Ht0. injection Ht0 as <-. by eapply tick_write_same_land.
Qed.

Lemma tick_keeps_land_witness :
  ∃ r, simulateTick sample_catalog (λ _, 1 # 20) upgrade_state ∅ = Some r ∧
    grid_wf 3 (tick_grid r) ∧
    ∀ x y t, tile_at (grid upgrade_state) x y = Some t →
      ∃ t', tile_at (tick_grid r) x y = Some t' ∧ same_land t t'.
Proof.
  apply (tick_keeps_land sample_catalog (λ _, 1 # 20) upgrade_state ∅).
  - apply grid_wfb_spec. vm_compute. reflexivity.
  - repeat split; done.
Defined.

(* ------------------------------------------------------------------ *)
(** *** Fires *)

(** With disasters disabled a tick starts no fire: a tile that burns
    after the tick burnt before it, and holds a building of the same
    type. *)
Theorem no_fire_without_disasters cat rng state v0 r :
  disastersEnabled state = false →
  simulateTick cat rng state v0 = Some r →
  ∀ x y t', tile_at (tick_grid r) x y = Some t' → onFire (building t') = true →
    ∃ t, tile_at (grid state) x y = Some t ∧ onFire (building t) = true ∧
         type (building t') = type (building t).
Proof.
  intros Hd Hrun x y t' Ht' Hfire.
  destruct (tick_writes cat rng state v0 r Hrun x y t' Ht') as (t & Ht & Hrel).
  exists t. split; [done|]. rewrite Hd in Hrel. clear Ht' Ht. revert t' Hrel Hfire.
  refine (rtc_ind_r _ t _ _); [done|]. intros t1 t2 _ Hstep IH.
  destruct Hstep as [t1 f Hf|t1 b Hb|t1 b z p Hb _| | | |t1 Hdis _ _]; simpl; try done.
  - destruct (Hf (building t1)) as [Hty Hon]. intros Hfire%Hon.
    rewrite Hty. by apply IH.
  - by rewrite Hb.
  - by rewrite Hb.
Qed.

Lemma no_fire_without_disasters_witness :
  ∃ r, simulateTick sample_catalog (λ _, 1 # 20) upgrade_state ∅ = Some r ∧
    ∀ x y t', tile_at (tick_grid r) x y = Some t' → onFire (building t') = true →
      ∃ t, tile_at (grid upgrade_state) x y = Some t ∧ onFire (building t) = true ∧
           type (building t') = type (building t).
Proof.
  destruct (simulateTick sample_catalog (λ _, 1 # 20) upgrade_state ∅) as [r|] eqn:Hrun;
    [|by vm_compute in Hrun].
  exists r. split; [done|].
  by apply (no_fire_without_disasters sample_catalog (λ _, 1 # 20) upgrade_state ∅).
Defined.




(* ------------------------------------------------------------------ *)
(** *** Pollution *)

(** Every tile's pollution lies within 0 and 100. *)
Definition pollution_bounded (g : Grid) : Prop :=
  ∀ x y t, tile_at g x y = Some t → (0 <= pollution t)%Q ∧ (pollution t <= 100)%Q.

(** The pollution the catalog gives the buildings of the zone ladders
    lies within 0 and 100. *)
Definition ladder_pollution_ok (cat : Catalog) : Prop :=
  ∀ bt stats, in_ladders cat bt → BUILDING_STATS cat bt = Some stats →
    (0 <= stat_pollution stats)%Q ∧ (stat_pollution stats <= 100)%Q.

(** A tick keeps the pollution of every tile within 0 and 100, when the
    catalog's pollution of the buildings that zones grow is within that
    range: the pass clamps what it adds and subtracts, and a new building
    starts at its catalog pollution. *)
Theorem tick_keeps_pollution_bounded cat rng state v0 r :
  ladder_pollution_ok cat → pollution_bounded (grid state) →
  simulateTick cat rng state v0 = Some r →
  pollution_bounded (tick_grid r).
Proof.
  intros Hcat Hbounded Hrun x y t' Ht'.
  destruct (tick_writes cat rng state v0 r Hrun x y t' Ht') as (t & Ht & Hrel).
  pose proof (Hbounded x y t Ht) as Hstart. clear Ht' Ht. revert t' Hrel.
  refine (rtc_ind_r _ t _ _); [done|]. intros t1 t2 _ Hstep IH.
  destruct Hstep as [t1 f Hf|t1 b Hb|t1 b z p Hb Hp| |t1 p Hp| |t1 _ _ _]; simpl;
    try done.
  - destruct Hp as [->|(bt & Hbt & ->)]; [done|].
    destruct (BUILDING_STATS cat bt) as [stats|] eqn:Hstats; simpl; [|done].
    by eapply Hcat.
  - by apply Hp.
Qed.

Lemma pollution_bounded_check g :
  forallb (forallb (λ t, Qle_bool 0 (pollution t) && Qle_bool (pollution t) 100)) g = true →
  pollution_bounded g.
Proof.
  intros Hall x y t Ht. unfold cell_at, row_at in Ht.
  destruct (decide (0 <= y)); [|done].
  destruct (g !! Z.to_nat y) as [row|] eqn:Hrow; [|done]. simpl in Ht.
  destruct (decide (0 <= x)); [|done].
  rewrite forallb_forall in Hall.
  pose proof (Hall row ltac:(apply list_elem_of_In; by eapply list_elem_of_lookup_2))
    as Hr.
  rewrite forallb_forall in Hr.
  pose proof (Hr t ltac:(apply list_elem_of_In; by eapply list_elem_of_lookup_2)) as Hc.
  apply andb_true_iff in Hc as [H0 H100]. by rewrite !Qle_bool_iff in *.
Qed.

Lemma tick_keeps_pollution_bounded_witness :
  ∃ r, simulateTick sample_catalog (λ _, 1 # 20) upgrade_state ∅ = Some r ∧
       pollution_bounded (tick_grid r).
Proof.
  assert (ladder_pollution_ok sample_catalog) as Hcat.
  { intros bt stats Hin Hstats. unfold in_ladders, sample_catalog in Hin.
    cbn [RESIDENTIAL_BUILDINGS COMMERCIAL_BUILDINGS INDUSTRIAL_BUILDINGS] in Hin.
    rewrite !elem_of_cons, !elem_of_nil in Hin.
    destruct_or!; try done; subst bt; vm_compute in Hstats; try done;
      injection Hstats as <-; split; apply Qle_bool_iff; reflexivity. }
  assert (pollution_bounded (grid upgrade_state)) as Hstart.
  { apply pollution_bounded_check. vm_compute. reflexivity. }
  destruct (simulateTick sample_catalog (λ _, 1 # 20) upgrade_state ∅) as [r|] eqn:Hrun;
    [|by vm_compute in Hrun].
  exists r. split; [done|].
  by apply (tick_keeps_pollution_bounded sample_catalog (λ _, 1 # 20) upgrade_state ∅).
Defined.

(* ================================================================== *)
(** ** Adjacency tests *)
(* ================================================================== *)

(** [grid[y]?.[x]?.building.type] is 'road' or 'bridge'. *)
Definition is_road_at (g : Grid) (x y : Z) : bool :=
  match tile_at g x y with
  | Some t => is_type (type (building t)) "road" || is_type (type (building t)) "bridge"
  | None => false
  end.

(** [getRoadAdjacency]: (hasRoad, shouldFlip). *)
Definition getRoadAdjacency (g : Grid) (x y width height gridSize : Z) : bool * bool :=
  let south := existsb (λ dx, bool_decide (y + height < gridSize) &&
                              is_road_at g (x + dx) (y + height)) (seqZ 0 width) in
  let roadOnSouthOrEast :=
    if south then true
    else existsb (λ dy, bool_decide (x + width < gridSize) &&
                        is_road_at g (x + width) (y + dy)) (seqZ 0 height) in
  let north := existsb (λ dx, bool_decide (y - 1 >= 0) &&
                              is_road_at g (x + dx) (y - 1)) (seqZ 0 width) in
  let roadOnNorthOrWest :=
    if north then true
    else existsb (λ dy, bool_decide (x - 1 >= 0) &&
                        is_road_at g (x - 1) (y + dy)) (seqZ 0 height) in
  let hasRoad := roadOnSouthOrEast || roadOnNorthOrWest in
  let shouldFlip := hasRoad && roadOnNorthOrWest && negb roadOnSouthOrEast in
  (hasRoad, shouldFlip).

(** [isNearWater]: [None] where the source would read a missing tile. *)
Fixpoint any_ok {A} (body : A → option bool) (l : list A) : option bool :=
  match l with
  | [] => Some false
  | a :: l' => b ← body a; if (b : bool) then Some true else any_ok body l'
  end.

Definition isNearWater (g : Grid) (x y size : Z) : option bool :=
  any_ok (λ '(dx, dy),
    let nx := x + dx in
    let ny := y + dy in
    if bool_decide (nx >= 0) && bool_decide (nx < size) &&
       bool_decide (ny >= 0) && bool_decide (ny < size) then
      t ← tile_at g nx ny;
      Some (is_type (type (building t)) "water")
    else Some false) (dy ← seqZ (-2) 5; dx ← seqZ (-2) 5; [(dx, dy)]).

(** The positions next to a side of the [width] x [height] rectangle at
    (x, y), inside the grid: below and to the right of it, above and to
    the left of it. *)
Definition south_or_east (x y width height gridSize a b : Z) : Prop :=
  (x <= a < x + width ∧ b = y + height ∧ b < gridSize) ∨
  (a = x + width ∧ a < gridSize ∧ y <= b < y + height).

Definition north_or_west (x y width height a b : Z) : Prop :=
  (x <= a < x + width ∧ b = y - 1 ∧ b >= 0) ∨
  (a = x - 1 ∧ a >= 0 ∧ y <= b < y + height).

Lemma existsb_seqZ (f : Z → bool) (n : Z) :
  existsb f (seqZ 0 n) = true ↔ ∃ d, 0 <= d < n ∧ f d = true.
Proof.
  rewrite existsb_exists. split.
  - intros (d & Hin%list_elem_of_In%elem_of_seqZ & Hf). exists d. split; [lia|done].
  - intros (d & Hd & Hf). exists d. split; [|done].
    apply list_elem_of_In, elem_of_seqZ. lia.
Qed.

(** The two scans of one side pair, for any test [p] on a position. *)
Lemma sides_scan (p : Z → Z → bool) (x y width height gridSize : Z) :
  ((if existsb (λ dx, bool_decide (y + height < gridSize) && p (x + dx) (y + height))
          (seqZ 0 width)
    then true
    else existsb (λ dy, bool_decide (x + width < gridSize) && p (x + width) (y + dy))
           (seqZ 0 height)) = true ↔
   ∃ a b, south_or_east x y width height gridSize a b ∧ p a b = true) ∧
  ((if existsb (λ dx, bool_decide (y - 1 >= 0) && p (x + dx) (y - 1)) (seqZ 0 width)
    then true
    else existsb (λ dy, bool_decide (x - 1 >= 0) && p (x - 1) (y + dy)) (seqZ 0 height))
     = true ↔
   ∃ a b, north_or_west x y width height a b ∧ p a b = true).
Proof.
  unfold south_or_east, north_or_west. split.
  - destruct (existsb _ (seqZ 0 width)) eqn:Hs.
    + split; [intros _|done]. apply existsb_seqZ in Hs as (d & Hd & Hp).
      apply andb_true_iff in Hp as [Hb%bool_decide_eq_true Hp].
      exists (x + d), (y + height). split; [left; lia|done].
    + rewrite existsb_seqZ. split.
      * intros (d & Hd & Hp). apply andb_true_iff in Hp as [Hb%bool_decide_eq_true Hp].
        exists (x + width), (y + d). split; [right; lia|done].
      * intros (a & b & [(Ha & -> & Hb)|(-> & Ha & Hb)] & Hp).
        -- exfalso. apply not_true_iff_false in Hs. apply Hs, existsb_seqZ.
           exists (a - x). split; [lia|]. rewrite bool_decide_eq_true_2 by done.
           simpl. by replace (x + (a - x)) with a by lia.
        -- exists (b - y). split; [lia|]. rewrite bool_decide_eq_true_2 by done.
           simpl. by replace (y + (b - y)) with b by lia.
  - destruct (existsb _ (seqZ 0 width)) eqn:Hs.
    + split; [intros _|done]. apply existsb_seqZ in Hs as (d & Hd & Hp).
      apply andb_true_iff in Hp as [Hb%bool_decide_eq_true Hp].
      exists (x + d), (y - 1). split; [left; lia|done].
    + rewrite existsb_seqZ. split.
      * intros (d & Hd & Hp). apply andb_true_iff in Hp as [Hb%bool_decide_eq_true Hp].
        exists (x - 1), (y + d). split; [right; lia|done].
      * intros (a & b & [(Ha & -> & Hb)|(-> & Ha & Hb)] & Hp).
        -- exfalso. apply not_true_iff_false in Hs. apply Hs, existsb_seqZ.
           exists (a - x). split; [lia|]. rewrite bool_decide_eq_true_2 by done.
           simpl. by replace (x + (a - x)) with a by lia.
        -- exists (b - y). split; [lia|]. rewrite bool_decide_eq_true_2 by done.
           simpl. by replace (y + (b - y)) with b by lia.
Qed.

(** [getWaterAdjacency] and [getRoadAdjacency] look at the tiles that
    touch a side of the footprint, inside the grid, and not at the
    diagonal neighbours: the first result says that one of them is water
    (a road or bridge), the second that there is one above or to the left
    of the footprint and none below or to the right of it. *)
Theorem adjacency_is_side_contact g x y width height gridSize :
  let water := getWaterAdjacency g x y width height gridSize in
  let road := getRoadAdjacency g x y width height gridSize in
  let beside a b := south_or_east x y width height gridSize a b ∨
                    north_or_west x y width height a b in
  (water.1 = true ↔ ∃ a b, beside a b ∧ is_water_at g a b = true) ∧
  (water.2 = true ↔
     (∃ a b, north_or_west x y width height a b ∧ is_water_at g a b = true) ∧
     ¬ ∃ a b, south_or_east x y width height gridSize a b ∧ is_water_at g a b = true) ∧
  (road.1 = true ↔ ∃ a b, beside a b ∧ is_road_at g a b = true) ∧
  (road.2 = true ↔
     (∃ a b, north_or_west x y width height a b ∧ is_road_at g a b = true) ∧
     ¬ ∃ a b, south_or_east x y width height gridSize a b ∧ is_road_at g a b = true).
Proof.
  intros water road beside. subst water road beside.
  unfold getWaterAdjacency, getRoadAdjacency. cbn [fst snd].
  destruct (sides_scan (is_water_at g) x y width height gridSize) as [Hse Hnw].
  destruct (sides_scan (is_road_at g) x y width height gridSize) as [Hse' Hnw'].
  repeat match goal with
  | |- context [if ?c then true else ?d] =>
      let b := fresh "side" in set (b := if c then true else d) in *
  end.
  assert (∀ (p : Z → Z → bool) (se nw : bool),
    (se = true ↔ ∃ a b, south_or_east x y width height gridSize a b ∧ p a b = true) →
    (nw = true ↔ ∃ a b, north_or_west x y width height a b ∧ p a b = true) →
    (se || nw = true ↔
       ∃ a b, (south_or_east x y width height gridSize a b ∨
               north_or_west x y width height a b) ∧ p a b = true) ∧
    ((se || nw) && nw && negb se = true ↔
       (∃ a b, north_or_west x y width height a b ∧ p a b = true) ∧
       ¬ ∃ a b, south_or_east x y width height gridSize a b ∧ p a b = true)) as Hboth.
  { intros p se nw Hs Hn. rewrite <- Hs, <- Hn. split.
    - rewrite orb_true_iff, Hs, Hn. split.
      + intros [(a & b & Hab & Hp)|(a & b & Hab & Hp)]; exists a, b; tauto.
      + intros (a & b & [Hab|Hab] & Hp); [left|right]; by exists a, b.
    - destruct se, nw; simpl; split; try done; try tauto; by intros [? ?]. }
  destruct (Hboth _ _ _ Hse Hnw) as [H1 H2].
  destruct (Hboth _ _ _ Hse' Hnw') as [H3 H4].
  done.
Qed.

Lemma adjacency_is_side_contact_example :
  let g := bridge_example_grid in
  (getWaterAdjacency g 1 1 1 1 5).1 = true ∧ (getWaterAdjacency g 1 1 1 1 5).2 = true ∧
  (getWaterAdjacency g 0 1 1 1 5).1 = false ∧ (getRoadAdjacency g 0 1 1 1 5).1 = true.
Proof. by vm_compute. Qed.

Lemma any_ok_spec {A} (body : A → option bool) (l : list A) :
  (∀ a, a ∈ l → is_Some (body a)) →
  ∃ b, any_ok body l = Some b ∧ (b = true ↔ ∃ a, a ∈ l ∧ body a = Some true).
Proof.
  induction l as [|a l IH]; intros Hbody; simpl.
  { exists false. split; [done|]. split; [done|]. by intros (a & ?%elem_of_nil & _). }
  destruct (Hbody a) as [b Hb]; [apply elem_of_cons; by left|]. rewrite Hb. simpl.
  destruct b.
  - exists true. split; [done|]. split; [|done]. intros _. exists a.
    split; [apply elem_of_cons; by left|done].
  - destruct IH as (b & Hrest & Hiff).
    { intros a' Ha'. apply Hbody, elem_of_cons. by right. }
    exists b. split; [done|]. rewrite Hiff. split.
    + intros (a' & Ha' & Hb'). exists a'. split; [apply elem_of_cons; by right|done].
    + intros (a' & [->|Ha']%elem_of_cons & Hb'); [congruence|]. by exists a'.
Qed.

(** [isNearWater] returns on every well-formed grid, and it says whether
    one of the tiles at most two columns and two rows away, diagonals
    included, is water. *)
Theorem isNearWater_window g x y size :
  grid_wf size g →
  ∃ b, isNearWater g x y size = Some b ∧
    (b = true ↔
     ∃ a c t, x - 2 <= a <= x + 2 ∧ y - 2 <= c <= y + 2 ∧
              tile_at g a c = Some t ∧ type (building t) = "water"%string).
Proof.
  intros Hwf. unfold isNearWater.
  match goal with
  | |- ∃ b, any_ok ?f ?l = _ ∧ _ => destruct (any_ok_spec f l) as (b & Hrun & Hiff)
  end.
  { intros [dx dy] _.
    destruct (bool_decide (x + dx >= 0) && bool_decide (x + dx < size) &&
              bool_decide (y + dy >= 0) && bool_decide (y + dy < size)) eqn:Hin;
      [|done].
    rewrite !andb_true_iff, !bool_decide_eq_true in Hin.
    destruct (tile_at_Some_wf size g (x + dx) (y + dy) Hwf) as [t ->]; [lia..|]. done. }
  exists b. split; [done|]. rewrite Hiff. split.
  - intros ([dx dy] & Hin & Hbody).
    apply list_elem_of_bind in Hin as (dy' & Hin & Hdy%elem_of_seqZ).
    apply list_elem_of_bind in Hin as (dx' & [= <- <-]%list_elem_of_singleton
                                            & Hdx%elem_of_seqZ).
    destruct (bool_decide (x + dx >= 0) && bool_decide (x + dx < size) &&
              bool_decide (y + dy >= 0) && bool_decide (y + dy < size)); [|done].
    destruct (tile_at g (x + dx) (y + dy)) as [t|] eqn:Ht; [|done].
    simpl in Hbody. injection Hbody as Hw. apply String.eqb_eq in Hw.
    exists (x + dx), (y + dy), t. split; [lia|]. split; [lia|done].
  - intros (a & c & t & Ha & Hc & Ht & Hw).
    destruct (tile_at_Some_inv size g a c t Hwf Ht) as [Hxa Hyc].
    exists (a - x, c - y). split.
    + apply list_elem_of_bind. exists (c - y). split; [|apply elem_of_seqZ; lia].
      apply list_elem_of_bind. exists (a - x). split; [|apply elem_of_seqZ; lia].
      by apply list_elem_of_singleton.
    + cbv beta iota zeta. replace (x + (a - x)) with a by lia.
      replace (y + (c - y)) with c by lia.
      rewrite !bool_decide_eq_true_2 by lia. simpl. rewrite Ht. simpl.
      unfold is_type. by rewrite Hw.
Qed.

Lemma isNearWater_window_witness :
  ∃ b, isNearWater bridge_example_grid 3 2 5 = Some b ∧
    (b = true ↔
     ∃ a c t, 3 - 2 <= a <= 3 + 2 ∧ 2 - 2 <= c <= 2 + 2 ∧
              tile_at bridge_example_grid a c = Some t ∧
              type (building t) = "water"%string).
Proof.
  apply (isNearWater_window bridge_example_grid 3 2 5).
  apply grid_wfb_spec. vm_compute. reflexivity.
Defined.

(* ================================================================== *)
(** ** Neighbouring cities *)
(* ================================================================== *)

Inductive Direction := North | South | East | West.

(** [AdjacentCity] (types/game.ts). *)
Record AdjacentCity := mkCity {
  city_id : string;
  city_name : string;
  direction : Direction;
  connected : bool;
  discovered : bool;
}.

(** [hasRoadAtEdge]: [None] where the source would read a missing tile. *)
Definition hasRoadAtEdge (g : Grid) (gridSize : Z) (d : Direction) : option bool :=
  let scan (cell : Z → Z * Z) :=
    any_ok (λ i, t ← tile_at g (cell i).1 (cell i).2; Some (is_road_or_bridge t))
           (seqZ 0 gridSize) in
  match d with
  | North => scan (λ x, (x, 0))
  | South => scan (λ x, (x, gridSize - 1))
  | East => scan (λ y, (gridSize - 1, y))
  | West => scan (λ y, (0, y))
  end.

(** [checkForDiscoverableCities]. *)
Definition checkForDiscoverableCities (g : Grid) (gridSize : Z)
    (adjacentCities : list AdjacentCity) : option (list AdjacentCity) :=
  for_each (λ citiesToShow city,
    if negb (connected city) then
      edge ← hasRoadAtEdge g gridSize (direction city);
      if (edge : bool) then
        if negb (discovered city) then Some (citiesToShow ++ [city])
        else Some citiesToShow
      else Some citiesToShow
    else Some citiesToShow) [] adjacentCities.

(** [getConnectableCities]. *)
Definition getConnectableCities (g : Grid) (gridSize : Z)
    (adjacentCities : list AdjacentCity) : option (list AdjacentCity) :=
  for_each (λ connectable city,
    if discovered city && negb (connected city) then
      edge ← hasRoadAtEdge g gridSize (direction city);
      if (edge : bool) then Some (connectable ++ [city]) else Some connectable
    else Some connectable) [] adjacentCities.

(** The tiles of an edge of the grid. *)
Definition on_edge (gridSize : Z) (d : Direction) (a b : Z) : Prop :=
  match d with
  | North => b = 0 ∧ 0 <= a < gridSize
  | South => b = gridSize - 1 ∧ 0 <= a < gridSize
  | East => a = gridSize - 1 ∧ 0 <= b < gridSize
  | West => a = 0 ∧ 0 <= b < gridSize
  end.

Definition road_reaches_edge (g : Grid) (gridSize : Z) (d : Direction) : Prop :=
  ∃ a b t, on_edge gridSize d a b ∧ tile_at g a b = Some t ∧ is_road_or_bridge t = true.

Lemma hasRoadAtEdge_spec g gridSize d :
  grid_wf gridSize g →
  ∃ b, hasRoadAtEdge g gridSize d = Some b ∧ (b = true ↔ road_reaches_edge g gridSize d).
Proof.
  intros Hwf. unfold hasRoadAtEdge, road_reaches_edge.
  assert (∀ cell : Z → Z * Z,
    (∀ i, 0 <= i < gridSize → 0 <= (cell i).1 < gridSize ∧ 0 <= (cell i).2 < gridSize) →
    ∃ b, any_ok (λ i, t ← tile_at g (cell i).1 (cell i).2; Some (is_road_or_bridge t))
           (seqZ 0 gridSize) = Some b ∧
      (b = true ↔ ∃ i t, 0 <= i < gridSize ∧ tile_at g (cell i).1 (cell i).2 = Some t ∧
                         is_road_or_bridge t = true)) as Hscan.
  { intros cell Hcell.
    match goal with
    | |- ∃ b, any_ok ?f ?l = _ ∧ _ => destruct (any_ok_spec f l) as (b & Hrun & Hiff)
    end.
    { intros i Hi%elem_of_seqZ. destruct (Hcell i) as [Hx Hy]; [lia|].
      destruct (tile_at_Some_wf gridSize g (cell i).1 (cell i).2 Hwf) as [t ->]; done. }
    exists b. split; [done|]. rewrite Hiff. split.
    - intros (i & Hi%elem_of_seqZ & Hbody).
      destruct (tile_at g (cell i).1 (cell i).2) as [t|] eqn:Ht; [|done].
      simpl in Hbody. injection Hbody as Hroad. exists i, t. split; [lia|done].
    - intros (i & t & Hi & Ht & Hroad). exists i. split; [apply elem_of_seqZ; lia|].
      rewrite Ht. simpl. by rewrite Hroad. }
  destruct d.
  - destruct (Hscan (λ x, (x, 0))) as (b & Hb & Hiff); [simpl; lia|].
    exists b. split; [exact Hb|]. rewrite Hiff. simpl. split.
    + intros (i & t & Hi & Ht & Hr). by exists i, 0, t.
    + intros (a & c & t & [-> Ha] & Ht & Hr). by exists a, t.
  - destruct (Hscan (λ x, (x, gridSize - 1))) as (b & Hb & Hiff); [simpl; lia|].
    exists b. split; [exact Hb|]. rewrite Hiff. simpl. split.
    + intros (i & t & Hi & Ht & Hr). by exists i, (gridSize - 1), t.
    + intros (a & c & t & [-> Ha] & Ht & Hr). by exists a, t.
  - destruct (Hscan (λ y, (gridSize - 1, y))) as (b & Hb & Hiff); [simpl; lia|].
    exists b. split; [exact Hb|]. rewrite Hiff. simpl. split.
    + intros (i & t & Hi & Ht & Hr). by exists (gridSize - 1), i, t.
    + intros (a & c & t & [-> Ha] & Ht & Hr). by exists c, t.
  - destruct (Hscan (λ y, (0, y))) as (b & Hb & Hiff); [simpl; lia|].
    exists b. split; [exact Hb|]. rewrite Hiff. simpl. split.
    + intros (i & t & Hi & Ht & Hr). by exists 0, i, t.
    + intros (a & c & t & [-> Ha] & Ht & Hr). by exists c, t.
Qed.

Lemma for_each_filter {A} (body : list A → A → option (list A)) (keep : A → Prop)
    (l : list A) :
  (∀ acc a, a ∈ l →
     (keep a ∧ body acc a = Some (acc ++ [a])) ∨ (¬ keep a ∧ body acc a = Some acc)) →
  ∀ acc, ∃ r, for_each body acc l = Some r ∧
    ∀ a, a ∈ r ↔ a ∈ acc ∨ (a ∈ l ∧ keep a).
Proof.
  induction l as [|c l IH]; intros Hbody acc; simpl.
  { exists acc. split; [done|]. intros a. rewrite elem_of_nil. tauto. }
  assert (∀ acc a, a ∈ l →
     (keep a ∧ body acc a = Some (acc ++ [a])) ∨ (¬ keep a ∧ body acc a = Some acc))
    as Hrest.
  { intros acc' a Ha. apply Hbody, elem_of_cons. by right. }
  destruct (Hbody acc c) as [[Hk ->]|[Hk ->]]; [apply elem_of_cons; by left|..]; simpl.
  - destruct (IH Hrest (acc ++ [c])) as (r & -> & Hr). exists r. split; [done|].
    intros a. rewrite Hr, elem_of_app, list_elem_of_singleton, elem_of_cons.
    split; [|intros [?|[[->|?] ?]]; tauto].
    intros [[? | ->]|[? ?]]; tauto.
  - destruct (IH Hrest acc) as (r & -> & Hr). exists r. split; [done|].
    intros a. rewrite Hr, elem_of_cons. split; [tauto|].
    intros [?|[[->|?] ?]]; tauto.
Qed.

(** On a well-formed grid the two city lists are computed without error:
    a neighbouring city is offered for discovery when it is neither
    connected nor discovered and a road or bridge lies on the edge of the
    grid in its direction, and for connection when it is discovered, not
    connected, and such a road exists.  No city is in both lists, and a
    connected city is in neither. *)
Theorem cities_offered_once g gridSize adjacentCities :
  grid_wf gridSize g →
  ∃ toShow connectable,
    checkForDiscoverableCities g gridSize adjacentCities = Some toShow ∧
    getConnectableCities g gridSize adjacentCities = Some connectable ∧
    (∀ city, city ∈ toShow ↔
       city ∈ adjacentCities ∧ connected city = false ∧ discovered city = false ∧
       road_reaches_edge g gridSize (direction city)) ∧
    (∀ city, city ∈ connectable ↔
       city ∈ adjacentCities ∧ connected city = false ∧ discovered city = true ∧
       road_reaches_edge g gridSize (direction city)) ∧
    (∀ city, ¬ (city ∈ toShow ∧ city ∈ connectable)).
Proof.
  intros Hwf. unfold checkForDiscoverableCities, getConnectableCities.
  match goal with
  | |- ∃ _ _, for_each ?f [] _ = _ ∧ for_each ?h [] _ = _ ∧ _ =>
      pose proof (for_each_filter f
                  (λ city, connected city = false ∧ discovered city = false ∧
                           road_reaches_edge g gridSize (direction city))
                  adjacentCities) as Hshow;
      pose proof (for_each_filter h
                  (λ city, connected city = false ∧ discovered city = true ∧
                           road_reaches_edge g gridSize (direction city))
                  adjacentCities) as Hconn
  end.
  destruct Hshow with (acc := @nil AdjacentCity) as (s & Hs & Hsmem);
    [|destruct Hconn with (acc := @nil AdjacentCity) as (c & Hc & Hcmem)].
  - intros acc city _.
    destruct (hasRoadAtEdge_spec g gridSize (direction city) Hwf) as (b & Hb & Hiff).
    destruct (connected city); simpl; [right; split; [by intros [? _]|done]|].
    rewrite Hb. simpl. destruct b.
    + destruct (discovered city); simpl.
      * right. split; [by intros (_ & ? & _)|done].
      * left. split; [|done]. split; [done|]. split; [done|]. by apply Hiff.
    + right. split; [|done]. intros (_ & _ & Hr%Hiff). done.
  - intros acc city _.
    destruct (hasRoadAtEdge_spec g gridSize (direction city) Hwf) as (b & Hb & Hiff).
    destruct (discovered city); simpl; [|right; split; [by intros (_ & ? & _)|done]].
    destruct (connected city); simpl; [right; split; [by intros [? _]|done]|].
    rewrite Hb. simpl. destruct b.
    + left. split; [|done]. split; [done|]. split; [done|]. by apply Hiff.
    + right. split; [|done]. intros (_ & _ & Hr%Hiff). done.
  - exists s, c. split; [done|]. split; [done|].
    assert (∀ city, city ∈ s ↔ city ∈ adjacentCities ∧ connected city = false ∧
                    discovered city = false ∧
                    road_reaches_edge g gridSize (direction city)) as Hs'.
    { intros city. rewrite Hsmem, elem_of_nil. tauto. }
    assert (∀ city, city ∈ c ↔ city ∈ adjacentCities ∧ connected city = false ∧
                    discovered city = true ∧
                    road_reaches_edge g gridSize (direction city)) as Hc'.
    { intros city. rewrite Hcmem, elem_of_nil. tauto. }
    split; [done|]. split; [done|].
    intros city [(_ & _ & Hd & _)%Hs' (_ & _ & Hd' & _)%Hc']. congruence.
Qed.

Lemma cities_offered_once_witness :
  let cities := [mkCity "a" "Northport" North false false;
                 mkCity "b" "Westfield" West false true;
                 mkCity "c" "Southby" South false false] in
  ∃ toShow connectable,
    checkForDiscoverableCities bridge_example_grid 5 cities = Some toShow ∧
    getConnectableCities bridge_example_grid 5 cities = Some connectable ∧
    toShow = [mkCity "a" "Northport" North false false] ∧
    connectable = [mkCity "b" "Westfield" West false true].
Proof.
  intros cities.
  destruct (cities_offered_once bridge_example_grid 5 cities)
    as (s & c & Hs & Hc & _).
  { apply grid_wfb_spec. vm_compute. reflexivity. }
  exists s, c. split; [done|]. split; [done|].
  vm_compute in Hs, Hc. injection Hs as <-. injection Hc as <-. done.
Defined.

(* ================================================================== *)
(** ** Coverage averages *)
(* ================================================================== *)

(** [calculateAverageCoverage]. *)
Definition calculateAverageCoverage (coverage : list (list Q)) : Q :=
  let '(total, count) :=
    foldl (λ acc row,
             foldl (λ '(total, count) value, ((total + value)%Q, count + 1)) acc row)
          (0%Q, 0) coverage in
  if bool_decide (count > 0) then (total / inject_Z count)%Q else 0%Q.

Lemma average_between (lo hi : Q) (coverage : list (list Q)) :
  (lo <= 0)%Q → (0 <= hi)%Q →
  Forall (Forall (λ v, (lo <= v)%Q ∧ (v <= hi)%Q)) coverage →
  (lo <= calculateAverageCoverage coverage)%Q ∧
  (calculateAverageCoverage coverage <= hi)%Q.
Proof.
  intros Hlo Hhi Hall. unfold calculateAverageCoverage.
  set (ok := λ acc : Q * Z,
         0 <= acc.2 ∧ (inject_Z acc.2 * lo <= acc.1)%Q ∧ (acc.1 <= inject_Z acc.2 * hi)%Q).
  assert (∀ row acc, Forall (λ v, (lo <= v)%Q ∧ (v <= hi)%Q) row → ok acc →
            ok (foldl (λ '(total, count) value, ((total + value)%Q, count + 1)) acc row))
    as Hrow.
  { induction row as [|v row IH]; intros [total count] Hr Hacc; [done|].
    apply Forall_cons in Hr as [[Hv1 Hv2] Hr]. simpl. apply IH; [done|].
    destruct Hacc as (Hc & H1 & H2). unfold ok. simpl in *.
    split; [lia|]. rewrite inject_Z_plus. change (inject_Z 1) with 1%Q. split; nra. }
  assert (∀ rows acc, Forall (Forall (λ v, (lo <= v)%Q ∧ (v <= hi)%Q)) rows → ok acc →
            ok (foldl (λ acc row,
                  foldl (λ '(total, count) value, ((total + value)%Q, count + 1)) acc row)
                  acc rows)) as Hrows.
  { induction rows as [|row rows IH]; intros acc Hr Hacc; [done|].
    apply Forall_cons in Hr as [Hr1 Hr]. simpl. apply IH; [done|]. by apply Hrow. }
  assert (ok (0%Q, 0)) as Hinit.
  { unfold ok. simpl. change (inject_Z 0) with 0%Q. split; [lia|split; lra]. }
  specialize (Hrows coverage (0%Q, 0) Hall Hinit).
  destruct (foldl _ (0%Q, 0) coverage) as [total count].
  destruct Hrows as (Hc & H1 & H2).
  simpl in *. case_bool_decide as Hpos; [|done].
  assert (0 < inject_Z count)%Q as Hq.
  { change 0%Q with (inject_Z 0). rewrite <- Zlt_Qlt. lia. }
  split.
  - apply Qle_shift_div_l; [done|]. lra.
  - apply Qle_shift_div_r; [done|]. lra.
Qed.

Lemma coverage_at_le_100 range d : 0 < range → (coverage_at range d <= 100)%Q.
Proof.
  intros Hr. unfold coverage_at. apply Q.max_lub; [done|].
  pose proof (Math_sqrt_nonneg d) as Hs.
  assert (0 <= Math_sqrt d / inject_Z range)%Q as Hdiv.
  { apply Qle_shift_div_l; [|lra]. change 0%Q with (inject_Z 0).
    rewrite <- Zlt_Qlt. lia. }
  lra.
Qed.

Lemma cells_Forall {A} (P : A → Prop) (arr : list (list A)) :
  (∀ x y v, cell_at arr x y = Some v → P v) → Forall (Forall P) arr.
Proof.
  intros Hcell. apply Forall_lookup. intros i row Hrow.
  apply Forall_lookup. intros j v Hv.
  apply (Hcell (Z.of_nat j) (Z.of_nat i)). unfold cell_at, row_at.
  rewrite decide_True by lia. rewrite !Nat2Z.id, Hrow. simpl.
  by rewrite decide_True by lia.
Qed.

(** Each of the four quality fields [calculateServiceCoverage] computes
    holds values within 0 and 100 on every cell, and so does the average
    [calculateAverageCoverage] takes of the field (0 for an empty grid):
    the safety, health and education figures built from these averages are
    percentages.  The service buildings are taken at a level of at least
    1, the lowest level [createBuilding] and the upgrade give them: their
    range is then positive, as the division by it requires. *)
Theorem average_coverage_is_percentage g size k :
  grid_wf size g →
  (∀ x y t, tile_at g x y = Some t → counted_service (building t) = true →
            1 <= level (building t)) →
  ∃ s, calculateServiceCoverage g size = Some s ∧
    (∀ x y v, cov_at (quality k s) x y = Some v → (0 <= v)%Q ∧ (v <= 100)%Q) ∧
    (0 <= calculateAverageCoverage (quality k s))%Q ∧
    (calculateAverageCoverage (quality k s) <= 100)%Q.
Proof.
  intros Hwf _. unfold calculateServiceCoverage.
  rewrite (collect_service_buildings_spec size g Hwf). cbn [mbind option_bind].
  eexists. split; [done|].
  match goal with |- ?P ∧ _ => assert P as Hcells end.
  { intros x y v. rewrite fold_quality.
    destruct (cell_at (quality k (createServiceCoverage size)) x y) as [v0|] eqn:Hv0;
      [|done].
    assert (v0 = 0%Q) as ->.
    { unfold createServiceCoverage in Hv0.
      assert (∀ a : list (list Q), a = replicate (Z.to_nat size)
                (replicate (Z.to_nat size) 0%Q) → cell_at a x y = Some v0 → v0 = 0%Q)
        as Hrep.
      { intros a -> Ha. unfold cell_at, row_at in Ha.
        destruct (decide (0 <= y)); [|done].
        destruct (replicate _ _ !! Z.to_nat y) as [row|] eqn:Hrow; [|done].
        apply lookup_replicate in Hrow as [-> _]. simpl in Ha.
        destruct (decide (0 <= x)); [|done].
        by apply lookup_replicate in Ha as [-> _]. }
      destruct k; by eapply Hrep. }
    simpl. intros [= <-].
    generalize (omap (service_at g) (rect size size)). intros bs.
    assert (∀ c, (0 <= c)%Q ∧ (c <= 100)%Q →
              (0 <= foldl (λ c b, quality_step k size b x y c) c bs)%Q ∧
              (foldl (λ c b, quality_step k size b x y c) c bs <= 100)%Q) as Hfold.
    { induction bs as [|b bs IH]; intros c Hc; [done|]. simpl. apply IH.
      destruct Hc as [H0 H100]. split; [|by apply quality_step_le_100].
      unfold quality_step. destruct (_ && _); [|done].
      pose proof (coverage_at_nonneg (building_range b)
                    ((x - sb_x b) * (x - sb_x b) + (y - sb_y b) * (y - sb_y b))).
      apply Q.min_glb; lra. }
    apply Hfold. split; lra. }
  split; [done|]. apply average_between; [lra..|]. by apply cells_Forall.
Qed.

Lemma average_coverage_is_percentage_witness :
  let g := service_example_grid 6 2 2 "police_station" 1 in
  ∃ s, calculateServiceCoverage g 6 = Some s ∧
    (∀ x y v, cov_at (quality Police s) x y = Some v → (0 <= v)%Q ∧ (v <= 100)%Q) ∧
    (0 <= calculateAverageCoverage (quality Police s))%Q ∧
    (calculateAverageCoverage (quality Police s) <= 100)%Q.
Proof.
  intros g. apply (average_coverage_is_percentage g 6 Police).
  - apply grid_wfb_spec. vm_compute. reflexivity.
  - intros x y t Ht Hcounted.
    pose proof (tiles_check (λ t, negb (counted_service (building t)) ||
                                  (1 <=? level (building t))) g
                  ltac:(vm_compute; reflexivity) x y t Ht) as Hc.
    simpl in Hc. rewrite Hcounted in Hc. by apply Z.leb_le in Hc.
Defined.

(* ================================================================== *)
(** ** Upgrading a service building *)
(* ================================================================== *)

(** The [cost] column of [TOOL_INFO] (types/game.ts). *)
Definition TOOL_INFO_cost (tool : string) : option Z :=
  if String.eqb tool "select" then Some 0
  else if String.eqb tool "bulldoze" then Some 10
  else if String.eqb tool "road" then Some 25
  else if String.eqb tool "rail" then Some 40
  else if String.eqb tool "subway" then Some 50
  else if String.eqb tool "expand_city" then Some 0
  else if String.eqb tool "shrink_city" then Some 0
  else if String.eqb tool "tree" then Some 15
  else if String.eqb tool "zone_residential" then Some 50
  else if String.eqb tool "zone_commercial" then Some 50
  else if String.eqb tool "zone_industrial" then Some 50
  else if String.eqb tool "zone_dezone" then Some 0
  else if String.eqb tool "zone_water" then Some 50000
  else if String.eqb tool "zone_land" then Some 50000
  else if String.eqb tool "police_station" then Some 500
  else if String.eqb tool "fire_station" then Some 500
  else if String.eqb tool "hospital" then Some 1000
  else if String.eqb tool "school" then Some 400
  else if String.eqb tool "university" then Some 2000
  else if String.eqb tool "park" then Some 150
  else if String.eqb tool "park_large" then Some 600
  else if String.eqb tool "water_tower" then Some 1000
  else if String.eqb tool "power_plant" then Some 3000
  else if String.eqb tool "animal_pens_farm" then Some 400
  else if String.eqb tool "greenhouse_garden" then Some 800
  else if String.eqb tool "office_building_small" then Some 600
  else if String.eqb tool "tennis" then Some 200
  else if String.eqb tool "subway_station" then Some 750
  else if String.eqb tool "rail_station" then Some 1000
  else if String.eqb tool "stadium" then Some 5000
  else if String.eqb tool "museum" then Some 4000
  else if String.eqb tool "airport" then Some 10000
  else if String.eqb tool "space_program" then Some 15000
  else if String.eqb tool "city_hall" then Some 6000
  else if String.eqb tool "amusement_park" then Some 12000
  else if String.eqb tool "basketball_courts" then Some 250
  else if String.eqb tool "playground_small" then Some 200
  else if String.eqb tool "playground_large" then Some 350
  else if String.eqb tool "baseball_field_small" then Some 800
  else if String.eqb tool "soccer_field_small" then Some 400
  else if String.eqb tool "football_field" then Some 1200
  else if String.eqb tool "baseball_stadium" then Some 6000
  else if String.eqb tool "community_center" then Some 500
  else if String.eqb tool "swimming_pool" then Some 450
  else if String.eqb tool "skate_park" then Some 300
  else if String.eqb tool "mini_golf_course" then Some 700
  else if String.eqb tool "bleachers_field" then Some 350
  else if String.eqb tool "go_kart_track" then Some 1000
  else if String.eqb tool "amphitheater" then Some 1500
  else if String.eqb tool "cabin_house" then Some 300
  else if String.eqb tool "campground" then Some 250
  else if String.eqb tool "marina_docks_small" then Some 1200
  else if String.eqb tool "pier_large" then Some 600
  else if String.eqb tool "roller_coaster_small" then Some 3000
  else if String.eqb tool "community_garden" then Some 200
  else if String.eqb tool "pond_park" then Some 350
  else if String.eqb tool "park_gate" then Some 150
  else if String.eqb tool "mountain_lodge" then Some 1500
  else if String.eqb tool "mountain_trailhead" then Some 400
  else None.

Definition SERVICE_UPGRADE_COST_BASE : Q := 2.

(** [upgradeServiceBuilding(state, x, y)], with [state.stats.money] as
    [money]: [Some None] is [null]; otherwise the new state, its money and
    its recomputed coverage. *)
Definition upgradeServiceBuilding (state : GameState) (money : Q) (x y : Z)
  : option (option (GameState * Q * ServiceCoverage)) :=
  match tile_at (grid state) x y with
  | None => Some None
  | Some tile =>
    origin ← findBuildingOrigin (grid state) x y (gridSize state);
    let originX := match origin with Some (ox, _, _) => ox | None => x end in
    let originY := match origin with Some (_, oy, _) => oy | None => y end in
    match tile_at (grid state) originX originY with
    | None => Some None
    | Some originTile =>
      let buildingType := type (building originTile) in
      if negb (includes SERVICE_BUILDING_TYPES buildingType) then Some None
      else if under_construction (building originTile) then Some None
      else if abandoned (building originTile) then Some None
      else
        let currentLevel :=
          if decide (level (building originTile) = 0) then 1
          else level (building originTile) in
        if bool_decide (currentLevel >= SERVICE_MAX_LEVEL) then Some None
        else
          let baseCost := default 0 (TOOL_INFO_cost buildingType) in
          let upgradeCost :=
            Qfloor (inject_Z baseCost * SERVICE_UPGRADE_COST_BASE ^ currentLevel) in
          if Qlt_b money (inject_Z upgradeCost) then Some None
          else
            let newGrid :=
              update_tile (grid state) originX originY
                (upd_building (set_level (Z.min SERVICE_MAX_LEVEL (currentLevel + 1)))) in
            let newMoney := (money - inject_Z upgradeCost)%Q in
            services ← calculateServiceCoverage newGrid (gridSize state);
            Some (Some (with_grid state newGrid, newMoney, services))
    end
  end.

Lemma TOOL_INFO_cost_nonneg tool c : TOOL_INFO_cost tool = Some c → 0 <= c.
Proof.
  unfold TOOL_INFO_cost.
  repeat (destruct (String.eqb tool _); [intros [= <-]; lia|]). done.
Qed.

(** An upgrade that goes through raises the level of one tile, the origin
    of the building the position belongs to (a service building that is
    complete and not abandoned), by one, to at most 5, and changes no other
    tile; the price is not negative and the money left is not negative;
    and the coverage returned is the one [calculateServiceCoverage]
    computes on the new grid.  On a well-formed grid the call always
    returns. *)
Theorem upgrade_raises_one_level state money x y :
  grid_wf (gridSize state) (grid state) →
  ∃ r, upgradeServiceBuilding state money x y = Some r ∧
    ∀ state' money' services', r = Some (state', money', services') →
      ∃ originX originY t lvl,
        tile_at (grid state) originX originY = Some t ∧
        ((originX = x ∧ originY = y) ∨ covers (grid state) originX originY x y) ∧
        includes SERVICE_BUILDING_TYPES (type (building t)) = true ∧
        under_construction (building t) = false ∧ abandoned (building t) = false ∧
        lvl = (if decide (level (building t) = 0) then 1 else level (building t)) ∧
        lvl < 5 ∧
        grid state' = update_tile (grid state) originX originY
                        (upd_building (set_level (lvl + 1))) ∧
        gridSize state' = gridSize state ∧
        (0 <= money')%Q ∧ (money' <= money)%Q ∧
        calculateServiceCoverage (grid state') (gridSize state') = Some services'.
Proof.
  intros Hwf. unfold upgradeServiceBuilding.
  destruct (tile_at (grid state) x y) as [tile|] eqn:Ht; [|by eexists].
  destruct (findBuildingOrigin_returns _ (grid state) x y Hwf) as [origin Ho].
  rewrite Ho. cbn [mbind option_bind].
  set (originX := match origin with Some (ox, _, _) => ox | None => x end).
  set (originY := match origin with Some (_, oy, _) => oy | None => y end).
  assert ((originX = x ∧ originY = y) ∨ covers (grid state) originX originY x y) as Hpos.
  { destruct origin as [[[ox oy] obt]|]; [|by left]. right.
    destruct (findBuildingOrigin_covers _ _ _ _ _ _ _ Ho)
      as (to & Hto & Hty & Hs & Hox & Hoy & Hcx & Hcy).
    exists to. split; [done|]. rewrite Hty. split; [done|]. lia. }
  destruct (tile_at (grid state) originX originY) as [originTile|] eqn:Hot;
    [|by eexists].
  destruct (negb (includes SERVICE_BUILDING_TYPES (type (building originTile))))
    eqn:Hservice; [by eexists|]. apply negb_false_iff in Hservice.
  destruct (under_construction (building originTile)) eqn:Hcons; [by eexists|].
  destruct (abandoned (building originTile)) eqn:Hab; [by eexists|].
  set (lvl := if decide (level (building originTile) = 0) then 1
              else level (building originTile)).
  case_bool_decide as Hmax; [by eexists|]. unfold SERVICE_MAX_LEVEL in Hmax.
  set (baseCost := default 0 (TOOL_INFO_cost (type (building originTile)))).
  set (upgradeCost := Qfloor (inject_Z baseCost * SERVICE_UPGRADE_COST_BASE ^ lvl)).
  destruct (Qlt_b money (inject_Z upgradeCost)) eqn:Hmoney; [by eexists|].
  apply Qlt_b_false in Hmoney.
  destruct (calculateServiceCoverage_ok
              (update_tile (grid state) originX originY
                 (upd_building (set_level (Z.min SERVICE_MAX_LEVEL (lvl + 1)))))
              (gridSize state)) as (services & Hs & _);
    [by apply grid_wf_update_tile|].
  rewrite Hs. cbn [mbind option_bind]. eexists. split; [done|].
  intros state' money' services' [= <- <- <-].
  exists originX, originY, originTile, lvl.
  assert (0 <= upgradeCost) as Hcost.
  { unfold upgradeCost. rewrite <- (Qfloor_Z 0). apply Qfloor_resp_le.
    apply Qmult_le_0_compat.
    - change 0%Q with (inject_Z 0). rewrite <- Zle_Qle. unfold baseCost.
      destruct (TOOL_INFO_cost _) as [c|] eqn:Hc; [|done].
      by eapply TOOL_INFO_cost_nonneg.
    - by apply Qpower_0_le. }
  assert (0 <= inject_Z upgradeCost)%Q as Hcost'.
  { change 0%Q with (inject_Z 0). by rewrite <- Zle_Qle. }
  split_and!; try done.
  - lia.
  - simpl. unfold SERVICE_MAX_LEVEL. by rewrite Z.min_r by lia.
  - lra.
  - lra.
Qed.

Lemma upgrade_raises_one_level_witness :
  let state := mkState (service_example_grid 6 2 2 "police_station" 1) 6 None false in
  ∃ state' money' services',
    upgradeServiceBuilding state 100000 2 2 = Some (Some (state', money', services')) ∧
    (level ∘ building <$> tile_at (grid state') 2 2) = Some 2 ∧
    (money' == 99000)%Q.
Proof.
  intros state.
  destruct (upgrade_raises_one_level state 100000 2 2) as (r & Hrun & _).
  { apply grid_wfb_spec. vm_compute. reflexivity. }
  destruct r as [[[state' money'] services']|]; [|by vm_compute in Hrun].
  exists state', money', services'. split; [done|].
  vm_compute in Hrun. injection Hrun as <- <- _. done.
Defined.

(* ================================================================== *)
(** ** Why a zoned tile does not develop *)
(* ================================================================== *)

(** [DevelopmentBlocker]. *)
Record DevelopmentBlocker := mkBlocker {
  reason : string;
  details : string;
}.

(** [arr[y][x]] used as a condition: a missing row is an error, a missing
    cell is [undefined]. *)
Definition flag_at (arr : list (list bool)) (x y : Z) : option bool :=
  row ← row_at arr y;
  Some (default false (if decide (0 <= x) then row !! Z.to_nat x else None)).

(** [getDevelopmentBlockers(state, x, y)], with [state.services] as
    [services] and the scratch buffer of [hasRoadAccess]. *)
Definition getDevelopmentBlockers (cat : Catalog) (state : GameState)
    (services : ServiceCoverage) (roadAccessVisited : gset Z) (x y : Z)
  : option (list DevelopmentBlocker) :=
  match tile_at (grid state) x y with
  | None =>
      Some [mkBlocker "Invalid tile"
              ("Tile at (" +:+ pretty x +:+ ", " +:+ pretty y +:+ ") does not exist")]
  | Some tile =>
    if decide (zone tile = ZoneNone)
    then Some [mkBlocker "Not zoned" "Tile has no zone assigned"]
    else if negb (is_type (type (building tile)) "grass") &&
            negb (is_type (type (building tile)) "tree") then Some []
    else
      '(roadAccess, _) ← hasRoadAccess (grid state) x y (gridSize state)
                            DEFAULT_MAX_DISTANCE roadAccessVisited;
      let blockers :=
        if negb roadAccess
        then [mkBlocker "No road access"
                "Tile must be within 8 tiles of a road (through same-zone tiles)"]
        else [] in
      let buildingList :=
        match zone tile with
        | Residential => RESIDENTIAL_BUILDINGS cat
        | Commercial => COMMERCIAL_BUILDINGS cat
        | _ => INDUSTRIAL_BUILDINGS cat
        end in
      let candidate := head buildingList in
      let wouldBeStarter :=
        match candidate with
        | Some c => isStarterBuilding x y c
        | None => false
        end in
      hasPower ← flag_at (power services) x y;
      let blockers :=
        if negb hasPower && negb wouldBeStarter
        then blockers ++ [mkBlocker "No power"
                            "Build a power plant nearby to provide electricity"]
        else blockers in
      hasWater ← flag_at (water services) x y;
      let blockers :=
        if negb hasWater && negb wouldBeStarter
        then blockers ++ [mkBlocker "No water"
                            "Build a water tower nearby to provide water"]
        else blockers in
      let '(w, h) :=
        match candidate with
        | Some c => getBuildingSize c
        | None => (1, 1)
        end in
      let blockers :=
        if (bool_decide (w > 1) || bool_decide (h > 1)) &&
           negb (canPlaceMultiTileBuilding (grid state) x y w h (gridSize state))
        then blockers ++ [mkBlocker "Footprint blocked"
                            (default "" candidate +:+ " needs " +:+ pretty w +:+ "x" +:+
                             pretty h +:+ " tiles.")]
        else blockers in
      let hasUtilities := hasPower && hasWater in
      let blockers :=
        if bool_decide (length blockers = 0%nat) && roadAccess &&
           (hasUtilities || wouldBeStarter)
        then blockers ++ [mkBlocker "Waiting for development"
               (if wouldBeStarter && negb hasUtilities
                then "Starter building can develop here without utilities! (5% chance per tick)"
                else "All conditions met! Building will spawn soon (5% chance per tick)")]
        else blockers in
      Some blockers
  end.

(** On a well-formed state whose coverage arrays span the grid the call
    returns for every position.  The list is empty exactly for a zoned
    tile that already holds something other than grass or a tree: a
    missing, unzoned or undeveloped tile always gets an explanation.  And
    'Waiting for development' is reported alone: never together with a
    blocker. *)
Theorem blockers_explain_undeveloped_tiles cat state services v x y :
  grid_wf (gridSize state) (grid state) →
  coverage_ok (gridSize state) services →
  ∃ blockers, getDevelopmentBlockers cat state services v x y = Some blockers ∧
    (blockers = [] ↔
     ∃ tile, tile_at (grid state) x y = Some tile ∧ zone tile ≠ ZoneNone ∧
             type (building tile) ≠ "grass"%string ∧
             type (building tile) ≠ "tree"%string) ∧
    (∀ b, b ∈ blockers → reason b = "Waiting for development"%string → blockers = [b]).
Proof.
  intros Hwf Hcov. unfold getDevelopmentBlockers.
  destruct (tile_at (grid state) x y) as [tile|] eqn:Ht.
  2:{ eexists. split; [done|]. split.
      - split; [done|]. by intros (tile & ? & _).
      - by intros b ->%list_elem_of_singleton. }
  destruct (decide (zone tile = ZoneNone)) as [Hz|Hz].
  { eexists. split; [done|]. split.
    - split; [done|]. intros (tile' & [= <-] & ? & _). done.
    - by intros b ->%list_elem_of_singleton. }
  destruct (negb (is_type (type (building tile)) "grass") &&
            negb (is_type (type (building tile)) "tree")) eqn:Hty.
  { exists []. split; [done|]. split.
    - split; [|done]. intros _. exists tile.
      apply andb_true_iff in Hty as [Hg%negb_true_iff Htr%negb_true_iff].
      split; [done|]. split; [done|]. split; by apply String.eqb_neq.
    - by intros b ?%elem_of_nil. }
  assert (¬ ∃ tile', Some tile = Some tile' ∧ zone tile' ≠ ZoneNone ∧
            type (building tile') ≠ "grass"%string ∧
            type (building tile') ≠ "tree"%string) as Hnot.
  { intros (tile' & Ht' & _ & Hg & Htr). injection Ht' as <-.
    apply String.eqb_neq in Hg, Htr. unfold is_type in Hty. by rewrite Hg, Htr in Hty. }
  destruct (tile_at_Some_inv _ _ x y tile Hwf Ht) as [Hx Hy].
  destruct (hasRoadAccess_returns (grid state) x y (gridSize state) DEFAULT_MAX_DISTANCE v
              Hwf Hx Hy) as [[roadAccess v'] ->].
  cbn [mbind option_bind].
  destruct (Hcov x y Hx Hy) as (_ & _ & _ & _ & [p Hp] & [w Hw]).
  assert (∀ (arr : list (list bool)) b, cov_at arr x y = Some b → flag_at arr x y = Some b)
    as Hflag.
  { intros arr b. unfold cell_at, flag_at. destruct (row_at arr y) as [row|]; [|done].
    simpl. by intros ->. }
  rewrite (Hflag _ _ Hp), (Hflag _ _ Hw). cbn [mbind option_bind].
  set (starter := match head _ with Some c => isStarterBuilding x y c | None => false end).
  destruct (match head _ with Some c => getBuildingSize c | None => (1, 1) end)
    as [fw fh].
  set (blocked := (bool_decide (fw > 1) || bool_decide (fh > 1)) && negb _).
  generalize (default "" (head match zone tile with
                               | Residential => RESIDENTIAL_BUILDINGS cat
                               | Commercial => COMMERCIAL_BUILDINGS cat
                               | _ => INDUSTRIAL_BUILDINGS cat
                               end) +:+ " needs " +:+ pretty fw +:+ "x" +:+
              pretty fh +:+ " tiles.").
  intros text. clearbody starter blocked.
  eexists. split; [done|].
  destruct roadAccess, p, w, starter, blocked; cbn;
    (split; [split; [done|by intros ?%Hnot]|]);
    intros b Hb Hreason;
    repeat (apply elem_of_cons in Hb as [-> | Hb]; [done|]);
    by apply elem_of_nil in Hb.
Qed.

Lemma blockers_explain_undeveloped_tiles_witness :
  let state := mkState (zoned_grid 5 4 4) 5 None false in
  ∃ blockers,
    getDevelopmentBlockers sample_catalog state (createServiceCoverage 5) ∅ 1 1
      = Some blockers ∧
    reason <$> blockers = ["Waiting for development"]%string.
Proof.
  intros state.
  destruct (blockers_explain_undeveloped_tiles sample_catalog state
              (createServiceCoverage 5) ∅ 1 1) as (blockers & Hrun & _).
  { apply grid_wfb_spec. vm_compute. reflexivity. }
  { intros x y Hx Hy. unfold createServiceCoverage.
    cbn [police fire health education power water].
    rewrite !(cell_at_replicate 5) by done. by split_and!. }
  exists blockers. split; [done|]. vm_compute in Hrun. by injection Hrun as <-.
Defined.

(* ================================================================== *)
(** ** The calendar and the effective tax rate of a tick *)
(* ================================================================== *)

(** The calendar fields of [GameState]. *)
Record Calendar := mkCalendar {
  cal_year : Z;
  cal_month : Z;
  cal_day : Z;
  cal_tick : Z;
}.

(** The calendar part of [simulateTick]: the new calendar, [newHour], and
    whether the weekly balance is paid ([newDay % 7 === 0] on a day
    change, tested before the day wraps). *)
Definition advance_calendar (c : Calendar) : Calendar * Z * bool :=
  let newTick := cal_tick c + 1 in
  let totalTicks :=
    (cal_year c - 2024) * 12 * 30 * 30 + (cal_month c - 1) * 30 * 30 +
    (cal_day c - 1) * 30 + newTick in
  let cycleLength := 450 in
  let newHour :=
    Qfloor (inject_Z (Z.rem totalTicks cycleLength) / inject_Z cycleLength * 24) in
  let dayOver := bool_decide (newTick >= 30) in
  let newTick := if dayOver then 0 else newTick in
  let newDay := if dayOver then cal_day c + 1 else cal_day c in
  let payday := dayOver && bool_decide (Z.rem newDay 7 = 0) in
  let monthOver := bool_decide (newDay > 30) in
  let newDay := if monthOver then 1 else newDay in
  let newMonth := if monthOver then cal_month c + 1 else cal_month c in
  let yearOver := bool_decide (newMonth > 12) in
  let newMonth := if yearOver then 1 else newMonth in
  let newYear := if yearOver then cal_year c + 1 else cal_year c in
  (mkCalendar newYear newMonth newDay newTick, newHour, payday).

(** [newEffectiveTaxRate]. *)
Definition newEffectiveTaxRate (taxRate effectiveTaxRate : Q) : Q :=
  let taxRateDiff := (taxRate - effectiveTaxRate)%Q in
  (effectiveTaxRate + taxRateDiff * (3 # 100))%Q.

(** A date of the game's calendar: twelve months of thirty days of thirty
    ticks. *)
Definition calendar_ok (c : Calendar) : Prop :=
  1 <= cal_month c <= 12 ∧ 1 <= cal_day c <= 30 ∧ 0 <= cal_tick c < 30.

(** The ticks from the start of 2024 to a date. *)
Definition ticks_since_2024 (c : Calendar) : Z :=
  (((cal_year c - 2024) * 12 + (cal_month c - 1)) * 30 + (cal_day c - 1)) * 30 +
  cal_tick c.

(** A tick moves a date of the calendar to the next one: the new date is
    again a date, exactly one tick later, across the ends of days, months
    and years.  The hour is the position of the new tick count in a cycle
    of 450 ticks scaled to 24 hours, within 0 and 23 from 2024 on, and the
    weekly balance is paid only on entering a day whose number is a
    multiple of 7. *)
Theorem calendar_advances_by_one_tick c :
  calendar_ok c →
  let '(c', hour, payday) := advance_calendar c in
  calendar_ok c' ∧
  ticks_since_2024 c' = ticks_since_2024 c + 1 ∧
  hour = Z.rem (ticks_since_2024 c') 450 * 24 / 450 ∧
  (2024 <= cal_year c → 0 <= hour <= 23) ∧
  (payday = true → cal_tick c' = 0 ∧ cal_day c' ∈ [7; 14; 21; 28]).
Proof.
  intros (Hm & Hd & Ht). unfold advance_calendar, calendar_ok, ticks_since_2024.
  destruct c as [year month day tick]. cbn [cal_year cal_month cal_day cal_tick] in *.
  set (total := (year - 2024) * 12 * 30 * 30 + (month - 1) * 30 * 30 +
                (day - 1) * 30 + (tick + 1)).
  assert (Qfloor (inject_Z (Z.rem total 450) / inject_Z 450 * 24) =
          Z.rem total 450 * 24 / 450) as Hhour.
  { rewrite Zdiv_Qdiv. apply Qfloor_comp. rewrite inject_Z_mult. field. }
  rewrite Hhour.
  assert (∀ year' month' day' tick',
    (((year' - 2024) * 12 + (month' - 1)) * 30 + (day' - 1)) * 30 + tick' = total →
    1 <= month' <= 12 → 1 <= day' <= 30 → 0 <= tick' < 30 →
    (1 <= month' <= 12 ∧ 1 <= day' <= 30 ∧ 0 <= tick' < 30) ∧
    (((year' - 2024) * 12 + (month' - 1)) * 30 + (day' - 1)) * 30 + tick' =
      (((year - 2024) * 12 + (month - 1)) * 30 + (day - 1)) * 30 + tick + 1 ∧
    Z.rem total 450 * 24 / 450 =
      Z.rem ((((year' - 2024) * 12 + (month' - 1)) * 30 + (day' - 1)) * 30 + tick') 450
        * 24 / 450 ∧
    (2024 <= year → 0 <= Z.rem total 450 * 24 / 450 <= 23)) as Hnext.
  { intros year' month' day' tick' Htotal Hm' Hd' Ht'. split; [done|].
    split; [subst total; lia|]. split; [by rewrite Htotal|].
    intros Hyear. assert (0 <= total) as Hpos by (subst total; nia).
    pose proof (Z.rem_bound_pos total 450 Hpos ltac:(lia)) as Hrem.
    split; [apply Z.div_pos; lia|].
    apply Z.lt_succ_r, Z.div_lt_upper_bound; lia. }
  repeat case_bool_decide; cbn [andb cal_year cal_month cal_day cal_tick];
    try lia.
  all: repeat match goal with
       | H : Z.rem _ 7 = 0 |- _ => rewrite Z.rem_mod_nonneg in H by lia
       | H : Z.rem _ 7 ≠ 0 |- _ => clear H
       end.
  all: try lia.
  all: match goal with
       | |- ?A ∧ ?B ∧ ?C ∧ ?D ∧ ?E =>
           assert (A ∧ B ∧ C ∧ D) as (? & ? & ? & ?)
             by (apply Hnext; subst total; lia);
           split_and!; try done; try lia
       end.
  all: intros _; split; [done|].
  all: match goal with
       | H : _ mod 7 = 0 |- _ =>
           apply Z.mod_divide in H; [destruct H as [k Hk]|lia]
       end.
  all: first [ exfalso; lia
             | assert (k = 1 ∨ k = 2 ∨ k = 3 ∨ k = 4) as [-> | [-> | [-> | ->]]] by lia;
               rewrite Hk; set_solver ].
Qed.

Lemma calendar_advances_by_one_tick_witness :
  advance_calendar (mkCalendar 2025 12 30 29) = (mkCalendar 2026 1 1 0, 0, false) ∧
  calendar_ok (mkCalendar 2026 1 1 0) ∧
  ticks_since_2024 (mkCalendar 2026 1 1 0) =
    ticks_since_2024 (mkCalendar 2025 12 30 29) + 1.
Proof.
  split; [by vm_compute|].
  pose proof (calendar_advances_by_one_tick (mkCalendar 2025 12 30 29)
                ltac:(unfold calendar_ok; simpl; lia)) as H.
  destruct (advance_calendar (mkCalendar 2025 12 30 29)) as [[c' hour] payday] eqn:Hrun.
  vm_compute in Hrun. injection Hrun as <- <- <-.
  destruct H as (Hok & Hticks & _). done.
Defined.

(** The effective tax rate after [n] ticks at a constant tax rate. *)
Fixpoint effective_tax_after (n : nat) (taxRate effectiveTaxRate : Q) : Q :=
  match n with
  | O => effectiveTaxRate
  | S n' => newEffectiveTaxRate taxRate (effective_tax_after n' taxRate effectiveTaxRate)
  end.

(** The effective tax rate approaches the tax rate without overshooting:
    each tick closes three hundredths of the gap, so that after [n] ticks
    at a constant tax rate the gap is 0.97 to the power [n] of the initial
    one, with its sign (numbers taken as exact). *)
Theorem effective_tax_closes_gap (n : nat) (taxRate effectiveTaxRate : Q) :
  (taxRate - effective_tax_after n taxRate effectiveTaxRate ==
   (97 # 100) ^ Z.of_nat n * (taxRate - effectiveTaxRate))%Q.
Proof.
  induction n as [|n IH].
  - simpl. ring.
  - cbn [effective_tax_after]. unfold newEffectiveTaxRate.
    rewrite Nat2Z.inj_succ, <- Z.add_1_r, Qpower_plus by done.
    set (e := effective_tax_after n taxRate effectiveTaxRate) in *.
    transitivity ((97 # 100) * (taxRate - e))%Q; [ring|]. rewrite IH.
    change ((97 # 100) ^ 1)%Q with (97 # 100)%Q. ring.
Qed.

(* ================================================================== *)
(** ** Placing a building and finding it again *)
(* ================================================================== *)

Lemma getBuildingSize_le_4 t : (getBuildingSize t).1 <= 4 ∧ (getBuildingSize t).2 <= 4.
Proof.
  unfold getBuildingSize, BUILDING_SIZES.
  repeat (destruct (includes _ t); [simpl; lia|]). simpl. lia.
Qed.

Lemma structural_is_single t : is_structural t = true → getBuildingSize t = (1, 1).
Proof.
  unfold is_structural, is_type. rewrite !orb_true_iff, !String.eqb_eq.
  intros [[[[[[-> | ->] | ->] | ->] | ->] | ->] | ->]; reflexivity.
Qed.

(** What [applyBuildingFootprint] writes to the tile at offset (dx, dy) of
    a footprint, without coverage arrays. *)
Definition footprint_tile (cat : Catalog) (bt : BuildingType) (z : ZoneType) (lvl : Z)
    (anchor : bool) (cell : Tile) : Tile :=
  if anchor then
    set_pollution (stat_pollution (default (mkStats 0 0 0 0 None) (BUILDING_STATS cat bt)))
      (set_zone z (set_building (set_age 0 (set_level lvl (createBuilding bt))) cell))
  else
    set_pollution 0 (set_zone z (set_building (set_level 0 (createBuilding "empty")) cell)).

Lemma applyBuildingFootprint_spec cat size g originX originY bt z lvl :
  grid_wf size g → 0 <= originX → 0 <= originY →
  originX + (getBuildingSize bt).1 <= size → originY + (getBuildingSize bt).2 <= size →
  ∃ g', applyBuildingFootprint cat g originX originY bt z lvl None = Some g' ∧
    grid_wf size g' ∧
    ∀ a b, tile_at g' a b =
      if decide (originX <= a < originX + (getBuildingSize bt).1 ∧
                 originY <= b < originY + (getBuildingSize bt).2)
      then footprint_tile cat bt z lvl
             (bool_decide (a = originX) && bool_decide (b = originY)) <$> tile_at g a b
      else tile_at g a b.
Proof.
  intros Hwf Hox Hoy Hw Hh. unfold applyBuildingFootprint.
  pose proof (getBuildingSize_pos bt) as [Hw1 Hh1].
  destruct (getBuildingSize bt) as [w h]. simpl in *.
  set (F := λ a b, footprint_tile cat bt z lvl
                     (bool_decide (a = originX) && bool_decide (b = originY))).
  assert (∀ l : list (Z * Z), (∀ dx dy, (dx, dy) ∈ l → 0 <= dx < w ∧ 0 <= dy < h) →
    ∀ g, grid_wf size g →
    ∃ g', for_each (λ g '(dx, dy),
        _ ← tile_at g (originX + dx) (originY + dy);
        let anchor := bool_decide (dx = 0) && bool_decide (dy = 0) in
        b ← (if anchor
             then Some (set_age 0 (set_level lvl (createBuilding bt)))
             else Some (set_level 0 (createBuilding "empty")));
        Some (update_tile g (originX + dx) (originY + dy) (λ cell,
          set_pollution
            (if anchor
             then stat_pollution (default (mkStats 0 0 0 0 None) (BUILDING_STATS cat bt))
             else 0%Q)
            (set_zone z (set_building b cell))))) g l = Some g' ∧ grid_wf size g' ∧
      ∀ a b, tile_at g' a b =
        if decide ((a - originX, b - originY) ∈ l)
        then F a b <$> tile_at g a b else tile_at g a b) as Hloop.
  { clear g Hwf. induction l as [|[dx dy] l IH]; intros Hpos g Hwf.
    - exists g. split; [done|]. split; [done|]. intros a b.
      rewrite decide_False; [done|]. by intros ?%elem_of_nil.
    - destruct (Hpos dx dy) as [Hdx Hdy]; [apply elem_of_cons; by left|].
      assert (∀ a b, (a, b) ∈ l → 0 <= a < w ∧ 0 <= b < h) as Hpos'.
      { intros a b Hin. apply Hpos, elem_of_cons. by right. }
      cbn [for_each].
      destruct (tile_at_Some_wf size g (originX + dx) (originY + dy) Hwf) as [t Ht];
        [lia..|].
      rewrite Ht. cbn [mbind option_bind].
      set (g1 := update_tile g (originX + dx) (originY + dy) (F (originX + dx) (originY + dy))).
      assert (∀ s : Grid,
        ((if bool_decide (dx = 0) && bool_decide (dy = 0)
          then Some (set_age 0 (set_level lvl (createBuilding bt)))
          else Some (set_level 0 (createBuilding "empty"))) ≫= λ b,
         Some (update_tile s (originX + dx) (originY + dy) (λ cell,
           set_pollution
             (if bool_decide (dx = 0) && bool_decide (dy = 0)
              then stat_pollution (default (mkStats 0 0 0 0 None)
                                     (BUILDING_STATS cat bt))
              else 0%Q)
             (set_zone z (set_building b cell))))) =
        Some (update_tile s (originX + dx) (originY + dy)
                (F (originX + dx) (originY + dy)))) as Hstep.
      { intros s. unfold F, footprint_tile.
        assert (bool_decide (originX + dx = originX) = bool_decide (dx = 0)) as ->.
        { apply bool_decide_ext. lia. }
        assert (bool_decide (originY + dy = originY) = bool_decide (dy = 0)) as ->.
        { apply bool_decide_ext. lia. }
        by destruct (bool_decide (dx = 0) && bool_decide (dy = 0)). }
      rewrite Hstep.
      destruct (IH Hpos' g1) as (g' & Hg' & Hwf' & Hspec);
        [by apply grid_wf_update_tile|].
      exists g'. split; [done|]. split; [done|]. intros a b.
      rewrite Hspec. unfold g1. rewrite tile_at_update_tile.
      destruct (decide ((a - originX, b - originY) ∈ (dx, dy) :: l)) as [Hc|Hc];
        destruct (decide ((a - originX, b - originY) ∈ l)) as [Hl|Hl];
        destruct (decide (a = originX + dx ∧ b = originY + dy)) as [[-> ->]|Hne];
        rewrite ?Ht; simpl; try done.
      + unfold F, footprint_tile.
        destruct (bool_decide (originX + dx = originX) &&
                  bool_decide (originY + dy = originY)); reflexivity.
      + exfalso. apply elem_of_cons in Hc as [[= ? ?]|?]; [|done]. apply Hne. lia.
      + exfalso. apply Hc, elem_of_cons. left. f_equal; lia.
      + exfalso. apply Hc, elem_of_cons. by right.
      + exfalso. apply Hc, elem_of_cons. left. f_equal; lia. }
  destruct (Hloop (rect w h)) with (g := g) as (g' & Hg' & Hwf' & Hspec); [|done|].
  { by intros dx dy Hr%elem_of_rect. }
  match goal with
  | |- ∃ _, (?m ≫= _) = _ ∧ _ => replace m with (Some g') by (symmetry; exact Hg')
  end.
  cbn [mbind option_bind].
  destruct (tile_at_Some_wf size g' originX originY Hwf') as [t0 ->]; [lia..|].
  cbn [mbind option_bind].
  exists g'. split; [done|]. split; [done|]. intros a b. rewrite Hspec.
  destruct (decide ((a - originX, b - originY) ∈ rect w h)) as [Hc|Hc];
    destruct (decide (originX <= a < originX + w ∧ originY <= b < originY + h))
      as [Hd|Hd]; try done; exfalso.
  - apply elem_of_rect in Hc. lia.
  - apply Hc, elem_of_rect. lia.
Qed.

(** The type of the building at a position. *)
Definition type_at (g : Grid) (a b : Z) : option BuildingType :=
  type ∘ building <$> tile_at g a b.

Lemma findBuildingOrigin_types g g' x y size :
  (∀ a b, type_at g a b = type_at g' a b) →
  findBuildingOrigin g x y size = findBuildingOrigin g' x y size.
Proof.
  intros Hty. unfold findBuildingOrigin.
  pose proof (Hty x y) as Hxy. unfold type_at in Hxy.
  destruct (tile_at g x y) as [t|], (tile_at g' x y) as [t'|]; try done.
  simpl in Hxy. injection Hxy as Hxy. rewrite Hxy.
  destruct (negb (is_structural (type (building t')))); [done|].
  destruct (is_type (type (building t')) "empty"); [|done].
  generalize (rect 4 4). intros l. induction l as [|[dx dy] l IH]; [done|].
  cbn [first_some]. rewrite IH.
  destruct (bool_decide (x - dx >= 0) && bool_decide (y - dy >= 0) &&
            bool_decide (x - dx < size) && bool_decide (y - dy < size)); [|done].
  pose proof (Hty (x - dx) (y - dy)) as Hc. unfold type_at in Hc.
  destruct (tile_at g (x - dx) (y - dy)) as [c|], (tile_at g' (x - dx) (y - dy)) as [c'|];
    try done.
  simpl in Hc. injection Hc as Hc. simpl. by rewrite Hc.
Qed.

(** No building claims a tile that is not its own: every tile other than
    the origin in the footprint of a building, by the size of its type,
    is an 'empty' tile. *)
Definition footprints_consistent (g : Grid) : Prop :=
  ∀ ox oy a b t, covers g ox oy a b → ¬ (a = ox ∧ b = oy) →
    tile_at g a b = Some t → type (building t) = "empty"%string.

Lemma first_some_unique {A B} (body : A → option (option B)) (l : list A) v :
  (∀ p, p ∈ l → body p = Some None ∨ body p = Some (Some v)) →
  (∃ p, p ∈ l ∧ body p = Some (Some v)) →
  first_some body l = Some (Some v).
Proof.
  induction l as [|p l IH]; intros Hall (q & Hq & Hbody); [by apply elem_of_nil in Hq|].
  simpl. destruct (Hall p) as [Hp|Hp]; [apply elem_of_cons; by left|..];
    rewrite Hp; simpl; [|done].
  apply IH.
  - intros p' Hp'. apply Hall, elem_of_cons. by right.
  - apply elem_of_cons in Hq as [->|Hq]; [congruence|]. by exists q.
Qed.

Lemma canPlaceMultiTileBuilding_true g x y w h size :
  canPlaceMultiTileBuilding g x y w h size = true →
  x + w <= size ∧ y + h <= size ∧
  ∀ a b, x <= a < x + w → y <= b < y + h →
    ∃ t, tile_at g a b = Some t ∧
         (type (building t) = "grass"%string ∨ type (building t) = "tree"%string).
Proof.
  unfold canPlaceMultiTileBuilding.
  destruct (bool_decide (x + w > size) || bool_decide (y + h > size)) eqn:Hout; [done|].
  apply orb_false_iff in Hout as [Hw%bool_decide_eq_false Hh%bool_decide_eq_false].
  rewrite forallb_forall. intros Hall. split; [lia|]. split; [lia|].
  intros a b Ha Hb.
  specialize (Hall (a - x, b - y) ltac:(apply list_elem_of_In, elem_of_rect; lia)).
  cbv beta iota in Hall. replace (x + (a - x)) with a in Hall by lia.
  replace (y + (b - y)) with b in Hall by lia.
  destruct (tile_at g a b) as [t|]; [|done]. exists t. split; [done|].
  unfold is_type in Hall. by rewrite orb_true_iff, !String.eqb_eq in Hall.
Qed.

(** Placing a building of more than one tile where the footprint is free:
    the grid [placeBuilding] returns, tile by tile. *)
Lemma placeBuilding_footprint cat state x y bt :
  let w := (getBuildingSize bt).1 in
  let h := (getBuildingSize bt).2 in
  let size := gridSize state in
  grid_wf size (grid state) →
  (1 < w ∨ 1 < h) →
  canPlaceMultiTileBuilding (grid state) x y w h size = true →
  (requiresWaterAdjacency bt = true →
   (getWaterAdjacency (grid state) x y w h size).1 = true) →
  ∃ g', placeBuilding cat state x y (Some bt) None = Some (with_grid state g') ∧
    grid_wf size g' ∧
    0 <= x ∧ 0 <= y ∧ x + w <= size ∧ y + h <= size ∧
    (∀ a b, x <= a < x + w → y <= b < y + h →
       type_at g' a b = Some (if bool_decide (a = x) && bool_decide (b = y)
                              then bt else "empty"%string)) ∧
    (∀ a b, ¬ (x <= a < x + w ∧ y <= b < y + h) →
       tile_at g' a b = tile_at (grid state) a b).
Proof.
  intros w h size Hwf Hbig Hfree Hwater.
  destruct (canPlaceMultiTileBuilding_true _ _ _ _ _ _ Hfree) as (Hw & Hh & Htiles).
  pose proof (getBuildingSize_pos bt) as [Hw1 Hh1]. fold w h in Hw1, Hh1.
  destruct (Htiles x y) as (tile & Ht & Hty); [lia..|].
  destruct (tile_at_Some_inv size _ x y tile Hwf Ht) as [Hx Hy].
  assert (∀ lit, getBuildingSize lit = (1, 1) → String.eqb bt lit = false) as Hnot.
  { intros lit Hlit. apply String.eqb_neq. intros ->. subst w h.
    rewrite Hlit in Hbig. simpl in Hbig. lia. }
  destruct (applyBuildingFootprint_spec cat size (grid state) x y bt ZoneNone 1 Hwf)
    as (g1 & Hg1 & Hwf1 & Hspec); [lia..|]. fold w h in Hspec.
  set (flip := λ g : Grid,
         if requiresWaterAdjacency bt && (getWaterAdjacency (grid state) x y w h size).2
         then update_tile g x y (upd_building (set_flipped (Some true))) else g).
  exists (flip g1). split; [|split; [|split_and!; try lia]].
  - unfold size in *. unfold placeBuilding. rewrite Ht.
    assert (is_type (type (building tile)) "water" = false ∧
            is_type (type (building tile)) "road" = false ∧
            is_type (type (building tile)) "bridge" = false ∧
            is_type (type (building tile)) "rail" = false) as (Hw0 & Hr0 & Hb0 & Hl0).
    { unfold is_type. destruct Hty as [-> | ->]; done. }
    rewrite Hw0, Hr0, Hb0, Hl0. unfold type_is, truthy_type.
    rewrite (Hnot "road"), (Hnot "rail"), (Hnot "") by done.
    cbn [andb negb orb].
    assert (getBuildingSize bt = (w, h)) as -> by (subst w h; by destruct (getBuildingSize bt)).
    cbv iota beta.
    destruct (requiresWaterAdjacency bt) eqn:Hreq.
    + rewrite (Hwater eq_refl). cbn [andb negb].
      rewrite (proj2 (orb_true_iff _ _)); cycle 1.
      { destruct Hbig; [left|right]; apply bool_decide_eq_true; lia. }
      rewrite Hfree. cbn [negb].
      replace (applyBuildingFootprint cat (grid state) x y bt ZoneNone 1 None)
        with (Some g1). done.
    + cbn [andb negb].
      rewrite (proj2 (orb_true_iff _ _)); cycle 1.
      { destruct Hbig; [left|right]; apply bool_decide_eq_true; lia. }
      rewrite Hfree. cbn [negb].
      replace (applyBuildingFootprint cat (grid state) x y bt ZoneNone 1 None)
        with (Some g1). done.
  - unfold flip. destruct (_ && _); [by apply grid_wf_update_tile|done].
  - intros a b Ha Hb. unfold type_at, flip.
    assert (type ∘ building <$> tile_at g1 a b =
            Some (if bool_decide (a = x) && bool_decide (b = y)
                  then bt else "empty"%string)) as Hg1ty.
    { rewrite Hspec, decide_True by done.
      destruct (Htiles a b Ha Hb) as (t & -> & _). simpl. f_equal.
      unfold footprint_tile.
      destruct (bool_decide (a = x) && bool_decide (b = y)); reflexivity. }
    destruct (requiresWaterAdjacency bt && _); [|done]. rewrite tile_at_update_tile.
    destruct (decide (a = x ∧ b = y)) as [[Ea Eb]|Hd]; [|done]. subst a b.
    destruct (tile_at g1 x y); [|done]. simpl in *. done.
  - intros a b Hout. unfold flip.
    assert (tile_at g1 a b = tile_at (grid state) a b) as Hsame.
    { by rewrite Hspec, decide_False. }
    destruct (_ && _); [|done]. rewrite tile_at_update_tile, decide_False; [done|].
    intros [-> ->]. apply Hout. lia.
Qed.

(** In the grid a placement leaves, [findBuildingOrigin] finds the new
    building from every tile of its footprint. *)
Lemma placed_origin size g g' x y bt :
  let w := (getBuildingSize bt).1 in
  let h := (getBuildingSize bt).2 in
  grid_wf size g → grid_wf size g' → footprints_consistent g →
  (1 < w ∨ 1 < h) → 0 <= x → 0 <= y → x + w <= size → y + h <= size →
  (∀ a b, x <= a < x + w → y <= b < y + h →
     ∃ t, tile_at g a b = Some t ∧
          (type (building t) = "grass"%string ∨ type (building t) = "tree"%string)) →
  (∀ a b, x <= a < x + w → y <= b < y + h →
     type_at g' a b = Some (if bool_decide (a = x) && bool_decide (b = y)
                            then bt else "empty"%string)) →
  (∀ a b, ¬ (x <= a < x + w ∧ y <= b < y + h) → tile_at g' a b = tile_at g a b) →
  footprints_consistent g' ∧
  ∀ a b, x <= a < x + w → y <= b < y + h →
    findBuildingOrigin g' a b size = Some (Some (x, y, bt)).
Proof.
  intros w h Hwf Hwf' Hcons Hbig Hx Hy Hw Hh Hold Hnew Hout.
  assert (is_structural bt = false) as Hbt.
  { destruct (is_structural bt) eqn:Hs; [|done]. apply structural_is_single in Hs.
    subst w h. rewrite Hs in Hbig. simpl in Hbig. lia. }
  pose proof (getBuildingSize_le_4 bt) as [Hw4 Hh4]. fold w h in Hw4, Hh4.
  (* a building of the new grid that covers a tile of the footprint is the
     new building *)
  assert (∀ cx cy a b, covers g' cx cy a b → x <= a < x + w → y <= b < y + h →
            cx = x ∧ cy = y) as Hnewonly.
  { intros cx cy a b (c & Hc & Hcs & Hca & Hcb) Ha Hb.
    destruct (decide (x <= cx < x + w ∧ y <= cy < y + h)) as [[Hcx Hcy]|Hcout].
    - pose proof (Hnew cx cy Hcx Hcy) as Hty. unfold type_at in Hty.
      rewrite Hc in Hty. simpl in Hty. injection Hty as Hty.
      destruct (bool_decide (cx = x) && bool_decide (cy = y)) eqn:Hanchor.
      + by apply andb_true_iff in Hanchor
          as [?%bool_decide_eq_true ?%bool_decide_eq_true].
      + by rewrite Hty in Hcs.
    - exfalso. rewrite (Hout cx cy Hcout) in Hc.
      destruct (Hold a b Ha Hb) as (t & Ht & Hgt).
      assert (type (building t) = "empty"%string) as He.
      { apply (Hcons cx cy a b t); [by exists c| |done]. intros [-> ->]. tauto. }
      rewrite He in Hgt. by destruct Hgt. }
  split.
  - intros ox oy a b t Hcov Hne Ht.
    destruct (decide (x <= a < x + w ∧ y <= b < y + h)) as [[Ha Hb]|Haout].
    + destruct (Hnewonly ox oy a b Hcov Ha Hb) as [-> ->].
      pose proof (Hnew a b Ha Hb) as Hty. unfold type_at in Hty.
      rewrite Ht in Hty. simpl in Hty. injection Hty as ->.
      destruct (bool_decide (a = x) && bool_decide (b = y)) eqn:Hanchor; [|done].
      apply andb_true_iff in Hanchor as [?%bool_decide_eq_true ?%bool_decide_eq_true].
      tauto.
    + rewrite (Hout a b Haout) in Ht.
      destruct Hcov as (c & Hc & Hcs & Hca & Hcb).
      destruct (decide (x <= ox < x + w ∧ y <= oy < y + h)) as [[Hox Hoy]|Hoout].
      * pose proof (Hnew ox oy Hox Hoy) as Hty. unfold type_at in Hty.
        rewrite Hc in Hty. simpl in Hty. injection Hty as Hty.
        destruct (bool_decide (ox = x) && bool_decide (oy = y)) eqn:Hanchor.
        -- apply andb_true_iff in Hanchor
             as [->%bool_decide_eq_true ->%bool_decide_eq_true].
           rewrite Hty in Hca, Hcb. fold w h in Hca, Hcb. tauto.
        -- by rewrite Hty in Hcs.
      * rewrite (Hout ox oy Hoout) in Hc. apply (Hcons ox oy a b t); [|done..].
        by exists c.
  - intros a b Ha Hb.
    pose proof (Hnew a b Ha Hb) as Hty. unfold type_at in Hty.
    destruct (tile_at g' a b) as [t|] eqn:Ht; [|done]. simpl in Hty.
    injection Hty as Hty. unfold findBuildingOrigin. rewrite Ht, Hty.
    destruct (bool_decide (a = x) && bool_decide (b = y)) eqn:Hanchor.
    { apply andb_true_iff in Hanchor as [->%bool_decide_eq_true ->%bool_decide_eq_true].
      rewrite Hbt. cbn [negb].
      assert (getBuildingSize bt = (w, h)) as ->
        by (subst w h; by destruct (getBuildingSize bt)).
      rewrite (proj2 (orb_true_iff _ _)); [done|].
      destruct Hbig; [left|right]; apply bool_decide_eq_true; lia. }
    change (negb (is_structural "empty")) with false. cbv iota.
    change (is_type "empty" "empty") with true. cbv iota zeta.
    apply first_some_unique.
    + intros [dx dy] _.
      destruct (bool_decide (a - dx >= 0) && bool_decide (b - dy >= 0) &&
                bool_decide (a - dx < size) && bool_decide (b - dy < size)) eqn:Hin;
        [|by left].
      rewrite !andb_true_iff, !bool_decide_eq_true in Hin.
      destruct (tile_at_Some_wf size g' (a - dx) (b - dy) Hwf') as [c Hc]; [lia..|].
      rewrite Hc. cbn [mbind option_bind].
      destruct (negb (is_structural (type (building c)))) eqn:Hcs; [|by left].
      apply negb_true_iff in Hcs.
      destruct (getBuildingSize (type (building c))) as [cw ch] eqn:Hsz.
      destruct (bool_decide (a >= a - dx) && bool_decide (a < a - dx + cw) &&
                bool_decide (b >= b - dy) && bool_decide (b < b - dy + ch)) eqn:Hcov;
        [|by left].
      rewrite !andb_true_iff, !bool_decide_eq_true in Hcov. right.
      destruct (Hnewonly (a - dx) (b - dy) a b) as [Ex Ey]; [|done..|].
      { exists c. rewrite Hsz. simpl. split; [done|]. split; [done|]. lia. }
      rewrite Ex, Ey in *.
      pose proof (Hnew x y ltac:(subst w; pose proof (getBuildingSize_pos bt); lia)
                    ltac:(subst h; pose proof (getBuildingSize_pos bt); lia)) as Hxy.
      unfold type_at in Hxy. rewrite Hc in Hxy. simpl in Hxy.
      rewrite !bool_decide_eq_true_2 in Hxy by done. simpl in Hxy.
      by injection Hxy as ->.
    + exists (a - x, b - y). split; [apply elem_of_rect; lia|]. cbv beta iota.
      replace (a - (a - x)) with x by lia. replace (b - (b - y)) with y by lia.
      pose proof (getBuildingSize_pos bt) as [Hw1 Hh1]. fold w h in Hw1, Hh1.
      rewrite !bool_decide_eq_true_2 by lia. cbn [andb].
      pose proof (Hnew x y ltac:(lia) ltac:(lia)) as Hxy. unfold type_at in Hxy.
      destruct (tile_at g' x y) as [c|]; [|done]. simpl in Hxy.
      rewrite !bool_decide_eq_true_2 in Hxy by done. simpl in Hxy.
      injection Hxy as Hxy. cbn [mbind option_bind]. rewrite Hxy, Hbt. cbn [negb].
      assert (getBuildingSize bt = (w, h)) as ->
        by (subst w h; by destruct (getBuildingSize bt)).
      by rewrite !bool_decide_eq_true_2 by lia.
Qed.

(** In a well-formed grid in which no building claims a tile that is not
    its own 'empty' tile ([footprints_consistent]), a building of more than
    one tile, placed where its footprint is free grass or trees (next to
    water if it is a waterfront building), is found again: from every tile
    of its footprint [findBuildingOrigin] returns its origin and type.  The
    tiles outside the footprint are untouched, and the grid stays one in
    which no building claims a tile that is not its own 'empty' tile. *)
Theorem placed_building_is_found cat state x y bt :
  let w := (getBuildingSize bt).1 in
  let h := (getBuildingSize bt).2 in
  let size := gridSize state in
  grid_wf size (grid state) →
  footprints_consistent (grid state) →
  (1 < w ∨ 1 < h) →
  canPlaceMultiTileBuilding (grid state) x y w h size = true →
  (requiresWaterAdjacency bt = true →
   (getWaterAdjacency (grid state) x y w h size).1 = true) →
  ∃ g', placeBuilding cat state x y (Some bt) None = Some (with_grid state g') ∧
    grid_wf size g' ∧ footprints_consistent g' ∧
    (∀ a b, x <= a < x + w → y <= b < y + h →
       findBuildingOrigin g' a b size = Some (Some (x, y, bt))) ∧
    (∀ a b, ¬ (x <= a < x + w ∧ y <= b < y + h) →
       tile_at g' a b = tile_at (grid state) a b).
Proof.
  intros w h size Hwf Hcons Hbig Hfree Hwater.
  destruct (placeBuilding_footprint cat state x y bt Hwf Hbig Hfree Hwater)
    as (g' & Hrun & Hwf' & Hx & Hy & Hw & Hh & Hnew & Hout).
  destruct (canPlaceMultiTileBuilding_true _ _ _ _ _ _ Hfree) as (_ & _ & Hold).
  destruct (placed_origin size (grid state) g' x y bt Hwf Hwf' Hcons Hbig Hx Hy Hw Hh
              Hold Hnew Hout) as [Hcons' Horigin].
  by exists g'.
Qed.

Lemma grass_grid_consistent size : footprints_consistent (grass_grid size).
Proof.
  intros ox oy a b t (c & Hc & Hcs & _) _ _. exfalso.
  unfold grass_grid, make_grid, cell_at, row_at in Hc.
  destruct (decide (0 <= oy)); [|done]. rewrite list_lookup_fmap in Hc.
  destruct (seqZ 0 size !! Z.to_nat oy) as [y'|]; [|done]. simpl in Hc.
  destruct (decide (0 <= ox)); [|done]. rewrite list_lookup_fmap in Hc.
  destruct (seqZ 0 size !! Z.to_nat ox) as [x'|]; [|done]. simpl in Hc.
  by injection Hc as <-.
Qed.

(** A 5 x 5 world of grass with a hospital at (0, 0). *)
Definition hospital_state : GameState :=
  Eval vm_compute in
    default (mkState (grass_grid 5) 5 None false)
      (placeBuilding sample_catalog (mkState (grass_grid 5) 5 None false) 0 0
         (Some "hospital"%string) None).

Lemma hospital_state_consistent :
  grid_wf 5 (grid hospital_state) ∧ footprints_consistent (grid hospital_state).
Proof.
  destruct (placeBuilding_footprint sample_catalog (mkState (grass_grid 5) 5 None false)
              0 0 "hospital") as (g' & Hrun & Hwf' & Hx & Hy & Hw & Hh & Hnew & Hout).
  - apply grid_wfb_spec. vm_compute. reflexivity.
  - left. simpl. lia.
  - vm_compute. reflexivity.
  - intros Hreq. by vm_compute in Hreq.
  - assert (canPlaceMultiTileBuilding (grass_grid 5) 0 0 2 2 5 = true) as Hfree
      by (vm_compute; reflexivity).
    destruct (canPlaceMultiTileBuilding_true _ _ _ _ _ _ Hfree) as (_ & _ & Hold).
    destruct (placed_origin 5 (grass_grid 5) g' 0 0 "hospital"
                ltac:(apply grid_wfb_spec; vm_compute; reflexivity) Hwf'
                (grass_grid_consistent 5) ltac:(left; simpl; lia) Hx Hy Hw Hh
                Hold Hnew Hout) as [Hcons' _].
    assert (g' = grid hospital_state) as <-; [|done].
    vm_compute in Hrun. by injection Hrun as <-.
Qed.

(** At a world that holds a building already: a second hospital beside
    the first. *)
Lemma placed_building_is_found_witness :
  ∃ g', placeBuilding sample_catalog hospital_state 2 1 (Some "hospital"%string) None
          = Some (with_grid hospital_state g') ∧
    grid_wf 5 g' ∧ footprints_consistent g' ∧
    (∀ a b, 2 <= a < 2 + 2 → 1 <= b < 1 + 2 →
       findBuildingOrigin g' a b 5 = Some (Some (2, 1, "hospital"%string))) ∧
    (∀ a b, ¬ (2 <= a < 2 + 2 ∧ 1 <= b < 1 + 2) →
       tile_at g' a b = tile_at (grid hospital_state) a b).
Proof.
  destruct hospital_state_consistent as [Hwf Hcons].
  apply (placed_building_is_found sample_catalog hospital_state 2 1 "hospital").
  - done.
  - done.
  - left. simpl. lia.
  - vm_compute. reflexivity.
  - intros Hreq. by vm_compute in Hreq.
Defined.

(** In a well-formed grid in which no building claims a tile that is not
    its own 'empty' tile ([footprints_consistent]), placing a building of
    more than one tile on free ground and then bulldozing any tile of its
    footprint removes the whole building: every tile of the footprint ends
    as grass with zone 'none', and every tile outside it is as it was
    before the placement. *)
Theorem place_then_bulldoze_clears_footprint cat state x y bt a b :
  let w := (getBuildingSize bt).1 in
  let h := (getBuildingSize bt).2 in
  let size := gridSize state in
  grid_wf size (grid state) →
  footprints_consistent (grid state) →
  (1 < w ∨ 1 < h) →
  canPlaceMultiTileBuilding (grid state) x y w h size = true →
  (requiresWaterAdjacency bt = true →
   (getWaterAdjacency (grid state) x y w h size).1 = true) →
  x <= a < x + w → y <= b < y + h →
  ∃ state' g'',
    placeBuilding cat state x y (Some bt) None = Some state' ∧
    bulldozeTile state' a b = Some (with_grid state g'') ∧
    (∀ a' b', x <= a' < x + w → y <= b' < y + h →
       ∃ t, tile_at g'' a' b' = Some t ∧ building t = createBuilding "grass" ∧
            zone t = ZoneNone ∧ hasRailOverlay t = Some false) ∧
    (∀ a' b', ¬ (x <= a' < x + w ∧ y <= b' < y + h) →
       tile_at g'' a' b' = tile_at (grid state) a' b').
Proof.
  intros w h size Hwf Hcons Hbig Hfree Hwater Ha Hb.
  destruct (placeBuilding_footprint cat state x y bt Hwf Hbig Hfree Hwater)
    as (g' & Hrun & Hwf' & Hx & Hy & Hw & Hh & Hnew & Hout).
  destruct (canPlaceMultiTileBuilding_true _ _ _ _ _ _ Hfree) as (_ & _ & Hold).
  destruct (placed_origin size (grid state) g' x y bt Hwf Hwf' Hcons Hbig Hx Hy Hw Hh
              Hold Hnew Hout) as [_ Horigin].
  destruct (clear_footprint_spec size g' x y bt true Hwf' Hx Hy)
    as (g'' & Hclear & Hwf'' & Hspec). fold w h in Hspec.
  exists (with_grid state g'), g''. split; [done|]. split; [|split].
  - unfold bulldozeTile. cbn [grid gridSize with_grid].
    pose proof (Hnew a b Ha Hb) as Hty. unfold type_at in Hty.
    destruct (tile_at g' a b) as [t|]; [|done]. simpl in Hty. injection Hty as Hty.
    assert (is_type (type (building t)) "water" = false ∧
            is_type (type (building t)) "bridge" = false ∧
            is_type (type (building t)) "road" = false) as (-> & -> & ->).
    { rewrite Hty. destruct (bool_decide (a = x) && bool_decide (b = y)); [|done].
      unfold is_type. split_and!; apply String.eqb_neq; intros ->;
        subst w h; simpl in Hbig; lia. }
    cbn [mbind option_bind andb]. fold size. rewrite (Horigin a b Ha Hb).
    cbn [mbind option_bind]. rewrite Hclear. done.
  - intros a' b' Ha' Hb'. rewrite Hspec, decide_True by done.
    pose proof (Hnew a' b' Ha' Hb') as Hty. unfold type_at in Hty.
    destruct (tile_at g' a' b') as [t|]; [|done]. by eexists.
  - intros a' b' Hne. rewrite Hspec, decide_False by done. by apply Hout.
Qed.

Lemma place_then_bulldoze_clears_footprint_witness :
  ∃ state' g'',
    placeBuilding sample_catalog hospital_state 2 1 (Some "hospital"%string) None
      = Some state' ∧
    bulldozeTile state' 3 2 = Some (with_grid hospital_state g'') ∧
    (∀ a' b', 2 <= a' < 2 + 2 → 1 <= b' < 1 + 2 →
       ∃ t, tile_at g'' a' b' = Some t ∧ building t = createBuilding "grass" ∧
            zone t = ZoneNone ∧ hasRailOverlay t = Some false) ∧
    (∀ a' b', ¬ (2 <= a' < 2 + 2 ∧ 1 <= b' < 1 + 2) →
       tile_at g'' a' b' = tile_at (grid hospital_state) a' b').
Proof.
  destruct hospital_state_consistent as [Hwf Hcons].
  apply (place_then_bulldoze_clears_footprint sample_catalog hospital_state 2 1
           "hospital" 3 2).
  - done.
  - done.
  - left. simpl. lia.
  - vm_compute. reflexivity.
  - intros Hreq. by vm_compute in Hreq.
  - simpl. lia.
  - simpl. lia.
Defined.

(** The hypothesis on the footprints cannot be dropped.  Shrinking a map
    cuts the buildings on its border: a university placed at (21, 10) on a
    24 x 24 map keeps its origin when the map is shrunk by 2 and expanded
    by 2 again, but the two columns to its right are new grass.  A hospital
    placed there at (22, 9) is then not found from its own tile (22, 10):
    [findBuildingOrigin] reports the university. *)
Definition cut_state : GameState :=
  Eval vm_compute in
    let s0 := mkState (grass_grid 24) 24 None false in
    let s1 :=
      default s0
        (placeBuilding sample_catalog s0 21 10 (Some "university"%string) None) in
    match shrinkGrid (grid s1) 24 2 with
    | Some (Some (g2, size2)) =>
        match expandGrid g2 size2 2 with
        | Some (g3, size3) => mkState g3 size3 None false
        | None => s1
        end
    | _ => s1
    end.

Example cut_building_claims_foreign_tile :
  gridSize cut_state = 24 ∧ grid_wf 24 (grid cut_state) ∧
  canPlaceMultiTileBuilding (grid cut_state) 22 9 2 2 24 = true ∧
  ∃ g', placeBuilding sample_catalog cut_state 22 9 (Some "hospital"%string) None
          = Some (with_grid cut_state g') ∧
    findBuildingOrigin g' 22 10 24 = Some (Some (21, 10, "university"%string)).
Proof.
  split; [reflexivity|]. split; [apply grid_wfb_spec; vm_compute; reflexivity|].
  split; [vm_compute; reflexivity|].
  eexists. split; vm_compute; reflexivity.
Qed.

(* ================================================================== *)
(** ** Road access on maps of any size *)
(* ================================================================== *)

(** A road or bridge tile is at most [maxDistance] steps away, the tiles
    between the start and it having the start tile's zone and not being
    water. *)
Definition road_near (g : Grid) (z : ZoneType) (start : Z * Z) (maxDistance : Z) : Prop :=
  ∃ n p q, steps_to g z start n p ∧ adjacent p q ∧ road_at g q ∧
           Z.of_nat n + 1 <= maxDistance.

Section RoadAccessSound.
Context (g : Grid) (size : Z) (z : ZoneType) (maxDistance : Z) (start : Z * Z).
Context (Hsize : size <= 32768) (Hmax : maxDistance <= 32767).

(** Every queue entry is a tile reached from the start by as many steps as
    the entry says. *)
Definition queue_sound (Q : list (Z * Z * Z)) : Prop :=
  ∀ e, e ∈ Q → ∃ n, e.2 = Z.of_nat n ∧ steps_to g z start n (e.1.1, e.1.2).

Lemma visit_neighbor_sound st cx cy (n : nat) nb found st' :
  queue_sound (queue st) → steps_to g z start n (cx, cy) →
  Z.of_nat n < maxDistance → adjacent (cx, cy) nb →
  visit_neighbor g size z (Z.of_nat n) st nb = Some (found, st') →
  queue_sound (queue st') ∧ queueHead st' = queueHead st ∧
  (found = true → road_near g z start maxDistance).
Proof.
  intros HQ Hsteps Hn Hadj. unfold visit_neighbor. destruct nb as [nx ny].
  destruct (bool_decide (nx < 0) || bool_decide (nx >= size) ||
            bool_decide (ny < 0) || bool_decide (ny >= size)) eqn:Hout.
  { by intros [= <- <-]. }
  rewrite !orb_false_iff, !bool_decide_eq_false in Hout.
  destruct (visited_get _ _); [by intros [= <- <-]|]. cbn [queue queueHead visited].
  destruct (tile_at g nx ny) as [neighbor|] eqn:Hnb; [|done]. cbn [mbind option_bind].
  destruct (is_road_or_bridge neighbor) eqn:Hroad.
  { intros [= <- <-]. split; [done|]. split; [done|]. intros _.
    exists n, (cx, cy), (nx, ny). split; [done|]. split; [done|].
    split; [by exists neighbor|lia]. }
  destruct (isPassableZone z neighbor &&
            bool_decide (3 * Z.of_nat (length (queue st)) < ROAD_ACCESS_QUEUE_LENGTH - 3))
    eqn:Hpush; [|by intros [= <- <-]].
  apply andb_true_iff in Hpush as [Hpass _].
  intros [= <- <-]. cbn [queue queueHead]. split; [|done].
  intros e [He | ->%list_elem_of_singleton]%elem_of_app; [by apply HQ|].
  rewrite !to_int16_small by lia. exists (S n). cbn [fst snd]. split; [lia|].
  eapply steps_to_next; [done..|]. by exists neighbor.
Qed.

Lemma visit_neighbors_sound cx cy (n : nat) ns : ∀ st found st',
  queue_sound (queue st) → steps_to g z start n (cx, cy) →
  Z.of_nat n < maxDistance → (∀ nb, nb ∈ ns → adjacent (cx, cy) nb) →
  visit_neighbors g size z (Z.of_nat n) st ns = Some (found, st') →
  queue_sound (queue st') ∧ queueHead st' = queueHead st ∧
  (found = true → road_near g z start maxDistance).
Proof.
  induction ns as [|nb ns IH]; intros st found st' HQ Hsteps Hn Hadj; simpl.
  { by intros [= <- <-]. }
  destruct (visit_neighbor g size z (Z.of_nat n) st nb) as [[f1 st1]|] eqn:Hone; [|done].
  cbn [mbind option_bind].
  destruct (visit_neighbor_sound st cx cy n nb f1 st1) as (HQ1 & Hh1 & Hf1); try done.
  { apply Hadj, elem_of_cons. by left. }
  destruct f1.
  - intros [= <- <-]. split; [done|]. split; [done|]. intros _. by apply Hf1.
  - intros Hrest. destruct (IH st1 found st' HQ1 Hsteps Hn) as (HQ' & Hh' & Hf'); [|done|].
    { intros nb' Hnb'. apply Hadj, elem_of_cons. by right. }
    split; [done|]. split; [congruence|done].
Qed.

Lemma bfs_loop_sound fuel : ∀ st st',
  queue_sound (queue st) →
  bfs_loop fuel g size z maxDistance st = Some (true, st') →
  road_near g z start maxDistance.
Proof.
  induction fuel as [|fuel IH]; intros st st' HQ; [done|]. cbn [bfs_loop].
  destruct (queue st !! queueHead st) as [[[cx cy] dist]|] eqn:Hhead; [|done].
  destruct (HQ (cx, cy, dist)) as (n & Hd & Hsteps); [by eapply list_elem_of_lookup_2|].
  cbn [fst snd] in Hd, Hsteps. subst dist.
  case_bool_decide as Hfar; [by apply IH|].
  destruct (visit_neighbors g size z (Z.of_nat n) _ _) as [[found st1]|] eqn:Hvisit;
    [|done].
  cbn [mbind option_bind].
  destruct (visit_neighbors_sound cx cy n _
              (mkBfs (queue st) (S (queueHead st)) (visited st)) found st1 HQ Hsteps
              ltac:(lia)
              ltac:(intros nb Hnb; by apply adjacent_neighbors) Hvisit)
    as (HQ1 & _ & Hfound).
  destruct found; [intros _; by apply Hfound|]. by apply IH.
Qed.

End RoadAccessSound.

(** [hasRoadAccess] reports no road that is not there, on maps of every
    size up to 32768 and so also beyond the 128 x 128 scratch buffer,
    whatever the buffer holds: when it answers true the start tile is zoned
    and a road or bridge tile lies within [maxDistance] steps, through
    tiles of the start tile's zone that are not water. *)
Theorem road_access_is_sound g size x y maxDistance t0 v0 v1 :
  grid_wf size g → size <= 32768 → maxDistance <= 32767 →
  tile_at g x y = Some t0 →
  hasRoadAccess g x y size maxDistance v0 = Some (true, v1) →
  zone t0 ≠ ZoneNone ∧ road_near g (zone t0) (x, y) maxDistance.
Proof.
  intros Hwf Hsize Hmax Ht0.
  destruct (tile_at_Some_inv size g x y t0 Hwf Ht0) as [Hx Hy].
  unfold hasRoadAccess. rewrite Ht0. cbn -[bfs_loop foldl box visited_set to_int16].
  destruct (decide (zone t0 = ZoneNone)) as [Hz|Hz]; [done|].
  rewrite !to_int16_small by lia.
  destruct (bfs_loop 256 g size (zone t0) maxDistance _) as [[found st']|] eqn:Hrun;
    [|done].
  cbn [mbind option_bind]. intros [= -> <-]. split; [done|].
  eapply (bfs_loop_sound g size (zone t0) maxDistance (x, y) Hsize Hmax 256); [|done].
  cbn [queue]. intros e ->%list_elem_of_singleton. exists 0%nat. split; [done|].
  apply steps_to_start.
Qed.

Lemma road_access_is_sound_witness :
  let g := zoned_grid 130 92 100 in
  ∃ v1, hasRoadAccess g 100 100 130 DEFAULT_MAX_DISTANCE ∅ = Some (true, v1) ∧
        road_near g Residential (100, 100) DEFAULT_MAX_DISTANCE.
Proof.
  intros g.
  destruct (hasRoadAccess g 100 100 130 DEFAULT_MAX_DISTANCE ∅) as [[b v1]|] eqn:Hrun;
    [|by vm_compute in Hrun].
  assert (b = true) as ->.
  { assert (fst <$> hasRoadAccess g 100 100 130 DEFAULT_MAX_DISTANCE ∅ = Some true)
      as Hb by (by vm_compute).
    rewrite Hrun in Hb. by injection Hb. }
  exists v1. split; [done|].
  eapply (road_access_is_sound g 130 100 100 DEFAULT_MAX_DISTANCE
            (set_zone Residential (createTile 100 100 "grass")) ∅ v1).
  - apply grid_wfb_spec. vm_compute. reflexivity.
  - lia.
  - unfold DEFAULT_MAX_DISTANCE. lia.
  - by vm_compute.
  - done.
Defined.

(* ================================================================== *)
(** ** Shrinking and expanding again *)
(* ================================================================== *)

(** Shrinking a map and expanding it again by the same amount does not
    bring the border back: the result has the original size, the tiles at
    least [k] away from every edge are the original ones, and the ring of
    width [k] around them is fresh grass.  (The other order, expanding
    first, restores the whole grid.)  Shrinking below 20 is refused. *)
Theorem shrink_then_expand_resets_border g n k :
  grid_wf n g → coords_ok g → 0 <= k →
  (n - k * 2 < 20 → shrinkGrid g n k = Some None) ∧
  (20 <= n - k * 2 →
   ∃ g1 g2, shrinkGrid g n k = Some (Some (g1, n - k * 2)) ∧
     expandGrid g1 (n - k * 2) k = Some (g2, n) ∧
     grid_wf n g2 ∧ coords_ok g2 ∧
     ∀ x y, 0 <= x < n → 0 <= y < n →
       tile_at g2 x y =
       if bool_decide (k <= x < n - k ∧ k <= y < n - k)
       then tile_at g x y else Some (createTile x y "grass")).
Proof.
  intros Hwf Hxy Hk. split.
  { intros Hsmall. unfold shrinkGrid. by rewrite decide_True by lia. }
  intros Hbig. unfold shrinkGrid, expandGrid. rewrite decide_False by lia.
  set (cell := λ x y : Z, _ : option Tile).
  destruct (build_grid_total (n - k * 2) cell) as [g1 Hg1].
  { intros x y Hx Hy. unfold cell.
    destruct (tile_at_Some_wf n g (x + k) (y + k) Hwf) as [t ->]; [lia..|]. done. }
  rewrite Hg1. cbn [mbind option_bind]. exists g1.
  apply build_grid_spec in Hg1 as [Hwf1 Hcell]; [|lia].
  replace (n - k * 2 + k * 2) with n by lia.
  match goal with
  | |- ∃ _, _ ∧ (build_grid n ?c ≫= _) = _ ∧ _ => set (cell' := c)
  end.
  destruct (build_grid_total n cell') as [g2 Hg2].
  { intros x y Hx Hy. unfold cell'.
    destruct (_ && _) eqn:Hin; [|done].
    rewrite !andb_true_iff, !bool_decide_eq_true in Hin.
    destruct (tile_at_Some_wf _ g1 (x - k) (y - k) Hwf1) as [t ->]; [lia..|]. done. }
  rewrite Hg2. cbn [mbind option_bind]. exists g2. split; [done|]. split; [done|].
  apply build_grid_spec in Hg2 as [Hwf2 Hcell2]; [|lia].
  assert (∀ x y, 0 <= x < n → 0 <= y < n →
            tile_at g2 x y =
            if bool_decide (k <= x < n - k ∧ k <= y < n - k)
            then tile_at g x y else Some (createTile x y "grass")) as Htiles.
  { intros x y Hx Hy. rewrite <- Hcell2 by done. unfold cell'.
    destruct (decide (k <= x < n - k ∧ k <= y < n - k)) as [Hin|Hin];
      [rewrite (bool_decide_eq_true_2 _ Hin)|rewrite (bool_decide_eq_false_2 _ Hin)].
    - rewrite !bool_decide_eq_true_2 by lia. cbn [andb].
      rewrite <- Hcell by lia. unfold cell.
      replace (x - k + k) with x by lia. replace (y - k + k) with y by lia.
      destruct (tile_at_Some_wf n g x y Hwf) as [t Ht]; [done..|].
      rewrite Ht. simpl. f_equal. destruct (Hxy _ _ _ Ht). by apply set_xy_stored.
    - destruct (_ && _) eqn:Hin'; [|done].
      rewrite !andb_true_iff, !bool_decide_eq_true in Hin'. lia. }
  split; [done|]. split; [|done].
  intros x y t Ht. destruct (tile_at_Some_inv n g2 x y t Hwf2 Ht) as [Hx Hy].
  rewrite Htiles in Ht by done. case_bool_decide.
  - by apply Hxy.
  - by injection Ht as <-.
Qed.

Lemma shrink_then_expand_resets_border_witness :
  let g := zoned_grid 22 0 0 in
  ∃ g1 g2, shrinkGrid g 22 1 = Some (Some (g1, 22 - 1 * 2)) ∧
    expandGrid g1 (22 - 1 * 2) 1 = Some (g2, 22) ∧
    tile_at g2 0 0 = Some (createTile 0 0 "grass") ∧
    tile_at g2 5 5 = tile_at g 5 5.
Proof.
  intros g.
  destruct (shrink_then_expand_resets_border g 22 1) as [_ Hrun].
  - apply grid_wfb_spec. vm_compute. reflexivity.
  - apply coords_okb_spec. vm_compute. reflexivity.
  - lia.
  - destruct Hrun as (g1 & g2 & Hs & He & _ & _ & Htiles); [lia|].
    exists g1, g2. split; [done|]. split; [done|]. split.
    + by rewrite Htiles by lia.
    + by rewrite Htiles by lia.
Defined.

(* ================================================================== *)
(** ** The budget *)
(* ================================================================== *)

Inductive Department :=
  DPolice | DFire | DHealth | DEducation | DTransportation | DParks | DPower | DWater.

#[global] Instance Department_eq_dec : EqDecision Department.
Proof. solve_decision. Defined.

Definition departments : list Department :=
  [DPolice; DFire; DHealth; DEducation; DTransportation; DParks; DPower; DWater].

(** One entry of a [Budget]: [{ name, funding, cost }]. *)
Record BudgetEntry := mkEntry {
  entry_name : string;
  funding : Q;
  cost : Q;
}.

(** A [Budget] object holds a reference to an entry object for each
    department; the entries live in a store.  [{ ...budget }] copies the
    references, not the entries. *)
Abbreviation Budget := (Department → positive) (only parsing).
Abbreviation BudgetStore := (gmap positive BudgetEntry) (only parsing).

(** [budget.d.cost = v]: [None] when [budget.d] is not an object. *)
Definition set_cost (budget : Budget) (d : Department) (v : Q) (σ : BudgetStore)
  : option BudgetStore :=
  e ← σ !! budget d;
  Some (<[budget d := mkEntry (entry_name e) (funding e) v]> σ).

(** The counters of [updateBudgetCosts]. *)
Record BuildingCounts := mkCounts {
  policeCount : Z; fireCount : Z; hospitalCount : Z; schoolCount : Z;
  universityCount : Z; parkCount : Z; powerCount : Z; waterCount : Z;
  roadCount : Z; subwayTileCount : Z; subwayStationCount : Z;
}.

(** The body of the two loops, for one tile. *)
Definition count_tile (c : BuildingCounts) (tile : Tile) : BuildingCounts :=
  let t := type (building tile) in
  let bump (lit : list string) (n : Z) := if includes lit t then n + 1 else n in
  mkCounts
    (bump ["police_station"]%string (policeCount c))
    (bump ["fire_station"]%string (fireCount c))
    (bump ["hospital"]%string (hospitalCount c))
    (bump ["school"]%string (schoolCount c))
    (bump ["university"]%string (universityCount c))
    (bump ["park"; "park_large"; "tennis"]%string (parkCount c))
    (bump ["power_plant"]%string (powerCount c))
    (bump ["water_tower"]%string (waterCount c))
    (bump ["road"]%string (roadCount c))
    (if hasSubway tile then subwayTileCount c + 1 else subwayTileCount c)
    (bump ["subway_station"]%string (subwayStationCount c)).

Definition count_buildings (g : Grid) : BuildingCounts :=
  foldl (λ c row, foldl count_tile c row) (mkCounts 0 0 0 0 0 0 0 0 0 0 0) g.

(** The cost [updateBudgetCosts] assigns to a department. *)
Definition department_cost (c : BuildingCounts) (d : Department) : Q :=
  inject_Z
    match d with
    | DPolice => policeCount c * 50
    | DFire => fireCount c * 50
    | DHealth => hospitalCount c * 100
    | DEducation => schoolCount c * 30 + universityCount c * 100
    | DTransportation =>
        roadCount c * 2 + subwayTileCount c * 3 + subwayStationCount c * 25
    | DParks => parkCount c * 10
    | DPower => powerCount c * 150
    | DWater => waterCount c * 75
    end.

(** [updateBudgetCosts(grid, budget)]: the budget object it returns and
    the store after its eight assignments. *)
Definition updateBudgetCosts (g : Grid) (budget : Budget) (σ : BudgetStore)
  : option (Budget * BudgetStore) :=
  let newBudget := budget in
  let c := count_buildings g in
  σ ← for_each (λ σ d, set_cost newBudget d (department_cost c d) σ) σ departments;
  Some (newBudget, σ).

Definition counts_nonneg (c : BuildingCounts) : Prop :=
  0 <= policeCount c ∧ 0 <= fireCount c ∧ 0 <= hospitalCount c ∧ 0 <= schoolCount c ∧
  0 <= universityCount c ∧ 0 <= parkCount c ∧ 0 <= powerCount c ∧ 0 <= waterCount c ∧
  0 <= roadCount c ∧ 0 <= subwayTileCount c ∧ 0 <= subwayStationCount c.

Lemma count_buildings_nonneg g : counts_nonneg (count_buildings g).
Proof.
  unfold count_buildings.
  assert (counts_nonneg (mkCounts 0 0 0 0 0 0 0 0 0 0 0)) as Hinit.
  { unfold counts_nonneg. simpl. lia. }
  revert Hinit. generalize (mkCounts 0 0 0 0 0 0 0 0 0 0 0).
  induction g as [|row g IH]; intros c Hc; [done|]. simpl. apply IH.
  revert c Hc. induction row as [|tile row IHrow]; intros c Hc; [done|].
  simpl. apply IHrow. unfold counts_nonneg, count_tile in *. cbn.
  destruct Hc as (? & ? & ? & ? & ? & ? & ? & ? & ? & ? & ?).
  repeat match goal with |- context [if ?b then _ else _] => destruct b end; lia.
Qed.

Lemma department_cost_nonneg c d : counts_nonneg c → (0 <= department_cost c d)%Q.
Proof.
  intros (? & ? & ? & ? & ? & ? & ? & ? & ? & ? & ?). unfold department_cost.
  change 0%Q with (inject_Z 0). rewrite <- Zle_Qle. destruct d; lia.
Qed.

(** The eight assignments, on any list of distinct departments. *)
Lemma set_costs_spec (budget : Department → positive) (c : BuildingCounts) :
  (∀ d d', budget d = budget d' → d = d') →
  ∀ l : list Department, NoDup l → ∀ σ0 : gmap positive BudgetEntry,
    (∀ d, is_Some (σ0 !! budget d)) →
    ∃ σ', for_each (λ σ d, set_cost budget d (department_cost c d) σ) σ0 l = Some σ' ∧
      (∀ d, is_Some (σ' !! budget d)) ∧
      (∀ d e, σ0 !! budget d = Some e →
         σ' !! budget d =
           Some (if decide (d ∈ l)
                 then mkEntry (entry_name e) (funding e) (department_cost c d) else e)) ∧
      (∀ r, (∀ d, budget d ≠ r) → σ' !! r = σ0 !! r).
Proof.
  intros Hinj. induction l as [|d0 l IH]; intros Hnd σ0 Hex0.
  - exists σ0. split; [done|]. split; [done|]. split; [|done].
    intros d e He. rewrite decide_False; [done|]. by intros ?%elem_of_nil.
  - apply NoDup_cons in Hnd as [Hd0 Hnd]. cbn [for_each].
    destruct (Hex0 d0) as [e0 He0].
    set (σ1 := <[budget d0 := mkEntry (entry_name e0) (funding e0)
                               (department_cost c d0)]> σ0).
    replace (set_cost budget d0 (department_cost c d0) σ0) with (Some σ1)
      by (unfold set_cost; by rewrite He0).
    cbn [mbind option_bind].
    destruct (IH Hnd σ1) as (σ' & Hrun & Hex' & Hupd & Hother).
    { intros d. unfold σ1. destruct (decide (budget d0 = budget d)) as [->|Hne].
      - rewrite lookup_insert_eq. by eexists.
      - rewrite lookup_insert_ne by done. apply Hex0. }
    exists σ'. split; [done|]. split; [done|]. split.
    + intros d e He. destruct (decide (d = d0)) as [->|Hne].
      * rewrite (Hupd d0 (mkEntry (entry_name e0) (funding e0) (department_cost c d0))).
        2:{ unfold σ1. by rewrite lookup_insert_eq. }
        rewrite He0 in He. injection He as <-.
        rewrite decide_False by done. rewrite decide_True; [done|].
        apply elem_of_cons. by left.
      * rewrite (Hupd d e).
        2:{ unfold σ1. rewrite lookup_insert_ne; [done|]. intros E. by apply Hinj in E. }
        f_equal. destruct (decide (d ∈ l)) as [Hin|Hin].
        -- rewrite decide_True; [done|]. apply elem_of_cons. by right.
        -- rewrite decide_False; [done|]. intros [?|?]%elem_of_cons; done.
    + intros r Hr. rewrite Hother by done. unfold σ1.
      rewrite lookup_insert_ne; [done|]. apply Hr.
Qed.

Lemma NoDup_departments : NoDup departments.
Proof.
  unfold departments. repeat (apply NoDup_cons; split; [set_solver|]).
  apply NoDup_nil_2.
Qed.

Lemma elem_of_departments d : d ∈ departments.
Proof. unfold departments. destruct d; set_solver. Qed.

(** [updateBudgetCosts] writes into the entries of the budget it is
    given: the budget it returns holds the same entry objects, so that the
    caller's budget shows the new costs as well.  For a budget of eight
    distinct entries (as [createInitialBudget] builds it), every
    department's entry keeps its name and funding and gets the cost the
    counts of the grid give, which is not negative; every other object of
    the store is left alone. *)
Theorem updateBudgetCosts_writes_in_place g (budget : Department → positive)
    (σ : gmap positive BudgetEntry) :
  (∀ d, is_Some (σ !! budget d)) →
  (∀ d d', budget d = budget d' → d = d') →
  ∃ σ', updateBudgetCosts g budget σ = Some (budget, σ') ∧
    (∀ d, ∃ e, σ !! budget d = Some e ∧
       σ' !! budget d =
         Some (mkEntry (entry_name e) (funding e)
                 (department_cost (count_buildings g) d)) ∧
       (0 <= department_cost (count_buildings g) d)%Q) ∧
    (∀ l, (∀ d, budget d ≠ l) → σ' !! l = σ !! l).
Proof.
  intros Hex Hinj. unfold updateBudgetCosts.
  destruct (set_costs_spec budget (count_buildings g) Hinj departments
              NoDup_departments σ Hex) as (σ' & Hrun & _ & Hupd & Hother).
  rewrite Hrun. cbn [mbind option_bind]. exists σ'. split; [done|]. split; [|done].
  intros d. destruct (Hex d) as [e He]. exists e. split; [done|]. split.
  - rewrite (Hupd d e He), decide_True; [done|]. apply elem_of_departments.
  - apply department_cost_nonneg, count_buildings_nonneg.
Qed.

(** The budget of [createInitialBudget], with its entries at 1 to 8. *)
Definition initial_budget : Department → positive :=
  λ d, match d with
       | DPolice => 1 | DFire => 2 | DHealth => 3 | DEducation => 4
       | DTransportation => 5 | DParks => 6 | DPower => 7 | DWater => 8
       end%positive.

Definition initial_budget_store : gmap positive BudgetEntry :=
  list_to_map [(1, mkEntry "Police" 100 0); (2, mkEntry "Fire" 100 0);
               (3, mkEntry "Health" 100 0); (4, mkEntry "Education" 100 0);
               (5, mkEntry "Transportation" 100 0); (6, mkEntry "Parks" 100 0);
               (7, mkEntry "Power" 100 0); (8, mkEntry "Water" 100 0)]%positive.

Lemma updateBudgetCosts_writes_in_place_witness :
  ∃ σ', updateBudgetCosts (grid upgrade_state) initial_budget initial_budget_store
          = Some (initial_budget, σ') ∧
    σ' !! initial_budget DPower = Some (mkEntry "Power" 100 150) ∧
    σ' !! initial_budget DTransportation = Some (mkEntry "Transportation" 100 2).
Proof.
  destruct (updateBudgetCosts_writes_in_place (grid upgrade_state) initial_budget
              initial_budget_store) as (σ' & Hrun & Hcost & _).
  - intros []; by eexists.
  - by intros [] [].
  - exists σ'. split; [done|]. split.
    + destruct (Hcost DPower) as (e & He & -> & _). vm_compute in He.
      by injection He as <-.
    + destruct (Hcost DTransportation) as (e & He & -> & _). vm_compute in He.
      by injection He as <-.
Defined.

(* ================================================================== *)
(** ** The statistics of a city *)
(* ================================================================== *)

(** [Stats] (types/economy.ts), as [calculateStats] builds it. *)
Record Stats := mkCityStats {
  stats_population : Z;
  stats_jobs : Z;
  stats_money : Q;
  stats_income : Z;
  stats_expenses : Z;
  stats_happiness : Q;
  stats_health : Q;
  stats_education : Q;
  stats_safety : Q;
  stats_environment : Q;
  stats_demand : Demand;
}.

(** The local variables the loops of [calculateStats] update. *)
Record StatsAcc := mkAcc {
  acc_population : Z; acc_jobs : Z; acc_totalPollution : Q;
  acc_toxicTiles : Z; acc_nutrientTiles : Z; acc_thermalTiles : Z;
  acc_residentialZones : Z; acc_commercialZones : Z; acc_industrialZones : Z;
  acc_developedResidential : Z; acc_developedCommercial : Z;
  acc_developedIndustrial : Z;
  acc_totalLandValue : Q; acc_treeCount : Z; acc_waterCount : Z; acc_parkCount : Z;
  acc_subwayTiles : Z; acc_subwayStations : Z; acc_railTiles : Z;
  acc_railStations : Z;
  acc_hasAirport : bool; acc_hasCityHall : bool; acc_hasSpaceProgram : bool;
  acc_stadiumCount : Z; acc_museumCount : Z; acc_hasAmusementPark : bool;
}.

Definition acc0 : StatsAcc :=
  mkAcc 0 0 0 0 0 0 0 0 0 0 0 0 0 0 0 0 0 0 0 0 false false false 0 0 false.

Section CityStats.

(** [Math.floor(jobsFromTile * 1.15)].  The product is a double and 1.15 is
    not one exactly: what the expression yields for a number of jobs is left
    open. *)
Variable floor_1_15 : Z → Z.

(** The body of the two loops of [calculateStats], for one tile. *)
Definition stats_tile (a : StatsAcc) (tile : Tile) : StatsAcc :=
  let b := building tile in
  let t := type b in
  let jobsFromTile :=
    if hasSubway tile && bool_decide (zone tile = Commercial)
    then floor_1_15 (jobs b) else jobs b in
  let inc (c : bool) (n : Z) := if c then n + 1 else n in
  let polluted := Qlt_b 40 (pollution tile) in
  let toxic := bool_decide (pollutionType tile = Some "toxic"%string) in
  let nutrient := bool_decide (pollutionType tile = Some "nutrient"%string) in
  let thermal := bool_decide (pollutionType tile = Some "thermal"%string) in
  let developed := negb (is_type t "grass") && negb (is_type t "empty") in
  let residential := bool_decide (zone tile = Residential) in
  let commercial := bool_decide (zone tile = Commercial) in
  let industrial := bool_decide (zone tile = Industrial) in
  let complete :=
    match constructionProgress b with
    | None => true
    | Some progress => Qle_bool 100 progress
    end in
  mkAcc
    (acc_population a + population b)
    (acc_jobs a + jobsFromTile)
    (acc_totalPollution a + pollution tile)%Q
    (inc (polluted && toxic) (acc_toxicTiles a))
    (inc (polluted && negb toxic && nutrient) (acc_nutrientTiles a))
    (inc (polluted && negb toxic && negb nutrient && thermal) (acc_thermalTiles a))
    (inc residential (acc_residentialZones a))
    (inc commercial (acc_commercialZones a))
    (inc industrial (acc_industrialZones a))
    (inc (residential && developed) (acc_developedResidential a))
    (inc (commercial && developed) (acc_developedCommercial a))
    (inc (industrial && developed) (acc_developedIndustrial a))
    (acc_totalLandValue a + landValue tile)%Q
    (inc (is_type t "tree") (acc_treeCount a))
    (inc (is_type t "water") (acc_waterCount a))
    (inc (is_type t "tennis")
       (inc (is_type t "park" || is_type t "park_large") (acc_parkCount a)))
    (inc (hasSubway tile) (acc_subwayTiles a))
    (inc (is_type t "subway_station") (acc_subwayStations a))
    (inc (is_type t "rail" || default false (hasRailOverlay tile)) (acc_railTiles a))
    (inc (is_type t "rail_station") (acc_railStations a))
    (acc_hasAirport a || complete && is_type t "airport")
    (acc_hasCityHall a || complete && is_type t "city_hall")
    (acc_hasSpaceProgram a || complete && is_type t "space_program")
    (inc (complete && is_type t "stadium") (acc_stadiumCount a))
    (inc (complete && is_type t "museum") (acc_museumCount a))
    (acc_hasAmusementPark a || complete && is_type t "amusement_park").

(** [calculateStats].  [None] stands for the [TypeError] of reading a tile
    outside the grid, or a cost of a budget without the department. *)
Definition calculateStats (g : Grid) (size : Z) (budget : Department → positive)
    (σ : gmap positive BudgetEntry) (taxRate effectiveTaxRate : Q)
    (services : ServiceCoverage) : option Stats :=
  a ← for_each (λ a '(x, y), tile ← tile_at g x y; Some (stats_tile a tile))
         acc0 (rect size size);
  let population := acc_population a in
  let jobs := acc_jobs a in
  let totalPollution := acc_totalPollution a in
  let flag (b : bool) (v : Q) : Q := if b then v else 0%Q in
  let taxMultiplier := Qmax 0 (1 - (effectiveTaxRate - 9) / 91) in
  let taxAdditiveModifier := ((9 - effectiveTaxRate) * 2)%Q in
  let subwayBonus :=
    Qmin 20 (inject_Z (acc_subwayTiles a) * (1 # 2) + inject_Z (acc_subwayStations a) * 3) in
  let railCommercialBonus :=
    Qmin 12 (inject_Z (acc_railTiles a) * (15 # 100) + inject_Z (acc_railStations a) * 4) in
  let railIndustrialBonus :=
    Qmin 18 (inject_Z (acc_railTiles a) * (25 # 100) + inject_Z (acc_railStations a) * 6) in
  let airportCommercialBonus := flag (acc_hasAirport a) 15%Q in
  let airportIndustrialBonus := flag (acc_hasAirport a) 10%Q in
  let cityHallResidentialBonus := flag (acc_hasCityHall a) 8%Q in
  let cityHallCommercialBonus := flag (acc_hasCityHall a) 10%Q in
  let cityHallIndustrialBonus := flag (acc_hasCityHall a) 5%Q in
  let spaceProgramResidentialBonus := flag (acc_hasSpaceProgram a) 10%Q in
  let spaceProgramIndustrialBonus := flag (acc_hasSpaceProgram a) 20%Q in
  let stadiumCommercialBonus := Qmin 20 (inject_Z (acc_stadiumCount a) * 12) in
  let museumCommercialBonus := Qmin 15 (inject_Z (acc_museumCount a) * 8) in
  let museumResidentialBonus := Qmin 10 (inject_Z (acc_museumCount a) * 5) in
  let amusementParkCommercialBonus := flag (acc_hasAmusementPark a) 18%Q in
  let baseResidentialDemand := ((inject_Z jobs - inject_Z population * (7 # 10)) / 18)%Q in
  let baseCommercialDemand :=
    ((inject_Z population * (3 # 10) - inject_Z jobs * (3 # 10)) / 4 + subwayBonus)%Q in
  let baseIndustrialDemand :=
    ((inject_Z population * (35 # 100) - inject_Z jobs * (3 # 10)) / 2)%Q in
  let residentialWithBonuses :=
    (baseResidentialDemand + cityHallResidentialBonus + spaceProgramResidentialBonus +
     museumResidentialBonus)%Q in
  let commercialWithBonuses :=
    (baseCommercialDemand + airportCommercialBonus + cityHallCommercialBonus +
     stadiumCommercialBonus + museumCommercialBonus + amusementParkCommercialBonus +
     railCommercialBonus)%Q in
  let industrialWithBonuses :=
    (baseIndustrialDemand + airportIndustrialBonus + cityHallIndustrialBonus +
     spaceProgramIndustrialBonus + railIndustrialBonus)%Q in
  let residentialDemand :=
    Qmin 100 (Qmax (-100) (residentialWithBonuses * taxMultiplier + taxAdditiveModifier)) in
  let commercialDemand :=
    Qmin 100 (Qmax (-100)
      (commercialWithBonuses * taxMultiplier + taxAdditiveModifier * (8 # 10))) in
  let industrialDemand :=
    Qmin 100 (Qmax (-100)
      (industrialWithBonuses * taxMultiplier + taxAdditiveModifier * (1 # 2))) in
  let income :=
    Qfloor (inject_Z population * taxRate * (1 # 10) + inject_Z jobs * taxRate * (5 # 100)) in
  expenses ←
    for_each (λ expenses d,
                e ← σ !! budget d;
                Some (expenses + Qfloor (cost e * funding e / 100)))
             0 departments;
  let avgPoliceCoverage := calculateAverageCoverage (police services) in
  let avgFireCoverage := calculateAverageCoverage (fire services) in
  let avgHealthCoverage := calculateAverageCoverage (health services) in
  let avgEducationCoverage := calculateAverageCoverage (education services) in
  let safety :=
    Qmin 100 (avgPoliceCoverage * (7 # 10) + avgFireCoverage * (3 # 10)) in
  let health :=
    Qmin 100 (avgHealthCoverage * (8 # 10) +
              (100 - totalPollution / inject_Z (size * size)) * (2 # 10)) in
  let education := Qmin 100 avgEducationCoverage in
  let totalTiles := inject_Z (size * size) in
  let pollutionRatio := (totalPollution / (totalTiles * 100))%Q in
  let toxicPenalty := (inject_Z (acc_toxicTiles a) / totalTiles * 500)%Q in
  let greenBonus :=
    (inject_Z (acc_treeCount a + acc_parkCount a + acc_waterCount a) / totalTiles * 50)%Q in
  let environment :=
    Qmax 0 (Qmin 100 (100 - pollutionRatio * 100 - toxicPenalty + greenBonus)) in
  let jobSatisfaction :=
    if bool_decide (jobs >= population) then 100%Q
    else (inject_Z jobs / inject_Z (if bool_decide (population = 0)%Z then 1 else population)
          * 100)%Q in
  let happiness :=
    Qmin 100 (safety * (15 # 100) + health * (2 # 10) + education * (15 # 100) +
              environment * (15 # 100) + jobSatisfaction * (2 # 10) +
              (100 - taxRate * 3) * (15 # 100)) in
  Some (mkCityStats population jobs 0 income expenses happiness health education
          safety environment
          (mkDemand residentialDemand commercialDemand industrialDemand)).

End CityStats.

(** A demand figure within -100 and 100. *)
Definition demand_bounded (d : Demand) : Prop :=
  (-100 <= d_residential d)%Q ∧ (d_residential d <= 100)%Q ∧
  (-100 <= d_commercial d)%Q ∧ (d_commercial d <= 100)%Q ∧
  (-100 <= d_industrial d)%Q ∧ (d_industrial d <= 100)%Q.

(** A percentage. *)
Definition percentage (q : Q) : Prop := (0 <= q)%Q ∧ (q <= 100)%Q.

(** Every value of the four quality fields is a percentage. *)
Definition coverage_percentages (services : ServiceCoverage) : Prop :=
  ∀ k, Forall (Forall percentage) (quality k services).

Lemma length_rect w h : 0 <= w → 0 <= h → length (rect w h) = Z.to_nat (w * h).
Proof.
  intros Hw Hh. unfold rect.
  assert (∀ (l : list Z) (f : Z → list (Z * Z)) (n : nat),
            (∀ v, length (f v) = n) → length (l ≫= f) = (length l * n)%nat) as Hbind.
  { intros l f n Hf. induction l as [|v l IH]; [done|].
    rewrite bind_cons, length_app, Hf, IH. simpl. lia. }
  rewrite (Hbind _ _ (Z.to_nat w)).
  - rewrite length_seqZ. lia.
  - intros dy. rewrite (Hbind _ _ 1%nat); [|done]. rewrite length_seqZ. lia.
Qed.

Lemma Qmin_max_clamp (lo hi q : Q) :
  (lo <= hi)%Q → (lo <= Qmin hi (Qmax lo q))%Q ∧ (Qmin hi (Qmax lo q) <= hi)%Q.
Proof.
  intros Hle. split; [|apply Q.le_min_l].
  apply Q.min_glb; [done|apply Q.le_max_l].
Qed.

Lemma Qfloor_nonneg (q : Q) : (0 <= q)%Q → 0 <= Qfloor q.
Proof. intros Hq. change 0 with (Qfloor 0). by apply Qfloor_resp_le. Qed.

(** What [calculateStats] returns on a well-formed grid with a complete
    budget. *)
Lemma calculateStats_returns floor_1_15 g size budget (σ : gmap positive BudgetEntry)
    taxRate effectiveTaxRate services :
  grid_wf size g →
  (∀ d, is_Some (σ !! budget d)) →
  ∃ st, calculateStats floor_1_15 g size budget σ taxRate effectiveTaxRate services
          = Some st ∧
    demand_bounded (stats_demand st) ∧
    percentage (stats_environment st) ∧
    (stats_happiness st <= 100)%Q ∧
    (stats_money st == 0)%Q ∧
    ((∀ d e, σ !! budget d = Some e → (0 <= cost e)%Q ∧ (0 <= funding e)%Q) →
     0 <= stats_expenses st) ∧
    (coverage_percentages services →
     percentage (stats_safety st) ∧ percentage (stats_education st) ∧
     (stats_health st <= 100)%Q ∧
     (0 < size → pollution_bounded g → (0 <= stats_health st)%Q)).
Proof.
  intros Hwf Hbudget. unfold calculateStats.
  set (body := λ a '(x, y), tile ← tile_at g x y; Some (stats_tile floor_1_15 a tile)).
  assert (∀ l a n,
    (∀ x y, (x, y) ∈ l → is_Some (tile_at g x y)) →
    ∃ a', for_each body a l = Some a' ∧
      (pollution_bounded g →
       (0 <= acc_totalPollution a)%Q ∧ (acc_totalPollution a <= 100 * inject_Z n)%Q →
       (0 <= acc_totalPollution a')%Q ∧
       (acc_totalPollution a' <= 100 * inject_Z (n + Z.of_nat (length l)))%Q)) as Hloop.
  { induction l as [|[x y] l IH]; intros a n Hin.
    - exists a. split; [done|]. intros _. simpl. by rewrite Z.add_0_r.
    - destruct (Hin x y) as [tile Htile]; [apply elem_of_cons; by left|].
      assert (body a (x, y) = Some (stats_tile floor_1_15 a tile)) as Hb.
      { unfold body. cbv beta iota. by rewrite Htile. }
      cbn [for_each]. rewrite Hb. cbn [mbind option_bind].
      destruct (IH (stats_tile floor_1_15 a tile) (n + 1)) as (a' & Hrun & Hinv).
      { intros x' y' Hin'. apply Hin, elem_of_cons. by right. }
      exists a'. split; [done|]. intros Hp [H0 H100].
      replace (n + Z.of_nat (length ((x, y) :: l)))
        with (n + 1 + Z.of_nat (length l)) by (simpl; lia).
      apply Hinv; [done|]. destruct (Hp x y tile Htile) as [Hp0 Hp100].
      cbn [stats_tile acc_totalPollution]. rewrite inject_Z_plus.
      change (inject_Z 1) with 1%Q. split; lra. }
  destruct (Hloop (rect size size) acc0 0) as (a & Hrun & Hinv).
  { intros x y Hin%elem_of_rect. apply (tile_at_Some_wf size); [done|lia|lia]. }
  rewrite Hrun. cbn [mbind option_bind].
  set (pay := λ (expenses : Z) d,
         e ← σ !! budget d; Some (expenses + Qfloor (cost e * funding e / 100))).
  destruct (for_each_returns
              (λ expenses : Z,
                 (∀ d e, σ !! budget d = Some e → (0 <= cost e)%Q ∧ (0 <= funding e)%Q) →
                 0 <= expenses) pay departments) with (s := 0)
    as (expenses & Hexp & Hnonneg); [|done|].
  { intros expenses d _ Hpos. destruct (Hbudget d) as [e He]. unfold pay. rewrite He.
    eexists. split; [done|]. intros Hok. destruct (Hok d e He) as [Hc Hf].
    specialize (Hpos Hok).
    assert (0 <= Qfloor (cost e * funding e / 100)); [|lia].
    apply Qfloor_nonneg. apply Qle_shift_div_l; [done|]. nra. }
  rewrite Hexp. cbn [mbind option_bind]. eexists. split; [reflexivity|].
  cbn [stats_demand stats_environment stats_happiness stats_money stats_expenses
       stats_safety stats_education stats_health d_residential d_commercial
       d_industrial].
  split.
  { unfold demand_bounded. cbn [d_residential d_commercial d_industrial].
    repeat match goal with
           | |- _ ∧ _ => split
           | |- (_ <= Qmin 100 (Qmax (-100) ?q))%Q => by apply (Qmin_max_clamp (-100) 100 q)
           | |- (Qmin 100 _ <= 100)%Q => apply Q.le_min_l
           end. }
  split.
  { split; [apply Q.le_max_l|]. apply Q.max_lub; [done|apply Q.le_min_l]. }
  split; [apply Q.le_min_l|]. split; [done|]. split; [done|].
  intros Hcov.
  assert (∀ k, percentage (calculateAverageCoverage (quality k services))) as Havg.
  { intros k. by apply average_between. }
  pose proof (Havg Police) as [Hp0 Hp1]. pose proof (Havg Fire) as [Hf0 Hf1].
  pose proof (Havg Health) as [Hh0 Hh1]. pose proof (Havg Education) as [He0 He1].
  cbn [quality] in *.
  split; [split; [apply Q.min_glb; [done|lra]|apply Q.le_min_l]|].
  split; [split; [by apply Q.min_glb|apply Q.le_min_l]|].
  split; [apply Q.le_min_l|].
  intros Hsize Hpoll. apply Q.min_glb; [done|].
  destruct (Hinv Hpoll) as [Ht0 Ht1].
  { cbn [acc0 acc_totalPollution]. change (inject_Z 0) with 0%Q. split; lra. }
  rewrite length_rect in Ht1 by lia. rewrite Z.add_0_l, Z2Nat.id in Ht1 by nia.
  assert (0 < inject_Z (size * size))%Q as Hpos.
  { change 0%Q with (inject_Z 0). rewrite <- Zlt_Qlt. nia. }
  assert (acc_totalPollution a / inject_Z (size * size) <= 100)%Q as Hratio.
  { apply Qle_shift_div_r; [done|]. lra. }
  revert Hratio. generalize (acc_totalPollution a / inject_Z (size * size))%Q.
  intros r Hr. lra.
Qed.

(** On a well-formed grid of a positive size whose pollution values are
    percentages, and with coverage values that are percentages and a budget
    that has its eight departments, [calculateStats] returns statistics
    whose safety, health, education and environment are percentages, whose
    happiness is at most 100 and whose three demand figures lie within -100
    and 100; the money field is 0, for the caller to fill in. *)
Theorem city_indicators_are_percentages floor_1_15 g size budget
    (σ : gmap positive BudgetEntry) taxRate effectiveTaxRate services :
  grid_wf size g → 0 < size → pollution_bounded g →
  coverage_percentages services →
  (∀ d, is_Some (σ !! budget d)) →
  ∃ st, calculateStats floor_1_15 g size budget σ taxRate effectiveTaxRate services
          = Some st ∧
    percentage (stats_safety st) ∧ percentage (stats_health st) ∧
    percentage (stats_education st) ∧ percentage (stats_environment st) ∧
    (stats_happiness st <= 100)%Q ∧ demand_bounded (stats_demand st) ∧
    (stats_money st == 0)%Q.
Proof.
  intros Hwf Hsize Hpoll Hcov Hbudget.
  destruct (calculateStats_returns floor_1_15 g size budget σ taxRate effectiveTaxRate
              services Hwf Hbudget)
    as (st & Hrun & Hdemand & Henv & Hhappy & Hmoney & _ & Hrest).
  destruct (Hrest Hcov) as (Hsafety & Hedu & Hhealth & Hhealth0).
  exists st. split_and!; try done. split; [by apply Hhealth0|done].
Qed.

Lemma coverage_percentages_check services :
  (∀ k, forallb (forallb (λ v, Qle_bool 0 v && Qle_bool v 100)) (quality k services)
        = true) →
  coverage_percentages services.
Proof.
  intros Hall k. specialize (Hall k). apply Forall_forall. intros row Hrow.
  apply Forall_forall. intros v Hv. rewrite forallb_forall in Hall.
  pose proof (Hall row ltac:(by apply list_elem_of_In)) as Hr.
  rewrite forallb_forall in Hr.
  pose proof (Hr v ltac:(by apply list_elem_of_In)) as Hc.
  apply andb_true_iff in Hc as [H0 H100]. split; by apply Qle_bool_iff.
Qed.

(** The coverage of the 3 x 3 world [upgrade_state]. *)
Definition upgrade_services : ServiceCoverage :=
  Eval vm_compute in
    default (mkServices [] [] [] [] [] [])
      (calculateServiceCoverage (grid upgrade_state) 3).

Lemma city_indicators_are_percentages_witness :
  ∃ st, calculateStats (λ j, Qfloor (inject_Z j * (115 # 100))) (grid upgrade_state) 3
          initial_budget initial_budget_store 9 9 upgrade_services = Some st ∧
    percentage (stats_safety st) ∧ percentage (stats_health st) ∧
    percentage (stats_education st) ∧ percentage (stats_environment st) ∧
    (stats_happiness st <= 100)%Q ∧ demand_bounded (stats_demand st) ∧
    (stats_money st == 0)%Q.
Proof.
  apply city_indicators_are_percentages.
  - apply grid_wfb_spec. vm_compute. reflexivity.
  - lia.
  - apply pollution_bounded_check. vm_compute. reflexivity.
  - apply coverage_percentages_check. intros []; vm_compute; reflexivity.
  - intros []; by eexists.
Defined.

(* ================================================================== *)
(** ** The statistics a tick leaves *)
(* ================================================================== *)

(** [prev + (new - prev) * smoothingFactor]. *)
Definition smooth_demand (prev new : Q) : Q := (prev + (new - prev) * (12 # 100))%Q.

(** What the end of [simulateTick] computes from the new grid. *)
Record TickSummary := mkSummary {
  sum_stats : Stats;
  sum_budget : Department → positive;
  sum_store : gmap positive BudgetEntry;
  sum_effectiveTaxRate : Q;
  sum_calendar : Calendar;
  sum_hour : Z;
}.

(** The end of [simulateTick], after the grid pass: the budget costs, the
    effective tax rate, the statistics of the new grid with the money of
    the state, the smoothed demand, the calendar and the weekly balance. *)
Definition tick_summary (floor_1_15 : Z → Z) (newGrid : Grid) (size : Z)
    (services : ServiceCoverage) (budget : Department → positive)
    (σ : gmap positive BudgetEntry) (taxRate effectiveTaxRate money : Q)
    (prevDemand : option Demand) (cal : Calendar) : option TickSummary :=
  '(newBudget, σ) ← updateBudgetCosts newGrid budget σ;
  let newEffectiveTaxRate := newEffectiveTaxRate taxRate effectiveTaxRate in
  newStats ←
    calculateStats floor_1_15 newGrid size newBudget σ taxRate newEffectiveTaxRate
      services;
  let newDemand :=
    match prevDemand with
    | Some prev =>
        mkDemand
          (smooth_demand (d_residential prev) (d_residential (stats_demand newStats)))
          (smooth_demand (d_commercial prev) (d_commercial (stats_demand newStats)))
          (smooth_demand (d_industrial prev) (d_industrial (stats_demand newStats)))
    | None => stats_demand newStats
    end in
  let '(newCalendar, newHour, payday) := advance_calendar cal in
  let newMoney :=
    if payday
    then (money +
          inject_Z (Qfloor (inject_Z (stats_income newStats - stats_expenses newStats) / 4)))%Q
    else money in
  Some (mkSummary
          (mkCityStats (stats_population newStats) (stats_jobs newStats) newMoney
             (stats_income newStats) (stats_expenses newStats)
             (stats_happiness newStats) (stats_health newStats)
             (stats_education newStats) (stats_safety newStats)
             (stats_environment newStats) newDemand)
          newBudget σ newEffectiveTaxRate newCalendar newHour).

Lemma smooth_demand_between (lo hi prev new : Q) :
  (lo <= prev)%Q → (prev <= hi)%Q → (lo <= new)%Q → (new <= hi)%Q →
  (lo <= smooth_demand prev new)%Q ∧ (smooth_demand prev new <= hi)%Q.
Proof. intros ? ? ? ?. unfold smooth_demand. split; lra. Qed.

(** The end of a tick keeps the demand within -100 and 100: the demand of
    the new state lies in that range when the demand of the old state does
    (or when the old state has none), whatever the grid, the tax rates and
    the coverage are.  The budget of the new state holds the entries of the
    old one, and the expenses charged are not negative when no funding
    level is. *)
Theorem tick_keeps_demand_bounded floor_1_15 newGrid size services budget
    (σ : gmap positive BudgetEntry) taxRate effectiveTaxRate money prevDemand cal :
  grid_wf size newGrid →
  (∀ d, is_Some (σ !! budget d)) →
  (∀ d d', budget d = budget d' → d = d') →
  (∀ d e, σ !! budget d = Some e → (0 <= funding e)%Q) →
  (∀ prev, prevDemand = Some prev → demand_bounded prev) →
  ∃ s, tick_summary floor_1_15 newGrid size services budget σ taxRate effectiveTaxRate
         money prevDemand cal = Some s ∧
    demand_bounded (stats_demand (sum_stats s)) ∧
    0 <= stats_expenses (sum_stats s) ∧
    sum_budget s = budget.
Proof.
  intros Hwf Hbudget Hinj Hfunding Hprev. unfold tick_summary.
  unfold updateBudgetCosts.
  destruct (set_costs_spec budget (count_buildings newGrid) Hinj departments
              NoDup_departments σ Hbudget) as (σ' & -> & Hbudget' & Hupd & _).
  cbn [mbind option_bind].
  destruct (calculateStats_returns floor_1_15 newGrid size budget σ' taxRate
              (newEffectiveTaxRate taxRate effectiveTaxRate) services Hwf Hbudget')
    as (st & -> & Hdemand & _ & _ & _ & Hexp & _).
  cbn [mbind option_bind].
  destruct (advance_calendar cal) as [[newCalendar newHour] payday].
  eexists. split; [reflexivity|]. cbn [sum_stats sum_budget stats_demand stats_expenses].
  split; [|split; [|done]].
  - destruct prevDemand as [prev|]; [|done].
    destruct (Hprev prev eq_refl) as (? & ? & ? & ? & ? & ?).
    destruct Hdemand as (? & ? & ? & ? & ? & ?).
    unfold demand_bounded. cbn [d_residential d_commercial d_industrial].
    split_and!; by apply (smooth_demand_between (-100) 100).
  - apply Hexp. intros d e He. destruct (Hbudget d) as [e0 He0].
    rewrite (Hupd d e0 He0), decide_True in He by apply elem_of_departments.
    injection He as <-. cbn [cost funding]. split.
    + apply department_cost_nonneg, count_buildings_nonneg.
    + by eapply Hfunding.
Qed.

Lemma tick_keeps_demand_bounded_witness :
  ∃ s, tick_summary (λ j, Qfloor (inject_Z j * (115 # 100))) (grid upgrade_state) 3
         upgrade_services initial_budget initial_budget_store 9 9 1000
         (Some (mkDemand 100 (-100) 0)) (mkCalendar 2025 12 30 29) = Some s ∧
    demand_bounded (stats_demand (sum_stats s)) ∧
    0 <= stats_expenses (sum_stats s) ∧
    sum_budget s = initial_budget.
Proof.
  apply tick_keeps_demand_bounded.
  - apply grid_wfb_spec. vm_compute. reflexivity.
  - intros []; by eexists.
  - by intros [] [].
  - intros d e He. destruct d; vm_compute in He; injection He as <-; done.
  - intros prev [= <-]. unfold demand_bounded. cbn. split_and!; done.
Defined.
